(** * Replication control plane of qserv: a shallow embedding

    The development follows the C++ sources under [core/modules/replica]:
    [WorkerRequest.cc], [WorkerProcessor.cc], [Request.cc], [DeleteRequest.cc],
    [Job.cc], [CreateReplicaJob.cc], [MessengerConnector.cc], [ChunkLocker.h],
    [Configuration.cc], [DeleteWorkerJob.cc] and the comparison of replicas
    of [VerifyJob.cc].  Objects guarded by a mutex are modelled as records and
    every public method as a function on the record, one call being one
    critical section.  Methods that may throw return a value of [Res]. *)

From stdpp Require Import base option list strings gmap fin_maps.
From Stdlib Require Import ZArith Lia.
From Stdlib Require OrderedTypeEx Sorted.

Open Scope Z_scope.

(** ** Exceptions *)

Inductive Exn : Type :=
| logic_error
| invalid_argument.

Inductive Res (A : Type) : Type :=
| Ok (a : A)
| Throw (e : Exn).

Arguments Ok {A} a.
Arguments Throw {A} e.

#[global] Instance Res_bind : MBind Res := fun A B k r =>
  match r with
  | Ok a => k a
  | Throw e => Throw e
  end.

(** ** WorkerRequest.cc *)

Module WorkerRequest.

(** [STATUS_OTHER] stands for an integer outside the six enumerators, the
    only way to reach the [default:] branches of the switches. *)
Inductive CompletionStatus : Type :=
| STATUS_NONE
| STATUS_IN_PROGRESS
| STATUS_IS_CANCELLING
| STATUS_CANCELLED
| STATUS_SUCCEEDED
| STATUS_FAILED
| STATUS_OTHER (code : Z).

Inductive ExtendedCompletionStatus : Type :=
| EXT_STATUS_NONE
| EXT_STATUS_INVALID_PARAM
| EXT_STATUS_DUPLICATE.

Record WorkerPerformance : Type := mkPerformance {
    start_time : Z;
    finish_time : Z
}.

Record t : Type := mk {
    id : string;
    priority : Z;
    status : CompletionStatus;
    extendedStatus : ExtendedCompletionStatus;
    performance : WorkerPerformance;
    durationMillisec : Z
}.

(** Modelled from the spec: the class [WorkerPerformance] is not among the
    sources; the specification gives a request its performance timestamps
    (start and finish), and [setUpdateStart] and [setUpdateFinish] store the
    reading [now] of the clock in them. *)
Definition setUpdateStart (now : Z) (p : WorkerPerformance) : WorkerPerformance :=
  mkPerformance now (finish_time p).

Definition setUpdateFinish (now : Z) (p : WorkerPerformance) : WorkerPerformance :=
  mkPerformance (start_time p) now.

(** [WorkerRequest::setStatus]; the case [STATUS_CANCELLED] falls through
    to the one of the completed statuses. *)
Definition setStatus (now : Z) (st : CompletionStatus)
    (ext : ExtendedCompletionStatus) (r : t) : Res t :=
  p ← match st with
       | STATUS_NONE => Ok (mkPerformance 0 0)
       | STATUS_IN_PROGRESS =>
           Ok (mkPerformance now 0)
       | STATUS_IS_CANCELLING => Ok (performance r)
       | STATUS_CANCELLED =>
           let p := if Z.eqb 0 (start_time (performance r))
                    then setUpdateStart now (performance r)
                    else performance r in
           Ok (setUpdateFinish now p)
       | STATUS_SUCCEEDED | STATUS_FAILED =>
           Ok (setUpdateFinish now (performance r))
       | STATUS_OTHER _ => Throw logic_error
       end;
  Ok (mk (id r) (priority r) st ext p (durationMillisec r)).

(** [WorkerRequest::start] *)
Definition start (now : Z) (r : t) : Res t :=
  match status r with
  | STATUS_NONE => setStatus now STATUS_IN_PROGRESS EXT_STATUS_NONE r
  | _ => Throw logic_error
  end.

(** [WorkerRequest::cancel] *)
Definition cancel (now : Z) (r : t) : Res t :=
  match status r with
  | STATUS_NONE | STATUS_CANCELLED =>
      setStatus now STATUS_CANCELLED EXT_STATUS_NONE r
  | STATUS_IN_PROGRESS | STATUS_IS_CANCELLING =>
      setStatus now STATUS_IS_CANCELLING EXT_STATUS_NONE r
  | STATUS_SUCCEEDED | STATUS_FAILED => Ok r
  | STATUS_OTHER _ => Ok r
  end.

(** [WorkerRequest::stop] *)
Definition stop (now : Z) (r : t) : Res t :=
  setStatus now STATUS_NONE EXT_STATUS_NONE r.

(** What a call of [execute] or [rollback] comes to: it returns, or it throws
    [WorkerRequestCancelled] or [std::logic_error].  Both methods may change
    the request before they throw, so that they give the request too. *)
Inductive Outcome (A : Type) : Type :=
| Returned (a : A)
| ThrewCancelled
| ThrewLogicError.

Arguments Returned {A} a.
Arguments ThrewCancelled {A}.
Arguments ThrewLogicError {A}.

(** [::maxDurationMillisec] *)
Definition maxDurationMillisec : Z := 10000.

(** [_durationMillisec += ...] on an [unsigned int]. *)
Definition addDuration (increment : Z) (r : t) : t :=
  mk (id r) (priority r) (status r) (extendedStatus r) (performance r)
     ((durationMillisec r + increment) mod 2 ^ 32).

(** [WorkerRequest::execute]; [increment] is what [::incrementIvalMillisec.wait()]
    returns, the time the call has waited, and [success] what
    [::successRateGenerator.success()] returns if it is asked. *)
Definition execute (now : Z) (increment : Z) (success : bool) (r : t) :
    t * Outcome bool :=
  match status r with
  | STATUS_IN_PROGRESS =>
      let r := addDuration increment r in
      if durationMillisec r <? maxDurationMillisec then (r, Returned false)
      else
        match setStatus now (if success then STATUS_SUCCEEDED else STATUS_FAILED)
                EXT_STATUS_NONE r with
        | Ok r' => (r', Returned true)
        | Throw _ => (r, ThrewLogicError)
        end
  | STATUS_IS_CANCELLING =>
      match setStatus now STATUS_CANCELLED EXT_STATUS_NONE r with
      | Ok r' => (r', ThrewCancelled)
      | Throw _ => (r, ThrewLogicError)
      end
  | _ => (r, ThrewLogicError)
  end.

(** [WorkerRequest::rollback] *)
Definition rollback (now : Z) (r : t) : t * Outcome unit :=
  match status r with
  | STATUS_NONE | STATUS_IN_PROGRESS =>
      match setStatus now STATUS_NONE EXT_STATUS_NONE r with
      | Ok r' => (r', Returned tt)
      | Throw _ => (r, ThrewLogicError)
      end
  | STATUS_IS_CANCELLING =>
      match setStatus now STATUS_CANCELLED EXT_STATUS_NONE r with
      | Ok r' => (r', ThrewCancelled)
      | Throw _ => (r, ThrewLogicError)
      end
  | _ => (r, ThrewLogicError)
  end.

(** Calls of [execute] on one request, repeated until one returns true or
    throws, as the comment of [execute] describes its use ("making a progress
    through increments").  [draws] are the values the two random generators
    give to the successive calls, [clock] the readings of the clock; the calls
    are followed as far as the draws go.  The result is the request, the
    number of calls made and what the last call came to. *)
Fixpoint executeLoop (clock : nat -> Z) (draws : list (Z * bool)) (n : nat) (r : t) :
    t * nat * Outcome bool :=
  match draws with
  | [] => (r, n, Returned false)
  | (increment, success) :: rest =>
      match execute (clock n) increment success r with
      | (r', Returned false) => executeLoop clock rest (S n) r'
      | (r', o) => (r', S n, o)
      end
  end.

(** A request that has come to its end. *)
Definition completed (r : t) : bool :=
  match status r with
  | STATUS_SUCCEEDED | STATUS_FAILED | STATUS_CANCELLED => true
  | _ => false
  end.

End WorkerRequest.

(** ** The wire protocol: statuses of a response *)

Module proto.

(** [STATUS_UNKNOWN] stands for a value outside the seven enumerators of
    [proto::ReplicationStatus]. *)
Inductive ReplicationStatus : Type :=
| SUCCESS
| QUEUED
| IN_PROGRESS
| IS_CANCELLING
| BAD
| FAILED
| CANCELLED
| STATUS_UNKNOWN (code : Z).

Inductive ReplicationStatusExt : Type :=
| NONE
| INVALID_PARAM
| DUPLICATE.

End proto.

(** ** WorkerProcessor.cc *)

Module WorkerProcessor.

(** The dynamic type of a request of the worker, with the attributes of the
    subclass: [WorkerReplicationRequest], [WorkerDeleteRequest],
    [WorkerFindRequest], [WorkerFindAllRequest], [WorkerEchoRequest]. *)
Inductive Kind : Type :=
| Replication (database : string) (chunk : N) (sourceWorker : string)
| Delete (database : string) (chunk : N)
| Find (database : string) (chunk : N) (computeCheckSum : bool)
| FindAll (database : string)
| Echo (data : string) (delay : N).

Record Ptr : Type := mkPtr {
    base : WorkerRequest.t;
    kind : Kind
}.

Definition id (p : Ptr) : string := WorkerRequest.id (base p).

(** The fields of [proto::ReplicationResponseReplicate] and of
    [proto::ReplicationResponseDelete] that the processor writes. *)
Record Response : Type := mkResponse {
    status : proto.ReplicationStatus;
    status_ext : proto.ReplicationStatusExt;
    performance : option WorkerRequest.WorkerPerformance;
    duplicate_request_id : option string;
    target_request : option Kind
}.

(** [proto::ReplicationRequestReplicate] and [proto::ReplicationRequestDelete];
    a deletion carries no source worker. *)
Record Request : Type := mkRequest {
    req_priority : Z;
    req_database : string;
    req_chunk : N;
    req_worker : string
}.

(** Modelled from the spec: [WorkerProcessor::setDefaultResponse] is
    defined in WorkerProcessor.h, which is not among the sources.  A response
    carries [{status, status_ext, performance, duplicate_request_id, ...}];
    the helper stores the two statuses it is given and the counters of a
    performance object started and finished on the spot, the three fields
    [enqueueForEcho] sets inline for its immediate response. *)
Definition setDefaultResponse (now : Z) (response : Response)
    (st : proto.ReplicationStatus) (ext : proto.ReplicationStatusExt) : Response :=
  mkResponse st ext (Some (WorkerRequest.mkPerformance now now))
             (duplicate_request_id response) (target_request response).

Definition set_duplicate_request_id (response : Response) (i : string) : Response :=
  mkResponse (status response) (status_ext response) (performance response)
             (Some i) (target_request response).

(** The test [isDuplicate] of [::ifDuplicateRequest]: the two dynamic
    casts, then the comparison of the database and of the chunk. *)
Definition isDuplicate (p : Ptr) (request : Request) : bool :=
  match kind p with
  | Replication database chunk _ =>
      bool_decide (database = req_database request)
      && bool_decide (chunk = req_chunk request)
  | Delete database chunk =>
      bool_decide (database = req_database request)
      && bool_decide (chunk = req_chunk request)
  | _ => false
  end.

(** [::ifDuplicateRequest] *)
Definition ifDuplicateRequest (now : Z) (response : Response) (p : Ptr)
    (request : Request) : bool * Response :=
  if isDuplicate p request
  then (true,
        set_duplicate_request_id
          (setDefaultResponse now response proto.BAD proto.DUPLICATE) (id p))
  else (false, response).

(** The loop [for (auto&& ptr: queue) if (::ifDuplicateRequest(...)) return;]:
    [inl] is the response of the early return, [inr] the response after a
    scan that found nothing. *)
Fixpoint scan (now : Z) (response : Response) (queue : list Ptr)
    (request : Request) : Response + Response :=
  match queue with
  | [] => inr response
  | p :: rest =>
      let '(dup, response') := ifDuplicateRequest now response p request in
      if dup then inl response' else scan now response' rest request
  end.

(** The three queues.  [newRequests] lists the priority queue in the order
    its iterators visit it. *)
Record t : Type := mk {
    worker : string;
    newRequests : list Ptr;
    inProgressRequests : list Ptr;
    finishedRequests : list Ptr
}.

Section Enqueue.

(** [PriorityQueueType::push] of WorkerProcessor.h, which is not among the
    sources: how the queue places a new request is left open. *)
Variable push : Ptr -> list Ptr -> list Ptr.

(** The virtual constructors of [WorkerRequestFactoryBase]; [None] is
    the [std::invalid_argument] they throw on parameters the
    configuration rejects, the exception the callers catch. *)
Variable createReplicationRequest :
  string -> string -> Z -> string -> N -> string -> option Ptr.
Variable createDeleteRequest :
  string -> string -> Z -> string -> N -> option Ptr.

(** The tail shared by the two methods: the request is pushed and the
    response reports it as queued ([setInfo] copies its parameters). *)
Definition queued (ptr : Ptr) (response : Response) (q : t) : t * Response :=
  (mk (worker q) (push ptr (newRequests q)) (inProgressRequests q)
      (finishedRequests q),
   mkResponse proto.QUEUED proto.NONE
              (Some (WorkerRequest.performance (base ptr)))
              (duplicate_request_id response) (Some (kind ptr))).

(** [WorkerProcessor::enqueueForReplication] *)
Definition enqueueForReplication (now : Z) (i : string) (request : Request)
    (response : Response) (q : t) : t * Response :=
  match scan now response (newRequests q) request with
  | inl r => (q, r)
  | inr response1 =>
      match scan now response1 (inProgressRequests q) request with
      | inl r => (q, r)
      | inr response2 =>
          match createReplicationRequest (worker q) i (req_priority request)
                  (req_database request) (req_chunk request)
                  (req_worker request) with
          | Some ptr => queued ptr response2 q
          | None =>
              (q, setDefaultResponse now response2 proto.BAD proto.INVALID_PARAM)
          end
      end
  end.

(** [WorkerProcessor::enqueueForDeletion] *)
Definition enqueueForDeletion (now : Z) (i : string) (request : Request)
    (response : Response) (q : t) : t * Response :=
  match scan now response (newRequests q) request with
  | inl r => (q, r)
  | inr response1 =>
      match scan now response1 (inProgressRequests q) request with
      | inl r => (q, r)
      | inr response2 =>
          match createDeleteRequest (worker q) i (req_priority request)
                  (req_database request) (req_chunk request) with
          | Some ptr => queued ptr response2 q
          | None =>
              (q, setDefaultResponse now response2 proto.BAD proto.INVALID_PARAM)
          end
      end
  end.

End Enqueue.

(** What a rejected request is answered: BAD, DUPLICATE, the id of the
    request it collides with. *)
Definition rejected (now : Z) (response : Response) (p : Ptr) : Response :=
  mkResponse proto.BAD proto.DUPLICATE
             (Some (WorkerRequest.mkPerformance now now))
             (Some (id p)) (target_request response).

(** The database and the chunk a request works on, for the three kinds of
    request that have both. *)
Definition target (p : Ptr) : option (string * N) :=
  match kind p with
  | Replication database chunk _ => Some (database, chunk)
  | Delete database chunk => Some (database, chunk)
  | Find database chunk _ => Some (database, chunk)
  | _ => None
  end.

(** The constructor of [WorkerRequest], as [WorkerRequestFactoryTest]
    reaches it: a new request has no status yet. *)
Definition create (i : string) (priority : Z) (k : Kind) : Ptr :=
  mkPtr (WorkerRequest.mk i priority WorkerRequest.STATUS_NONE
           WorkerRequest.EXT_STATUS_NONE (WorkerRequest.mkPerformance 0 0) 0) k.

Definition testReplicationRequest (w i : string) (priority : Z)
    (database : string) (chunk : N) (sourceWorker : string) : option Ptr :=
  Some (create i priority (Replication database chunk sourceWorker)).

Definition testDeleteRequest (w i : string) (priority : Z)
    (database : string) (chunk : N) : option Ptr :=
  Some (create i priority (Delete database chunk)).

(** A queue that keeps the order of arrival. *)
Definition push_back (p : Ptr) (queue : list Ptr) : list Ptr := queue ++ [p].

(** [WorkerProcessor::translate] *)
Definition translate (st : WorkerRequest.CompletionStatus) :
    Res proto.ReplicationStatus :=
  match st with
  | WorkerRequest.STATUS_NONE => Ok proto.QUEUED
  | WorkerRequest.STATUS_IN_PROGRESS => Ok proto.IN_PROGRESS
  | WorkerRequest.STATUS_IS_CANCELLING => Ok proto.IS_CANCELLING
  | WorkerRequest.STATUS_CANCELLED => Ok proto.CANCELLED
  | WorkerRequest.STATUS_SUCCEEDED => Ok proto.SUCCESS
  | WorkerRequest.STATUS_FAILED => Ok proto.FAILED
  | WorkerRequest.STATUS_OTHER _ => Throw logic_error
  end.

(** A request object after one of its methods has changed its base part.
    The queues hold shared pointers: a method called through a pointer found
    in a queue changes the request the queue holds, at its position. *)
Definition withBase (b : WorkerRequest.t) (p : Ptr) : Ptr := mkPtr b (kind p).

(** [for (auto&& ptr: queue) if (ptr->id() == id) ...]: the first request
    with the id, and its position. *)
Definition lookup_id (i : string) (queue : list Ptr) : option (nat * Ptr) :=
  list_find (fun p => id p = i) queue.

(** [WorkerProcessor::checkStatusImpl] *)
Definition checkStatusImpl (i : string) (q : t) : Res (option Ptr) :=
  match lookup_id i (newRequests q) with
  | Some (_, ptr) =>
      match WorkerRequest.status (base ptr) with
      | WorkerRequest.STATUS_NONE => Ok (Some ptr)
      | _ => Throw logic_error
      end
  | None =>
      match lookup_id i (inProgressRequests q) with
      | Some (_, ptr) =>
          match WorkerRequest.status (base ptr) with
          | WorkerRequest.STATUS_IS_CANCELLING
          | WorkerRequest.STATUS_IN_PROGRESS
          | WorkerRequest.STATUS_CANCELLED
          | WorkerRequest.STATUS_SUCCEEDED
          | WorkerRequest.STATUS_FAILED => Ok (Some ptr)
          | _ => Throw logic_error
          end
      | None =>
          match lookup_id i (finishedRequests q) with
          | Some (_, ptr) =>
              match WorkerRequest.status (base ptr) with
              | WorkerRequest.STATUS_CANCELLED
              | WorkerRequest.STATUS_SUCCEEDED
              | WorkerRequest.STATUS_FAILED => Ok (Some ptr)
              | _ => Throw logic_error
              end
          | None => Ok None
          end
      end
  end.

(** [WorkerProcessor::processingFinished] *)
Definition processingFinished (request : Ptr) (q : t) : t :=
  mk (worker q) (newRequests q)
     (filter (fun p => id p <> id request) (inProgressRequests q))
     (finishedRequests q ++ [request]).

(** A processing thread calls [execute] on the request it has fetched, the
    one at the position [k] of the queue of the requests in progress. *)
Definition executeAt (now : Z) (increment : Z) (success : bool) (k : nat) (q : t) :
    t * option (Ptr * WorkerRequest.Outcome bool) :=
  match inProgressRequests q !! k with
  | Some ptr =>
      let '(b, o) := WorkerRequest.execute now increment success (base ptr) in
      (mk (worker q) (newRequests q)
          (<[k := withBase b ptr]> (inProgressRequests q)) (finishedRequests q),
       Some (withBase b ptr, o))
  | None => (q, None)
  end.

Section Queue.

(** The methods of [PriorityQueueType], a class of WorkerProcessor.h, which
    is not among the sources; what they do to the queue is left open.  [top]
    and [pop] are given a queue that is not empty, as its first request and
    the others. *)
Variable push : Ptr -> list Ptr -> list Ptr.
Variable top : Ptr -> list Ptr -> Ptr.
Variable pop : Ptr -> list Ptr -> list Ptr.
Variable remove : string -> list Ptr -> list Ptr.

(** The range-for of [dequeueOrCancelImpl] binds [ptr] by reference
    ([auto&&]) to an element of the queue of the new requests, and the
    method reads [ptr] again, to push it and to return it, after
    [_newRequests.remove(id)] has taken that element out of the queue.
    [referent k l l'] is what a reference bound to the element at the
    position [k] of the queue [l] denotes once the queue has become [l'];
    the class of the queue being absent, it is left open as well. *)
Variable referent : nat -> list Ptr -> list Ptr -> Ptr.

(** The constructor of [util::BlockPost], a class that is not among the
    sources either: for the range of milliseconds it is given it returns or
    it throws. *)
Variable BlockPost : Z -> Z -> Res unit.

(** [WorkerProcessor::dequeueOrCancelImpl]; the method may throw after it
    has changed a request, so that it gives the queues too. *)
Definition dequeueOrCancelImpl (now : Z) (i : string) (q : t) :
    t * Res (option Ptr) :=
  match lookup_id i (newRequests q) with
  | Some (k, ptr) =>
      match WorkerRequest.cancel now (base ptr) with
      | Throw e => (q, Throw e)
      | Ok b =>
          let ptr := withBase b ptr in
          let new := <[k := ptr]> (newRequests q) in
          match WorkerRequest.status b with
          | WorkerRequest.STATUS_CANCELLED =>
              let new' := remove i new in
              let ptr := referent k new new' in
              (mk (worker q) new' (inProgressRequests q)
                  (finishedRequests q ++ [ptr]),
               Ok (Some ptr))
          | _ =>
              (mk (worker q) new (inProgressRequests q) (finishedRequests q),
               Throw logic_error)
          end
      end
  | None =>
      match lookup_id i (inProgressRequests q) with
      | Some (k, ptr) =>
          match WorkerRequest.cancel now (base ptr) with
          | Throw e => (q, Throw e)
          | Ok b =>
              let ptr := withBase b ptr in
              let q' := mk (worker q) (newRequests q)
                          (<[k := ptr]> (inProgressRequests q))
                          (finishedRequests q) in
              match WorkerRequest.status b with
              | WorkerRequest.STATUS_CANCELLED
              | WorkerRequest.STATUS_IS_CANCELLING
              | WorkerRequest.STATUS_SUCCEEDED
              | WorkerRequest.STATUS_FAILED => (q', Ok (Some ptr))
              | _ => (q', Throw logic_error)
              end
          end
      | None =>
          match lookup_id i (finishedRequests q) with
          | Some (_, ptr) =>
              match WorkerRequest.status (base ptr) with
              | WorkerRequest.STATUS_CANCELLED
              | WorkerRequest.STATUS_SUCCEEDED
              | WorkerRequest.STATUS_FAILED => (q, Ok (Some ptr))
              | _ => (q, Throw logic_error)
              end
          | None => (q, Ok None)
          end
      end
  end.

(** [WorkerProcessor::drain]: the ids are collected first, then each is
    passed to [dequeueOrCancelImpl]; the loop ends at the first call that
    throws. *)
Fixpoint drainIds (now : Z) (ids : list string) (q : t) : t * Res unit :=
  match ids with
  | [] => (q, Ok tt)
  | i :: rest =>
      match dequeueOrCancelImpl now i q with
      | (q', Ok _) => drainIds now rest q'
      | (q', Throw e) => (q', Throw e)
      end
  end.

Definition drain (now : Z) (q : t) : t * Res unit :=
  drainIds now (map id (newRequests q) ++ map id (inProgressRequests q)) q.

(** The loop of [WorkerProcessor::fetchNextForProcessing].  [waits] are the
    times [blockPost.wait()] returns in the successive turns of the loop; a
    thread that has used them all is still waiting, which [None] stands for.
    The time out is an [unsigned int], and so is the sum of the waits.  A
    request whose [start] throws has left the queue of the new requests. *)
Fixpoint fetchNextForProcessing_loop (now : Z) (timeoutMilliseconds : Z)
    (waits : list Z) (totalElapsedTime : Z) (q : t) :
    option (t * Res (option Ptr)) :=
  if totalElapsedTime <? timeoutMilliseconds then
    match newRequests q with
    | first :: others =>
        let request := top first others in
        let new := pop first others in
        match WorkerRequest.start now (base request) with
        | Ok b =>
            let request := withBase b request in
            Some (mk (worker q) new (inProgressRequests q ++ [request])
                     (finishedRequests q),
                  Ok (Some request))
        | Throw e =>
            Some (mk (worker q) new (inProgressRequests q) (finishedRequests q),
                  Throw e)
        end
    | [] =>
        match waits with
        | wait :: rest =>
            fetchNextForProcessing_loop now timeoutMilliseconds rest
              ((totalElapsedTime + wait) mod 2 ^ 32) q
        | [] => None
        end
    end
  else Some (q, Ok None).

(** [WorkerProcessor::fetchNextForProcessing]: the object [blockPost] is
    made for the range from 0 to the time out, then the loop starts with no
    time elapsed. *)
Definition fetchNextForProcessing (now : Z) (timeoutMilliseconds : Z)
    (waits : list Z) (q : t) : option (t * Res (option Ptr)) :=
  match BlockPost 0 timeoutMilliseconds with
  | Throw e => Some (q, Throw e)
  | Ok _ => fetchNextForProcessing_loop now timeoutMilliseconds waits 0 q
  end.

(** [WorkerProcessor::processingRefused] *)
Definition processingRefused (now : Z) (request : Ptr) (q : t) : Res t :=
  b ← WorkerRequest.stop now (base request);
  Ok (mk (worker q) (push (withBase b request) (newRequests q))
         (filter (fun p => id p <> id request) (inProgressRequests q))
         (finishedRequests q)).

End Queue.

(** The state of the processor and what [setServiceResponse] reports for
    it. *)
Inductive State : Type :=
| STATE_IS_RUNNING
| STATE_IS_STOPPING
| STATE_IS_STOPPED.

Inductive ServiceState : Type :=
| RUNNING
| SUSPEND_IN_PROGRESS
| SUSPENDED.

Inductive ReplicaRequestType : Type :=
| REPLICA_CREATE
| REPLICA_DELETE
| REPLICA_FIND
| REPLICA_FIND_ALL.

(** [proto::ReplicationServiceResponseInfo]; a field that is not set is
    [None]. *)
Record ServiceResponseInfo : Type := mkInfo {
  replica_type : ReplicaRequestType;
  info_id : string;
  info_priority : Z;
  info_database : string;
  info_chunk : option N;
  info_worker : option string
}.

(** [proto::ReplicationServiceResponse]; [S] is the type of its status. *)
Record ServiceResponse (S : Type) : Type := mkServiceResponse {
  service_status : S;
  technology : string;
  start_time : Z;
  service_state : ServiceState;
  num_new_requests : nat;
  num_in_progress_requests : nat;
  num_finished_requests : nat;
  new_requests : list ServiceResponseInfo;
  in_progress_requests : list ServiceResponseInfo;
  finished_requests : list ServiceResponseInfo
}.

Arguments mkServiceResponse {S} _ _ _ _ _ _ _ _ _ _.
Arguments service_status {S} _.
Arguments technology {S} _.
Arguments start_time {S} _.
Arguments service_state {S} _.
Arguments num_new_requests {S} _.
Arguments num_in_progress_requests {S} _.
Arguments num_finished_requests {S} _.
Arguments new_requests {S} _.
Arguments in_progress_requests {S} _.
Arguments finished_requests {S} _.

(** [WorkerProcessor::setServiceResponseInfo] *)
Definition setServiceResponseInfo (request : Ptr) : Res ServiceResponseInfo :=
  match kind request with
  | Replication database chunk sourceWorker =>
      Ok (mkInfo REPLICA_CREATE (id request) (WorkerRequest.priority (base request))
            database (Some chunk) (Some sourceWorker))
  | Delete database chunk =>
      Ok (mkInfo REPLICA_DELETE (id request) (WorkerRequest.priority (base request))
            database (Some chunk) None)
  | Find database chunk _ =>
      Ok (mkInfo REPLICA_FIND (id request) (WorkerRequest.priority (base request))
            database (Some chunk) None)
  | FindAll database =>
      Ok (mkInfo REPLICA_FIND_ALL (id request)
            (WorkerRequest.priority (base request)) database None None)
  | Echo _ _ => Throw logic_error
  end.

(** A loop [for (auto&& request: queue) setServiceResponseInfo(request,
    response.add_...())], which the first exception ends. *)
Fixpoint addInfos (queue : list Ptr) (infos : list ServiceResponseInfo) :
    Res (list ServiceResponseInfo) :=
  match queue with
  | [] => Ok infos
  | request :: rest =>
      info ← setServiceResponseInfo request;
      addInfos rest (infos ++ [info])
  end.

(** [WorkerProcessor::setServiceResponse], for a processor in the state
    [st], started at [startTime], with the factory of the [technology]. *)
Definition setServiceResponse {S : Type} (tech : string) (startTime : Z)
    (st : State) (response : ServiceResponse S) (status : S)
    (extendedReport : bool) (q : t) : Res (ServiceResponse S) :=
  let serviceState := match st with
                      | STATE_IS_RUNNING => RUNNING
                      | STATE_IS_STOPPING => SUSPEND_IN_PROGRESS
                      | STATE_IS_STOPPED => SUSPENDED
                      end in
  if extendedReport then
    new ← addInfos (newRequests q) (new_requests response);
    inProgress ← addInfos (inProgressRequests q) (in_progress_requests response);
    finished ← addInfos (finishedRequests q) (finished_requests response);
    Ok (mkServiceResponse status tech startTime serviceState
          (length (newRequests q)) (length (inProgressRequests q))
          (length (finishedRequests q)) new inProgress finished)
  else
    Ok (mkServiceResponse status tech startTime serviceState
          (length (newRequests q)) (length (inProgressRequests q))
          (length (finishedRequests q)) (new_requests response)
          (in_progress_requests response) (finished_requests response)).

(** The request is a [WorkerEchoRequest]. *)
Definition isEcho (p : Ptr) : bool :=
  match kind p with
  | Echo _ _ => true
  | _ => false
  end.

(** [proto::ReplicationRequestFind], [proto::ReplicationRequestFindAll] and
    [proto::ReplicationRequestEcho]. *)
Record FindRequest : Type := mkFindRequest {
  find_priority : Z;
  find_database : string;
  find_chunk : N;
  find_compute_cs : bool
}.

Record FindAllRequest : Type := mkFindAllRequest {
  findall_priority : Z;
  findall_database : string
}.

Record EchoRequest : Type := mkEchoRequest {
  echo_priority : Z;
  echo_data : string;
  echo_delay : N
}.

(** [proto::ReplicationResponseEcho]: the fields of the other responses and
    the data sent back. *)
Record EchoResponse : Type := mkEchoResponse {
  echo_common : Response;
  data : option string
}.

Section EnqueueOthers.

Variable push : Ptr -> list Ptr -> list Ptr.

(** The other virtual constructors of [WorkerRequestFactoryBase]; [None] is
    the [std::invalid_argument] the callers catch. *)
Variable createFindRequest : string -> string -> Z -> string -> N -> bool -> option Ptr.
Variable createFindAllRequest : string -> string -> Z -> string -> option Ptr.
Variable createEchoRequest : string -> string -> Z -> string -> N -> option Ptr.

(** [WorkerProcessor::enqueueForFind] *)
Definition enqueueForFind (now : Z) (i : string) (request : FindRequest)
    (response : Response) (q : t) : t * Response :=
  match createFindRequest (worker q) i (find_priority request)
          (find_database request) (find_chunk request)
          (find_compute_cs request) with
  | Some ptr => queued push ptr response q
  | None => (q, setDefaultResponse now response proto.BAD proto.INVALID_PARAM)
  end.

(** [WorkerProcessor::enqueueForFindAll] *)
Definition enqueueForFindAll (now : Z) (i : string) (request : FindAllRequest)
    (response : Response) (q : t) : t * Response :=
  match createFindAllRequest (worker q) i (findall_priority request)
          (findall_database request) with
  | Some ptr => queued push ptr response q
  | None => (q, setDefaultResponse now response proto.BAD proto.INVALID_PARAM)
  end.

(** [WorkerProcessor::enqueueForEcho]: a request without delay is answered
    at once, with a performance object started and finished on the spot. *)
Definition enqueueForEcho (now : Z) (i : string) (request : EchoRequest)
    (response : EchoResponse) (q : t) : t * EchoResponse :=
  if N.eqb 0 (echo_delay request) then
    (q, mkEchoResponse
          (mkResponse proto.SUCCESS proto.NONE
             (Some (WorkerRequest.setUpdateFinish now
                      (WorkerRequest.setUpdateStart now
                         (WorkerRequest.mkPerformance 0 0))))
             (duplicate_request_id (echo_common response))
             (target_request (echo_common response)))
          (Some (echo_data request)))
  else
    match createEchoRequest (worker q) i (echo_priority request)
            (echo_data request) (echo_delay request) with
    | Some ptr =>
        let '(q', r) := queued push ptr (echo_common response) q in
        (q', mkEchoResponse r (data response))
    | None =>
        (q, mkEchoResponse
              (setDefaultResponse now (echo_common response) proto.BAD
                 proto.INVALID_PARAM)
              (data response))
    end.

End EnqueueOthers.

(** The constructors of the test factory for the three other kinds of
    request. *)
Definition testFindRequest (w i : string) (priority : Z)
    (database : string) (chunk : N) (computeCheckSum : bool) : option Ptr :=
  Some (create i priority (Find database chunk computeCheckSum)).

Definition testFindAllRequest (w i : string) (priority : Z)
    (database : string) : option Ptr :=
  Some (create i priority (FindAll database)).

Definition testEchoRequest (w i : string) (priority : Z)
    (data : string) (delay : N) : option Ptr :=
  Some (create i priority (Echo data delay)).

End WorkerProcessor.

(** ** Values shared by the controller-side classes *)

(** [boost::system::error_code], as far as the handlers tell its values
    apart: no error, [boost::asio::error::operation_aborted], another error. *)
Inductive error_code : Type :=
| ec_success
| operation_aborted
| ec_failure.

(** [if (ec)] *)
Definition is_error (ec : error_code) : bool :=
  match ec with
  | ec_success => false
  | _ => true
  end.

(** [ec == boost::asio::error::operation_aborted] *)
Definition is_aborted (ec : error_code) : bool :=
  match ec with
  | operation_aborted => true
  | _ => false
  end.

(** Modelled from the spec: the class [ReplicaInfo] is not among the
    sources; a replica is one copy of a chunk of a database on a worker, with
    a status of which COMPLETE is one. *)
Inductive ReplicaStatus : Type :=
| NOT_FOUND
| CORRUPT
| INCOMPLETE
| COMPLETE.

Record ReplicaInfo : Type := mkReplicaInfo {
  ri_status : ReplicaStatus;
  ri_worker : string;
  ri_database : string;
  ri_chunk : N
}.

(** ** Request.cc *)

Module Request.

Inductive State : Type :=
| CREATED
| IN_PROGRESS
| FINISHED.

Inductive ExtendedState : Type :=
| NONE
| SUCCESS
| CLIENT_ERROR
| SERVER_BAD
| SERVER_ERROR
| SERVER_QUEUED
| SERVER_IN_PROGRESS
| SERVER_IS_CANCELLING
| SERVER_CANCELLED
| TIMEOUT_EXPIRED
| CANCELLED.

(** The members of [Request] that its methods write, and two counters of
    what they start: [expirationTimer] tells whether the expiration timer is
    waiting, [notified] counts the calls of [notify], each of which spawns
    one thread that runs [notifyImpl], the call of the subscriber's
    [_onFinish].  Logging, the performance time stamps and the calls of
    [savePersistentState] are not part of the state. *)
Record t : Type := mk {
  id : string;
  keepTracking : bool;
  allowDuplicate : bool;
  state : State;
  extendedState : ExtendedState;
  extendedServerStatus : WorkerRequest.ExtendedCompletionStatus;
  duplicateRequestId : string;
  requestExpirationIvalSec : N;
  expirationTimer : bool;
  notified : nat
}.

(** [state() == FINISHED] *)
Definition finished (r : t) : bool :=
  match state r with
  | FINISHED => true
  | _ => false
  end.

(** [Request::setState] *)
Definition setState (newState : State) (newExtendedState : ExtendedState)
    (r : t) : t :=
  mk (id r) (keepTracking r) (allowDuplicate r) newState newExtendedState
     (extendedServerStatus r) (duplicateRequestId r)
     (requestExpirationIvalSec r) (expirationTimer r) (notified r).

(** [_requestExpirationTimer.cancel()] *)
Definition cancelExpirationTimer (r : t) : t :=
  mk (id r) (keepTracking r) (allowDuplicate r) (state r) (extendedState r)
     (extendedServerStatus r) (duplicateRequestId r)
     (requestExpirationIvalSec r) false (notified r).

(** [Request::notify] *)
Definition notify (r : t) : t :=
  mk (id r) (keepTracking r) (allowDuplicate r) (state r) (extendedState r)
     (extendedServerStatus r) (duplicateRequestId r)
     (requestExpirationIvalSec r) (expirationTimer r) (S (notified r)).

(** [Request::finish]; [finishImpl] of a subclass acts on the messenger, not
    on the request. *)
Definition finish (extendedState : ExtendedState) (r : t) : t :=
  if finished r then r
  else notify (cancelExpirationTimer (setState FINISHED extendedState r)).

(** [Request::cancel]: the state is tested before and after the lock is
    taken. *)
Definition cancel (r : t) : t :=
  if finished r then r
  else if finished r then r
  else finish CANCELLED r.

(** [Request::expired] *)
Definition expired (ec : error_code) (r : t) : t :=
  if is_aborted ec then r
  else if finished r then r
  else if finished r then r
  else finish TIMEOUT_EXPIRED r.

(** [Request::start]; [startImpl] of a subclass serializes the request and
    hands it to the messenger. *)
Definition start (ivalSec : N) (r : t) : Res t :=
  match state r with
  | CREATED =>
      let ival := if N.eqb ivalSec 0 then requestExpirationIvalSec r else ivalSec in
      let armed := if N.eqb ival 0 then expirationTimer r else true in
      Ok (setState IN_PROGRESS NONE
            (mk (id r) (keepTracking r) (allowDuplicate r) (state r)
                (extendedState r) (extendedServerStatus r) (duplicateRequestId r)
                ival armed (notified r)))
  | _ => Throw logic_error
  end.

(** A request has notified its subscriber once if it is finished and not at
    all otherwise. *)
Definition once (r : t) : Prop :=
  notified r = if finished r then 1%nat else 0%nat.

(** The events that drive a request to its final state. *)
Inductive Event : Type :=
| Finish (extendedState : ExtendedState)
| Cancel
| Expired (ec : error_code).

Definition step (r : t) (e : Event) : t :=
  match e with
  | Finish extendedState => finish extendedState r
  | Cancel => cancel r
  | Expired ec => expired ec r
  end.

Definition run (events : list Event) (r : t) : t := fold_left step events r.

(** [Request::remoteId] *)
Definition remoteId (r : t) : string :=
  if bool_decide (duplicateRequestId r = "") then id r else duplicateRequestId r.

End Request.

(** ** DeleteRequest.cc *)

Module DeleteRequest.

(** [proto::ReplicationResponseDelete], without its performance counters. *)
Record Response : Type := mkResponse {
  status : proto.ReplicationStatus;
  status_ext : proto.ReplicationStatusExt;
  duplicate_request_id : string;
  replica_info : ReplicaInfo;
  request : option (string * N)
}.

(** [base] are the members of [Request]; [waits] counts the calls of [wait],
    each of which arms the timer of the next status poll; [saved] lists the
    replicas handed to [DatabaseServices::saveReplicaInfo]. *)
Record t : Type := mk {
  base : Request.t;
  database : string;
  chunk : N;
  replicaInfo : option ReplicaInfo;
  targetRequestParams : option (string * N);
  waits : nat;
  saved : list ReplicaInfo
}.

Definition withBase (b : Request.t) (r : t) : t :=
  mk b (database r) (chunk r) (replicaInfo r) (targetRequestParams r)
     (waits r) (saved r).

(** Modelled from the spec: [replica::translate] is defined outside the
    sources; the extended statuses of the wire protocol and those of the
    controller have the same names, and it maps each to its namesake. *)
Definition translate (ext : proto.ReplicationStatusExt) :
    WorkerRequest.ExtendedCompletionStatus :=
  match ext with
  | proto.NONE => WorkerRequest.EXT_STATUS_NONE
  | proto.INVALID_PARAM => WorkerRequest.EXT_STATUS_INVALID_PARAM
  | proto.DUPLICATE => WorkerRequest.EXT_STATUS_DUPLICATE
  end.

Definition setExtendedServerStatus
    (ext : WorkerRequest.ExtendedCompletionStatus) (b : Request.t) : Request.t :=
  Request.mk (Request.id b) (Request.keepTracking b) (Request.allowDuplicate b)
    (Request.state b) (Request.extendedState b) ext
    (Request.duplicateRequestId b) (Request.requestExpirationIvalSec b)
    (Request.expirationTimer b) (Request.notified b).

Definition setDuplicateRequestId (i : string) (b : Request.t) : Request.t :=
  Request.mk (Request.id b) (Request.keepTracking b) (Request.allowDuplicate b)
    (Request.state b) (Request.extendedState b) (Request.extendedServerStatus b)
    i (Request.requestExpirationIvalSec b)
    (Request.expirationTimer b) (Request.notified b).

(** [Request::finish] on a request of this class. *)
Definition finish (extendedState : Request.ExtendedState) (r : t) : t :=
  withBase (Request.finish extendedState (base r)) r.

(** [DeleteRequest::wait] *)
Definition wait (r : t) : t :=
  mk (base r) (database r) (chunk r) (replicaInfo r) (targetRequestParams r)
     (S (waits r)) (saved r).

(** The statements of [analyze] between the test of [success] and the
    switch: the extended status of the server, the replica and the
    parameters of the target request are taken from the response. *)
Definition received (message : Response) (r : t) : t :=
  mk (setExtendedServerStatus (translate (status_ext message)) (base r))
     (database r) (chunk r) (Some (replica_info message))
     (match request message with
      | Some params => Some params
      | None => targetRequestParams r
      end)
     (waits r) (saved r).

(** [serviceProvider()->databaseServices()->saveReplicaInfo(_replicaInfo)] *)
Definition saveReplicaInfo (r : t) : t :=
  mk (base r) (database r) (chunk r) (replicaInfo r) (targetRequestParams r)
     (waits r)
     (match replicaInfo r with
      | Some info => saved r ++ [info]
      | None => saved r
      end).

(** [DeleteRequest::analyze] *)
Definition analyze (success : bool) (message : Response) (r : t) : Res t :=
  if Request.finished (base r) then Ok r
  else if Request.finished (base r) then Ok r
  else if negb success then Ok (finish Request.CLIENT_ERROR r)
  else
    let r := received message r in
    let keepTracking := Request.keepTracking (base r) in
    match status message with
    | proto.SUCCESS => Ok (finish Request.SUCCESS (saveReplicaInfo r))
    | proto.QUEUED =>
        Ok (if keepTracking then wait r else finish Request.SERVER_QUEUED r)
    | proto.IN_PROGRESS =>
        Ok (if keepTracking then wait r else finish Request.SERVER_IN_PROGRESS r)
    | proto.IS_CANCELLING =>
        Ok (if keepTracking then wait r else finish Request.SERVER_IS_CANCELLING r)
    | proto.BAD =>
        match Request.extendedServerStatus (base r) with
        | WorkerRequest.EXT_STATUS_DUPLICATE =>
            let r := withBase (setDuplicateRequestId (duplicate_request_id message)
                                 (base r)) r in
            if Request.allowDuplicate (base r) && keepTracking
            then Ok (wait r)
            else Ok (finish Request.SERVER_BAD r)
        | _ => Ok (finish Request.SERVER_BAD r)
        end
    | proto.FAILED => Ok (finish Request.SERVER_ERROR r)
    | proto.CANCELLED => Ok (finish Request.SERVER_CANCELLED r)
    | proto.STATUS_UNKNOWN _ => Throw logic_error
    end.

(** What a call of [analyze] did to a request [r] that had not finished, read
    off its result: it threw, it finished the request in some extended state,
    it armed the timer of the next poll, or neither. *)
Inductive Outcome : Type :=
| Raised (e : Exn)
| Finished (extendedState : Request.ExtendedState)
| Rearmed
| Idle.

Definition outcome (r : t) (result : Res t) : Outcome :=
  match result with
  | Throw e => Raised e
  | Ok r' =>
      if Request.finished (base r')
      then Finished (Request.extendedState (base r'))
      else if bool_decide (waits r' = S (waits r)) then Rearmed
      else Idle
  end.

(** What a request serializes into its buffer: the header and the message
    of [startImpl], a request to delete the replica, or those of [awaken], a
    request for the status of the request with the id [target]. *)
Inductive Frame : Type :=
| ReplicaDelete (header_id : string) (priority : Z) (database : string) (chunk : N)
| RequestStatus (header_id : string) (target : string).

(** A request with its priority and with the calls of [messenger()->send]
    it has made, each with the id of the transaction and the buffer. *)
Record Session : Type := mkSession {
  self : t;
  priority : Z;
  sent : list (string * Frame)
}.

(** [DeleteRequest::create]; the interval of the expiration timer comes from
    the configuration. *)
Definition create (i database : string) (chunk : N) (priority : Z)
    (keepTracking allowDuplicate : bool) (requestTimeoutSec : N) : Session :=
  mkSession
    (mk (Request.mk i keepTracking allowDuplicate Request.CREATED Request.NONE
           WorkerRequest.EXT_STATUS_NONE "" requestTimeoutSec false 0)
        database chunk None None 0 [])
    priority [].

(** [DeleteRequest::send] *)
Definition send (frame : Frame) (s : Session) : Session :=
  mkSession (self s) (priority s)
    (sent s ++ [(Request.id (base (self s)), frame)]).

(** [Request::start] with the [startImpl] of this class. *)
Definition start (ivalSec : N) (s : Session) : Res Session :=
  b ← Request.start ivalSec (base (self s));
  Ok (send (ReplicaDelete (Request.id b) (priority s) (database (self s))
              (chunk (self s)))
        (mkSession (withBase b (self s)) (priority s) (sent s))).

(** [DeleteRequest::awaken] *)
Definition awaken (ec : error_code) (s : Session) : Session :=
  if is_aborted ec then s
  else if Request.finished (base (self s)) then s
  else if Request.finished (base (self s)) then s
  else send (RequestStatus (Request.id (base (self s)))
               (Request.remoteId (base (self s)))) s.

(** The calls that reach a request: [start], the callback of the messenger,
    the timer of the next poll, [cancel] and the expiration timer. *)
Inductive Event : Type :=
| Start (ivalSec : N)
| Analyze (success : bool) (message : Response)
| Awaken (ec : error_code)
| Cancel
| Expired (ec : error_code).

Definition step (s : Session) (e : Event) : Res Session :=
  match e with
  | Start ivalSec => start ivalSec s
  | Analyze success message =>
      r ← analyze success message (self s);
      Ok (mkSession r (priority s) (sent s))
  | Awaken ec => Ok (awaken ec s)
  | Cancel =>
      Ok (mkSession (withBase (Request.cancel (base (self s))) (self s))
            (priority s) (sent s))
  | Expired ec =>
      Ok (mkSession (withBase (Request.expired ec (base (self s))) (self s))
            (priority s) (sent s))
  end.

(** A run stops at the first call that throws. *)
Fixpoint run (events : list Event) (s : Session) : Res Session :=
  match events with
  | [] => Ok s
  | e :: rest => s' ← step s e; run rest s'
  end.

(** The request has finished with the extended state SUCCESS. *)
Definition succeeded (r : t) : bool :=
  match Request.state (base r), Request.extendedState (base r) with
  | Request.FINISHED, Request.SUCCESS => true
  | _, _ => false
  end.

(** The replica of a request that has succeeded, and of no other, has been
    saved, once; and the subscriber has been notified once if the request is
    finished and not at all otherwise. *)
Definition settled (r : t) : Prop :=
  saved r = (if succeeded r
             then match replicaInfo r with Some info => [info] | None => [] end
             else [])
  /\ (succeeded r = true -> replicaInfo r <> None)
  /\ Request.once (base r).

End DeleteRequest.

(** ** MessengerConnector.cc *)

Module MessengerConnector.

Inductive State : Type :=
| STATE_INITIAL
| STATE_CONNECTING
| STATE_COMMUNICATING.

(** [MessageWrapperBase]: the id of the request, its serialized form and the
    completion status handed to the subscriber, false until a response has
    been read. *)
Record MessageWrapper : Type := mkWrapper {
  id : string;
  requestBuffer : string;
  success : bool
}.

Definition setSuccess (status : bool) (p : MessageWrapper) : MessageWrapper :=
  mkWrapper (id p) (requestBuffer p) status.

(** The connector.  [state], [requests] and [currentRequest] are the members
    [_state], [_requests] and [_currentRequest].  The other fields record
    what the connector asked of the resolver, the socket and the timer, and
    whom it notified: [resolves], [connects], [reads] and [timerWaits] count
    the calls of [async_resolve], [async_connect], [async_read] and of the
    timer's [async_wait]; [wire] lists the requests handed to [async_write],
    oldest first; [notifications] lists the calls of [parseAndNotify] with
    the id and the completion status given to the subscriber. *)
Record t : Type := mk {
  state : State;
  requests : list MessageWrapper;
  currentRequest : option MessageWrapper;
  resolves : nat;
  connects : nat;
  reads : nat;
  timerWaits : nat;
  wire : list MessageWrapper;
  notifications : list (string * bool)
}.

(** The connector [MessengerConnector::create] returns. *)
Definition create : t := mk STATE_INITIAL [] None 0 0 0 0 [] [].

Definition setState (st : State) (c : t) : t :=
  mk st (requests c) (currentRequest c) (resolves c) (connects c) (reads c)
     (timerWaits c) (wire c) (notifications c).

Definition setRequests (l : list MessageWrapper) (c : t) : t :=
  mk (state c) l (currentRequest c) (resolves c) (connects c) (reads c)
     (timerWaits c) (wire c) (notifications c).

Definition setCurrentRequest (p : option MessageWrapper) (c : t) : t :=
  mk (state c) (requests c) p (resolves c) (connects c) (reads c)
     (timerWaits c) (wire c) (notifications c).

(** [MessengerConnector::find] looks the id up in the queue [_requests]. *)
Definition find (i : string) (c : t) : option MessageWrapper :=
  List.find (fun p => bool_decide (id p = i)) (requests c).

(** [MessengerConnector::exists] *)
Definition exists_ (i : string) (c : t) : bool :=
  match find i c with
  | Some _ => true
  | None => false
  end.

(** [MessengerConnector::resolve] *)
Definition resolve (c : t) : t :=
  match state c with
  | STATE_INITIAL =>
      mk STATE_CONNECTING (requests c) (currentRequest c) (S (resolves c))
         (connects c) (reads c) (timerWaits c) (wire c) (notifications c)
  | _ => c
  end.

(** [MessengerConnector::restart]: the pending operations of the resolver,
    the socket and the timer are cancelled and the socket is closed, then the
    host is resolved again. *)
Definition restart (c : t) : t :=
  match state c with
  | STATE_INITIAL => resolve c
  | STATE_CONNECTING | STATE_COMMUNICATING => resolve (setState STATE_INITIAL c)
  end.

(** [MessengerConnector::waitBeforeRestart] *)
Definition waitBeforeRestart (c : t) : t :=
  mk (state c) (requests c) (currentRequest c) (resolves c) (connects c)
     (reads c) (S (timerWaits c)) (wire c) (notifications c).

(** [MessengerConnector::connect] *)
Definition connect (c : t) : t :=
  mk (state c) (requests c) (currentRequest c) (resolves c) (S (connects c))
     (reads c) (timerWaits c) (wire c) (notifications c).

(** [MessengerConnector::sendRequest] *)
Definition sendRequest (c : t) : t :=
  match currentRequest c with
  | Some _ => c
  | None =>
      match requests c with
      | [] => c
      | front :: rest =>
          mk (state c) rest (Some front) (resolves c) (connects c) (reads c)
             (timerWaits c) (wire c ++ [front]) (notifications c)
      end
  end.

(** [MessengerConnector::resolved] *)
Definition resolved (ec : error_code) (c : t) : t :=
  if is_aborted ec then c
  else if is_error ec then waitBeforeRestart c
  else connect c.

(** [MessengerConnector::connected] *)
Definition connected (ec : error_code) (c : t) : t :=
  if is_aborted ec then c
  else if is_error ec then waitBeforeRestart c
  else sendRequest (setState STATE_COMMUNICATING c).

(** [MessengerConnector::awakenForRestart] *)
Definition awakenForRestart (ec : error_code) (c : t) : t :=
  if is_aborted ec then c
  else match state c with
       | STATE_CONNECTING => restart c
       | _ => c
       end.

(** [MessengerConnector::receiveResponse] *)
Definition receiveResponse (c : t) : t :=
  mk (state c) (requests c) (currentRequest c) (resolves c) (connects c)
     (S (reads c)) (timerWaits c) (wire c) (notifications c).

(** [MessengerConnector::requestSent] *)
Definition requestSent (ec : error_code) (c : t) : t :=
  if is_aborted ec then restart c
  else match currentRequest c with
       | Some current =>
           if is_error ec
           then restart (setCurrentRequest None
                           (setRequests (current :: requests c) c))
           else receiveResponse c
       | None => c
       end.

(** What the three synchronous reads of [responseReceived] meet on the
    socket: the error code of each read, the id in the header of the
    response, and whether the body parses as the expected message. *)
Record Incoming : Type := mkIncoming {
  header_ec : error_code;
  header_id : string;
  frame_ec : error_code;
  body_ec : error_code;
  body_parses : bool
}.

(** [MessageWrapper::parseAndNotify]: a response that was read but does not
    parse is reported as a failure. *)
Definition parseAndNotify (parses : bool) (p : MessageWrapper) (c : t) : t :=
  mk (state c) (requests c) (currentRequest c) (resolves c) (connects c)
     (reads c) (timerWaits c) (wire c)
     (notifications c ++ [(id p, success p && parses)]).

(** [MessengerConnector::responseReceived]; [syncReadVerifyHeader] throws a
    logic error when the header carries another id. *)
Definition responseReceived (ec : error_code) (input : Incoming) (c : t) : Res t :=
  if is_aborted ec then Ok (restart c)
  else match currentRequest c with
       | Some request2notify =>
           let c := setCurrentRequest None c in
           if is_error ec
           then Ok (parseAndNotify (body_parses input) request2notify (restart c))
           else if is_error (header_ec input)
           then Ok (parseAndNotify (body_parses input) request2notify (restart c))
           else if negb (bool_decide (id request2notify = header_id input))
           then Throw logic_error
           else if is_error (frame_ec input)
           then Ok (parseAndNotify (body_parses input) request2notify (restart c))
           else if is_error (body_ec input)
           then Ok (parseAndNotify (body_parses input) request2notify (restart c))
           else Ok (parseAndNotify (body_parses input)
                      (setSuccess true request2notify) (sendRequest c))
       | None =>
           if is_error ec then Ok (restart c) else Ok (sendRequest c)
       end.

(** [MessengerConnector::sendImpl] *)
Definition sendImpl (ptr : MessageWrapper) (c : t) : Res t :=
  match find (id ptr) c with
  | Some _ => Throw logic_error
  | None =>
      let c := setRequests (requests c ++ [ptr]) c in
      match state c with
      | STATE_INITIAL => Ok (resolve c)
      | STATE_CONNECTING => Ok c
      | STATE_COMMUNICATING => Ok (sendRequest c)
      end
  end.

(** [MessengerConnector::cancel] *)
Definition cancel (i : string) (c : t) : t :=
  let c := setRequests (filter (fun p => id p <> i) (requests c)) c in
  match currentRequest c with
  | Some current =>
      if bool_decide (id current = i)
      then let c := setCurrentRequest None c in
           match state c with
           | STATE_COMMUNICATING => restart c
           | _ => c
           end
      else c
  | None => c
  end.

(** The calls that reach a connector: [send] from a request, and the handlers
    of the asynchronous operations. *)
Inductive Event : Type :=
| Send (ptr : MessageWrapper)
| Cancel (i : string)
| Resolved (ec : error_code)
| Connected (ec : error_code)
| AwakenForRestart (ec : error_code)
| RequestSent (ec : error_code)
| ResponseReceived (ec : error_code) (input : Incoming).

Definition step (c : t) (e : Event) : Res t :=
  match e with
  | Send ptr => sendImpl ptr c
  | Cancel i => Ok (cancel i c)
  | Resolved ec => Ok (resolved ec c)
  | Connected ec => Ok (connected ec c)
  | AwakenForRestart ec => Ok (awakenForRestart ec c)
  | RequestSent ec => Ok (requestSent ec c)
  | ResponseReceived ec input => responseReceived ec input c
  end.

(** A run stops at the first call that throws. *)
Fixpoint run (events : list Event) (c : t) : Res t :=
  match events with
  | [] => Ok c
  | e :: rest => c' ← step c e; run rest c'
  end.

(** The requests given to [send], in the order of the calls. *)
Definition submitted (events : list Event) : list MessageWrapper :=
  flat_map (fun e => match e with Send ptr => [ptr] | _ => [] end) events.

(** No error code reports an error, every read of a response succeeds, and
    no request is cancelled. *)
Definition failure_free (e : Event) : bool :=
  match e with
  | Send _ => true
  | Cancel _ => false
  | Resolved ec | Connected ec | AwakenForRestart ec | RequestSent ec =>
      negb (is_error ec)
  | ResponseReceived ec input =>
      negb (is_error ec) && negb (is_error (header_ec input))
      && negb (is_error (frame_ec input)) && negb (is_error (body_ec input))
  end.

(** The list of zero or one request in flight. *)
Definition in_flight (c : t) : list MessageWrapper :=
  match currentRequest c with
  | Some p => [p]
  | None => []
  end.

(** The invariant of the runs without failure, for the requests [acc]
    submitted so far: they are, in this order, the requests written to the
    socket followed by the queue, and every request written has been
    answered, the one in flight excepted. *)
Definition Inv (acc : list MessageWrapper) (c : t) : Prop :=
  acc = wire c ++ requests c
  /\ map id (wire c) = map fst (notifications c) ++ map id (in_flight c).

(** In every run, with failures and cancellations, the request in flight
    followed by the queue is a part of the submitted requests in the order of
    submission: the front of the queue is the oldest request that waits. *)
Definition ordered (acc : list MessageWrapper) (c : t) : Prop :=
  in_flight c ++ requests c `sublist_of` acc.

(** The requests the connector holds: the one in flight, then the queue. *)
Definition registered (c : t) : list MessageWrapper :=
  in_flight c ++ requests c.

(** [MessengerConnector::stop]: a connector that is not in its initial state
    returns to it and cancels what it asked of the resolver, the socket and
    the timer; the request in flight, then the requests of the queue, are
    taken out of the connector and, once the lock is released, each is
    notified by its [parseAndNotify].  [parses] tells whether the response
    buffer of a request parses. *)
Definition stop (parses : MessageWrapper -> bool) (c : t) : t :=
  match state c with
  | STATE_INITIAL => c
  | STATE_CONNECTING | STATE_COMMUNICATING =>
      let requests2notify := registered c in
      fold_left (fun c ptr => parseAndNotify (parses ptr) ptr c) requests2notify
        (setRequests [] (setCurrentRequest None (setState STATE_INITIAL c)))
  end.

(** The calls that reach a connector, [stop] among them. *)
Inductive Call : Type :=
| Handle (e : Event)
| Stop (parses : MessageWrapper -> bool).

Definition call (c : t) (x : Call) : Res t :=
  match x with
  | Handle e => step c e
  | Stop parses => Ok (stop parses c)
  end.

(** A sequence of calls stops at the first one that throws. *)
Fixpoint calls (l : list Call) (c : t) : Res t :=
  match l with
  | [] => Ok c
  | x :: rest => c' ← call c x; calls rest c'
  end.

(** The requests given to [send] in a sequence of calls. *)
Definition sent (l : list Call) : list MessageWrapper :=
  flat_map (fun x => match x with Handle (Send ptr) => [ptr] | _ => [] end) l.

Definition cancels (x : Call) : bool :=
  match x with
  | Handle (Cancel _) => true
  | _ => false
  end.

(** What the subscriber of a request is told when it is notified. *)
Definition notice (parses : MessageWrapper -> bool) (p : MessageWrapper) :
    string * bool :=
  (id p, success p && parses p).

(** A connector in its initial state holds no request. *)
Definition idle_empty (c : t) : Prop :=
  state c = STATE_INITIAL -> requests c = [] /\ currentRequest c = None.

(** The connector as a call that throws leaves it.  [sendImpl] throws before
    it has written anything.  [responseReceived] throws out of
    [syncReadVerifyHeader], when it has swapped the request in flight out of
    [_currentRequest] into its local variable [request2notify] and done
    nothing else; the exception destroys the local variable, and the call of
    [parseAndNotify] at the end of the method is not reached. *)
Definition thrown (c : t) (x : Call) : t :=
  match x with
  | Handle (ResponseReceived _ _) => setCurrentRequest None c
  | _ => c
  end.

(** The connector after a call, whether the call returns or throws. *)
Definition after (c : t) (x : Call) : t :=
  match call c x with
  | Ok c' => c'
  | Throw _ => thrown c x
  end.


(** The request a call of [send] that throws was given: it is not
    registered. *)
Definition refusedBy (c : t) (x : Call) : list MessageWrapper :=
  match call c x, x with
  | Throw _, Handle (Send ptr) => [ptr]
  | _, _ => []
  end.


Fixpoint refused (l : list Call) (c : t) : list MessageWrapper :=
  match l with
  | [] => []
  | x :: rest => refusedBy c x ++ refused rest (after c x)
  end.


End MessengerConnector.

(** ** Job.cc *)

Module Job.

Inductive State : Type :=
| CREATED
| IN_PROGRESS
| FINISHED.

Inductive ExtendedState : Type :=
| NONE
| SUCCESS
| CONFIG_ERROR
| FAILED
| QSERV_FAILED
| QSERV_CHUNK_IN_USE
| TIMEOUT_EXPIRED
| CANCELLED.

(** The members of [Job] that its methods write: the two states, whether the
    heartbeat timer and the expiration timer are waiting, and the number
    [notified] of calls of [notify], each of which spawns one thread that
    runs [notifyImpl], the call of the subscriber's [_onFinish]. *)
Record t : Type := mk {
  id : string;
  state : State;
  extendedState : ExtendedState;
  heartbeatTimer : bool;
  expirationTimer : bool;
  notified : nat
}.

(** [state() == State::FINISHED] *)
Definition finished (j : t) : bool :=
  match state j with
  | FINISHED => true
  | _ => false
  end.

(** [Job::setState] *)
Definition setState (newState : State) (newExtendedState : ExtendedState)
    (j : t) : t :=
  mk (id j) newState newExtendedState (heartbeatTimer j) (expirationTimer j)
     (notified j).

(** [Job::startHeartbeatTimer] and [Job::startExpirationTimer], for the
    intervals of the configuration. *)
Definition startTimers (heartbeatIvalSec expirationIvalSec : N) (j : t) : t :=
  mk (id j) (state j) (extendedState j)
     (if N.eqb heartbeatIvalSec 0 then heartbeatTimer j else true)
     (if N.eqb expirationIvalSec 0 then expirationTimer j else true)
     (notified j).

(** The two calls of [cancel] on the timers at the end of [Job::finish]. *)
Definition cancelTimers (j : t) : t :=
  mk (id j) (state j) (extendedState j) false false (notified j).

(** [Job::notify] *)
Definition notify (j : t) : t :=
  mk (id j) (state j) (extendedState j) (heartbeatTimer j) (expirationTimer j)
     (S (notified j)).

End Job.

(** ** CreateReplicaJob.cc *)

Module CreateReplicaJob.

(** A child of the job: a [ReplicationRequest], which is a [Request] for a
    database, with the replica its response describes. *)
Record ReplicationRequest : Type := mkRequest {
  base : Request.t;
  database : string;
  responseData : ReplicaInfo
}.

(** [CreateReplicaJobResult] *)
Record CreateReplicaJobResult : Type := mkResult {
  replicas : list ReplicaInfo;
  chunks : gmap N (gmap string (gmap string ReplicaInfo))
}.

(** The job.  [requests] holds the shared pointers [_requests], a pointer
    being the index of the request on the heap of the [World] below.
    [qservAddReplicaCalls] and [stopReplicationCalls] record the calls of
    [qservAddReplica] and of [Controller::stopReplication]. *)
Record t : Type := mk {
  job : Job.t;
  databaseFamily : string;
  chunk : N;
  sourceWorker : string;
  destinationWorker : string;
  requests : list nat;
  replicaData : CreateReplicaJobResult;
  qservAddReplicaCalls : list (N * list string * string);
  stopReplicationCalls : list string
}.

Definition withJob (b : Job.t) (j : t) : t :=
  mk b (databaseFamily j) (chunk j) (sourceWorker j) (destinationWorker j)
     (requests j) (replicaData j) (qservAddReplicaCalls j) (stopReplicationCalls j).

Definition withRequests (l : list nat) (j : t) : t :=
  mk (job j) (databaseFamily j) (chunk j) (sourceWorker j) (destinationWorker j)
     l (replicaData j) (qservAddReplicaCalls j) (stopReplicationCalls j).

Definition withReplicaData (d : CreateReplicaJobResult) (j : t) : t :=
  mk (job j) (databaseFamily j) (chunk j) (sourceWorker j) (destinationWorker j)
     (requests j) d (qservAddReplicaCalls j) (stopReplicationCalls j).

(** The job with the requests it shares with the messenger and with the
    threads of the notifications: [heap] holds the requests, [notifiers] the
    threads spawned by [Request::notify] that have not run yet, each with the
    pointer to its request; such a thread calls [onRequestFinish]. *)
Record World : Type := mkWorld {
  self : t;
  heap : list ReplicationRequest;
  notifiers : list nat
}.

(** What the job reads from the configuration and from the database
    services: [findWorkerReplicas] is [None] when the query fails, and
    [uniqueId n] is the id [Generators::uniqueId] gives the request with the
    pointer [n]. *)
Record Env : Type := mkEnv {
  isKnownDatabaseFamily : string -> bool;
  isKnownWorker : string -> bool;
  findWorkerReplicas : N -> string -> string -> option (list ReplicaInfo);
  xrootdAutoNotify : bool;
  jobHeartbeatTimeoutSec : N;
  jobTimeoutSec : N;
  controllerRequestTimeoutSec : N;
  uniqueId : nat -> string
}.

(** [CreateReplicaJob::create]: the constructor of [Job] and the members of
    this class. *)
Definition create (i databaseFamily : string) (chunk : N)
    (sourceWorker destinationWorker : string) : World :=
  mkWorld
    (mk (Job.mk i Job.CREATED Job.NONE false false 0)
        databaseFamily chunk sourceWorker destinationWorker []
        (mkResult [] ∅) [] [])
    [] [].

(** [CreateReplicaJob::getReplicaData] *)
Definition getReplicaData (j : t) : Res CreateReplicaJobResult :=
  if Job.finished (job j) then Ok (replicaData j) else Throw logic_error.

(** [::countRequestStates] over the requests a collection of pointers leads
    to: the numbers launched, finished and succeeded. *)
Definition countRequestStates (collection : list ReplicationRequest) :
    nat * nat * nat :=
  fold_left
    (fun '(numLaunched, numFinished, numSuccess) ptr =>
       match Request.state (base ptr) with
       | Request.FINISHED =>
           match Request.extendedState (base ptr) with
           | Request.SUCCESS => (numLaunched, S numFinished, S numSuccess)
           | _ => (numLaunched, S numFinished, numSuccess)
           end
       | _ => (numLaunched, numFinished, numSuccess)
       end)
    collection (length collection, 0%nat, 0%nat).

(** The requests behind a list of pointers. *)
Definition deref (heap : list ReplicationRequest) (ptrs : list nat) :
    list ReplicationRequest :=
  omap (fun i => heap !! i) ptrs.

(** [Request::finish] at the request with the pointer [i]: a request that
    was not finished is finished, and its [notify] spawns a thread. *)
Definition finishRequest (i : nat) (extendedState : Request.ExtendedState)
    (w : World) : World :=
  match heap w !! i with
  | Some r =>
      if Request.finished (base r) then w
      else mkWorld (self w)
             (<[i := mkRequest (Request.finish extendedState (base r))
                       (database r) (responseData r)]> (heap w))
             (notifiers w ++ [i])
  | None => w
  end.

(** [Request::cancel] at the request with the pointer [i]. *)
Definition cancelRequest (i : nat) (w : World) : World :=
  finishRequest i Request.CANCELLED w.

(** [Request::expired] at the request with the pointer [i]. *)
Definition expireRequest (i : nat) (ec : error_code) (w : World) : World :=
  if is_aborted ec then w else finishRequest i Request.TIMEOUT_EXPIRED w.

(** One turn of the loop of [cancelImpl]: the request is cancelled, and the
    worker is asked to stop it if that left it unfinished. *)
Definition cancelOne (w : World) (i : nat) : World :=
  let w := cancelRequest i w in
  match heap w !! i with
  | Some r =>
      if Request.finished (base r) then w
      else mkWorld
             (mk (job (self w)) (databaseFamily (self w)) (chunk (self w))
                 (sourceWorker (self w)) (destinationWorker (self w))
                 (requests (self w)) (replicaData (self w))
                 (qservAddReplicaCalls (self w))
                 (stopReplicationCalls (self w) ++ [Request.id (base r)]))
             (heap w) (notifiers w)
  | None => w
  end.

(** [CreateReplicaJob::cancelImpl] *)
Definition cancelImpl (w : World) : World :=
  let w := fold_left cancelOne (requests (self w)) w in
  mkWorld (withRequests [] (self w)) (heap w) (notifiers w).

(** [Job::finish] *)
Definition finish (newExtendedState : Job.ExtendedState) (w : World) : World :=
  if Job.finished (job (self w)) then w
  else
    let w := mkWorld (withJob (Job.setState Job.FINISHED newExtendedState
                                 (job (self w))) (self w))
                     (heap w) (notifiers w) in
    let w := match newExtendedState with
             | Job.SUCCESS => w
             | _ => cancelImpl w
             end in
    mkWorld (withJob (Job.notify (Job.cancelTimers (job (self w)))) (self w))
            (heap w) (notifiers w).

(** [Job::cancel]: the state is tested before and after the lock is taken. *)
Definition cancel (w : World) : World :=
  if Job.finished (job (self w)) then w
  else if Job.finished (job (self w)) then w
  else finish Job.CANCELLED w.

(** [Job::expired] *)
Definition expired (ec : error_code) (w : World) : World :=
  if is_aborted ec then w
  else if Job.finished (job (self w)) then w
  else if Job.finished (job (self w)) then w
  else finish Job.TIMEOUT_EXPIRED w.

(** [_replicaData.chunks[chunk][database][worker] = data] *)
Definition setChunk (chunk : N) (database worker : string) (data : ReplicaInfo)
    (m : gmap N (gmap string (gmap string ReplicaInfo))) :
    gmap N (gmap string (gmap string ReplicaInfo)) :=
  let byDatabase := default ∅ (m !! chunk) in
  let byWorker := default ∅ (byDatabase !! database) in
  <[chunk := <[database := <[worker := data]> byWorker]> byDatabase]> m.

(** [_replicaData.chunks.at(chunk).at(database).at(worker)], if present. *)
Definition lookupChunk (chunk : N) (database worker : string)
    (m : gmap N (gmap string (gmap string ReplicaInfo))) : option ReplicaInfo :=
  match m !! chunk with
  | Some byDatabase =>
      match byDatabase !! database with
      | Some byWorker => byWorker !! worker
      | None => None
      end
  | None => None
  end.

(** The statistics [onRequestFinish] updates for a request that succeeded. *)
Definition record (request : ReplicationRequest) (j : t) : t :=
  withReplicaData
    (mkResult (replicas (replicaData j) ++ [responseData request])
              (setChunk (chunk j) (database request) (destinationWorker j)
                        (responseData request) (chunks (replicaData j))))
    j.

(** The branch of [onRequestFinish] for a job whose requests all succeeded:
    the databases of [_replicaData.chunks[chunk()]] are collected (the
    subscript inserts an empty entry for a chunk without one), Qserv is
    notified if the configuration asks for it, and the job finishes. *)
Definition succeed (env : Env) (w : World) : World :=
  let j := self w in
  let byDatabase := default ∅ (chunks (replicaData j) !! chunk j) in
  let databases := (map_to_list byDatabase).*1 in
  let j := withReplicaData
             (mkResult (replicas (replicaData j))
                       (<[chunk j := byDatabase]> (chunks (replicaData j)))) j in
  let j := if xrootdAutoNotify env
           then mk (job j) (databaseFamily j) (chunk j) (sourceWorker j)
                   (destinationWorker j) (requests j) (replicaData j)
                   (qservAddReplicaCalls j
                      ++ [(chunk j, databases, destinationWorker j)])
                   (stopReplicationCalls j)
           else j in
  finish Job.SUCCESS (mkWorld j (heap w) (notifiers w)).

(** [CreateReplicaJob::onRequestFinish], called with the pointer to the
    request that finished. *)
Definition onRequestFinish (env : Env) (i : nat) (w : World) : World :=
  if Job.finished (job (self w)) then w
  else if Job.finished (job (self w)) then w
  else
    match heap w !! i with
    | None => w
    | Some request =>
        let j := match Request.extendedState (base request) with
                 | Request.SUCCESS => record request (self w)
                 | _ => self w
                 end in
        let w := mkWorld j (heap w) (notifiers w) in
        let '(numLaunched, numFinished, numSuccess) :=
          countRequestStates (deref (heap w) (requests j)) in
        if Nat.eqb numFinished numLaunched
        then if Nat.eqb numSuccess numLaunched
             then succeed env w
             else finish Job.FAILED w
        else w
    end.

(** [Controller::replicate] in the loop of [startImpl]: a request for the
    database of a source replica is created and started, and its pointer is
    appended to [_requests]. *)
Definition launch (env : Env) (w : World) (replica : ReplicaInfo) : World :=
  let ptr := length (heap w) in
  let request :=
    mkRequest
      (Request.mk (uniqueId env ptr) true true Request.IN_PROGRESS Request.NONE
         WorkerRequest.EXT_STATUS_NONE "" (controllerRequestTimeoutSec env)
         (negb (N.eqb (controllerRequestTimeoutSec env) 0)) 0)
      (ri_database replica)
      (mkReplicaInfo NOT_FOUND "" "" 0) in
  mkWorld (withRequests (requests (self w) ++ [ptr]) (self w))
          (heap w ++ [request]) (notifiers w).

Definition setState (st : Job.State) (ext : Job.ExtendedState) (w : World) : World :=
  mkWorld (withJob (Job.setState st ext (job (self w))) (self w))
          (heap w) (notifiers w).

(** [CreateReplicaJob::startImpl] *)
Definition startImpl (env : Env) (w : World) : World :=
  let j := self w in
  if negb (isKnownDatabaseFamily env (databaseFamily j)
           && isKnownWorker env (sourceWorker j)
           && isKnownWorker env (destinationWorker j)
           && negb (bool_decide (sourceWorker j = destinationWorker j)))
  then setState Job.FINISHED Job.CONFIG_ERROR w
  else
    match findWorkerReplicas env (chunk j) (destinationWorker j) (databaseFamily j) with
    | None => setState Job.FINISHED Job.FAILED w
    | Some (_ :: _) => setState Job.FINISHED Job.FAILED w
    | Some [] =>
        match findWorkerReplicas env (chunk j) (sourceWorker j) (databaseFamily j) with
        | None => setState Job.FINISHED Job.FAILED w
        | Some [] => setState Job.FINISHED Job.FAILED w
        | Some sourceReplicas =>
            setState Job.IN_PROGRESS Job.NONE (fold_left (launch env) sourceReplicas w)
        end
    end.

(** [Job::start] *)
Definition start (env : Env) (w : World) : Res World :=
  match Job.state (job (self w)) with
  | Job.CREATED =>
      let w := mkWorld (withJob (Job.startTimers (jobHeartbeatTimeoutSec env)
                                   (jobTimeoutSec env) (job (self w))) (self w))
                       (heap w) (notifiers w) in
      let w := startImpl env w in
      match Job.state (job (self w)) with
      | Job.FINISHED =>
          Ok (mkWorld (withJob (Job.notify (job (self w))) (self w))
                      (heap w) (notifiers w))
      | Job.IN_PROGRESS => Ok w
      | Job.CREATED => Throw logic_error
      end
  | _ => Throw logic_error
  end.

(** What happens to a job and its requests: the job is started, cancelled or
    expires; the response to a request arrives and finishes it in some
    extended state with the replica [data], or the request is cancelled or
    expires; a thread of a notification runs, the one at the position [k]
    among those waiting. *)
Inductive Event : Type :=
| Start
| JobCancel
| JobExpired (ec : error_code)
| Response (i : nat) (extendedState : Request.ExtendedState) (data : ReplicaInfo)
| RequestCancel (i : nat)
| RequestExpired (i : nat) (ec : error_code)
| Notifier (k : nat).

(** The response to a request that has not finished: [analyze] stores the
    replica and finishes the request. *)
Definition respond (i : nat) (extendedState : Request.ExtendedState)
    (data : ReplicaInfo) (w : World) : World :=
  match heap w !! i with
  | Some r =>
      if Request.finished (base r) then w
      else finishRequest i extendedState
             (mkWorld (self w)
                (<[i := mkRequest (base r) (database r) data]> (heap w))
                (notifiers w))
  | None => w
  end.

(** A call that throws leaves the job as it was. *)
Definition step (env : Env) (w : World) (e : Event) : World :=
  match e with
  | Start =>
      match start env w with
      | Ok w' => w'
      | Throw _ => w
      end
  | JobCancel => cancel w
  | JobExpired ec => expired ec w
  | Response i extendedState data => respond i extendedState data w
  | RequestCancel i => cancelRequest i w
  | RequestExpired i ec => expireRequest i ec w
  | Notifier k =>
      match notifiers w !! k with
      | Some i =>
          onRequestFinish env i
            (mkWorld (self w) (heap w) (delete k (notifiers w)))
      | None => w
      end
  end.

Definition run (env : Env) (events : list Event) (w : World) : World :=
  fold_left (step env) events w.

(** The requests of the job, their number [k] and the number [s] of those
    whose extended state is SUCCESS. *)
Definition children (w : World) : list ReplicationRequest :=
  deref (heap w) (requests (self w)).

Definition is_finished (r : ReplicationRequest) : bool :=
  Request.finished (base r).

Definition is_success (r : ReplicationRequest) : bool :=
  match Request.extendedState (base r) with
  | Request.SUCCESS => true
  | _ => false
  end.

Definition count (f : ReplicationRequest -> bool)
    (l : list ReplicationRequest) : nat :=
  length (List.filter f l).


(** Every request on the heap has notified once if finished, never
    otherwise, and so has the job. *)
Definition heapOnce (h : list ReplicationRequest) : Prop :=
  Forall (fun r => Request.once (base r)) h.

Definition jobOnce (j : Job.t) : Prop :=
  Job.notified j = if Job.finished j then 1%nat else 0%nat.

Definition worldOnce (w : World) : Prop :=
  jobOnce (job (self w)) /\ heapOnce (heap w).

(** The invariant of the runs in which only the requests act: the threads
    waiting point into the heap; an unfinished job holds the pointers to all
    the requests, and if these are finished a thread is waiting; a finished
    job has only finished requests and is in the extended state they
    decide. *)
Definition settled (w : World) : Prop :=
  Forall (fun i => (i < length (heap w))%nat) (notifiers w)
  /\ (Job.finished (job (self w)) = false ->
      requests (self w) = seq 0 (length (heap w))
      /\ (forallb is_finished (heap w) = true -> notifiers w <> []))
  /\ (Job.finished (job (self w)) = true ->
      forallb is_finished (heap w) = true
      /\ Job.extendedState (job (self w))
         = if forallb is_success (heap w) then Job.SUCCESS else Job.FAILED).

(** The job has finished with the extended state SUCCESS. *)
Definition succeeded (j : Job.t) : bool :=
  match Job.state j, Job.extendedState j with
  | Job.FINISHED, Job.SUCCESS => true
  | _, _ => false
  end.

(** The keys of [_replicaData.chunks[chunk()]]: the databases for which the
    result of the job holds a replica of its chunk. *)
Definition participatingDatabases (j : t) : list string :=
  (map_to_list (default ∅ (chunks (replicaData j) !! chunk j))).*1.

(** What a job has asked of Qserv and of the workers: no request to stop a
    replication, and one notification of Qserv if the job has succeeded and
    the configuration asks for it, none otherwise. *)
Definition effects (env : Env) (w : World) : Prop :=
  stopReplicationCalls (self w) = []
  /\ qservAddReplicaCalls (self w)
     = if succeeded (job (self w)) && xrootdAutoNotify env
       then [(chunk (self w), participatingDatabases (self w),
              destinationWorker (self w))]
       else [].

(** The parameters a job is created with. *)
Definition parameters (j : t) : string * N * string * string :=
  (databaseFamily j, chunk j, sourceWorker j, destinationWorker j).

End CreateReplicaJob.

(** ** ChunkLocker.h *)

Module ChunkLocker.

(** [struct Chunk]: the database family and the number of the chunk. *)
Definition Chunk : Type := string * N.

(** The member [_chunk2owner], a map of chunks to their owners. *)
Record t : Type := mk {
  chunk2owner : gmap (string * N) string
}.

(** Modelled from the spec: ChunkLocker.cc is not among the sources, only
    the declarations and their comments in ChunkLocker.h are.  A chunk is in
    the table if and only if it is locked. *)
Definition isLocked (chunk : Chunk) (l : t) : bool :=
  match chunk2owner l !! chunk with
  | Some _ => true
  | None => false
  end.

(** Modelled from the spec: [lock] of ChunkLocker.cc fails with an
    [invalid_argument] error if the owner is empty, returns true if the chunk
    is unlocked, which locks it, or if it is already locked by the same
    owner, and returns false if it is locked by a different owner. *)
Definition lock (chunk : Chunk) (owner : string) (l : t) : Res (bool * t) :=
  if bool_decide (owner = "") then Throw invalid_argument
  else match chunk2owner l !! chunk with
       | Some current => Ok (bool_decide (current = owner), l)
       | None => Ok (true, mk (<[chunk := owner]> (chunk2owner l)))
       end.

(** Modelled from the spec: [release(chunk)] of ChunkLocker.cc frees the
    chunk regardless of its owner and returns whether it had been locked. *)
Definition release (chunk : Chunk) (l : t) : bool * t :=
  match chunk2owner l !! chunk with
  | Some _ => (true, mk (delete chunk (chunk2owner l)))
  | None => (false, l)
  end.

(** Modelled from the spec: [release(owner)] of ChunkLocker.cc releases
    every chunk held by the owner and returns these chunks; it fails if the
    owner is empty. *)
Definition releaseOwner (owner : string) (l : t) : Res (list Chunk * t) :=
  if bool_decide (owner = "") then Throw invalid_argument
  else Ok ((map_to_list (filter (fun kv => kv.2 = owner) (chunk2owner l))).*1,
           mk (filter (fun kv => kv.2 <> owner) (chunk2owner l))).

(** The calls that change the table. *)
Inductive Op : Type :=
| Lock (chunk : Chunk) (owner : string)
| Release (chunk : Chunk)
| ReleaseOwner (owner : string).

(** A call that throws leaves the table as it was. *)
Definition step (l : t) (op : Op) : t :=
  match op with
  | Lock chunk owner =>
      match lock chunk owner l with
      | Ok (_, l') => l'
      | Throw _ => l
      end
  | Release chunk => snd (release chunk l)
  | ReleaseOwner owner =>
      match releaseOwner owner l with
      | Ok (_, l') => l'
      | Throw _ => l
      end
  end.

Definition run (ops : list Op) (l : t) : t := fold_left step ops l.

(** [op] is [release(chunk)] or [release(owner)]. *)
Definition frees (chunk : Chunk) (owner : string) (op : Op) : bool :=
  match op with
  | Lock _ _ => false
  | Release chunk' => bool_decide (chunk' = chunk)
  | ReleaseOwner owner' => bool_decide (owner' = owner)
  end.

End ChunkLocker.

(** ** Configuration.cc *)

Module Configuration.
Import Stdlib.Strings.Ascii.

(** [std::string::find(char)]: the position of the first occurrence, [None]
    for [npos]. *)
Fixpoint find_char (c : Ascii.ascii) (s : string) : option nat :=
  match s with
  | EmptyString => None
  | String a rest =>
      if Ascii.eqb a c then Some 0%nat else S <$> find_char c rest
  end.

(** [std::string::substr(pos, len)] and [substr(pos)]. *)
Definition substr (pos len : nat) (s : string) : string :=
  String.substring pos len s.

Definition substr_from (pos : nat) (s : string) : string :=
  String.substring pos (String.length s - pos) s.

(** [std::string::replace(pos, len, str)] *)
Definition replace (pos len : nat) (str s : string) : string :=
  (substr 0 pos s ++ str ++ substr_from (pos + len) s)%string.

(** [Configuration::translateDataDir]; the result is the new value of the
    argument [dataDir], which the method changes in place. *)
Definition translateDataDir (dataDir workerName : string) : Res string :=
  match find_char "{"%char dataDir with
  | None => Ok dataDir
  | Some leftPos =>
      match find_char "}"%char dataDir with
      | None => Ok dataDir
      | Some rightPos =>
          if (rightPos <=? leftPos)%nat then Throw invalid_argument
          else if String.eqb (substr leftPos (rightPos - leftPos + 1) dataDir)
                    "{worker}"
               then Ok (replace leftPos (rightPos - leftPos + 1) workerName dataDir)
               else Ok dataDir
      end
  end.

(** What [load] comes to: the configuration made, the exception of the code
    that was to make it, or the [std::invalid_argument] of [load] itself. *)
Inductive Loaded (A E : Type) : Type :=
| Made (a : A)
| Failed (e : E)
| Refused.

Arguments Made {A E} a.
Arguments Failed {A E} e.
Arguments Refused {A E}.

Definition made {A E : Type} (r : A + E) : Loaded A E :=
  match r with
  | inl a => Made a
  | inr e => Failed e
  end.

(** [Configuration::defaultDatabaseHost], [defaultDatabasePort] and
    [defaultDatabasePassword]. *)
Definition defaultDatabaseHost : string := "localhost".
Definition defaultDatabasePort : N := 3306.
Definition defaultDatabasePassword : string := "".

Section Load.

(** The code that makes a configuration is not among the sources, or calls
    code that is not: the constructor of [ConfigurationFile], the parser
    [database::mysql::ConnectionParams::parse] and the constructor of
    [ConfigurationMySQL], which loads the configuration from the database.
    Each returns its object or throws.  [defaultDatabaseUser] is the user
    [FileUtils::getEffectiveUser] reports. *)
Variables Ptr ConnectionParams Failure : Type.
Variable ConfigurationFile : string -> Ptr + Failure.
Variable parse :
  string -> string -> N -> string -> string -> ConnectionParams + Failure.
Variable ConfigurationMySQL : ConnectionParams -> Ptr + Failure.
Variable defaultDatabaseUser : string.

(** [Configuration::load(std::string const& configUrl)] *)
Definition load (configUrl : string) : Loaded Ptr Failure :=
  match find_char ":"%char configUrl with
  | Some pos =>
      let prefix := substr 0 pos configUrl in
      let suffix := substr_from (pos + 1) configUrl in
      if String.eqb "file" prefix then made (ConfigurationFile suffix)
      else if String.eqb "mysql" prefix then
        match parse configUrl defaultDatabaseHost defaultDatabasePort
                defaultDatabaseUser defaultDatabasePassword with
        | inl connectionParams => made (ConfigurationMySQL connectionParams)
        | inr e => Failed e
        end
      else Refused
  | None => Refused
  end.

End Load.

(** The fields of [WorkerInfo], [DatabaseInfo] and [DatabaseFamilyInfo], as
    the three operators [<<] print them. *)
Record WorkerInfo : Type := mkWorkerInfo {
  name : string;
  isEnabled : bool;
  isReadOnly : bool;
  svcHost : string;
  svcPort : N;
  fsHost : string;
  fsPort : N;
  dataDir : string
}.

Record DatabaseInfo : Type := mkDatabaseInfo {
  database_name : string;
  family : string;
  partitionedTables : list string;
  regularTables : list string
}.

Record DatabaseFamilyInfo : Type := mkDatabaseFamilyInfo {
  family_name : string;
  replicationLevel_ : N;
  numStripes : N;
  numSubStripes : N
}.

(** A [std::map] with strings as keys: its entries in the order in which
    the map is iterated.  The keys of a map are distinct. *)
Definition Map (A : Type) : Type := list (string * A).

(** [map.find(key)], [None] for [end()]. *)
Fixpoint find {A : Type} (key : string) (m : Map A) : option A :=
  match m with
  | [] => None
  | (k, a) :: rest => if String.eqb k key then Some a else find key rest
  end.

(** [map.count(key)] *)
Definition count {A : Type} (key : string) (m : Map A) : nat :=
  match find key m with
  | Some _ => 1
  | None => 0
  end.

(** The three maps of a configuration. *)
Record t : Type := mk {
  workerInfo_ : Map WorkerInfo;
  databaseInfo_ : Map DatabaseInfo;
  databaseFamilyInfo_ : Map DatabaseFamilyInfo
}.

(** [Configuration::workers] *)
Definition workers (enabled readOnly : bool) (c : t) : list string :=
  (List.filter
     (fun entry =>
        let info := snd entry in
        if enabled then isEnabled info && Bool.eqb readOnly (isReadOnly info)
        else negb (isEnabled info))
     (workerInfo_ c)).*1.

(** [std::set<std::string>::insert]: the elements of a set are kept in
    increasing order, each once. *)
Fixpoint set_insert (x : string) (set : list string) : list string :=
  match set with
  | [] => [x]
  | y :: rest =>
      match String.compare x y with
      | Eq => set
      | Lt => x :: set
      | Gt => y :: set_insert x rest
      end
  end.

(** [Configuration::databaseFamilies] *)
Definition databaseFamilies (c : t) : list string :=
  fold_left (fun familyNames elem => set_insert (family (snd elem)) familyNames)
    (databaseInfo_ c) [].

(** [Configuration::isKnownDatabaseFamily] *)
Definition isKnownDatabaseFamily (name : string) (c : t) : bool :=
  negb (Nat.eqb (count name (databaseFamilyInfo_ c)) 0).

(** [Configuration::replicationLevel] *)
Definition replicationLevel (family : string) (c : t) : Res N :=
  match find family (databaseFamilyInfo_ c) with
  | None => Throw invalid_argument
  | Some info => Ok (replicationLevel_ info)
  end.

(** [Configuration::databaseFamilyInfo] *)
Definition databaseFamilyInfo (name : string) (c : t) : Res DatabaseFamilyInfo :=
  match find name (databaseFamilyInfo_ c) with
  | None => Throw invalid_argument
  | Some info => Ok info
  end.

(** [Configuration::databases] *)
Definition databases (family_ : string) (c : t) : Res (list string) :=
  if negb (String.eqb family_ "")
     && Nat.eqb (count family_ (databaseFamilyInfo_ c)) 0
  then Throw invalid_argument
  else Ok (List.filter
             (fun entry =>
                negb (negb (String.eqb family_ "")
                      && negb (String.eqb family_ (family (snd entry)))))
             (databaseInfo_ c)).*1.

(** [Configuration::isKnownWorker] *)
Definition isKnownWorker (name : string) (c : t) : bool :=
  (0 <? count name (workerInfo_ c))%nat.

(** [Configuration::workerInfo] *)
Definition workerInfo (name : string) (c : t) : Res WorkerInfo :=
  match find name (workerInfo_ c) with
  | None => Throw invalid_argument
  | Some info => Ok info
  end.

(** [Configuration::isKnownDatabase] *)
Definition isKnownDatabase (name : string) (c : t) : bool :=
  (0 <? count name (databaseInfo_ c))%nat.

(** [Configuration::databaseInfo] *)
Definition databaseInfo (name : string) (c : t) : Res DatabaseInfo :=
  match find name (databaseInfo_ c) with
  | None => Throw invalid_argument
  | Some info => Ok info
  end.

End Configuration.

(** ** DeleteWorkerJob.cc *)

Module DeleteWorkerJob.

(** [ReplicateJobResult::chunks] of ReplicateJob.h: the replicas by chunk,
    database and worker. *)
Definition ChunkMap : Type := gmap N (gmap string (gmap string ReplicaInfo)).

(** A child of the first stage: a [FindAllRequest], which is a [Request] to
    a worker for a database. *)
Record FindAllRequest : Type := mkRequest {
  base : Request.t;
  req_worker : string;
  req_database : string
}.

(** A child of the second or of the third stage, a [FindAllJob] or a
    [ReplicateJob]: a [Job] for a database family; [chunks] is what
    [getReplicaData().chunks] gives for a [ReplicateJob]. *)
Record ChildJob : Type := mkChild {
  child : Job.t;
  databaseFamily : string;
  chunks : ChunkMap
}.

(** The result of the job as DeleteWorkerJob.cc fills it:
    [chunks[family]] and [orphanChunks[chunk][database]]. *)
Record DeleteWorkerJobResult : Type := mkResult {
  result_chunks : gmap string ChunkMap;
  orphanChunks : gmap N (gmap string ReplicaInfo)
}.

(** The members of the job as DeleteWorkerJob.cc uses them (the header of
    the class is not among the sources; the three counters are counted
    without bound).  The children are shared with the controller, a pointer
    to a child being its position in its list.  The last three members
    record the calls of [Configuration::disableWorker], of
    [Configuration::deleteWorker] and of [Controller::stopReplicaFindAll]. *)
Record t : Type := mk {
  job : Job.t;
  worker : string;
  permanentDelete : bool;
  numLaunched : nat;
  numFinished : nat;
  numSuccess : nat;
  findAllRequests : list FindAllRequest;
  findAllJobs : list ChildJob;
  replicateJobs : list ChildJob;
  replicaData : DeleteWorkerJobResult;
  disableWorkerCalls : list string;
  deleteWorkerCalls : list string;
  stopReplicaFindAllCalls : list (string * string)
}.

Definition withJob (b : Job.t) (j : t) : t :=
  mk b (worker j) (permanentDelete j) (numLaunched j) (numFinished j)
     (numSuccess j) (findAllRequests j) (findAllJobs j) (replicateJobs j)
     (replicaData j) (disableWorkerCalls j) (deleteWorkerCalls j)
     (stopReplicaFindAllCalls j).

Definition withCounters (launched finished success : nat) (j : t) : t :=
  mk (job j) (worker j) (permanentDelete j) launched finished success
     (findAllRequests j) (findAllJobs j) (replicateJobs j) (replicaData j)
     (disableWorkerCalls j) (deleteWorkerCalls j) (stopReplicaFindAllCalls j).

Definition withFindAllRequests (l : list FindAllRequest) (j : t) : t :=
  mk (job j) (worker j) (permanentDelete j) (numLaunched j) (numFinished j)
     (numSuccess j) l (findAllJobs j) (replicateJobs j) (replicaData j)
     (disableWorkerCalls j) (deleteWorkerCalls j) (stopReplicaFindAllCalls j).

Definition withFindAllJobs (l : list ChildJob) (j : t) : t :=
  mk (job j) (worker j) (permanentDelete j) (numLaunched j) (numFinished j)
     (numSuccess j) (findAllRequests j) l (replicateJobs j) (replicaData j)
     (disableWorkerCalls j) (deleteWorkerCalls j) (stopReplicaFindAllCalls j).

Definition withReplicateJobs (l : list ChildJob) (j : t) : t :=
  mk (job j) (worker j) (permanentDelete j) (numLaunched j) (numFinished j)
     (numSuccess j) (findAllRequests j) (findAllJobs j) l (replicaData j)
     (disableWorkerCalls j) (deleteWorkerCalls j) (stopReplicaFindAllCalls j).

Definition withReplicaData (d : DeleteWorkerJobResult) (j : t) : t :=
  mk (job j) (worker j) (permanentDelete j) (numLaunched j) (numFinished j)
     (numSuccess j) (findAllRequests j) (findAllJobs j) (replicateJobs j) d
     (disableWorkerCalls j) (deleteWorkerCalls j) (stopReplicaFindAllCalls j).

Definition withCalls (disabled deleted : list string)
    (stopped : list (string * string)) (j : t) : t :=
  mk (job j) (worker j) (permanentDelete j) (numLaunched j) (numFinished j)
     (numSuccess j) (findAllRequests j) (findAllJobs j) (replicateJobs j)
     (replicaData j) disabled deleted stopped.

(** The threads spawned by the [notify] of a child that have not run yet:
    such a thread calls [onRequestFinish] or one of the two [onJobFinish]
    with the pointer to the child. *)
Inductive Notifier : Type :=
| NotifyRequest (i : nat)
| NotifyFindAllJob (i : nat)
| NotifyReplicateJob (i : nat).

Record World : Type := mkWorld {
  self : t;
  notifiers : list Notifier
}.

(** What the job reads from the configuration, the database services and
    the controller: the databases and the database families, the replicas
    of a worker ([None] when the query fails), the intervals of the timers,
    the two flags of the requests the controller creates, and the ids
    [Generators::uniqueId] gives the [n]-th request and the [n]-th job. *)
Record Env : Type := mkEnv {
  databases : list string;
  databaseFamilies : list string;
  findWorkerReplicas : string -> option (list ReplicaInfo);
  jobHeartbeatTimeoutSec : N;
  jobTimeoutSec : N;
  controllerRequestTimeoutSec : N;
  keepTracking : bool;
  allowDuplicate : bool;
  requestId : nat -> string;
  jobId : nat -> string
}.

(** What a [ServiceStatusRequest] or a [ServiceDrainRequest] has to say
    once it has finished: its extended state and the state of the service
    ([ServiceState::State] of ServiceManagementRequestBase.h). *)
Inductive ServiceState : Type :=
| SUSPEND_IN_PROGRESS
| SUSPENDED
| RUNNING.

Record ServiceReport : Type := mkReport {
  report_extendedState : Request.ExtendedState;
  report_state : ServiceState
}.

Definition available (r : ServiceReport) : bool :=
  match report_extendedState r, report_state r with
  | Request.SUCCESS, RUNNING => true
  | _, _ => false
  end.

(** [DeleteWorkerJob::create] *)
Definition create (i worker : string) (permanentDelete : bool) : World :=
  mkWorld
    (mk (Job.mk i Job.CREATED Job.NONE false false 0) worker permanentDelete
        0 0 0 [] [] [] (mkResult ∅ ∅) [] [] [])
    [].

(** [DeleteWorkerJob::getReplicaData] *)
Definition getReplicaData (j : t) : Res DeleteWorkerJobResult :=
  if Job.finished (job j) then Ok (replicaData j) else Throw logic_error.

Definition setState (st : Job.State) (ext : Job.ExtendedState) (w : World) : World :=
  mkWorld (withJob (Job.setState st ext (job (self w))) (self w)) (notifiers w).

(** [controller()->findAllReplicas] in the loop of [startImpl]: a request
    for the database is created and started, and it is appended to
    [_findAllRequests]. *)
Definition launchRequest (env : Env) (w : World) (database : string) : World :=
  let j := self w in
  let request :=
    mkRequest
      (Request.mk (requestId env (length (findAllRequests j)))
         (keepTracking env) (allowDuplicate env) Request.IN_PROGRESS Request.NONE
         WorkerRequest.EXT_STATUS_NONE "" (controllerRequestTimeoutSec env)
         (negb (N.eqb (controllerRequestTimeoutSec env) 0)) 0)
      (worker j) database in
  mkWorld (withCounters (S (numLaunched j)) (numFinished j) (numSuccess j)
             (withFindAllRequests (findAllRequests j ++ [request]) j))
          (notifiers w).

(** A child job after [create] and [start].  A child that [start] finishes
    at once has spawned the thread of its notification, which waits for the
    lock of this job: it is a child that finishes before anything else
    happens. *)
Definition startedJob (env : Env) (n : nat) : Job.t :=
  Job.setState Job.IN_PROGRESS Job.NONE
    (Job.startTimers (jobHeartbeatTimeoutSec env) (jobTimeoutSec env)
       (Job.mk (jobId env n) Job.CREATED Job.NONE false false 0)).

(** One turn of the loop of [disableWorker]. *)
Definition launchFindAllJob (env : Env) (w : World) (family : string) : World :=
  let j := self w in
  let n := (length (findAllJobs j) + length (replicateJobs j))%nat in
  mkWorld (withCounters (S (numLaunched j)) (numFinished j) (numSuccess j)
             (withFindAllJobs
                (findAllJobs j ++ [mkChild (startedJob env n) family ∅]) j))
          (notifiers w).

(** One turn of the loop of [onJobFinish(FindAllJob)]. *)
Definition launchReplicateJob (env : Env) (w : World) (family : string) : World :=
  let j := self w in
  let n := (length (findAllJobs j) + length (replicateJobs j))%nat in
  mkWorld (withCounters (S (numLaunched j)) (numFinished j) (numSuccess j)
             (withReplicateJobs
                (replicateJobs j ++ [mkChild (startedJob env n) family ∅]) j))
          (notifiers w).

(** [DeleteWorkerJob::disableWorker] *)
Definition disableWorker (env : Env) (w : World) : World :=
  let j := self w in
  let j := withCalls (disableWorkerCalls j ++ [worker j]) (deleteWorkerCalls j)
             (stopReplicaFindAllCalls j) j in
  let j := withCounters 0 0 0 j in
  fold_left (launchFindAllJob env) (databaseFamilies env)
    (mkWorld j (notifiers w)).

(** [DeleteWorkerJob::startImpl]; [status] and [drain] are what the two
    requests to the service of the worker report once they have finished,
    for which the method waits. *)
Definition startImpl (env : Env) (status drain : ServiceReport) (w : World) :
    World :=
  if available status && available drain
  then setState Job.IN_PROGRESS Job.NONE
         (fold_left (launchRequest env) (databases env) w)
  else setState Job.IN_PROGRESS Job.NONE (disableWorker env w).

(** [Job::start] *)
Definition start (env : Env) (status drain : ServiceReport) (w : World) :
    Res World :=
  match Job.state (job (self w)) with
  | Job.CREATED =>
      let w := mkWorld (withJob (Job.startTimers (jobHeartbeatTimeoutSec env)
                                   (jobTimeoutSec env) (job (self w))) (self w))
                       (notifiers w) in
      let w := startImpl env status drain w in
      match Job.state (job (self w)) with
      | Job.FINISHED =>
          Ok (mkWorld (withJob (Job.notify (job (self w))) (self w)) (notifiers w))
      | Job.IN_PROGRESS => Ok w
      | Job.CREATED => Throw logic_error
      end
  | _ => Throw logic_error
  end.

(** [Request::finish] at the request with the pointer [i]: a request that
    was not finished is finished, and its [notify] spawns a thread. *)
Definition finishRequest (i : nat) (extendedState : Request.ExtendedState)
    (w : World) : World :=
  match findAllRequests (self w) !! i with
  | Some r =>
      if Request.finished (base r) then w
      else mkWorld
             (withFindAllRequests
                (<[i := mkRequest (Request.finish extendedState (base r))
                          (req_worker r) (req_database r)]>
                   (findAllRequests (self w)))
                (self w))
             (notifiers w ++ [NotifyRequest i])
  | None => w
  end.

(** [Job::finish] on a child job, whose [cancelImpl] acts on its own
    children. *)
Definition finishChild (extendedState : Job.ExtendedState) (c : ChildJob) :
    ChildJob :=
  mkChild (Job.notify (Job.cancelTimers
                         (Job.setState Job.FINISHED extendedState (child c))))
          (databaseFamily c) (chunks c).

Definition finishFindAllJob (i : nat) (extendedState : Job.ExtendedState)
    (w : World) : World :=
  match findAllJobs (self w) !! i with
  | Some c =>
      if Job.finished (child c) then w
      else mkWorld
             (withFindAllJobs
                (<[i := finishChild extendedState c]> (findAllJobs (self w)))
                (self w))
             (notifiers w ++ [NotifyFindAllJob i])
  | None => w
  end.

Definition finishReplicateJob (i : nat) (extendedState : Job.ExtendedState)
    (w : World) : World :=
  match replicateJobs (self w) !! i with
  | Some c =>
      if Job.finished (child c) then w
      else mkWorld
             (withReplicateJobs
                (<[i := finishChild extendedState c]> (replicateJobs (self w)))
                (self w))
             (notifiers w ++ [NotifyReplicateJob i])
  | None => w
  end.

(** [Request::cancel] at the request with the pointer [i]. *)
Definition cancelRequest (i : nat) (w : World) : World :=
  finishRequest i Request.CANCELLED w.

(** One turn of the first loop of [cancelImpl]: the request is cancelled,
    and the worker is asked to stop it if that left it unfinished. *)
Definition cancelOne (w : World) (i : nat) : World :=
  let w := cancelRequest i w in
  match findAllRequests (self w) !! i with
  | Some r =>
      if Request.finished (base r) then w
      else mkWorld
             (withCalls (disableWorkerCalls (self w)) (deleteWorkerCalls (self w))
                (stopReplicaFindAllCalls (self w)
                 ++ [(req_worker r, Request.id (base r))])
                (self w))
             (notifiers w)
  | None => w
  end.

(** [DeleteWorkerJob::cancelImpl]; [Job::cancel] on a child finishes it with
    CANCELLED unless it is finished. *)
Definition cancelImpl (w : World) : World :=
  let w := fold_left cancelOne (seq 0 (length (findAllRequests (self w)))) w in
  let w := fold_left (fun w i => finishFindAllJob i Job.CANCELLED w)
             (seq 0 (length (findAllJobs (self w)))) w in
  fold_left (fun w i => finishReplicateJob i Job.CANCELLED w)
    (seq 0 (length (replicateJobs (self w)))) w.

(** [Job::finish] *)
Definition finish (newExtendedState : Job.ExtendedState) (w : World) : World :=
  if Job.finished (job (self w)) then w
  else
    let w := setState Job.FINISHED newExtendedState w in
    let w := match newExtendedState with
             | Job.SUCCESS => w
             | _ => cancelImpl w
             end in
    mkWorld (withJob (Job.notify (Job.cancelTimers (job (self w)))) (self w))
            (notifiers w).

(** [Job::cancel] *)
Definition cancel (w : World) : World :=
  if Job.finished (job (self w)) then w
  else if Job.finished (job (self w)) then w
  else finish Job.CANCELLED w.

(** [Job::expired] *)
Definition expired (ec : error_code) (w : World) : World :=
  if is_aborted ec then w
  else if Job.finished (job (self w)) then w
  else if Job.finished (job (self w)) then w
  else finish Job.TIMEOUT_EXPIRED w.

(** [DeleteWorkerJob::onRequestFinish], called with the pointer to the
    request. *)
Definition onRequestFinish (env : Env) (i : nat) (w : World) : World :=
  if Job.finished (job (self w)) then w
  else if Job.finished (job (self w)) then w
  else
    match findAllRequests (self w) !! i with
    | None => w
    | Some request =>
        let j := self w in
        let j := withCounters (numLaunched j) (S (numFinished j))
                   (match Request.extendedState (base request) with
                    | Request.SUCCESS => S (numSuccess j)
                    | _ => numSuccess j
                    end) j in
        let w := mkWorld j (notifiers w) in
        if Nat.eqb (numFinished j) (numLaunched j) then disableWorker env w
        else w
    end.

(** [DeleteWorkerJob::onJobFinish(FindAllJob::Ptr const&)] *)
Definition onFindAllJobFinish (env : Env) (i : nat) (w : World) : World :=
  if Job.finished (job (self w)) then w
  else if Job.finished (job (self w)) then w
  else
    match findAllJobs (self w) !! i with
    | None => w
    | Some c =>
        let j := self w in
        let j := withCounters (numLaunched j) (S (numFinished j)) (numSuccess j) j in
        match Job.extendedState (child c) with
        | Job.SUCCESS =>
            let j := withCounters (numLaunched j) (numFinished j)
                       (S (numSuccess j)) j in
            if Nat.eqb (numFinished j) (numLaunched j)
            then fold_left (launchReplicateJob env) (databaseFamilies env)
                   (mkWorld (withCounters 0 0 0 j) (notifiers w))
            else mkWorld j (notifiers w)
        | _ => finish Job.FAILED (mkWorld j (notifiers w))
        end
    end.

(** [chunks.count(chunk) and chunks.at(chunk).count(database)] *)
Definition holds (chunk : N) (database : string) (chunks : ChunkMap) : bool :=
  match chunks !! chunk with
  | Some byDatabase =>
      match byDatabase !! database with
      | Some _ => true
      | None => false
      end
  | None => false
  end.

(** The loop over [_replicaData.chunks] that computes [replicated]. *)
Definition replicated (chunk : N) (database : string)
    (byFamily : gmap string ChunkMap) : bool :=
  fold_left (fun replicated databaseFamilyEntry =>
               replicated || holds chunk database (snd databaseFamilyEntry))
    (map_to_list byFamily) false.

(** [_replicaData.orphanChunks[chunk][database] = replica] *)
Definition setOrphan (replica : ReplicaInfo)
    (m : gmap N (gmap string ReplicaInfo)) : gmap N (gmap string ReplicaInfo) :=
  <[ri_chunk replica :=
      <[ri_database replica := replica]> (default ∅ (m !! ri_chunk replica))]> m.

(** The loop over the replicas of the worker. *)
Definition addOrphans (replicas : list ReplicaInfo)
    (d : DeleteWorkerJobResult) : DeleteWorkerJobResult :=
  fold_left
    (fun d replica =>
       if replicated (ri_chunk replica) (ri_database replica) (result_chunks d)
       then d
       else mkResult (result_chunks d) (setOrphan replica (orphanChunks d)))
    replicas d.

(** [DeleteWorkerJob::onJobFinish(ReplicateJob::Ptr const&)] *)
Definition onReplicateJobFinish (env : Env) (i : nat) (w : World) : World :=
  if Job.finished (job (self w)) then w
  else if Job.finished (job (self w)) then w
  else
    match replicateJobs (self w) !! i with
    | None => w
    | Some c =>
        let j := self w in
        let j := withCounters (numLaunched j) (S (numFinished j)) (numSuccess j) j in
        match Job.extendedState (child c) with
        | Job.SUCCESS =>
            let j := withCounters (numLaunched j) (numFinished j)
                       (S (numSuccess j)) j in
            let j := withReplicaData
                       (mkResult
                          (<[databaseFamily c := chunks c]>
                             (result_chunks (replicaData j)))
                          (orphanChunks (replicaData j))) j in
            if Nat.eqb (numFinished j) (numLaunched j)
            then
              let j := match findWorkerReplicas env (worker j) with
                       | Some replicas =>
                           withReplicaData (addOrphans replicas (replicaData j)) j
                       | None => j
                       end in
              let j := if permanentDelete j
                       then withCalls (disableWorkerCalls j)
                              (deleteWorkerCalls j ++ [worker j])
                              (stopReplicaFindAllCalls j) j
                       else j in
              finish Job.SUCCESS (mkWorld j (notifiers w))
            else mkWorld j (notifiers w)
        | _ => finish Job.FAILED (mkWorld j (notifiers w))
        end
    end.

(** What happens to a job and its children: the job is started, cancelled
    or expires; a request finishes in some extended state (its response is
    analysed, it expires or is cancelled); a child job finishes, a
    [ReplicateJob] with its result; the thread of a notification runs, the
    one at the position [k] among those waiting. *)
Inductive Event : Type :=
| Start (status drain : ServiceReport)
| JobCancel
| JobExpired (ec : error_code)
| RequestFinish (i : nat) (extendedState : Request.ExtendedState)
| FindAllJobFinish (i : nat) (extendedState : Job.ExtendedState)
| ReplicateJobFinish (i : nat) (extendedState : Job.ExtendedState)
    (result : ChunkMap)
| Notify (k : nat).

(** A [ReplicateJob] that has not finished finishes with its result. *)
Definition completeReplicateJob (i : nat) (extendedState : Job.ExtendedState)
    (result : ChunkMap) (w : World) : World :=
  match replicateJobs (self w) !! i with
  | Some c =>
      if Job.finished (child c) then w
      else finishReplicateJob i extendedState
             (mkWorld
                (withReplicateJobs
                   (<[i := mkChild (child c) (databaseFamily c) result]>
                      (replicateJobs (self w)))
                   (self w))
                (notifiers w))
  | None => w
  end.

(** A call that throws leaves the job as it was. *)
Definition step (env : Env) (w : World) (e : Event) : World :=
  match e with
  | Start status drain =>
      match start env status drain w with
      | Ok w' => w'
      | Throw _ => w
      end
  | JobCancel => cancel w
  | JobExpired ec => expired ec w
  | RequestFinish i extendedState => finishRequest i extendedState w
  | FindAllJobFinish i extendedState => finishFindAllJob i extendedState w
  | ReplicateJobFinish i extendedState result =>
      completeReplicateJob i extendedState result w
  | Notify k =>
      match notifiers w !! k with
      | Some n =>
          let w := mkWorld (self w) (delete k (notifiers w)) in
          match n with
          | NotifyRequest i => onRequestFinish env i w
          | NotifyFindAllJob i => onFindAllJobFinish env i w
          | NotifyReplicateJob i => onReplicateJobFinish env i w
          end
      | None => w
      end
  end.

Definition run (env : Env) (events : list Event) (w : World) : World :=
  fold_left (step env) events w.

(** The job has finished with the extended state SUCCESS. *)
Definition succeeded (j : Job.t) : bool :=
  match Job.state j, Job.extendedState j with
  | Job.FINISHED, Job.SUCCESS => true
  | _, _ => false
  end.

(** [_replicaData.orphanChunks.at(chunk).at(database)], if present. *)
Definition orphan (chunk : N) (database : string)
    (m : gmap N (gmap string ReplicaInfo)) : option ReplicaInfo :=
  match m !! chunk with
  | Some byDatabase => byDatabase !! database
  | None => None
  end.

(** What the events of the children leave as it is: the members of the job
    other than the children, and the number of the children. *)
Definition unchanged (w w' : World) : Prop :=
  job (self w') = job (self w)
  /\ worker (self w') = worker (self w)
  /\ permanentDelete (self w') = permanentDelete (self w)
  /\ numLaunched (self w') = numLaunched (self w)
  /\ numFinished (self w') = numFinished (self w)
  /\ numSuccess (self w') = numSuccess (self w)
  /\ replicaData (self w') = replicaData (self w)
  /\ disableWorkerCalls (self w') = disableWorkerCalls (self w)
  /\ deleteWorkerCalls (self w') = deleteWorkerCalls (self w)
  /\ stopReplicaFindAllCalls (self w') = stopReplicaFindAllCalls (self w)
  /\ length (findAllRequests (self w')) = length (findAllRequests (self w))
  /\ length (findAllJobs (self w')) = length (findAllJobs (self w))
  /\ length (replicateJobs (self w')) = length (replicateJobs (self w)).

(** What a job for the worker [name] has done to the configuration and to
    the workers: it has asked no worker to stop a request; it has deleted
    the worker, once, if it has succeeded and was asked to, and not
    otherwise; the jobs of the third stage follow jobs of the second, those
    follow the disabling of the worker, and a job that has succeeded has
    been through the three stages. *)
Definition safe (name : string) (permanent : bool) (w : World) : Prop :=
  worker (self w) = name
  /\ permanentDelete (self w) = permanent
  /\ stopReplicaFindAllCalls (self w) = []
  /\ deleteWorkerCalls (self w)
     = (if succeeded (job (self w)) && permanent then [name] else [])
  /\ Forall (eq name) (disableWorkerCalls (self w))
  /\ (findAllJobs (self w) <> [] -> disableWorkerCalls (self w) <> [])
  /\ (replicateJobs (self w) <> [] -> findAllJobs (self w) <> [])
  /\ (succeeded (job (self w)) = true -> replicateJobs (self w) <> []).

(** The events other than the cancellation and the expiration of the job. *)
Definition quiet (e : Event) : bool :=
  match e with
  | JobCancel => false
  | JobExpired ec => is_aborted ec
  | _ => true
  end.

(** A child that has finished, and a child job that has finished with the
    extended state SUCCESS. *)
Definition requestDone (r : FindAllRequest) : bool := Request.finished (base r).

Definition childDone (c : ChildJob) : bool := Job.finished (child c).

Definition childSucceeded (c : ChildJob) : bool :=
  match Job.extendedState (child c) with
  | Job.SUCCESS => true
  | _ => false
  end.

Definition count {A : Type} (f : A -> bool) (l : list A) : nat :=
  length (List.filter f l).

Definition forRequest (n : Notifier) : bool :=
  match n with
  | NotifyRequest _ => true
  | _ => false
  end.

Definition forFindAllJob (n : Notifier) : bool :=
  match n with
  | NotifyFindAllJob _ => true
  | _ => false
  end.

Definition forReplicateJob (n : Notifier) : bool :=
  match n with
  | NotifyReplicateJob _ => true
  | _ => false
  end.

(** A thread that waits points to a child that has finished. *)
Definition pointed (w : World) (n : Notifier) : Prop :=
  match n with
  | NotifyRequest i =>
      exists r, findAllRequests (self w) !! i = Some r /\ requestDone r = true
  | NotifyFindAllJob i =>
      exists c, findAllJobs (self w) !! i = Some c /\ childDone c = true
  | NotifyReplicateJob i =>
      exists c, replicateJobs (self w) !! i = Some c /\ childDone c = true
  end.

(** Every entry of the result comes from a [ReplicateJob] that has
    finished. *)
Definition resultFromChildren (w : World) : Prop :=
  forall (family : string) (m : ChunkMap),
    result_chunks (replicaData (self w)) !! family = Some m ->
    exists (i : nat) (c : ChildJob),
      replicateJobs (self w) !! i = Some c /\ databaseFamily c = family
      /\ chunks c = m /\ childDone c = true.

(** The first stage: the requests; the counter of the finished children
    counts those whose notification has been delivered. *)
Definition stage1 (w : World) : Prop :=
  disableWorkerCalls (self w) = []
  /\ findAllJobs (self w) = []
  /\ replicateJobs (self w) = []
  /\ numLaunched (self w) = length (findAllRequests (self w))
  /\ (numFinished (self w) + count forRequest (notifiers w)
      = count requestDone (findAllRequests (self w)))%nat
  /\ ((numFinished (self w) < numLaunched (self w))%nat
      \/ numLaunched (self w) = 0%nat).

(** The second stage: one [FindAllJob] for each family; a child that has
    failed has not been heard of yet. *)
Definition stage2 (env : Env) (w : World) : Prop :=
  disableWorkerCalls (self w) <> []
  /\ replicateJobs (self w) = []
  /\ forallb requestDone (findAllRequests (self w)) = true
  /\ count forRequest (notifiers w) = 0%nat
  /\ map databaseFamily (findAllJobs (self w)) = databaseFamilies env
  /\ numLaunched (self w) = length (findAllJobs (self w))
  /\ (numFinished (self w) + count forFindAllJob (notifiers w)
      = count childDone (findAllJobs (self w)))%nat
  /\ ((numFinished (self w) < numLaunched (self w))%nat
      \/ numLaunched (self w) = 0%nat)
  /\ (forall i c, findAllJobs (self w) !! i = Some c ->
                  childDone c = true -> childSucceeded c = false ->
                  In (NotifyFindAllJob i) (notifiers w)).

(** The third stage: one [ReplicateJob] for each family; the result holds
    the chunks of the children that have been heard of. *)
Definition stage3 (env : Env) (w : World) : Prop :=
  replicateJobs (self w) <> []
  /\ forallb requestDone (findAllRequests (self w)) = true
  /\ count forRequest (notifiers w) = 0%nat
  /\ count forFindAllJob (notifiers w) = 0%nat
  /\ map databaseFamily (findAllJobs (self w)) = databaseFamilies env
  /\ forallb childDone (findAllJobs (self w)) = true
  /\ forallb childSucceeded (findAllJobs (self w)) = true
  /\ map databaseFamily (replicateJobs (self w)) = databaseFamilies env
  /\ numLaunched (self w) = length (replicateJobs (self w))
  /\ (numFinished (self w) + count forReplicateJob (notifiers w)
      = count childDone (replicateJobs (self w)))%nat
  /\ (numFinished (self w) < numLaunched (self w))%nat
  /\ (forall i c, replicateJobs (self w) !! i = Some c ->
                  childDone c = true -> childSucceeded c = false ->
                  In (NotifyReplicateJob i) (notifiers w))
  /\ (forall i c, replicateJobs (self w) !! i = Some c ->
                  childDone c = true ->
                  ~ In (NotifyReplicateJob i) (notifiers w) ->
                  is_Some (result_chunks (replicaData (self w))
                             !! databaseFamily c)).

(** A job that has finished: its children have finished; if it has
    succeeded, it has had one child job of each kind for each family, all of
    which have succeeded, and its result holds the chunks of each family. *)
Definition ended (env : Env) (w : World) : Prop :=
  forallb requestDone (findAllRequests (self w)) = true
  /\ forallb childDone (findAllJobs (self w)) = true
  /\ forallb childDone (replicateJobs (self w)) = true
  /\ (succeeded (job (self w)) = true ->
      map databaseFamily (findAllJobs (self w)) = databaseFamilies env
      /\ map databaseFamily (replicateJobs (self w)) = databaseFamilies env
      /\ forallb childSucceeded (findAllJobs (self w)) = true
      /\ forallb childSucceeded (replicateJobs (self w)) = true
      /\ (forall c, In c (replicateJobs (self w)) ->
                    is_Some (result_chunks (replicaData (self w))
                               !! databaseFamily c))).

(** What the events of the children and the cancellation of the children
    keep: a child that has finished stays as it is, a new thread points to a
    child that has finished, and the result is not touched. *)
Definition kept (w w' : World) : Prop :=
  (forall i r, findAllRequests (self w) !! i = Some r -> requestDone r = true ->
               findAllRequests (self w') !! i = Some r)
  /\ (forall i c, findAllJobs (self w) !! i = Some c -> childDone c = true ->
                  findAllJobs (self w') !! i = Some c)
  /\ (forall i c, replicateJobs (self w) !! i = Some c -> childDone c = true ->
                  replicateJobs (self w') !! i = Some c)
  /\ (forall n, In n (notifiers w') -> In n (notifiers w) \/ pointed w' n)
  /\ result_chunks (replicaData (self w'))
     = result_chunks (replicaData (self w)).

(** The invariant of the job and its children. *)
Definition fanIn (env : Env) (w : World) : Prop :=
  Forall (pointed w) (notifiers w)
  /\ resultFromChildren w
  /\ match Job.state (job (self w)) with
     | Job.CREATED =>
         findAllRequests (self w) = [] /\ findAllJobs (self w) = []
         /\ replicateJobs (self w) = [] /\ notifiers w = []
         /\ numLaunched (self w) = 0%nat /\ numFinished (self w) = 0%nat
         /\ disableWorkerCalls (self w) = []
     | Job.IN_PROGRESS => stage1 w \/ stage2 env w \/ stage3 env w
     | Job.FINISHED => ended env w
     end.

End DeleteWorkerJob.

(** ** VerifyJob.cc *)

Module VerifyJob.

(** [ReplicaInfo::FileInfo], as far as the comparison reads it: the size
    (a [uint64_t]), the modification time (a [std::time_t]) and the control
    sum, empty when it was not computed. *)
Record FileInfo : Type := mkFileInfo {
  size : N;
  mtime : Z;
  cs : string
}.

(** What the comparison reads of a replica, the class [ReplicaInfo] not
    being among the sources: its attributes, the number
    [fileInfo().size()] of its file entries and the map [fileInfoMap()] of
    the entries by file name. *)
Record Replica : Type := mkReplica {
  info : ReplicaInfo;
  numFiles : nat;
  fileInfoMap : gmap string FileInfo
}.

Record ReplicaDiff : Type := mkReplicaDiff {
  replica1 : Replica;
  replica2 : Replica;
  notEqual : bool;
  statusMismatch : bool;
  numFilesMismatch : bool;
  fileNamesMismatch : bool;
  fileSizeMismatch : bool;
  fileCsMismatch : bool;
  fileMtimeMismatch : bool
}.

(** [replica1.status() == replica2.status()] *)
Definition sameStatus (s1 s2 : ReplicaStatus) : bool :=
  match s1, s2 with
  | NOT_FOUND, NOT_FOUND => true
  | CORRUPT, CORRUPT => true
  | INCOMPLETE, INCOMPLETE => true
  | COMPLETE, COMPLETE => true
  | _, _ => false
  end.

(** [file2info[name]] of a [std::map]: the entry, a default-constructed one
    for a name the map does not have. *)
Definition at_ (file2info : gmap string FileInfo) (name : string) : FileInfo :=
  default (mkFileInfo 0 0 "") (file2info !! name).

(** One turn of the loop of the constructor over the entries [f] of
    [file2info1]. *)
Definition compareFile (file2info1 file2info2 : gmap string FileInfo)
    (d : ReplicaDiff) (f : string * FileInfo) : ReplicaDiff :=
  let name := fst f in
  match file2info2 !! name with
  | None =>
      mkReplicaDiff (replica1 d) (replica2 d) (notEqual d) (statusMismatch d)
        (numFilesMismatch d) true (fileSizeMismatch d) (fileCsMismatch d)
        (fileMtimeMismatch d)
  | Some _ =>
      let file1 := at_ file2info1 name in
      let file2 := at_ file2info2 name in
      mkReplicaDiff (replica1 d) (replica2 d) (notEqual d) (statusMismatch d)
        (numFilesMismatch d) (fileNamesMismatch d)
        (fileSizeMismatch d || negb (size file1 =? size file2)%N)
        (fileCsMismatch d
         || (negb (String.eqb (cs file1) "") && negb (String.eqb (cs file2) ""))
            && negb (String.eqb (cs file1) (cs file2)))
        (fileMtimeMismatch d || negb (mtime file1 =? mtime file2))
  end.

(** [ReplicaDiff::ReplicaDiff(replica1, replica2)].  The loop visits the
    entries of the first map; it only ever raises flags, each from the entry
    at hand, so the order of the visit does not show in the result. *)
Definition create (r1 r2 : Replica) : Res ReplicaDiff :=
  if negb (String.eqb (ri_database (info r1)) (ri_database (info r2)))
     || negb (ri_chunk (info r1) =? ri_chunk (info r2))%N
  then Throw invalid_argument
  else
    let file2info1 := fileInfoMap r1 in
    let file2info2 := fileInfoMap r2 in
    let d :=
      fold_left (compareFile file2info1 file2info2) (map_to_list file2info1)
        (mkReplicaDiff r1 r2 false
           (negb (sameStatus (ri_status (info r1)) (ri_status (info r2))))
           (negb (numFiles r1 =? numFiles r2)%nat)
           false false false false) in
    Ok (mkReplicaDiff (replica1 d) (replica2 d)
          (statusMismatch d || numFilesMismatch d || fileNamesMismatch d
           || fileSizeMismatch d || fileCsMismatch d || fileMtimeMismatch d)
          (statusMismatch d) (numFilesMismatch d) (fileNamesMismatch d)
          (fileSizeMismatch d) (fileCsMismatch d) (fileMtimeMismatch d)).

(** [ReplicaDiff::isSelf] *)
Definition isSelf (d : ReplicaDiff) : bool :=
  String.eqb (ri_worker (info (replica1 d))) (ri_worker (info (replica2 d))).

(** [ReplicaDiff::flags2string], on an object whose cache [_flags] is still
    empty. *)
Definition flags2string (d : ReplicaDiff) : string :=
  if notEqual d then
    "DIFF "
    ++ (if statusMismatch d then " status" else "")
    ++ (if numFilesMismatch d then " files" else "")
    ++ (if fileNamesMismatch d then " name" else "")
    ++ (if fileSizeMismatch d then " size" else "")
    ++ (if fileCsMismatch d then " cs" else "")
    ++ (if fileMtimeMismatch d then " mtime" else "")
  else "EQUAL".

(** Two entries of one file agree: size and time are the same, and so are
    the control sums where both were computed. *)
Definition agree (file1 file2 : FileInfo) : Prop :=
  size file1 = size file2 /\ mtime file1 = mtime file2
  /\ (cs file1 <> "" -> cs file2 <> "" -> cs file1 = cs file2).

(** What one turn of the loop looks for in the entry [f] of the first map:
    a name the second map does not have, and entries of one name in both
    maps that [test] tells apart. *)
Definition missing (file2info2 : gmap string FileInfo)
    (f : string * FileInfo) : bool :=
  match file2info2 !! fst f with
  | None => true
  | Some _ => false
  end.

Definition differ (file2info1 file2info2 : gmap string FileInfo)
    (test : FileInfo -> FileInfo -> bool) (f : string * FileInfo) : bool :=
  match file2info2 !! fst f with
  | None => false
  | Some _ => test (at_ file2info1 (fst f)) (at_ file2info2 (fst f))
  end.

End VerifyJob.

(** ** Objects of the examples *)

(** A request for the examples: created by [DeleteRequest::create] and
    started, with the two tracking flags as given. *)
Definition started_request (keepTracking allowDuplicate : bool) : DeleteRequest.t :=
  DeleteRequest.mk
    (Request.mk "r1" keepTracking allowDuplicate Request.IN_PROGRESS Request.NONE
       WorkerRequest.EXT_STATUS_NONE "" 30 true 0)
    "db" 7 None None 0 [].

Definition response_with (st : proto.ReplicationStatus)
    (ext : proto.ReplicationStatusExt) : DeleteRequest.Response :=
  DeleteRequest.mkResponse st ext "" (mkReplicaInfo NOT_FOUND "w1" "db" 7) None.

(** Two requests for one worker, and a response that arrives whole for the
    request with the id [i]. *)
Definition wrapper_a : MessengerConnector.MessageWrapper :=
  MessengerConnector.mkWrapper "a" "delete db 7" false.

Definition wrapper_b : MessengerConnector.MessageWrapper :=
  MessengerConnector.mkWrapper "b" "delete db 8" false.

Definition answer (i : string) : MessengerConnector.Incoming :=
  MessengerConnector.mkIncoming ec_success i ec_success ec_success true.

(** Both requests are submitted before the connection is made, then each is
    written and answered. *)
Definition two_exchanges : list MessengerConnector.Event :=
  [ MessengerConnector.Send wrapper_a; MessengerConnector.Send wrapper_b;
    MessengerConnector.Resolved ec_success; MessengerConnector.Connected ec_success;
    MessengerConnector.RequestSent ec_success;
    MessengerConnector.ResponseReceived ec_success (answer "a");
    MessengerConnector.RequestSent ec_success;
    MessengerConnector.ResponseReceived ec_success (answer "b") ].

Definition after_two_exchanges : MessengerConnector.t :=
  MessengerConnector.mk MessengerConnector.STATE_COMMUNICATING [] None 1 1 2 0
    [wrapper_a; wrapper_b] [("a", true); ("b", true)].

(** A connector that has written [wrapper_a] to the socket and waits for the
    response, with the requests [queue] behind it. *)
Definition awaiting_a (queue : list MessengerConnector.MessageWrapper) :
    MessengerConnector.t :=
  MessengerConnector.mk MessengerConnector.STATE_COMMUNICATING queue
    (Some wrapper_a) 1 1 1 0 [wrapper_a] [].

(** A family of two databases whose chunks the worker "w1" holds and the
    worker "w2" does not; and a configuration in which no worker holds any. *)
Definition two_databases : CreateReplicaJob.Env :=
  CreateReplicaJob.mkEnv (fun _ => true) (fun _ => true)
    (fun chunk worker family =>
       if bool_decide (worker = "w1")
       then Some [mkReplicaInfo COMPLETE "w1" "d1" chunk;
                  mkReplicaInfo COMPLETE "w1" "d2" chunk]
       else Some [])
    false 0 0 0 (fun n => if Nat.eqb n 0 then "r0" else "r1").


(** A job that is to copy the chunk 7 from "w1" to "w2", new and started. *)
Definition new_job : CreateReplicaJob.World :=
  CreateReplicaJob.create "j1" "F" 7 "w1" "w2".

Definition started_job : CreateReplicaJob.World :=
  CreateReplicaJob.step two_databases new_job CreateReplicaJob.Start.

Definition replica_d1 : ReplicaInfo := mkReplicaInfo COMPLETE "w2" "d1" 7.

(** The request for "d1" succeeds, then the one for "d2" fails. *)
Definition one_succeeds_one_fails : list CreateReplicaJob.Event :=
  [ CreateReplicaJob.Response 0 Request.SUCCESS replica_d1;
    CreateReplicaJob.Response 1 Request.SERVER_ERROR
      (mkReplicaInfo NOT_FOUND "w2" "d2" 7) ].

(** After the two responses, with both notifications waiting. *)
Definition both_answered : CreateReplicaJob.World :=
  CreateReplicaJob.run two_databases one_succeeds_one_fails started_job.

(** The request for "d1" as [both_answered] holds it. *)
Definition succeeded_request : CreateReplicaJob.ReplicationRequest :=
  CreateReplicaJob.mkRequest
    (Request.mk "r0" true true Request.FINISHED Request.SUCCESS
       WorkerRequest.EXT_STATUS_NONE "" 0 false 1)
    "d1" replica_d1.


Definition notified_out_of_order : list CreateReplicaJob.Event :=
  one_succeeds_one_fails
  ++ [CreateReplicaJob.Notifier 1; CreateReplicaJob.Notifier 0].

(** Scenario A of the specification: the chunk 5 of the family "F". *)
Definition chunk5 : ChunkLocker.Chunk := ("F", 5%N).

Definition locked_by_jobA : ChunkLocker.t :=
  ChunkLocker.mk (<[chunk5 := "jobA"]> ∅).

(** The first of two requests is written to the socket and the read of its
    response fails; then the connector is stopped. *)
Definition failed_read_then_stop : list MessengerConnector.Call :=
  [ MessengerConnector.Handle (MessengerConnector.Send wrapper_a);
    MessengerConnector.Handle (MessengerConnector.Send wrapper_b);
    MessengerConnector.Handle (MessengerConnector.Resolved ec_success);
    MessengerConnector.Handle (MessengerConnector.Connected ec_success);
    MessengerConnector.Handle (MessengerConnector.RequestSent ec_success);
    MessengerConnector.Handle
      (MessengerConnector.ResponseReceived ec_failure (answer "a"));
    MessengerConnector.Stop (fun _ => false) ].


(** The response for the request in flight arrives, then the connector is
    stopped. *)
Definition answered_then_stop : list MessengerConnector.Call :=
  [ MessengerConnector.Handle
      (MessengerConnector.ResponseReceived ec_success (answer "a"));
    MessengerConnector.Stop (fun _ => true) ].

(** Both requests are submitted and the connection is made. *)
Definition two_submitted : list MessengerConnector.Call :=
  [ MessengerConnector.Handle (MessengerConnector.Send wrapper_a);
    MessengerConnector.Handle (MessengerConnector.Send wrapper_b);
    MessengerConnector.Handle (MessengerConnector.Resolved ec_success);
    MessengerConnector.Handle (MessengerConnector.Connected ec_success) ].

(** A request of the worker for the deletion of the chunk 7 of "db": as it
    waits in the queue of the new requests, and in progress since the time 5
    with 3000 milliseconds accumulated. *)
Definition queued_deletion : WorkerProcessor.Ptr :=
  WorkerProcessor.mkPtr
    (WorkerRequest.mk "r1" 0 WorkerRequest.STATUS_NONE
       WorkerRequest.EXT_STATUS_NONE (WorkerRequest.mkPerformance 0 0) 0)
    (WorkerProcessor.Delete "db" 7).

Definition deletion_in_progress : WorkerProcessor.Ptr :=
  WorkerProcessor.mkPtr
    (WorkerRequest.mk "r1" 0 WorkerRequest.STATUS_IN_PROGRESS
       WorkerRequest.EXT_STATUS_NONE (WorkerRequest.mkPerformance 5 0) 3000)
    (WorkerProcessor.Delete "db" 7).

(** A request in progress that has accumulated no duration yet. *)
Definition fresh_in_progress : WorkerRequest.t :=
  WorkerRequest.mk "r1" 0 WorkerRequest.STATUS_IN_PROGRESS
    WorkerRequest.EXT_STATUS_NONE (WorkerRequest.mkPerformance 5 0) 0.

(** A queue of new requests kept in the order of arrival: the top is the
    first request, and [remove] takes out the requests with the id. *)
Definition top_first (first : WorkerProcessor.Ptr)
    (others : list WorkerProcessor.Ptr) : WorkerProcessor.Ptr := first.

Definition pop_first (first : WorkerProcessor.Ptr)
    (others : list WorkerProcessor.Ptr) : list WorkerProcessor.Ptr := others.

Definition remove_id (i : string) (queue : list WorkerProcessor.Ptr) :
    list WorkerProcessor.Ptr :=
  filter (fun p => WorkerProcessor.id p <> i) queue.

(** A reference into the queue that keeps to what it was bound to. *)
Definition bound_element (k : nat) (before after : list WorkerProcessor.Ptr) :
    WorkerProcessor.Ptr :=
  nth k before (WorkerProcessor.mkPtr
                  (WorkerRequest.mk "" 0 WorkerRequest.STATUS_NONE
                     WorkerRequest.EXT_STATUS_NONE
                     (WorkerRequest.mkPerformance 0 0) 0)
                  (WorkerProcessor.Echo "" 0)).

(** A [util::BlockPost] that takes every range. *)
Definition any_range (minMilliseconds maxMilliseconds : Z) : Res unit := Ok tt.

(** A request to look for the chunk 8 of "db", in progress since the time 4. *)
Definition find_in_progress : WorkerProcessor.Ptr :=
  WorkerProcessor.mkPtr
    (WorkerRequest.mk "r2" 1 WorkerRequest.STATUS_IN_PROGRESS
       WorkerRequest.EXT_STATUS_NONE (WorkerRequest.mkPerformance 4 0) 1200)
    (WorkerProcessor.Find "db" 8 false).

(** The processor with one request that waits and one in progress. *)
Definition one_of_each : WorkerProcessor.t :=
  WorkerProcessor.mk "w1" [queued_deletion] [find_in_progress] [].

(** The processor of the worker "w1" with the deletion in its queue of new
    requests, and with the deletion in progress. *)
Definition one_queued : WorkerProcessor.t :=
  WorkerProcessor.mk "w1" [queued_deletion] [] [].

Definition one_in_progress : WorkerProcessor.t :=
  WorkerProcessor.mk "w1" [] [deletion_in_progress] [].


(** The worker answers that the request duplicates its request "r0". *)
Definition duplicate_of_r0 : DeleteRequest.Response :=
  DeleteRequest.mkResponse proto.BAD proto.DUPLICATE "r0"
    (mkReplicaInfo NOT_FOUND "w1" "db" 7) None.

(** A request is started, the worker answers that it succeeded, and the
    same response arrives once more; then the request is cancelled. *)
Definition answered_twice : list DeleteRequest.Event :=
  [ DeleteRequest.Start 30;
    DeleteRequest.Analyze true (response_with proto.SUCCESS proto.NONE);
    DeleteRequest.Analyze true (response_with proto.SUCCESS proto.NONE);
    DeleteRequest.Cancel ].

(** A configuration with the database "d1" of the family "F", in which the
    worker to delete holds the chunks 7 and 8 of "d1"; and a configuration
    without any database. *)
Definition replica_of (chunk : N) : ReplicaInfo :=
  mkReplicaInfo COMPLETE "w9" "d1" chunk.

Definition one_family : DeleteWorkerJob.Env :=
  DeleteWorkerJob.mkEnv ["d1"] ["F"]
    (fun _ => Some [replica_of 7; replica_of 8]) 0 0 0 true false
    (fun _ => "r") (fun _ => "j").

Definition no_databases : DeleteWorkerJob.Env :=
  DeleteWorkerJob.mkEnv [] [] (fun _ => None) 0 0 0 true false
    (fun _ => "r") (fun _ => "j").

Definition service_running : DeleteWorkerJob.ServiceReport :=
  DeleteWorkerJob.mkReport Request.SUCCESS DeleteWorkerJob.RUNNING.

(** The result of a [ReplicateJob] that has made a replica of the chunk 7 of
    "d1" on the worker "w2". *)
Definition chunk7_replicated : DeleteWorkerJob.ChunkMap :=
  {[ 7%N := {[ "d1" := {[ "w2" := mkReplicaInfo COMPLETE "w2" "d1" 7 ]} ]} ]}.

(** The service of the worker is running; the request, the [FindAllJob] and
    the [ReplicateJob] succeed in turn, each heard of at once. *)
Definition deletion_succeeds : list DeleteWorkerJob.Event :=
  [ DeleteWorkerJob.Start service_running service_running;
    DeleteWorkerJob.RequestFinish 0 Request.SUCCESS;
    DeleteWorkerJob.Notify 0;
    DeleteWorkerJob.FindAllJobFinish 0 Job.SUCCESS;
    DeleteWorkerJob.Notify 0;
    DeleteWorkerJob.ReplicateJobFinish 0 Job.SUCCESS chunk7_replicated;
    DeleteWorkerJob.Notify 0 ].

(* ================================================================== *)
(** Two replicas of chunk 7 of one database, on two workers.  Their one
    file differs in size; the control sum of the first one was not
    computed. *)
Definition replica_on_w1 : VerifyJob.Replica :=
  VerifyJob.mkReplica (mkReplicaInfo COMPLETE "w1" "db" 7) 1
    {[ "chunk_7.MYD" := VerifyJob.mkFileInfo 100 5 "" ]}.

Definition replica_on_w2 : VerifyJob.Replica :=
  VerifyJob.mkReplica (mkReplicaInfo COMPLETE "w2" "db" 7) 1
    {[ "chunk_7.MYD" := VerifyJob.mkFileInfo 120 5 "abc" ]}.

(** * Properties *)
(* ================================================================== *)

Section WorkerRequestFacts.
Import WorkerRequest.

Lemma setStatus_status now st ext r r' :
  setStatus now st ext r = Ok r' -> status r' = st /\ id r' = id r.
Proof.
  unfold setStatus. destruct st; simpl; intros H; inversion H; auto.
Qed.

(** C10: [WorkerRequest::cancel] never throws; a request in STATUS_NONE or
    STATUS_CANCELLED ends in STATUS_CANCELLED (a request that has not
    started skips STATUS_IS_CANCELLING), one in STATUS_IN_PROGRESS or
    STATUS_IS_CANCELLING ends in STATUS_IS_CANCELLING, and one in
    STATUS_SUCCEEDED or STATUS_FAILED is returned as it was. *)
Theorem cancel_status_map (now : Z) (r : t) :
  exists r', cancel now r = Ok r'
    /\ id r' = id r
    /\ match status r with
       | STATUS_NONE | STATUS_CANCELLED => status r' = STATUS_CANCELLED
       | STATUS_IN_PROGRESS | STATUS_IS_CANCELLING =>
           status r' = STATUS_IS_CANCELLING
       | STATUS_SUCCEEDED | STATUS_FAILED => r' = r
       | STATUS_OTHER _ => r' = r
       end.
Proof.
  unfold cancel.
  destruct (status r) eqn:E; simpl; eexists; (split; [reflexivity|]);
    simpl; split; reflexivity.
Qed.

End WorkerRequestFacts.

Section WorkerProcessorFacts.
Import WorkerProcessor.

Variable push : Ptr -> list Ptr -> list Ptr.
Variable createReplicationRequest :
  string -> string -> Z -> string -> N -> string -> option Ptr.
Variable createDeleteRequest :
  string -> string -> Z -> string -> N -> option Ptr.

Lemma isDuplicate_kind (p : Ptr) (request : Request) :
  isDuplicate p request = true <->
  (exists sourceWorker,
      kind p = Replication (req_database request) (req_chunk request) sourceWorker)
  \/ kind p = Delete (req_database request) (req_chunk request).
Proof.
  unfold isDuplicate. destruct (kind p); simpl;
    rewrite ?andb_true_iff, ?bool_decide_eq_true; split;
    try (intros [-> ->]; eauto; fail);
    try (intros [[sw H]|H]; inversion H; auto; fail);
    try discriminate.
Qed.

Lemma scan_find (now : Z) (response : Response) (queue : list Ptr)
    (request : Request) :
  scan now response queue request =
  match List.find (fun p => isDuplicate p request) queue with
  | Some p => inl (rejected now response p)
  | None => inr response
  end.
Proof.
  induction queue as [|p rest IH]; simpl; [reflexivity|].
  unfold ifDuplicateRequest. destruct (isDuplicate p request); [reflexivity|].
  apply IH.
Qed.

Lemma find_app_first {A : Type} (f : A -> bool) (l1 l2 : list A) :
  List.find f (l1 ++ l2) =
  match List.find f l1 with
  | Some x => Some x
  | None => List.find f l2
  end.
Proof.
  induction l1 as [|a l1 IH]; simpl; [reflexivity|].
  destruct (f a); [reflexivity|apply IH].
Qed.

(** C5 (amended): when the new and the in-progress queue, scanned in this
    order, hold a replication or deletion request with the database and the
    chunk of the request to enqueue, [enqueueForReplication] and
    [enqueueForDeletion] leave the three queues as they were and answer
    BAD / DUPLICATE with the id of the first such request. *)
Theorem enqueue_duplicate_rejected (now : Z) (i : string) (request : Request)
    (response : Response) (q : t) (p : Ptr) :
  List.find (fun x => isDuplicate x request)
            (newRequests q ++ inProgressRequests q) = Some p ->
  enqueueForReplication push createReplicationRequest now i request response q
    = (q, rejected now response p)
  /\ enqueueForDeletion push createDeleteRequest now i request response q
    = (q, rejected now response p).
Proof.
  intros H. rewrite find_app_first in H.
  unfold enqueueForReplication, enqueueForDeletion.
  rewrite !scan_find.
  destruct (List.find _ (newRequests q)) as [p1|] eqn:E1.
  - inversion H; subst. split; reflexivity.
  - rewrite !scan_find, H. split; reflexivity.
Qed.

End WorkerProcessorFacts.

Lemma enqueue_duplicate_rejected_witness :
  let first := WorkerProcessor.create "r1" 0 (WorkerProcessor.Delete "db" 7%N) in
  let q := WorkerProcessor.mk "w" [] [first] [] in
  let request := WorkerProcessor.mkRequest 1 "db" 7%N "w0" in
  let response :=
    WorkerProcessor.mkResponse proto.SUCCESS proto.NONE None None None in
  WorkerProcessor.enqueueForReplication WorkerProcessor.push_back
    WorkerProcessor.testReplicationRequest 5 "r2" request response q
    = (q, WorkerProcessor.rejected 5 response first)
  /\ WorkerProcessor.enqueueForDeletion WorkerProcessor.push_back
    WorkerProcessor.testDeleteRequest 5 "r2" request response q
    = (q, WorkerProcessor.rejected 5 response first).
Proof.
  intros first q request response.
  apply (enqueue_duplicate_rejected WorkerProcessor.push_back
           WorkerProcessor.testReplicationRequest
           WorkerProcessor.testDeleteRequest 5 "r2" request response q first).
  reflexivity.
Defined.

(** C5 as stated fails: a find request queued for the same database and
    chunk is a request of the new queue whose pair matches, and the
    replication request is queued behind it with the answer QUEUED. *)
Lemma enqueue_behind_find_request :
  let first :=
    WorkerProcessor.create "r1" 0 (WorkerProcessor.Find "db" 7%N false) in
  let q := WorkerProcessor.mk "w" [first] [] [] in
  let request := WorkerProcessor.mkRequest 1 "db" 7%N "w0" in
  let response :=
    WorkerProcessor.mkResponse proto.SUCCESS proto.NONE None None None in
  let second :=
    WorkerProcessor.create "r2" 1 (WorkerProcessor.Replication "db" 7%N "w0") in
  WorkerProcessor.target first
    = Some (WorkerProcessor.req_database request, WorkerProcessor.req_chunk request)
  /\ WorkerProcessor.enqueueForReplication WorkerProcessor.push_back
       WorkerProcessor.testReplicationRequest 5 "r2" request response q
     = (WorkerProcessor.mk "w" [first; second] [] [],
        WorkerProcessor.mkResponse proto.QUEUED proto.NONE
          (Some (WorkerRequest.mkPerformance 0 0)) None
          (Some (WorkerProcessor.Replication "db" 7%N "w0"))).
Proof. split; reflexivity. Qed.

Section DeleteRequestFacts.
Import DeleteRequest.

Lemma finish_live (e : Request.ExtendedState) (b : Request.t) :
  Request.finished b = false ->
  Request.finish e b
  = Request.notify (Request.cancelExpirationTimer (Request.setState Request.FINISHED e b)).
Proof. intros H. unfold Request.finish. rewrite H. reflexivity. Qed.

Lemma outcome_finish (e : Request.ExtendedState) (r r1 : t) :
  Request.finished (base r1) = false ->
  outcome r (Ok (finish e r1)) = Finished e.
Proof.
  intros H. unfold outcome, finish. simpl. rewrite finish_live by exact H.
  reflexivity.
Qed.

Lemma outcome_wait (r r1 : t) :
  Request.finished (base r1) = false -> waits r1 = waits r ->
  outcome r (Ok (wait r1)) = Rearmed.
Proof.
  intros H W. unfold outcome, wait. simpl. rewrite H, W.
  rewrite bool_decide_eq_true_2; reflexivity.
Qed.

(** C6 (amended): for a request that has not finished, a failed exchange
    ([success = false]) finishes it with CLIENT_ERROR and a successful one
    never does; on a successful exchange SUCCESS finishes with SUCCESS,
    QUEUED / IN_PROGRESS / IS_CANCELLING arm the poll timer when keepTracking
    is set and finish with the matching SERVER_* state otherwise, FAILED
    finishes with SERVER_ERROR, CANCELLED with SERVER_CANCELLED, BAD with
    SERVER_BAD unless it reports a duplicate while allowDuplicate and
    keepTracking are set (the timer is armed then), and a status outside
    these seven raises a logic error. *)
Theorem analyze_outcome (message : Response) (r : t) :
  Request.finished (base r) = false ->
  outcome r (analyze false message r) = Finished Request.CLIENT_ERROR
  /\ outcome r (analyze true message r) <> Finished Request.CLIENT_ERROR
  /\ outcome r (analyze true message r) =
     let keepTracking := Request.keepTracking (base r) in
     match status message with
     | proto.SUCCESS => Finished Request.SUCCESS
     | proto.QUEUED =>
         if keepTracking then Rearmed else Finished Request.SERVER_QUEUED
     | proto.IN_PROGRESS =>
         if keepTracking then Rearmed else Finished Request.SERVER_IN_PROGRESS
     | proto.IS_CANCELLING =>
         if keepTracking then Rearmed else Finished Request.SERVER_IS_CANCELLING
     | proto.BAD =>
         match status_ext message with
         | proto.DUPLICATE =>
             if Request.allowDuplicate (base r) && keepTracking
             then Rearmed else Finished Request.SERVER_BAD
         | _ => Finished Request.SERVER_BAD
         end
     | proto.FAILED => Finished Request.SERVER_ERROR
     | proto.CANCELLED => Finished Request.SERVER_CANCELLED
     | proto.STATUS_UNKNOWN _ => Raised logic_error
     end.
Proof.
  intros Hlive.
  assert (Hrec : Request.finished (base (received message r)) = false)
    by exact Hlive.
  assert (Htable : outcome r (analyze true message r) =
     match status message with
     | proto.SUCCESS => Finished Request.SUCCESS
     | proto.QUEUED =>
         if Request.keepTracking (base r) then Rearmed
         else Finished Request.SERVER_QUEUED
     | proto.IN_PROGRESS =>
         if Request.keepTracking (base r) then Rearmed
         else Finished Request.SERVER_IN_PROGRESS
     | proto.IS_CANCELLING =>
         if Request.keepTracking (base r) then Rearmed
         else Finished Request.SERVER_IS_CANCELLING
     | proto.BAD =>
         match status_ext message with
         | proto.DUPLICATE =>
             if Request.allowDuplicate (base r) && Request.keepTracking (base r)
             then Rearmed else Finished Request.SERVER_BAD
         | _ => Finished Request.SERVER_BAD
         end
     | proto.FAILED => Finished Request.SERVER_ERROR
     | proto.CANCELLED => Finished Request.SERVER_CANCELLED
     | proto.STATUS_UNKNOWN _ => Raised logic_error
     end).
  { unfold analyze. rewrite Hlive. simpl negb. cbv iota.
    destruct (status message) eqn:Est; cbv zeta.
    - apply outcome_finish. exact Hlive.
    - change (Request.keepTracking (base (received message r)))
        with (Request.keepTracking (base r)).
      destruct (Request.keepTracking (base r));
        [apply outcome_wait | apply outcome_finish]; auto.
    - change (Request.keepTracking (base (received message r)))
        with (Request.keepTracking (base r)).
      destruct (Request.keepTracking (base r));
        [apply outcome_wait | apply outcome_finish]; auto.
    - change (Request.keepTracking (base (received message r)))
        with (Request.keepTracking (base r)).
      destruct (Request.keepTracking (base r));
        [apply outcome_wait | apply outcome_finish]; auto.
    - change (Request.extendedServerStatus (base (received message r)))
        with (translate (status_ext message)).
      destruct (status_ext message); simpl translate; cbv iota.
      + apply outcome_finish. exact Hlive.
      + apply outcome_finish. exact Hlive.
      + simpl Request.allowDuplicate. simpl Request.keepTracking.
        destruct (Request.allowDuplicate (base r) && Request.keepTracking (base r));
          [apply outcome_wait | apply outcome_finish]; auto.
    - apply outcome_finish. exact Hlive.
    - apply outcome_finish. exact Hlive.
    - reflexivity. }
  split; [|split].
  - unfold analyze. rewrite Hlive. simpl. apply outcome_finish. exact Hlive.
  - rewrite Htable.
    destruct (status message); try discriminate;
      try (destruct (Request.keepTracking (base r)); discriminate).
    destruct (status_ext message); try discriminate.
    destruct (Request.allowDuplicate (base r) && Request.keepTracking (base r));
      discriminate.
  - exact Htable.
Qed.

End DeleteRequestFacts.

Section RequestFacts.
Import Request.

Lemma finish_finished (e : ExtendedState) (r : t) :
  finished r = true -> finish e r = r.
Proof. intros H. unfold finish. rewrite H. reflexivity. Qed.

Lemma step_finished (r : t) (e : Event) : finished r = true -> step r e = r.
Proof.
  intros H. destruct e as [x| |ec]; simpl.
  - apply finish_finished, H.
  - unfold cancel. rewrite H. reflexivity.
  - unfold expired. rewrite H. destruct (is_aborted ec); reflexivity.
Qed.

Lemma run_finished (events : list Event) (r : t) :
  finished r = true -> run events r = r.
Proof.
  unfold run. induction events as [|e rest IH]; simpl; intros H; [reflexivity|].
  rewrite step_finished by exact H. apply IH, H.
Qed.

Lemma finish_once (e : ExtendedState) (r : t) : once r -> once (finish e r).
Proof.
  unfold once, finish. destruct (finished r) eqn:F; simpl.
  - rewrite F. auto.
  - intros ->. reflexivity.
Qed.

Lemma finish_is_finished (e : ExtendedState) (r : t) :
  finished (finish e r) = true.
Proof. unfold finish. destruct (finished r) eqn:F; auto. Qed.

Lemma step_once (r : t) (e : Event) : once r -> once (step r e).
Proof.
  intros H. destruct e as [x| |ec]; simpl.
  - apply finish_once, H.
  - unfold cancel. destruct (finished r); auto using finish_once.
  - unfold expired. destruct (is_aborted ec); auto.
    destruct (finished r); auto using finish_once.
Qed.

Lemma run_once (events : list Event) (r : t) : once r -> once (run events r).
Proof.
  unfold run. revert r. induction events as [|e rest IH]; simpl; auto.
  intros r H. apply IH, step_once, H.
Qed.

Lemma request_finish_live (e : ExtendedState) (r : t) :
  finished r = false ->
  state (finish e r) = FINISHED /\ extendedState (finish e r) = e
  /\ expirationTimer (finish e r) = false
  /\ notified (finish e r) = S (notified r).
Proof. intros H. unfold finish. rewrite H. simpl. auto. Qed.

Lemma request_cancel_live (r : t) : finished r = false -> cancel r = finish CANCELLED r.
Proof. intros H. unfold cancel. rewrite H. reflexivity. Qed.

Lemma request_expired_live (ec : error_code) (r : t) :
  finished r = false ->
  expired ec r = if is_aborted ec then r else finish TIMEOUT_EXPIRED r.
Proof. intros H. unfold expired. rewrite H. reflexivity. Qed.

(** An event ends a request that is not finished, unless it is the expiry of
    a timer that was cancelled. *)
Lemma request_step_live (r : t) (e : Event) :
  finished r = false ->
  (forall ec, e = Expired ec -> is_aborted ec = false) ->
  finished (step r e) = true /\ notified (step r e) = S (notified r).
Proof.
  intros H He. destruct e as [x| |ec]; simpl.
  - split; [apply finish_is_finished|apply request_finish_live, H].
  - rewrite request_cancel_live by exact H.
    split; [apply finish_is_finished|apply request_finish_live, H].
  - rewrite request_expired_live, (He ec eq_refl) by exact H.
    split; [apply finish_is_finished|apply request_finish_live, H].
Qed.

Lemma request_step_idle (r : t) (e : Event) :
  finished (step r e) = false -> step r e = r.
Proof.
  destruct e as [x| |ec]; simpl.
  - rewrite finish_is_finished. discriminate.
  - unfold cancel. destruct (finished r) eqn:F; [reflexivity|].
    rewrite finish_is_finished. discriminate.
  - unfold expired. destruct (is_aborted ec); [reflexivity|].
    destruct (finished r) eqn:F; [reflexivity|].
    rewrite finish_is_finished. discriminate.
Qed.

(** The events that race to end a request: the first that is not the expiry
    of a cancelled timer ends it, and the request is notified once. *)
Lemma request_run_live (events : list Event) (r : t) :
  finished r = false ->
  (exists e, In e events /\ forall ec, e = Expired ec -> is_aborted ec = false) ->
  finished (run events r) = true /\ notified (run events r) = S (notified r).
Proof.
  unfold run. induction events as [|e rest IH]; intros H (e0 & Hin & He0).
  - destruct Hin.
  - simpl. destruct (finished (step r e)) eqn:F.
    + change (fold_left step rest (step r e)) with (run rest (step r e)).
      rewrite (run_finished rest _ F). split; [exact F|].
      destruct e as [x| |ec]; simpl in *.
      * apply request_finish_live, H.
      * rewrite request_cancel_live by exact H. apply request_finish_live, H.
      * rewrite request_expired_live in * by exact H.
        destruct (is_aborted ec); [congruence|apply request_finish_live, H].
    + pose proof (request_step_idle r e F) as E. rewrite E. apply IH; [exact H|].
      exists e0. split; [|exact He0]. destruct Hin as [->|Hin]; [|exact Hin].
      destruct (request_step_live r e0 H He0) as [F' _]. congruence.
Qed.

End RequestFacts.

Section CreateReplicaJobFacts.
Import CreateReplicaJob.

Lemma finishRequest_self (i : nat) (e : Request.ExtendedState) (w : World) :
  self (finishRequest i e w) = self w.
Proof.
  unfold finishRequest. destruct (heap w !! i) as [r|]; [|reflexivity].
  destruct (Request.finished (base r)); reflexivity.
Qed.

Lemma finishRequest_heapOnce (i : nat) (e : Request.ExtendedState) (w : World) :
  heapOnce (heap w) -> heapOnce (heap (finishRequest i e w)).
Proof.
  unfold finishRequest, heapOnce. intros H.
  destruct (heap w !! i) as [r|] eqn:L; [|exact H].
  destruct (Request.finished (base r)) eqn:F; [exact H|]. simpl.
  apply Forall_insert; [exact H|]. simpl. apply finish_once.
  eapply Forall_lookup_1 in H; eauto.
Qed.

Lemma cancelOne_job (w : World) (i : nat) :
  job (self (cancelOne w i)) = job (self w).
Proof.
  unfold cancelOne, cancelRequest.
  destruct (heap (finishRequest i Request.CANCELLED w) !! i) as [r|];
    [destruct (Request.finished (base r))|]; simpl;
    rewrite finishRequest_self; reflexivity.
Qed.

Lemma cancelOne_heapOnce (w : World) (i : nat) :
  heapOnce (heap w) -> heapOnce (heap (cancelOne w i)).
Proof.
  intros H. unfold cancelOne, cancelRequest.
  pose proof (finishRequest_heapOnce i Request.CANCELLED w H) as H'.
  destruct (heap (finishRequest i Request.CANCELLED w) !! i) as [r|];
    [destruct (Request.finished (base r))|]; simpl; exact H'.
Qed.

Lemma cancelAll_frame (ptrs : list nat) (w : World) :
  job (self (fold_left cancelOne ptrs w)) = job (self w)
  /\ replicaData (self (fold_left cancelOne ptrs w)) = replicaData (self w)
  /\ (heapOnce (heap w) -> heapOnce (heap (fold_left cancelOne ptrs w))).
Proof.
  revert w. induction ptrs as [|i rest IH]; intros w; simpl; [auto|].
  destruct (IH (cancelOne w i)) as (H1 & H2 & H3).
  rewrite H1, H2, cancelOne_job. split; [reflexivity|]. split.
  - unfold cancelOne, cancelRequest.
    destruct (heap (finishRequest i Request.CANCELLED w) !! i) as [r|];
      [destruct (Request.finished (base r))|]; simpl;
      rewrite finishRequest_self; reflexivity.
  - intros H. apply H3, cancelOne_heapOnce, H.
Qed.

Lemma cancelImpl_frame (w : World) :
  job (self (cancelImpl w)) = job (self w)
  /\ replicaData (self (cancelImpl w)) = replicaData (self w)
  /\ (heapOnce (heap w) -> heapOnce (heap (cancelImpl w))).
Proof.
  unfold cancelImpl. simpl.
  destruct (cancelAll_frame (requests (self w)) w) as (H1 & H2 & H3).
  auto.
Qed.

(** What [Job::finish] does to a job that has not finished. *)
Lemma job_finish_live (e : Job.ExtendedState) (w : World) :
  Job.finished (job (self w)) = false ->
  job (self (finish e w))
  = Job.notify (Job.cancelTimers (Job.setState Job.FINISHED e (job (self w))))
  /\ replicaData (self (finish e w)) = replicaData (self w)
  /\ (heapOnce (heap w) -> heapOnce (heap (finish e w))).
Proof.
  intros L. unfold finish. rewrite L.
  set (w1 := mkWorld _ (heap w) (notifiers w)).
  assert (H : job (self match e with Job.SUCCESS => w1 | _ => cancelImpl w1 end)
              = job (self w1)
              /\ replicaData (self match e with
                                   | Job.SUCCESS => w1 | _ => cancelImpl w1 end)
                 = replicaData (self w1)
              /\ (heapOnce (heap w1) ->
                  heapOnce (heap match e with
                                 | Job.SUCCESS => w1 | _ => cancelImpl w1 end))).
  { destruct (cancelImpl_frame w1) as (H1 & H2 & H3). destruct e; auto. }
  destruct H as (H1 & H2 & H3).
  generalize dependent (match e with Job.SUCCESS => w1 | _ => cancelImpl w1 end).
  intros w2 H1 H2 H3. simpl. rewrite H1, H2. auto.
Qed.

Lemma finish_worldOnce (e : Job.ExtendedState) (w : World) :
  worldOnce w -> worldOnce (finish e w).
Proof.
  intros [HJ HH]. destruct (Job.finished (job (self w))) eqn:L.
  - unfold finish. rewrite L. split; assumption.
  - destruct (job_finish_live e w L) as (H1 & _ & H3). split; [|auto].
    rewrite H1. unfold jobOnce in *. rewrite L in HJ. simpl. rewrite HJ.
    reflexivity.
Qed.

Lemma respond_worldOnce (i : nat) (e : Request.ExtendedState)
    (data : ReplicaInfo) (w : World) :
  worldOnce w -> worldOnce (respond i e data w).
Proof.
  intros [HJ HH]. unfold respond.
  destruct (heap w !! i) as [r|] eqn:L; [|split; assumption].
  destruct (Request.finished (base r)) eqn:F; [split; assumption|].
  split.
  - rewrite finishRequest_self. exact HJ.
  - apply finishRequest_heapOnce. simpl. apply Forall_insert; [exact HH|].
    simpl. exact (Forall_lookup_1 _ _ _ _ HH L).
Qed.

Lemma finishRequest_worldOnce (i : nat) (e : Request.ExtendedState) (w : World) :
  worldOnce w -> worldOnce (finishRequest i e w).
Proof.
  intros [HJ HH]. split.
  - rewrite finishRequest_self. exact HJ.
  - apply finishRequest_heapOnce, HH.
Qed.

(** The loop of [startImpl]: one request per source replica is appended to
    the heap, in progress and not notified, and its pointer to [_requests]. *)
Lemma launch_all (env : Env) (sourceReplicas : list ReplicaInfo) (w : World) :
  let w' := fold_left (launch env) sourceReplicas w in
  job (self w') = job (self w)
  /\ replicaData (self w') = replicaData (self w)
  /\ notifiers w' = notifiers w
  /\ requests (self w')
     = requests (self w) ++ seq (length (heap w)) (length sourceReplicas)
  /\ exists launched,
       heap w' = heap w ++ launched
       /\ length launched = length sourceReplicas
       /\ Forall (fun r => Request.finished (base r) = false
                           /\ Request.notified (base r) = 0%nat) launched.
Proof.
  revert w. induction sourceReplicas as [|x rest IH]; intros w; simpl.
  - rewrite !app_nil_r. repeat split; auto. exists []. rewrite app_nil_r. auto.
  - destruct (IH (launch env w x)) as (H1 & H2 & H3 & H4 & l & H5 & H6 & H7).
    simpl in *. rewrite H1, H2, H3, H4, H5. repeat split; auto.
    + rewrite length_app. simpl. rewrite <- app_assoc. simpl.
      replace (length (heap w) + 1)%nat with (S (length (heap w))) by lia.
      reflexivity.
    + eexists (_ :: l). rewrite <- app_assoc. simpl. split; [reflexivity|].
      split; [congruence|]. constructor; [split; reflexivity|exact H7].
Qed.

Lemma startImpl_cases (env : Env) (w : World) :
  (exists e, startImpl env w = setState Job.FINISHED e w)
  \/ (exists sourceReplicas,
        sourceReplicas <> []
        /\ startImpl env w
           = setState Job.IN_PROGRESS Job.NONE
               (fold_left (launch env) sourceReplicas w)).
Proof.
  unfold startImpl.
  destruct (negb _); [left; eauto|].
  destruct (findWorkerReplicas env _ (destinationWorker (self w)) _) as [[|]|];
    try (left; eauto; fail).
  destruct (findWorkerReplicas env _ (sourceWorker (self w)) _) as [[|x l]|];
    try (left; eauto; fail).
  right. exists (x :: l). split; [discriminate|reflexivity].
Qed.

Lemma start_worldOnce (env : Env) (w w' : World) :
  start env w = Ok w' -> worldOnce w -> worldOnce w'.
Proof.
  unfold start. intros Hs [HJ HH].
  destruct (Job.state (job (self w))) eqn:Est; try discriminate.
  assert (N0 : Job.notified (job (self w)) = 0%nat).
  { unfold jobOnce, Job.finished in HJ. rewrite Est in HJ. exact HJ. }
  set (w1 := mkWorld _ (heap w) (notifiers w)) in Hs.
  destruct (startImpl_cases env w1) as [[e E]|(l & Hl & E)]; rewrite E in Hs.
  - simpl in Hs. inversion Hs; subst. split; simpl; [|exact HH].
    unfold jobOnce. simpl. rewrite N0. reflexivity.
  - destruct (launch_all env l w1) as (H1 & H2 & H3 & H4 & nl & H5 & H6 & H7).
    simpl in Hs. inversion Hs; subst. clear Hs. split; simpl.
    + unfold jobOnce. simpl. rewrite H1. simpl. exact N0.
    + rewrite H5. apply Forall_app. split; [exact HH|].
      eapply Forall_impl; [exact H7|]. intros r [F N]. unfold Request.once.
      rewrite F, N. reflexivity.
Qed.

Lemma onRequestFinish_frame (env : Env) (i : nat) (w : World) :
  worldOnce w -> worldOnce (onRequestFinish env i w).
Proof.
  intros [HJ HH]. unfold onRequestFinish.
  destruct (Job.finished (job (self w))) eqn:L; [split; assumption|].
  destruct (heap w !! i) as [request|]; [|split; assumption].
  set (j := match Request.extendedState (base request) with
            | Request.SUCCESS => record request (self w)
            | _ => self w
            end).
  assert (Hj : job j = job (self w)).
  { unfold j. destruct (Request.extendedState (base request)); reflexivity. }
  simpl.
  destruct (countRequestStates _) as [[numLaunched numFinished] numSuccess].
  destruct (Nat.eqb numFinished numLaunched).
  - destruct (Nat.eqb numSuccess numLaunched).
    + unfold succeed. apply finish_worldOnce. simpl.
      destruct (xrootdAutoNotify env);
        (split; simpl; [rewrite Hj|]; assumption).
    + apply finish_worldOnce. split; simpl; [rewrite Hj|]; assumption.
  - split; simpl; [rewrite Hj|]; assumption.
Qed.

Lemma step_worldOnce (env : Env) (w : World) (e : Event) :
  worldOnce w -> worldOnce (step env w e).
Proof.
  intros H. destruct e as [| |ec|i x data|i|i ec|k]; simpl.
  - destruct (start env w) as [w'|] eqn:E; [|exact H].
    eapply start_worldOnce; eauto.
  - unfold cancel. destruct (Job.finished (job (self w))); auto.
    apply finish_worldOnce, H.
  - unfold expired. destruct (is_aborted ec); auto.
    destruct (Job.finished (job (self w))); auto. apply finish_worldOnce, H.
  - apply respond_worldOnce, H.
  - apply finishRequest_worldOnce, H.
  - unfold expireRequest. destruct (is_aborted ec); auto.
    apply finishRequest_worldOnce, H.
  - destruct (notifiers w !! k); auto. apply onRequestFinish_frame.
    destruct H. split; assumption.
Qed.

Lemma run_worldOnce (env : Env) (events : list Event) (w : World) :
  worldOnce w -> worldOnce (run env events w).
Proof.
  unfold run. revert w. induction events as [|e rest IH]; simpl; auto.
  intros w H. apply IH, step_worldOnce, H.
Qed.

Lemma count_states_from (l : list ReplicationRequest) (a b c : nat) :
  fold_left
    (fun '(numLaunched, numFinished, numSuccess) ptr =>
       match Request.state (base ptr) with
       | Request.FINISHED =>
           match Request.extendedState (base ptr) with
           | Request.SUCCESS => (numLaunched, S numFinished, S numSuccess)
           | _ => (numLaunched, S numFinished, numSuccess)
           end
       | _ => (numLaunched, numFinished, numSuccess)
       end) l (a, b, c)
  = (a, (b + count is_finished l)%nat,
     (c + count (fun r => is_finished r && is_success r) l)%nat).
Proof.
  revert b c. induction l as [|r l IH]; intros b c.
  - unfold count. simpl. rewrite !Nat.add_0_r. reflexivity.
  - simpl. unfold count, is_finished, is_success, Request.finished in *. simpl.
    destruct (Request.state (base r)); simpl; try apply IH.
    destruct (Request.extendedState (base r)); simpl; rewrite IH;
      rewrite ?Nat.add_succ_r; reflexivity.
Qed.

Lemma countRequestStates_counts (l : list ReplicationRequest) :
  countRequestStates l
  = (length l, count is_finished l,
     count (fun r => is_finished r && is_success r) l).
Proof. unfold countRequestStates. rewrite count_states_from. reflexivity. Qed.

Lemma count_all (f : ReplicationRequest -> bool) (l : list ReplicationRequest) :
  (count f l <= length l)%nat
  /\ (count f l = length l <-> forallb f l = true).
Proof.
  unfold count. induction l as [|r l [IH1 IH2]]; simpl; [split; [lia|tauto]|].
  destruct (f r); simpl.
  - split; [lia|]. rewrite <- IH2. split; lia.
  - split; [lia|]. split; [lia|discriminate].
Qed.

Lemma count_ext (f g : ReplicationRequest -> bool) (l : list ReplicationRequest) :
  Forall (fun r => f r = g r) l -> count f l = count g l.
Proof.
  unfold count. induction 1 as [|r l H _ IH]; simpl; [reflexivity|].
  rewrite H. destruct (g r); simpl; congruence.
Qed.

Lemma job_finish_state (e : Job.ExtendedState) (w : World) :
  Job.finished (job (self w)) = false ->
  Job.state (job (self (finish e w))) = Job.FINISHED
  /\ Job.extendedState (job (self (finish e w))) = e
  /\ Job.notified (job (self (finish e w))) = S (Job.notified (job (self w))).
Proof.
  intros L. destruct (job_finish_live e w L) as (H & _). rewrite H. auto.
Qed.

(** The terminal transition: when every request of a job that has not
    finished is finished, [k] requests of which [s] with the extended state
    SUCCESS, the call of [onRequestFinish] for any of them counts [k]
    launched, [k] finished and [s] succeeded, and it finishes the job, with
    SUCCESS if [s = k] and with FAILED if not, and notifies its subscriber. *)
Lemma fan_in_call (env : Env) (i : nat) (request : ReplicationRequest) (w : World) :
  Job.finished (job (self w)) = false ->
  heap w !! i = Some request ->
  Forall (fun r => is_finished r = true) (children w) ->
  let k := length (children w) in
  let s := count is_success (children w) in
  let w' := onRequestFinish env i w in
  countRequestStates (children w) = (k, k, s)
  /\ Job.state (job (self w')) = Job.FINISHED
  /\ Job.extendedState (job (self w'))
     = (if Nat.eqb s k then Job.SUCCESS else Job.FAILED)
  /\ Job.notified (job (self w')) = S (Job.notified (job (self w))).
Proof.
  intros L Hi Hall k s w'.
  assert (Hc : countRequestStates (children w) = (k, k, s)).
  { rewrite countRequestStates_counts. unfold k, s.
    assert (E1 : count is_finished (children w) = length (children w)).
    { apply count_all. apply forallb_forall. intros x Hx.
      rewrite Forall_forall in Hall. apply Hall. apply list_elem_of_In. exact Hx. }
    rewrite E1. f_equal. apply count_ext.
    eapply Forall_impl; [exact Hall|]. intros r ->. reflexivity. }
  split; [exact Hc|].
  unfold w', onRequestFinish. rewrite L, Hi.
  set (j := match Request.extendedState (base request) with
            | Request.SUCCESS => record request (self w)
            | _ => self w
            end).
  assert (Hj : job j = job (self w) /\ requests j = requests (self w)).
  { unfold j. destruct (Request.extendedState (base request)); auto. }
  destruct Hj as [Hj Hr]. simpl. rewrite Hr.
  change (deref (heap w) (requests (self w))) with (children w).
  rewrite Hc, Nat.eqb_refl.
  destruct (Nat.eqb s k).
  - unfold succeed.
    match goal with |- context [finish Job.SUCCESS ?x] =>
      destruct (job_finish_state Job.SUCCESS x) as (H1 & H2 & H3) end.
    { simpl. destruct (xrootdAutoNotify env); simpl; rewrite Hj; exact L. }
    rewrite H1, H2, H3. simpl.
    destruct (xrootdAutoNotify env); simpl; rewrite Hj; auto.
  - match goal with |- context [finish Job.FAILED ?x] =>
      destruct (job_finish_state Job.FAILED x) as (H1 & H2 & H3) end.
    { simpl. rewrite Hj. exact L. }
    rewrite H1, H2, H3. simpl. rewrite Hj. auto.
Qed.



Lemma forallb_lookup (f : ReplicationRequest -> bool)
    (l : list ReplicationRequest) (i : nat) (x : ReplicationRequest) :
  forallb f l = true -> l !! i = Some x -> f x = true.
Proof.
  intros H L. rewrite forallb_forall in H. apply H.
  apply list_elem_of_In. eapply list_elem_of_lookup_2. exact L.
Qed.





Lemma forallb_insert_finished (h : list ReplicationRequest) (i : nat)
    (r : ReplicationRequest) :
  forallb is_finished h = true -> is_finished r = true ->
  forallb is_finished (<[i := r]> h) = true.
Proof.
  intros H R. apply forallb_forall. intros x Hx.
  apply list_elem_of_In in Hx. apply list_elem_of_lookup in Hx as [k Hk].
  destruct (decide (k = i)) as [->|Hne].
  - destruct (decide (i < length h)%nat) as [Hlt|Hge].
    + rewrite list_lookup_insert_eq in Hk by exact Hlt. congruence.
    + rewrite list_insert_ge in Hk by lia. eapply forallb_lookup; eauto.
  - rewrite list_lookup_insert_ne in Hk by congruence.
    eapply forallb_lookup; eauto.
Qed.



Lemma job_finished_state (j : Job.t) :
  Job.state j = Job.FINISHED -> Job.finished j = true.
Proof. unfold Job.finished. intros ->. reflexivity. Qed.














Lemma setChunk_lookup (c : N) (database worker : string) (data : ReplicaInfo)
    (m : gmap N (gmap string (gmap string ReplicaInfo))) :
  lookupChunk c database worker (setChunk c database worker data m) = Some data.
Proof.
  unfold lookupChunk, setChunk. rewrite lookup_insert_eq.
  rewrite lookup_insert_eq. apply lookup_insert_eq.
Qed.

(** [onRequestFinish] only adds to the replicas of the result. *)
Lemma onRequestFinish_replicas (env : Env) (i : nat) (w : World) :
  exists more,
    replicas (replicaData (self (onRequestFinish env i w)))
    = replicas (replicaData (self w)) ++ more.
Proof.
  unfold onRequestFinish.
  destruct (Job.finished (job (self w))) eqn:J;
    [exists []; rewrite app_nil_r; reflexivity|].
  destruct (heap w !! i) as [request|];
    [|exists []; rewrite app_nil_r; reflexivity].
  set (j := match Request.extendedState (base request) with
            | Request.SUCCESS => record request (self w)
            | _ => self w
            end).
  assert (Hj : job j = job (self w)
               /\ exists more, replicas (replicaData j)
                               = replicas (replicaData (self w)) ++ more).
  { unfold j. destruct (Request.extendedState (base request)); simpl;
      (split; [reflexivity|]);
      try (exists []; rewrite app_nil_r; reflexivity).
    eexists. reflexivity. }
  destruct Hj as (Hj & more & Hm). exists more. simpl.
  destruct (countRequestStates _) as [[numLaunched numFinished] numSuccess].
  destruct (Nat.eqb numFinished numLaunched); [|exact Hm].
  destruct (Nat.eqb numSuccess numLaunched).
  - unfold succeed.
    match goal with |- context [finish Job.SUCCESS ?x] =>
      destruct (job_finish_live Job.SUCCESS x) as (_ & H2 & _) end.
    { simpl. destruct (xrootdAutoNotify env); simpl; rewrite Hj; exact J. }
    rewrite H2. simpl. destruct (xrootdAutoNotify env); exact Hm.
  - match goal with |- context [finish Job.FAILED ?x] =>
      destruct (job_finish_live Job.FAILED x) as (_ & H2 & _) end.
    { simpl. rewrite Hj. exact J. }
    rewrite H2. exact Hm.
Qed.

Lemma finish_replicaData (e : Job.ExtendedState) (w : World) :
  replicaData (self (finish e w)) = replicaData (self w).
Proof.
  destruct (Job.finished (job (self w))) eqn:J.
  - unfold finish. rewrite J. reflexivity.
  - apply job_finish_live. exact J.
Qed.

(** No event takes a replica out of the result. *)
Lemma step_replicas (env : Env) (w : World) (e : Event) :
  exists more,
    replicas (replicaData (self (step env w e)))
    = replicas (replicaData (self w)) ++ more.
Proof.
  destruct e as [| |ec|i x data|i|i ec|k]; simpl.
  - exists []. rewrite app_nil_r. unfold start.
    destruct (Job.state (job (self w))); try reflexivity.
    set (w1 := mkWorld _ (heap w) (notifiers w)).
    destruct (startImpl_cases env w1) as [[e E]|(l & Hl & E)]; rewrite E.
    + reflexivity.
    + destruct (launch_all env l w1) as (H1 & H2 & _). simpl.
      rewrite H2. reflexivity.
  - exists []. rewrite app_nil_r. unfold cancel.
    destruct (Job.finished (job (self w))); try reflexivity.
    rewrite finish_replicaData. reflexivity.
  - exists []. rewrite app_nil_r. unfold expired.
    destruct (is_aborted ec); try reflexivity.
    destruct (Job.finished (job (self w))); try reflexivity.
    rewrite finish_replicaData. reflexivity.
  - exists []. rewrite app_nil_r. unfold respond.
    destruct (heap w !! i) as [r|]; try reflexivity.
    destruct (Request.finished (base r)); try reflexivity.
    rewrite finishRequest_self. reflexivity.
  - exists []. rewrite app_nil_r. unfold cancelRequest.
    rewrite finishRequest_self. reflexivity.
  - exists []. rewrite app_nil_r. unfold expireRequest.
    destruct (is_aborted ec); try reflexivity.
    rewrite finishRequest_self. reflexivity.
  - destruct (notifiers w !! k) as [i|].
    + apply (onRequestFinish_replicas env i
               (mkWorld (self w) (heap w) (delete k (notifiers w)))).
    + exists []. rewrite app_nil_r. reflexivity.
Qed.

(** X29: [getReplicaData] throws a logic error for a job that is
    not finished and returns the result of a finished one.  The result keeps
    what [onRequestFinish] recorded for the requests that succeeded before
    or while the job finished: no event removes a replica from it, and the
    call of [onRequestFinish] for a request that succeeded adds its replica
    even when that call finishes the job with FAILED because another
    request did not succeed. *)
Theorem getReplicaData_when_finished (env : Env) (i : nat)
    (request : ReplicationRequest) (w : World) (e : Event) :
  (Job.finished (job (self w)) = false ->
   getReplicaData (self w) = Throw logic_error)
  /\ (Job.finished (job (self w)) = true ->
      getReplicaData (self w) = Ok (replicaData (self w)))
  /\ (exists more,
        replicas (replicaData (self (step env w e)))
        = replicas (replicaData (self w)) ++ more)
  /\ (Job.finished (job (self w)) = false ->
      heap w !! i = Some request ->
      Request.extendedState (base request) = Request.SUCCESS ->
      Forall (fun r => is_finished r = true) (children w) ->
      count is_success (children w) <> length (children w) ->
      let w' := onRequestFinish env i w in
      Job.extendedState (job (self w')) = Job.FAILED
      /\ exists d,
           getReplicaData (self w') = Ok d
           /\ replicas d
              = replicas (replicaData (self w)) ++ [responseData request]
           /\ lookupChunk (chunk (self w)) (database request)
                (destinationWorker (self w)) (chunks d)
              = Some (responseData request)).
Proof.
  split; [|split; [|split]].
  - intros J. unfold getReplicaData. rewrite J. reflexivity.
  - intros J. unfold getReplicaData. rewrite J. reflexivity.
  - apply step_replicas.
  - intros J Hi Hs Hall Hne w'.
    destruct (fan_in_call env i request w J Hi Hall) as (Hc & Hst & Hext & _).
    fold w' in Hst, Hext.
    assert (E : Nat.eqb (count is_success (children w)) (length (children w))
                = false) by (apply Nat.eqb_neq; exact Hne).
    rewrite E in Hext. split; [exact Hext|].
    unfold getReplicaData. rewrite (job_finished_state _ Hst).
    eexists. split; [reflexivity|].
    unfold w', onRequestFinish. rewrite J, Hi, Hs. simpl.
    change (deref (heap w) (requests (self w))) with (children w).
    rewrite Hc, Nat.eqb_refl, E. rewrite finish_replicaData. simpl.
    split; [reflexivity|]. apply setChunk_lookup.
Qed.

Lemma finish_job_live (e : Job.ExtendedState) (w : World) :
  Job.finished (job (self w)) = false ->
  Job.state (job (self (finish e w))) = Job.FINISHED
  /\ Job.extendedState (job (self (finish e w))) = e
  /\ Job.notified (job (self (finish e w))) = S (Job.notified (job (self w))).
Proof.
  intros F. unfold finish. rewrite F.
  set (w1 := mkWorld (withJob (Job.setState Job.FINISHED e (job (self w)))
                        (self w)) (heap w) (notifiers w)).
  assert (E : job (self (match e with
                         | Job.SUCCESS => w1
                         | _ => cancelImpl w1
                         end)) = job (self w1)).
  { destruct e; try reflexivity; apply cancelImpl_frame. }
  simpl. rewrite E. simpl. auto.
Qed.

(** C1: a finished request is left as it is by [finish], [cancel] and
    [expired], in any number and order, and so is a finished job with its
    requests; and whatever the events that race to end them, in every run
    from a new request and from a new job each instance has called [notify]
    once if it is finished and not at all if it is not.  A request or a job
    that is not finished is finished by [finish], with the extended state it
    is given, by [cancel], with CANCELLED, and by the expiry of its timer,
    with TIMEOUT_EXPIRED, unless the timer was cancelled; each of them calls
    [notify] once.  Of the events that race to end a request, the first that
    is not the expiry of a cancelled timer decides, the others change
    nothing, and the request has called [notify] once more than before. *)
Theorem finished_is_final (r : Request.t) (requestEvents : list Request.Event)
    (env : Env) (w : World) (e : Job.ExtendedState) (ec : error_code)
    (events : list Event) (i family source destination : string) (c : N) :
  (Request.finished r = true -> Request.run requestEvents r = r)
  /\ (Request.notified r = 0%nat -> Request.finished r = false ->
      Request.notified (Request.run requestEvents r)
      = if Request.finished (Request.run requestEvents r) then 1%nat else 0%nat)
  /\ (Job.finished (job (self w)) = true ->
      finish e w = w /\ cancel w = w /\ expired ec w = w)
  /\ (let w' := run env events (create i family c source destination) in
      Job.notified (job (self w'))
      = (if Job.finished (job (self w')) then 1%nat else 0%nat)
      /\ Forall (fun q => Request.notified (base q)
                          = if Request.finished (base q) then 1%nat else 0%nat)
                (heap w'))
  /\ (Request.finished r = false ->
      (forall x : Request.ExtendedState,
         Request.state (Request.finish x r) = Request.FINISHED
         /\ Request.extendedState (Request.finish x r) = x
         /\ Request.notified (Request.finish x r) = S (Request.notified r))
      /\ Request.cancel r = Request.finish Request.CANCELLED r
      /\ Request.expired ec r
         = (if is_aborted ec then r
            else Request.finish Request.TIMEOUT_EXPIRED r)
      /\ (forall (first : Request.Event) (others : list Request.Event),
            (forall a, first = Request.Expired a -> is_aborted a = false) ->
            Request.run (first :: others) r = Request.step r first
            /\ Request.finished (Request.step r first) = true)
      /\ ((exists ev, In ev requestEvents
                      /\ forall a, ev = Request.Expired a -> is_aborted a = false) ->
          Request.finished (Request.run requestEvents r) = true
          /\ Request.notified (Request.run requestEvents r)
             = S (Request.notified r)))
  /\ (Job.finished (job (self w)) = false ->
      Job.state (job (self (finish e w))) = Job.FINISHED
      /\ Job.extendedState (job (self (finish e w))) = e
      /\ Job.notified (job (self (finish e w))) = S (Job.notified (job (self w)))
      /\ cancel w = finish Job.CANCELLED w
      /\ expired ec w
         = (if is_aborted ec then w else finish Job.TIMEOUT_EXPIRED w)).
Proof.
  split; [|split; [|split; [|split; [|split]]]].
  - apply run_finished.
  - intros N F. apply (run_once requestEvents r). unfold Request.once.
    rewrite N, F. reflexivity.
  - intros F. unfold cancel, expired, finish. rewrite F.
    destruct (is_aborted ec); auto.
  - apply run_worldOnce. split; [reflexivity|constructor].
  - intros F. split; [|split; [|split; [|split]]].
    + intros x. destruct (request_finish_live x r F) as (h1 & h2 & _ & h4). auto.
    + apply request_cancel_live, F.
    + apply request_expired_live, F.
    + intros first others Hfirst.
      destruct (request_step_live r first F Hfirst) as [F' _].
      split; [|exact F']. apply (run_finished others _ F').
    + apply request_run_live, F.
  - intros F. destruct (finish_job_live e w F) as (h1 & h2 & h3).
    split; [exact h1|]. split; [exact h2|]. split; [exact h3|].
    unfold cancel, expired. rewrite F. auto.
Qed.

End CreateReplicaJobFacts.

Lemma analyze_outcome_witness :
  DeleteRequest.outcome (started_request true false)
    (DeleteRequest.analyze true (response_with proto.QUEUED proto.NONE)
       (started_request true false))
  = DeleteRequest.Rearmed.
Proof.
  destruct (analyze_outcome (response_with proto.QUEUED proto.NONE)
              (started_request true false) eq_refl) as (_ & _ & H).
  exact H.
Defined.

(** C6 as stated fails: BAD is a status other than SUCCESS, QUEUED,
    IN_PROGRESS, IS_CANCELLING, FAILED and CANCELLED, and on a successful
    exchange it raises no logic error: the request finishes with
    SERVER_BAD. *)
Lemma analyze_bad_is_no_logic_error :
  DeleteRequest.analyze true (response_with proto.BAD proto.NONE)
    (started_request false false)
  <> Throw logic_error
  /\ DeleteRequest.outcome (started_request false false)
       (DeleteRequest.analyze true (response_with proto.BAD proto.NONE)
          (started_request false false))
     = DeleteRequest.Finished Request.SERVER_BAD.
Proof. split; [discriminate | reflexivity]. Qed.

Section ChunkLockerFacts.
Import ChunkLocker.

Lemma lock_acquired (chunk : Chunk) (owner : string) (l l1 : t) :
  lock chunk owner l = Ok (true, l1) ->
  owner <> "" /\ chunk2owner l1 !! chunk = Some owner.
Proof.
  unfold lock. case_bool_decide as Ho; [discriminate|].
  destruct (chunk2owner l !! chunk) as [current|] eqn:L; intros H;
    inversion H; subst; clear H.
  - split; [exact Ho|]. case_bool_decide; [congruence|discriminate].
  - split; [exact Ho|]. simpl. apply lookup_insert_eq.
Qed.

Lemma step_keeps_lock (chunk : Chunk) (owner : string) (l : t) (op : Op) :
  frees chunk owner op = false ->
  chunk2owner l !! chunk = Some owner ->
  chunk2owner (step l op) !! chunk = Some owner.
Proof.
  destruct op as [chunk' owner'|chunk'|owner']; simpl; intros Hf L.
  - unfold lock. case_bool_decide; [exact L|].
    destruct (chunk2owner l !! chunk') as [current|] eqn:L'; [exact L|].
    simpl. rewrite lookup_insert_ne; [exact L|]. congruence.
  - apply bool_decide_eq_false in Hf. unfold release.
    destruct (chunk2owner l !! chunk'); [|exact L].
    simpl. rewrite lookup_delete_ne; [exact L|]. exact Hf.
  - apply bool_decide_eq_false in Hf. unfold releaseOwner.
    case_bool_decide; [exact L|]. simpl.
    apply map_lookup_filter_Some. split; [exact L|]. simpl. congruence.
Qed.

Lemma run_keeps_lock (chunk : Chunk) (owner : string) (ops : list Op) (l : t) :
  forallb (fun op => negb (frees chunk owner op)) ops = true ->
  chunk2owner l !! chunk = Some owner ->
  chunk2owner (run ops l) !! chunk = Some owner.
Proof.
  unfold run. revert l. induction ops as [|op rest IH]; simpl; auto.
  intros l H L. apply andb_true_iff in H as [Hop Hrest].
  apply IH; [exact Hrest|]. apply step_keeps_lock; [|exact L].
  destruct (frees chunk owner op); [discriminate|reflexivity].
Qed.

(** C8: once [lock c o1] has returned true, and through any calls other than
    [release c] and [release o1], [lock c o2] returns false for every other
    owner [o2] and [lock c o1] returns true again, neither changing the
    table; after [release c], and after [release o1], [lock c o2] returns
    true; and [lock] with an empty owner fails with an invalid-argument
    error. *)
Theorem lock_mutual_exclusion (c : Chunk) (o1 o2 : string) (l l1 : t)
    (ops : list Op) :
  o1 <> o2 -> o2 <> "" ->
  lock c o1 l = Ok (true, l1) ->
  forallb (fun op => negb (frees c o1 op)) ops = true ->
  let l2 := run ops l1 in
  lock c o2 l2 = Ok (false, l2)
  /\ lock c o1 l2 = Ok (true, l2)
  /\ (exists l3, lock c o2 (step l2 (Release c)) = Ok (true, l3))
  /\ (exists l3, lock c o2 (step l2 (ReleaseOwner o1)) = Ok (true, l3))
  /\ lock c "" l2 = Throw invalid_argument.
Proof.
  intros Hne Ho2 Hl Hops l2.
  destruct (lock_acquired c o1 l l1 Hl) as [Ho1 L1].
  assert (L2 : chunk2owner l2 !! c = Some o1)
    by (apply run_keeps_lock; assumption).
  split; [|split; [|split; [|split]]].
  - unfold lock. rewrite bool_decide_eq_false_2 by exact Ho2. rewrite L2.
    rewrite bool_decide_eq_false_2 by exact Hne. reflexivity.
  - unfold lock. rewrite bool_decide_eq_false_2 by exact Ho1. rewrite L2.
    rewrite bool_decide_eq_true_2 by reflexivity. reflexivity.
  - simpl. unfold release. rewrite L2. simpl. unfold lock.
    rewrite bool_decide_eq_false_2 by exact Ho2. simpl.
    rewrite lookup_delete_eq. eexists. reflexivity.
  - simpl. unfold releaseOwner. rewrite bool_decide_eq_false_2 by exact Ho1.
    unfold lock. rewrite bool_decide_eq_false_2 by exact Ho2. simpl.
    assert (E : filter (fun kv : string * N * string => kv.2 <> o1)
                  (chunk2owner l2) !! c = None).
    { apply map_lookup_filter_None. right. intros x Hx. simpl.
      rewrite L2 in Hx. inversion Hx. congruence. }
    rewrite E. eexists. reflexivity.
  - reflexivity.
Qed.

End ChunkLockerFacts.

Section MessengerConnectorFacts.
Import MessengerConnector.

Lemma Inv_frame (acc : list MessageWrapper) (c c' : t) :
  requests c' = requests c -> currentRequest c' = currentRequest c ->
  wire c' = wire c -> notifications c' = notifications c ->
  Inv acc c -> Inv acc c'.
Proof.
  unfold Inv, in_flight. intros H1 H2 H3 H4 [HA HB].
  rewrite H1, H2, H3, H4. split; assumption.
Qed.

Lemma resolve_frame (c : t) :
  requests (resolve c) = requests c
  /\ currentRequest (resolve c) = currentRequest c
  /\ wire (resolve c) = wire c /\ notifications (resolve c) = notifications c.
Proof. unfold resolve. destruct (state c); simpl; auto. Qed.

Lemma restart_frame (c : t) :
  requests (restart c) = requests c
  /\ currentRequest (restart c) = currentRequest c
  /\ wire (restart c) = wire c /\ notifications (restart c) = notifications c.
Proof.
  unfold restart. destruct (state c); try apply resolve_frame;
    destruct (resolve_frame (setState STATE_INITIAL c)) as (-> & -> & -> & ->);
    simpl; auto.
Qed.

Lemma restart_state (c : t) :
  state (restart c) = STATE_CONNECTING /\ resolves (restart c) = S (resolves c).
Proof. unfold restart, resolve. destruct (state c); simpl; auto. Qed.

Lemma restart_inv (acc : list MessageWrapper) (c : t) :
  Inv acc c -> Inv acc (restart c).
Proof.
  destruct (restart_frame c) as (H1 & H2 & H3 & H4).
  apply Inv_frame; assumption.
Qed.

Lemma sendRequest_inv (acc : list MessageWrapper) (c : t) :
  Inv acc c -> Inv acc (sendRequest c).
Proof.
  intros HI. unfold sendRequest.
  destruct (currentRequest c) as [p|] eqn:Ec; [exact HI|].
  destruct (requests c) as [|front rest] eqn:Er; [exact HI|].
  destruct HI as [HA HB]. unfold Inv, in_flight in *. simpl.
  rewrite Ec in HB. rewrite Er in HA. subst acc. split.
  - rewrite <- app_assoc. reflexivity.
  - rewrite map_app, HB. simpl. rewrite app_nil_r. reflexivity.
Qed.

Lemma step_inv (acc : list MessageWrapper) (c c' : t) (e : Event) :
  failure_free e = true -> step c e = Ok c' ->
  Inv acc c -> Inv (acc ++ submitted [e]) c'.
Proof.
  destruct e as [ptr|i|ec|ec|ec|ec|ec input]; simpl; intros Hq Hs HI;
    try discriminate; rewrite ?app_nil_r.
  - (* Send *)
    unfold sendImpl in Hs. destruct (find (id ptr) c); [discriminate|].
    assert (HI' : Inv (acc ++ [ptr]) (setRequests (requests c ++ [ptr]) c)).
    { destruct HI as [-> H]. split; simpl.
      - rewrite app_assoc. reflexivity.
      - exact H. }
    simpl in Hs. destruct (state c); inversion Hs; subst.
    + destruct (resolve_frame (setRequests (requests c ++ [ptr]) c))
        as (H1 & H2 & H3 & H4).
      eapply Inv_frame; eauto.
    + exact HI'.
    + apply sendRequest_inv. exact HI'.
  - (* Resolved *)
    inversion Hs; subst. unfold resolved.
    destruct ec; try discriminate. simpl. eapply Inv_frame; eauto.
  - (* Connected *)
    inversion Hs; subst. unfold connected.
    destruct ec; try discriminate. simpl. apply sendRequest_inv.
    eapply Inv_frame; eauto.
  - (* AwakenForRestart *)
    inversion Hs; subst. unfold awakenForRestart.
    destruct ec; try discriminate. simpl.
    destruct (state c) eqn:Est; auto. apply restart_inv. exact HI.
  - (* RequestSent *)
    inversion Hs; subst. unfold requestSent.
    destruct ec; try discriminate. simpl.
    destruct (currentRequest c); exact HI.
  - (* ResponseReceived *)
    unfold responseReceived in Hs.
    destruct ec; try discriminate. simpl in Hq, Hs.
    destruct (currentRequest c) as [p|] eqn:Ec.
    + destruct (is_error (header_ec input)); [discriminate|].
      destruct (bool_decide (id p = header_id input)); [|discriminate].
      simpl in Hq, Hs.
      destruct (is_error (frame_ec input)); [discriminate|].
      destruct (is_error (body_ec input)); [discriminate|].
      inversion Hs; subst. clear Hs.
      destruct HI as [-> H]. unfold in_flight in H. rewrite Ec in H.
      simpl in H. unfold Inv, in_flight, sendRequest. simpl.
      destruct (requests c) as [|front rest] eqn:Er; simpl; rewrite ?Er.
      * rewrite map_app, H, !app_nil_r. simpl. auto.
      * rewrite !map_app, H, <- app_assoc. simpl. auto.
    + inversion Hs; subst. apply sendRequest_inv. exact HI.
Qed.

Lemma submitted_cons (e : Event) (rest : list Event) :
  submitted (e :: rest) = submitted [e] ++ submitted rest.
Proof. unfold submitted. simpl. rewrite app_nil_r. reflexivity. Qed.

Lemma run_inv (events : list Event) :
  forall (acc : list MessageWrapper) (c c' : t),
    forallb failure_free events = true -> run events c = Ok c' ->
    Inv acc c -> Inv (acc ++ submitted events) c'.
Proof.
  induction events as [|e rest IH]; intros acc c c' Hq Hr HI.
  - simpl in Hr. inversion Hr; subst. simpl. rewrite app_nil_r. exact HI.
  - simpl in Hq. apply andb_true_iff in Hq as [He Hrest].
    simpl in Hr. destruct (step c e) as [c1|x] eqn:Es; [|discriminate].
    simpl in Hr. rewrite submitted_cons, app_assoc.
    eapply IH; eauto. eapply step_inv; eauto.
Qed.

Lemma ordered_frame (acc : list MessageWrapper) (c c' : t) :
  requests c' = requests c -> currentRequest c' = currentRequest c ->
  ordered acc c -> ordered acc c'.
Proof. unfold ordered, in_flight. intros -> ->. auto. Qed.

Lemma restart_ordered (acc : list MessageWrapper) (c : t) :
  ordered acc c -> ordered acc (restart c).
Proof.
  destruct (restart_frame c) as (H1 & H2 & _). apply ordered_frame; assumption.
Qed.

Lemma sendRequest_ordered (acc : list MessageWrapper) (c : t) :
  ordered acc c -> ordered acc (sendRequest c).
Proof.
  unfold sendRequest. destruct (currentRequest c) as [p|] eqn:Ec; [auto|].
  destruct (requests c) as [|front rest] eqn:Er; [auto|].
  unfold ordered, in_flight. rewrite Ec, Er. simpl. auto.
Qed.

Lemma drop_current_ordered (acc : list MessageWrapper) (c : t) :
  ordered acc c -> ordered acc (setCurrentRequest None c).
Proof.
  unfold ordered, in_flight. simpl. intros H.
  transitivity (match currentRequest c with Some p => [p] | None => [] end
                ++ requests c); [|exact H].
  apply sublist_inserts_l. reflexivity.
Qed.

Lemma parseAndNotify_ordered (acc : list MessageWrapper) (b : bool)
    (p : MessageWrapper) (c : t) :
  ordered acc c -> ordered acc (parseAndNotify b p c).
Proof. apply ordered_frame; reflexivity. Qed.

Lemma step_ordered (acc : list MessageWrapper) (c c' : t) (e : Event) :
  step c e = Ok c' -> ordered acc c -> ordered (acc ++ submitted [e]) c'.
Proof.
  destruct e as [ptr|i|ec|ec|ec|ec|ec input]; simpl; intros Hs HO;
    rewrite ?app_nil_r.
  - (* Send *)
    unfold sendImpl in Hs. destruct (find (id ptr) c); [discriminate|].
    assert (HO' : ordered (acc ++ [ptr]) (setRequests (requests c ++ [ptr]) c)).
    { unfold ordered, in_flight in *. simpl. rewrite app_assoc.
      apply sublist_app; [exact HO|reflexivity]. }
    simpl in Hs. destruct (state c); inversion Hs; subst.
    + destruct (resolve_frame (setRequests (requests c ++ [ptr]) c))
        as (H1 & H2 & _).
      eapply ordered_frame; eauto.
    + exact HO'.
    + apply sendRequest_ordered. exact HO'.
  - (* Cancel *)
    inversion Hs; subst. clear Hs. unfold cancel.
    set (c1 := setRequests (filter (fun p => id p <> i) (requests c)) c).
    assert (H1 : ordered acc c1).
    { unfold ordered, in_flight in *. simpl.
      transitivity (match currentRequest c with Some p => [p] | None => [] end
                    ++ requests c); [|exact HO].
      apply sublist_app; [reflexivity|apply sublist_filter]. }
    destruct (currentRequest c1) as [current|] eqn:Ec; [|exact H1].
    case_bool_decide; [|exact H1].
    assert (H2 : ordered acc (setCurrentRequest None c1))
      by (apply drop_current_ordered; exact H1).
    destruct (state (setCurrentRequest None c1)); auto.
    apply restart_ordered. exact H2.
  - (* Resolved *)
    inversion Hs; subst. unfold resolved.
    destruct (is_aborted ec); [exact HO|].
    destruct (is_error ec); exact HO.
  - (* Connected *)
    inversion Hs; subst. unfold connected.
    destruct (is_aborted ec); [exact HO|].
    destruct (is_error ec); [exact HO|].
    apply sendRequest_ordered. exact HO.
  - (* AwakenForRestart *)
    inversion Hs; subst. unfold awakenForRestart.
    destruct (is_aborted ec); [exact HO|].
    destruct (state c); auto. apply restart_ordered. exact HO.
  - (* RequestSent *)
    inversion Hs; subst. unfold requestSent.
    destruct (is_aborted ec); [apply restart_ordered; exact HO|].
    destruct (currentRequest c) as [current|] eqn:Ec; [|exact HO].
    destruct (is_error ec); [|exact HO].
    apply restart_ordered. unfold ordered, in_flight in *. simpl.
    rewrite Ec in HO. exact HO.
  - (* ResponseReceived *)
    unfold responseReceived in Hs.
    destruct (is_aborted ec); [inversion Hs; subst; apply restart_ordered, HO|].
    destruct (currentRequest c) as [p|] eqn:Ec.
    + pose proof (drop_current_ordered acc c HO) as H1.
      destruct (is_error ec);
        [inversion Hs; subst;
         apply parseAndNotify_ordered, restart_ordered, H1|].
      destruct (is_error (header_ec input));
        [inversion Hs; subst;
         apply parseAndNotify_ordered, restart_ordered, H1|].
      destruct (negb (bool_decide (id p = header_id input))); [discriminate|].
      destruct (is_error (frame_ec input));
        [inversion Hs; subst;
         apply parseAndNotify_ordered, restart_ordered, H1|].
      destruct (is_error (body_ec input));
        [inversion Hs; subst;
         apply parseAndNotify_ordered, restart_ordered, H1|].
      inversion Hs; subst.
      apply parseAndNotify_ordered, sendRequest_ordered, H1.
    + destruct (is_error ec); inversion Hs; subst.
      * apply restart_ordered, HO.
      * apply sendRequest_ordered, HO.
Qed.

Lemma run_ordered (events : list Event) :
  forall (acc : list MessageWrapper) (c c' : t),
    run events c = Ok c' -> ordered acc c ->
    ordered (acc ++ submitted events) c'.
Proof.
  induction events as [|e rest IH]; intros acc c c' Hr HO.
  - simpl in Hr. inversion Hr; subst. simpl. rewrite app_nil_r. exact HO.
  - simpl in Hr. destruct (step c e) as [c1|x] eqn:Es; [|discriminate].
    simpl in Hr. rewrite submitted_cons, app_assoc.
    eapply IH; eauto. eapply step_ordered; eauto.
Qed.

(** C3: a connector has at most one request in flight, and [sendRequest]
    starts no transmission while there is one; otherwise it writes the front
    of the queue to the socket and makes it the request in flight.  In every
    run from a new connector the request in flight followed by the queue is
    a part of the submitted requests in the order of submission, so that the
    front of the queue is the oldest request that waits.  In a run without
    failure the requests written to the socket followed by the queue are the
    submitted requests in the order of submission, and every request written
    has been answered except the one in flight: the exchanges follow each
    other in the order of submission and never overlap. *)
Theorem single_flight_fifo (events : list Event) (c : t) :
  run events create = Ok c ->
  in_flight c ++ requests c `sublist_of` submitted events
  /\ (length (in_flight c) <= 1)%nat
  /\ (forallb failure_free events = true ->
      submitted events = wire c ++ requests c
      /\ map id (wire c) = map fst (notifications c) ++ map id (in_flight c))
  /\ (forall (c0 : t) (current : MessageWrapper),
        sendRequest (setCurrentRequest (Some current) c0)
        = setCurrentRequest (Some current) c0)
  /\ (forall (c0 : t) (front : MessageWrapper) (rest : list MessageWrapper),
        let c1 := sendRequest (setCurrentRequest None (setRequests (front :: rest) c0)) in
        currentRequest c1 = Some front /\ requests c1 = rest
        /\ wire c1 = wire c0 ++ [front]).
Proof.
  intros Hr. split; [|split; [|split; [|split]]].
  - apply (run_ordered events [] create c Hr). apply sublist_nil_l.
  - unfold in_flight. destruct (currentRequest c); simpl; lia.
  - intros Hq. apply (run_inv events [] create c Hq Hr). split; reflexivity.
  - reflexivity.
  - intros c0 front rest. simpl. auto.
Qed.


Lemma find_registered (p : MessageWrapper) (c : t) :
  In (id p) (map id (requests c)) -> find (id p) c <> None.
Proof.
  unfold find. induction (requests c) as [|q rest IH]; simpl; [tauto|].
  intros [H|H].
  - rewrite bool_decide_eq_true_2 by exact H. discriminate.
  - destruct (bool_decide (id q = id p)); [discriminate|auto].
Qed.

(** The part of C7 the code keeps: an id that is in the queue is refused. *)
Lemma sendImpl_queued_id_refused (p : MessageWrapper) (c : t) :
  In (id p) (map id (requests c)) -> sendImpl p c = Throw logic_error.
Proof.
  intros H. apply find_registered in H. unfold sendImpl.
  destruct (find (id p) c); [reflexivity|congruence].
Qed.

End MessengerConnectorFacts.

Lemma single_flight_fifo_witness :
  MessengerConnector.submitted two_exchanges
  = MessengerConnector.wire after_two_exchanges
    ++ MessengerConnector.requests after_two_exchanges.
Proof.
  destruct (single_flight_fifo two_exchanges after_two_exchanges eq_refl)
    as (_ & _ & H & _).
  exact (proj1 (H eq_refl)).
Defined.


(** C7 fails on the code: [find] searches the queue only, so the id of the
    request in flight is taken for a new one, [exists] denies it, and a
    second request with that id is put in the queue. *)
Lemma sendImpl_id_in_flight_accepted :
  MessengerConnector.exists_ "a" (awaiting_a []) = false
  /\ MessengerConnector.sendImpl
       (MessengerConnector.mkWrapper "a" "delete db 9" false) (awaiting_a [])
     = Ok (awaiting_a [MessengerConnector.mkWrapper "a" "delete db 9" false]).
Proof. split; reflexivity. Qed.

Lemma finished_is_final_witness :
  Request.run [Request.Cancel; Request.Expired ec_failure;
               Request.Finish Request.SUCCESS]
    (CreateReplicaJob.base succeeded_request)
  = CreateReplicaJob.base succeeded_request
  /\ (let r := Request.run [Request.Expired operation_aborted; Request.Cancel;
                            Request.Finish Request.SUCCESS;
                            Request.Expired ec_failure]
                 (DeleteRequest.base (started_request true false)) in
      Request.state r = Request.FINISHED
      /\ Request.extendedState r = Request.CANCELLED
      /\ Request.notified r = 1%nat).
Proof.
  split.
  - exact (proj1 (finished_is_final (CreateReplicaJob.base succeeded_request)
                    [Request.Cancel; Request.Expired ec_failure;
                     Request.Finish Request.SUCCESS]
                    two_databases new_job Job.SUCCESS ec_success []
                    "j1" "F" "w1" "w2" 7%N) eq_refl).
  - destruct (finished_is_final (DeleteRequest.base (started_request true false))
                [Request.Expired operation_aborted; Request.Cancel;
                 Request.Finish Request.SUCCESS; Request.Expired ec_failure]
                two_databases new_job Job.SUCCESS ec_success []
                "j1" "F" "w1" "w2" 7%N) as (_ & _ & _ & _ & H & _).
    destruct (H eq_refl) as (_ & _ & _ & _ & Hrace).
    destruct Hrace as [_ Hn].
    + exists Request.Cancel. split; [simpl; auto|discriminate].
    + split; [reflexivity|]. split; [reflexivity|exact Hn].
Defined.



(** A job that is cancelled cancels its requests, which are then all
    finished, none with SUCCESS; its extended state is CANCELLED. *)
Lemma cancelled_job_ends_cancelled :
  let w := CreateReplicaJob.run two_databases [CreateReplicaJob.JobCancel]
             started_job in
  forallb CreateReplicaJob.is_finished (CreateReplicaJob.heap w) = true
  /\ CreateReplicaJob.count CreateReplicaJob.is_success (CreateReplicaJob.heap w)
     = 0%nat
  /\ Job.extendedState (CreateReplicaJob.job (CreateReplicaJob.self w))
     = Job.CANCELLED.
Proof. repeat split; reflexivity. Qed.

Lemma getReplicaData_when_finished_witness :
  Job.extendedState (CreateReplicaJob.job (CreateReplicaJob.self
    (CreateReplicaJob.onRequestFinish two_databases 0 both_answered)))
  = Job.FAILED
  /\ exists d,
       CreateReplicaJob.getReplicaData (CreateReplicaJob.self
         (CreateReplicaJob.onRequestFinish two_databases 0 both_answered)) = Ok d
       /\ CreateReplicaJob.replicas d = [replica_d1].
Proof.
  destruct (getReplicaData_when_finished two_databases 0 succeeded_request
              both_answered CreateReplicaJob.Start) as (_ & _ & _ & H).
  destruct H as (H1 & d & H2 & H3 & _).
  - reflexivity.
  - reflexivity.
  - reflexivity.
  - vm_compute. repeat constructor.
  - vm_compute. discriminate.
  - split; [exact H1|]. exists d. split; [exact H2|exact H3].
Defined.

(** C9 fails on the code: the request for "d1" succeeds first, but the
    thread that notifies the job of the failed request runs before the thread
    that notifies it of the success; the job is then finished, the second
    call of [onRequestFinish] returns at once, and the result of the failed
    job holds no replica, although a request succeeded before the job
    failed. *)
Lemma late_success_is_not_recorded :
  let w := CreateReplicaJob.run two_databases notified_out_of_order started_job in
  CreateReplicaJob.heap w !! 0%nat = Some succeeded_request
  /\ CreateReplicaJob.notifiers w = []
  /\ Job.extendedState (CreateReplicaJob.job (CreateReplicaJob.self w))
     = Job.FAILED
  /\ CreateReplicaJob.getReplicaData (CreateReplicaJob.self w)
     = Ok (CreateReplicaJob.mkResult [] ∅).
Proof. repeat split; reflexivity. Qed.

Lemma lock_mutual_exclusion_witness :
  ChunkLocker.lock chunk5 "jobB"
    (ChunkLocker.run [ChunkLocker.Lock ("F", 6%N) "jobB"] locked_by_jobA)
  = Ok (false,
        ChunkLocker.run [ChunkLocker.Lock ("F", 6%N) "jobB"] locked_by_jobA).
Proof.
  apply (lock_mutual_exclusion chunk5 "jobA" "jobB" (ChunkLocker.mk ∅)
           locked_by_jobA [ChunkLocker.Lock ("F", 6%N) "jobB"]).
  - discriminate.
  - discriminate.
  - reflexivity.
  - reflexivity.
Defined.

(* ================================================================== *)
(** * Further properties of the code *)
(* ================================================================== *)

Section MessengerConnectorCalls.
Import MessengerConnector.

Lemma registered_frame (c c' : t) :
  requests c' = requests c -> currentRequest c' = currentRequest c ->
  registered c' = registered c.
Proof. unfold registered, in_flight. intros -> ->. reflexivity. Qed.

Lemma registered_restart (c : t) : registered (restart c) = registered c.
Proof.
  destruct (restart_frame c) as (H1 & H2 & _). apply registered_frame; assumption.
Qed.

Lemma registered_sendRequest (c : t) : registered (sendRequest c) = registered c.
Proof.
  unfold sendRequest, registered, in_flight.
  destruct (currentRequest c) eqn:Ec; [rewrite Ec; reflexivity|].
  destruct (requests c) eqn:Er; [rewrite Ec, Er; reflexivity|]. reflexivity.
Qed.

Lemma notifications_sendRequest (c : t) :
  notifications (sendRequest c) = notifications c.
Proof.
  unfold sendRequest. destruct (currentRequest c); [reflexivity|].
  destruct (requests c); reflexivity.
Qed.

Lemma notifications_restart (c : t) : notifications (restart c) = notifications c.
Proof. apply restart_frame. Qed.

(** The loop of notifications at the end of [stop]. *)
Lemma notify_all (parses : MessageWrapper -> bool) (l : list MessageWrapper) :
  forall c : t,
    let c' := fold_left (fun c ptr => parseAndNotify (parses ptr) ptr c) l c in
    notifications c' = notifications c ++ map (notice parses) l
    /\ state c' = state c /\ requests c' = requests c
    /\ currentRequest c' = currentRequest c /\ wire c' = wire c
    /\ resolves c' = resolves c.
Proof.
  induction l as [|p rest IH]; intros c; simpl.
  - rewrite app_nil_r. repeat split; reflexivity.
  - destruct (IH (parseAndNotify (parses p) p c)) as (H1 & H2 & H3 & H4 & H5 & H6).
    rewrite H1, H2, H3, H4, H5, H6. simpl. rewrite <- app_assoc.
    repeat split; reflexivity.
Qed.

Lemma registered_ids_cancel (i : string) (l : list MessageWrapper) :
  map id l
  ≡ₚ map id (filter (fun p => id p <> i) l)
     ++ map id (filter (fun p => ~ id p <> i) l).
Proof.
  rewrite <- map_app. apply Permutation_map. symmetry.
  apply (filter_app_complement (fun p => id p <> i)).
Qed.

(** What one call does to the requests a connector holds: every request it
    held or was given is afterwards held, notified ([more]) or, by [cancel]
    only, dropped. *)
Lemma call_accounts (c c' : t) (x : Call) :
  call c x = Ok c' ->
  exists (more : list (string * bool)) (dropped : list string),
    notifications c' = notifications c ++ more
    /\ map id (registered c) ++ map id (sent [x])
       ≡ₚ map fst more ++ map id (registered c') ++ dropped
    /\ (cancels x = false -> dropped = []).
Proof.
  destruct x as [[ptr|i|ec|ec|ec|ec|ec input]|parses]; simpl; intros Hs.
  - (* Send *)
    unfold sendImpl in Hs. destruct (find (id ptr) c); [discriminate|].
    exists [], []. simpl in Hs.
    assert (E : registered (setRequests (requests c ++ [ptr]) c)
                = registered c ++ [ptr]).
    { unfold registered, in_flight. simpl. rewrite app_assoc. reflexivity. }
    set (c1 := setRequests (requests c ++ [ptr]) c) in *.
    assert (Hgoal : forall c2 : t,
              registered c2 = registered c1 ->
              notifications c2 = notifications c ->
              notifications c2 = notifications c ++ []
              /\ map id (registered c) ++ [id ptr]
                 ≡ₚ map fst (@nil (string * bool)) ++ map id (registered c2) ++ []
              /\ (false = false -> @nil string = [])).
    { intros c2 H1 H2. rewrite H1, H2, E, !app_nil_r, map_app. simpl. auto. }
    destruct (state c); inversion Hs; subst; clear Hs; apply Hgoal.
    + destruct (resolve_frame c1) as (H1 & H2 & _).
      apply registered_frame; assumption.
    + exact (proj2 (proj2 (proj2 (resolve_frame c1)))).
    + reflexivity.
    + reflexivity.
    + apply registered_sendRequest.
    + exact (notifications_sendRequest c1).
  - (* Cancel *)
    inversion Hs; subst; clear Hs. unfold cancel.
    set (c1 := setRequests (filter (fun p => id p <> i) (requests c)) c).
    pose proof (registered_ids_cancel i (requests c)) as HP.
    destruct (currentRequest c1) as [current|] eqn:Ec.
    + simpl in Ec. case_bool_decide as Hi.
      * exists [], (id current
                    :: map id (filter (fun p => ~ id p <> i) (requests c))).
        assert (E : registered (setCurrentRequest None c1)
                    = filter (fun p => id p <> i) (requests c)) by reflexivity.
        split; [|split; [|discriminate]].
        -- destruct (state (setCurrentRequest None c1));
             rewrite ?notifications_restart; simpl; rewrite app_nil_r; reflexivity.
        -- assert (E' : registered
                          (match state (setCurrentRequest None c1) with
                           | STATE_COMMUNICATING => restart (setCurrentRequest None c1)
                           | _ => setCurrentRequest None c1
                           end) = filter (fun p => id p <> i) (requests c)).
           { destruct (state (setCurrentRequest None c1));
               rewrite ?registered_restart; exact E. }
           rewrite E'. unfold registered, in_flight. rewrite Ec. simpl.
           rewrite app_nil_r. rewrite HP at 1.
           apply Permutation_middle.
      * exists [], (map id (filter (fun p => ~ id p <> i) (requests c))).
        split; [simpl; rewrite app_nil_r; reflexivity|].
        split; [|discriminate].
        unfold registered, in_flight. simpl. simpl in Ec. rewrite Ec. simpl.
        rewrite app_nil_r. constructor. exact HP.
    + exists [], (map id (filter (fun p => ~ id p <> i) (requests c))).
      split; [simpl; rewrite app_nil_r; reflexivity|].
      split; [|discriminate].
      unfold registered, in_flight. simpl. simpl in Ec. rewrite Ec. simpl.
      rewrite app_nil_r. exact HP.
  - (* Resolved *)
    inversion Hs; subst; clear Hs. exists [], []. unfold resolved.
    destruct (is_aborted ec); [|destruct (is_error ec)];
      simpl; rewrite !app_nil_r; auto.
  - (* Connected *)
    inversion Hs; subst; clear Hs. exists [], []. unfold connected.
    destruct (is_aborted ec); [|destruct (is_error ec)];
      rewrite ?registered_sendRequest, ?notifications_sendRequest;
      simpl; rewrite !app_nil_r; auto.
  - (* AwakenForRestart *)
    inversion Hs; subst; clear Hs. exists [], []. unfold awakenForRestart.
    destruct (is_aborted ec); [|destruct (state c)];
      rewrite ?registered_restart, ?notifications_restart;
      simpl; rewrite !app_nil_r; auto.
  - (* RequestSent *)
    inversion Hs; subst; clear Hs. exists [], []. unfold requestSent.
    destruct (is_aborted ec).
    { rewrite registered_restart, notifications_restart.
      simpl. rewrite !app_nil_r. auto. }
    destruct (currentRequest c) as [current|] eqn:Ec;
      [|simpl; rewrite !app_nil_r; auto].
    destruct (is_error ec); [|simpl; rewrite !app_nil_r; auto].
    rewrite registered_restart, notifications_restart.
    unfold registered, in_flight. rewrite Ec. simpl. rewrite !app_nil_r. auto.
  - (* ResponseReceived *)
    unfold responseReceived in Hs.
    destruct (is_aborted ec).
    { inversion Hs; subst; clear Hs. exists [], [].
      rewrite registered_restart, notifications_restart.
      simpl. rewrite !app_nil_r. auto. }
    destruct (currentRequest c) as [p|] eqn:Ec.
    + assert (Hdone : forall (b : bool) (q : MessageWrapper) (c2 : t),
                id q = id p ->
                registered c2 = requests c ->
                notifications c2 = notifications c ->
                exists (more : list (string * bool)) (dropped : list string),
                  notifications (parseAndNotify b q c2) = notifications c ++ more
                  /\ map id (registered c) ++ map id (sent [Handle (ResponseReceived ec input)])
                     ≡ₚ map fst more ++ map id (registered (parseAndNotify b q c2))
                        ++ dropped
                  /\ (false = false -> dropped = [])).
      { intros b q c2 Hq Hreg Hn. exists [(id q, success q && b)], [].
        split; [simpl; rewrite Hn; reflexivity|]. split; [|auto].
        change (registered (parseAndNotify b q c2)) with (registered c2).
        rewrite Hreg. unfold registered, in_flight. rewrite Ec. simpl.
        rewrite !app_nil_r, Hq. reflexivity. }
      assert (Hr : registered (restart (setCurrentRequest None c)) = requests c)
        by (rewrite registered_restart; reflexivity).
      assert (Hnr : notifications (restart (setCurrentRequest None c))
                    = notifications c)
        by (rewrite notifications_restart; reflexivity).
      assert (Hsr : registered (sendRequest (setCurrentRequest None c)) = requests c)
        by (rewrite registered_sendRequest; reflexivity).
      assert (Hns : notifications (sendRequest (setCurrentRequest None c))
                    = notifications c)
        by (rewrite notifications_sendRequest; reflexivity).
      destruct (is_error ec);
        [inversion Hs; subst; apply Hdone; auto|].
      destruct (is_error (header_ec input));
        [inversion Hs; subst; apply Hdone; auto|].
      destruct (negb (bool_decide (id p = header_id input))); [discriminate|].
      destruct (is_error (frame_ec input));
        [inversion Hs; subst; apply Hdone; auto|].
      destruct (is_error (body_ec input));
        [inversion Hs; subst; apply Hdone; auto|].
      inversion Hs; subst. apply Hdone; auto.
    + exists [], [].
      destruct (is_error ec); inversion Hs; subst; clear Hs;
        rewrite ?registered_restart, ?notifications_restart,
                ?registered_sendRequest, ?notifications_sendRequest;
        simpl; rewrite !app_nil_r; auto.
  - (* Stop *)
    inversion Hs; subst; clear Hs. unfold stop.
    destruct (state c) eqn:Est;
      [exists [], []; simpl; rewrite !app_nil_r; auto| |];
      (exists (map (notice parses) (registered c)), [];
       destruct (notify_all parses (registered c)
                   (setRequests [] (setCurrentRequest None
                                      (setState STATE_INITIAL c))))
         as (H1 & _ & H3 & H4 & _);
       split; [exact H1|]; split; [|auto];
       rewrite (registered_frame _ _ H3 H4); unfold registered at 3, in_flight;
       simpl; rewrite !app_nil_r, map_map; reflexivity).
Qed.

Lemma sent_cons (x : Call) (rest : list Call) :
  sent (x :: rest) = sent [x] ++ sent rest.
Proof. unfold sent. simpl. rewrite app_nil_r. reflexivity. Qed.

Lemma calls_account (l : list Call) :
  forall c c' : t,
    calls l c = Ok c' ->
    exists (more : list (string * bool)) (dropped : list string),
      notifications c' = notifications c ++ more
      /\ map id (registered c) ++ map id (sent l)
         ≡ₚ map fst more ++ map id (registered c') ++ dropped
      /\ (forallb (fun x => negb (cancels x)) l = true -> dropped = []).
Proof.
  induction l as [|x rest IH]; intros c c' Hr.
  - simpl in Hr. inversion Hr; subst. exists [], [].
    simpl. rewrite !app_nil_r. auto.
  - simpl in Hr. destruct (call c x) as [c1|e] eqn:Ex; [|discriminate].
    simpl in Hr.
    destruct (call_accounts c c1 x Ex) as (m1 & d1 & N1 & P1 & D1).
    destruct (IH c1 c' Hr) as (m2 & d2 & N2 & P2 & D2).
    exists (m1 ++ m2), (d1 ++ d2). split; [|split].
    + rewrite N2, N1, app_assoc. reflexivity.
    + rewrite sent_cons, map_app, app_assoc, P1.
      rewrite <- !app_assoc.
      rewrite (Permutation_app_comm d1 (map id (sent rest))).
      rewrite (app_assoc (map id (registered c1))), P2.
      rewrite map_app, <- !app_assoc.
      apply Permutation_app_head, Permutation_app_head, Permutation_app_head.
      apply Permutation_app_comm.
    + simpl. intros H. apply andb_true_iff in H as [Hx Hrest].
      rewrite D1 by (destruct (cancels x); [discriminate|reflexivity]).
      rewrite D2 by exact Hrest. reflexivity.
Qed.







Lemma registered_cancel (i : string) (c : t) :
  registered (cancel i c) = filter (fun p => id p <> i) (registered c)
  /\ notifications (cancel i c) = notifications c.
Proof.
  unfold cancel.
  set (c1 := setRequests (filter (fun p => id p <> i) (requests c)) c).
  unfold registered at 2, in_flight. rewrite filter_app.
  destruct (currentRequest c) as [current|] eqn:Ec.
  - change (currentRequest c1) with (currentRequest c). rewrite Ec.
    case_bool_decide as Hi.
    + rewrite filter_cons_False by (intros H; apply H; exact Hi).
      rewrite filter_nil. simpl.
      destruct (state c);
        rewrite ?registered_restart, ?notifications_restart; auto.
    + rewrite filter_cons_True by exact Hi. rewrite filter_nil.
      unfold registered, in_flight. simpl. rewrite Ec. auto.
  - change (currentRequest c1) with (currentRequest c). rewrite Ec.
    rewrite filter_nil. unfold registered, in_flight. simpl. rewrite Ec. auto.
Qed.

(** X2: After [cancel] the connector holds no request with the id, and it has
    notified nobody; as long as no request with this id is given to [send]
    again, no call, socket failures and [stop] included, notifies a
    subscriber under this id. *)
Theorem cancelled_request_is_not_notified (i : string) (l : list Call) (c c' : t) :
  calls l (cancel i c) = Ok c' ->
  Forall (fun p => id p <> i) (sent l) ->
  exists_ i (cancel i c) = false
  /\ ~ In i (map id (registered (cancel i c)))
  /\ notifications (cancel i c) = notifications c
  /\ exists more : list (string * bool),
       notifications c' = notifications c ++ more /\ ~ In i (map fst more).
Proof.
  intros Hr Hs. destruct (registered_cancel i c) as (Hreg & Hn).
  assert (Habs : ~ In i (map id (registered (cancel i c)))).
  { rewrite Hreg. intros H. apply in_map_iff in H as (p & Hp & Hin).
    apply list_elem_of_In, list_elem_of_filter in Hin as [Hne _]. auto. }
  split; [|split; [exact Habs|split; [exact Hn|]]].
  - unfold exists_, find. destruct (List.find _ _) as [p|] eqn:Ef; [|reflexivity].
    apply find_some in Ef as [Hin Hp]. apply bool_decide_eq_true in Hp.
    exfalso. apply Habs. apply in_map_iff. exists p. split; [exact Hp|].
    unfold registered. apply in_or_app. right. exact Hin.
  - destruct (calls_account l (cancel i c) c' Hr) as (more & dropped & N & P & _).
    exists more. rewrite <- Hn. split; [exact N|].
    intros Hin. assert (H : In i (map id (registered (cancel i c))
                              ++ map id (sent l))).
    { apply list_elem_of_In. rewrite P. apply list_elem_of_In.
      apply in_or_app. left. exact Hin. }
    apply in_app_or in H as [H|H]; [exact (Habs H)|].
    apply in_map_iff in H as (p & Hp & Hin').
    rewrite Forall_forall in Hs. apply list_elem_of_In in Hin'.
    exact (Hs p Hin' Hp).
Qed.

Lemma idle_not_initial (c : t) : state c <> STATE_INITIAL -> idle_empty c.
Proof. intros H E. contradiction. Qed.

Lemma idle_restart (c : t) : idle_empty (restart c).
Proof.
  apply idle_not_initial. rewrite (proj1 (restart_state c)). discriminate.
Qed.

Lemma idle_sendRequest (c : t) : idle_empty c -> idle_empty (sendRequest c).
Proof.
  intros H E. assert (E' : state c = STATE_INITIAL).
  { revert E. unfold sendRequest. destruct (currentRequest c); [auto|].
    destruct (requests c); auto. }
  destruct (H E') as [Hr Hc]. unfold sendRequest. rewrite Hc, Hr. auto.
Qed.

Lemma idle_frame (c c' : t) :
  state c' = state c -> requests c' = requests c ->
  currentRequest c' = currentRequest c -> idle_empty c -> idle_empty c'.
Proof. unfold idle_empty. intros -> -> ->. auto. Qed.

Lemma call_idle (c c' : t) (x : Call) :
  call c x = Ok c' -> idle_empty c -> idle_empty c'.
Proof.
  destruct x as [[ptr|i|ec|ec|ec|ec|ec input]|parses]; simpl; intros Hs HI.
  - unfold sendImpl in Hs. destruct (find (id ptr) c); [discriminate|].
    simpl in Hs. destruct (state c) eqn:Est; inversion Hs; subst; clear Hs;
      apply idle_not_initial.
    + unfold resolve. simpl. rewrite Est. simpl. discriminate.
    + simpl. rewrite Est. discriminate.
    + unfold sendRequest. simpl.
      destruct (currentRequest c); [simpl; rewrite Est; discriminate|].
      destruct (requests c ++ [ptr]); simpl; rewrite Est; discriminate.
  - inversion Hs; subst; clear Hs. unfold cancel.
    set (c1 := setRequests (filter (fun p => id p <> i) (requests c)) c).
    assert (H1 : idle_empty c1).
    { intros E. destruct (HI E) as [Hr Hc]. simpl. rewrite Hr, Hc. auto. }
    destruct (currentRequest c1) as [current|] eqn:Ec; [|exact H1].
    case_bool_decide; [|exact H1].
    assert (H2 : idle_empty (setCurrentRequest None c1)).
    { intros E. destruct (H1 E) as [Hr _]. simpl. simpl in Hr. auto. }
    destruct (state (setCurrentRequest None c1)); auto using idle_restart.
  - inversion Hs; subst; clear Hs. unfold resolved.
    destruct (is_aborted ec); [exact HI|].
    destruct (is_error ec); eapply idle_frame; eauto.
  - inversion Hs; subst; clear Hs. unfold connected.
    destruct (is_aborted ec); [exact HI|].
    destruct (is_error ec); [eapply idle_frame; eauto|].
    apply idle_sendRequest, idle_not_initial. discriminate.
  - inversion Hs; subst; clear Hs. unfold awakenForRestart.
    destruct (is_aborted ec); [exact HI|].
    destruct (state c); auto using idle_restart.
  - inversion Hs; subst; clear Hs. unfold requestSent.
    destruct (is_aborted ec); [apply idle_restart|].
    destruct (currentRequest c); [|exact HI].
    destruct (is_error ec); [apply idle_restart|].
    eapply idle_frame; eauto.
  - unfold responseReceived in Hs.
    destruct (is_aborted ec); [inversion Hs; subst; apply idle_restart|].
    assert (Hdrop : idle_empty (setCurrentRequest None c)).
    { intros E. destruct (HI E) as [Hr _]. auto. }
    assert (Hp : forall (b : bool) (q : MessageWrapper) (c2 : t),
              idle_empty c2 -> idle_empty (parseAndNotify b q c2)).
    { intros b q c2. apply idle_frame; reflexivity. }
    destruct (currentRequest c) as [p|] eqn:Ec.
    + destruct (is_error ec);
        [inversion Hs; subst; apply Hp, idle_restart|].
      destruct (is_error (header_ec input));
        [inversion Hs; subst; apply Hp, idle_restart|].
      destruct (negb (bool_decide (id p = header_id input))); [discriminate|].
      destruct (is_error (frame_ec input));
        [inversion Hs; subst; apply Hp, idle_restart|].
      destruct (is_error (body_ec input));
        [inversion Hs; subst; apply Hp, idle_restart|].
      inversion Hs; subst. apply Hp, idle_sendRequest, Hdrop.
    + destruct (is_error ec); inversion Hs; subst.
      * apply idle_restart.
      * apply idle_sendRequest, HI.
  - inversion Hs; subst; clear Hs. unfold stop.
    destruct (state c) eqn:Est; [exact HI| |];
      (destruct (notify_all parses (registered c)
                   (setRequests [] (setCurrentRequest None
                                      (setState STATE_INITIAL c))))
         as (_ & H2 & H3 & H4 & _);
       intros _; rewrite H3, H4; auto).
Qed.

Lemma calls_idle (l : list Call) :
  forall c c' : t, calls l c = Ok c' -> idle_empty c -> idle_empty c'.
Proof.
  induction l as [|x rest IH]; intros c c' Hr HI.
  - simpl in Hr. inversion Hr; subst. exact HI.
  - simpl in Hr. destruct (call c x) as [c1|e] eqn:Ex; [|discriminate].
    simpl in Hr. eapply IH; eauto. eapply call_idle; eauto.
Qed.

(** X3: Whatever calls a new connector has seen, [stop] leaves it in its initial
    state without any request, and every request it held is notified, the one
    in flight first, then the queue in its order; a connector found in its
    initial state holds no request, so that none is left without
    notification. *)
Theorem stop_notifies_every_request (l : list Call) (c : t)
    (parses : MessageWrapper -> bool) :
  calls l create = Ok c ->
  state (stop parses c) = STATE_INITIAL
  /\ requests (stop parses c) = []
  /\ currentRequest (stop parses c) = None
  /\ notifications (stop parses c)
     = notifications c ++ map (notice parses) (registered c)
  /\ wire (stop parses c) = wire c.
Proof.
  intros Hr.
  assert (HI : idle_empty c).
  { apply (calls_idle l create c Hr). intros _. auto. }
  unfold stop. destruct (state c) eqn:Est.
  - destruct (HI Est) as [Hq Hc]. unfold registered, in_flight.
    rewrite Hq, Hc. simpl. rewrite app_nil_r. auto.
  - destruct (notify_all parses (registered c)
                (setRequests [] (setCurrentRequest None
                                   (setState STATE_INITIAL c))))
      as (H1 & H2 & H3 & H4 & H5 & _).
    rewrite H1, H2, H3, H4, H5. auto.
  - destruct (notify_all parses (registered c)
                (setRequests [] (setCurrentRequest None
                                   (setState STATE_INITIAL c))))
      as (H1 & H2 & H3 & H4 & H5 & _).
    rewrite H1, H2, H3, H4, H5. auto.
Qed.

End MessengerConnectorCalls.

Section WorkerRequestExecution.
Import WorkerRequest.

Lemma execute_in_progress (now increment : Z) (success : bool) (r : t) :
  status r = STATUS_IN_PROGRESS ->
  0 <= durationMillisec r -> 0 <= increment ->
  durationMillisec r + increment < 2 ^ 32 ->
  execute now increment success r
  = if durationMillisec r + increment <? maxDurationMillisec
    then (addDuration increment r, Returned false)
    else (mk (id r) (priority r)
             (if success then STATUS_SUCCEEDED else STATUS_FAILED)
             EXT_STATUS_NONE
             (setUpdateFinish now (performance r))
             (durationMillisec r + increment),
          Returned true).
Proof.
  intros Hs H0 H1 H2. unfold execute. rewrite Hs. simpl.
  rewrite Z.mod_small by lia.
  destruct (durationMillisec r + increment <? maxDurationMillisec); [reflexivity|].
  unfold setStatus. destruct success; simpl; rewrite Z.mod_small by lia; reflexivity.
Qed.

Lemma executeLoop_completes (clock : nat -> Z) (draws : list (Z * bool)) :
  forall (n : nat) (r : t),
    status r = STATUS_IN_PROGRESS ->
    0 <= durationMillisec r < maxDurationMillisec ->
    Forall (fun d => 1000 <= fst d <= 2000) draws ->
    maxDurationMillisec <= durationMillisec r + 1000 * Z.of_nat (length draws) ->
    exists (r' : t) (m : nat) (increment : Z) (success : bool),
      executeLoop clock draws n r = (r', (n + S m)%nat, Returned true)
      /\ draws !! m = Some (increment, success)
      /\ status r'
         = (if success then STATUS_SUCCEEDED else STATUS_FAILED)
      /\ maxDurationMillisec <= durationMillisec r'
      /\ durationMillisec r' <= durationMillisec r + 2000 * Z.of_nat (S m)
      /\ durationMillisec r + 1000 * Z.of_nat m < maxDurationMillisec
      /\ finish_time (performance r') = clock (n + m)%nat.
Proof.
  unfold maxDurationMillisec.
  induction draws as [|[increment success] rest IH]; intros n r Hs Hd Hall Hlen.
  - simpl in Hlen. lia.
  - inversion Hall as [|x l Hx Hrest]; subst. simpl in Hx.
    simpl. rewrite execute_in_progress by (auto; lia). unfold maxDurationMillisec.
    destruct (durationMillisec r + increment <? 10000) eqn:Elt.
    + apply Z.ltb_lt in Elt.
      destruct (IH (S n) (addDuration increment r)) as
        (r' & m & inc' & s' & E & L & S1 & D1 & D2 & D3 & F); auto.
      * simpl. rewrite Z.mod_small by lia. lia.
      * simpl. rewrite Z.mod_small by lia. simpl length in Hlen. lia.
      * simpl in D2, D3. rewrite Z.mod_small in D2, D3 by lia.
        exists r', (S m), inc', s'. rewrite E.
        replace (S n + S m)%nat with (n + S (S m))%nat by lia.
        replace (S n + m)%nat with (n + S m)%nat in F by lia.
        repeat split; auto; lia.
    + apply Z.ltb_ge in Elt.
      eexists _, 0%nat, increment, success.
      replace (n + 1)%nat with (S n) by lia.
      replace (n + 0)%nat with n by lia.
      split; [reflexivity|]. simpl. repeat split; auto; lia.
Qed.

(** X4: A request in progress that has accumulated no duration yet, on which
    [execute] is called again and again with increments between 1000 and 2000
    milliseconds (the interval of [::incrementIvalMillisec]), is completed by
    the call that brings the duration to 10000 milliseconds: not before the
    fifth call and at the latest by the tenth, with the status SUCCEEDED or
    FAILED that the generator of the success rate draws for that call, and
    with the finish time of that call. *)
Theorem execute_completes_within_ten_calls (clock : nat -> Z)
    (draws : list (Z * bool)) (r : t) :
  status r = STATUS_IN_PROGRESS ->
  durationMillisec r = 0 ->
  Forall (fun d => 1000 <= fst d <= 2000) draws ->
  (10 <= length draws)%nat ->
  exists (r' : t) (n : nat) (increment : Z) (success : bool),
    executeLoop clock draws 0 r = (r', n, Returned true)
    /\ (5 <= n <= 10)%nat
    /\ draws !! (n - 1)%nat = Some (increment, success)
    /\ status r' = (if success then STATUS_SUCCEEDED else STATUS_FAILED)
    /\ maxDurationMillisec <= durationMillisec r'
    /\ finish_time (performance r') = clock (n - 1)%nat.
Proof.
  intros Hs Hd Hall Hlen.
  destruct (executeLoop_completes clock draws 0 r Hs) as
    (r' & m & inc & s & E & L & S1 & D1 & D2 & D3 & F); auto.
  - rewrite Hd. unfold maxDurationMillisec. lia.
  - rewrite Hd. unfold maxDurationMillisec. lia.
  - exists r', (S m), inc, s. simpl in E, F. unfold maxDurationMillisec in *.
    replace (S m - 1)%nat with m by lia.
    repeat split; auto; lia.
Qed.

(** X5: Once [cancel] has been called on a request in progress, the request is
    being cancelled, and the next call of [execute] or of [rollback] ends it
    in STATUS_CANCELLED by throwing [WorkerRequestCancelled], whatever
    duration it has accumulated and whatever the generators would draw: it
    does not complete as succeeded or failed.  A cancelled request stays
    cancelled: [cancel] keeps the status, [execute] and [rollback] throw a
    logic error and change nothing. *)
Theorem cancel_in_progress_ends_cancelled (now now' now'' increment : Z)
    (success : bool) (r : t) :
  status r = STATUS_IN_PROGRESS ->
  exists r1 r2 : t,
    cancel now r = Ok r1
    /\ status r1 = STATUS_IS_CANCELLING
    /\ durationMillisec r1 = durationMillisec r
    /\ execute now' increment success r1 = (r2, ThrewCancelled)
    /\ rollback now' r1 = (r2, ThrewCancelled)
    /\ status r2 = STATUS_CANCELLED
    /\ durationMillisec r2 = durationMillisec r
    /\ finish_time (performance r2) = now'
    /\ execute now'' increment success r2 = (r2, ThrewLogicError)
    /\ rollback now'' r2 = (r2, ThrewLogicError)
    /\ (exists r3, cancel now'' r2 = Ok r3 /\ status r3 = STATUS_CANCELLED).
Proof.
  intros Hs. unfold cancel. rewrite Hs. simpl.
  eexists _, _. split; [reflexivity|]. simpl.
  repeat split; try reflexivity.
  eexists. split; reflexivity.
Qed.

End WorkerRequestExecution.

Section WorkerProcessorQueues.
Import WorkerProcessor.

Lemma lookup_id_found (i : string) (queue : list Ptr) (k : nat) (ptr : Ptr) :
  lookup_id i queue = Some (k, ptr) -> queue !! k = Some ptr /\ id ptr = i.
Proof. unfold lookup_id. intros H. apply list_find_Some in H. tauto. Qed.

Lemma lookup_id_update (i : string) (queue : list Ptr) (k : nat) (ptr ptr' : Ptr) :
  lookup_id i queue = Some (k, ptr) -> id ptr' = i ->
  lookup_id i (<[k := ptr']> queue) = Some (k, ptr').
Proof.
  unfold lookup_id. intros H Hi. apply list_find_Some in H as (Hk & _ & Hleast).
  apply list_find_insert_Some. right. left.
  split; [reflexivity|]. split; [reflexivity|].
  split; [eapply lookup_lt_Some; eauto|]. split; [exact Hi|]. exact Hleast.
Qed.

Lemma lookup_id_removed (i : string) (queue : list Ptr) :
  lookup_id i (filter (fun p => id p <> i) queue) = None.
Proof.
  unfold lookup_id. apply list_find_None, Forall_forall.
  intros p Hp. apply list_elem_of_filter in Hp as [Hne _]. exact Hne.
Qed.

Lemma lookup_id_back (i : string) (queue : list Ptr) (ptr : Ptr) :
  lookup_id i queue = None -> id ptr = i ->
  lookup_id i (queue ++ [ptr]) = Some (length queue, ptr).
Proof.
  unfold lookup_id. intros H Hi. rewrite list_find_app_r by exact H.
  simpl. rewrite decide_True by exact Hi. reflexivity.
Qed.

(** X6: The status of a request [w] of the worker reaches the controller as
    [translate] gives it, none of the six statuses as BAD or as an unknown
    value; and [DeleteRequest::analyze] reads it back: a request that does not
    track finishes in the extended state that names the status of the worker,
    and a request that tracks finishes if and only if the request of the
    worker is completed (SUCCEEDED, FAILED or CANCELLED), polling again
    otherwise.  A value outside the six statuses makes [translate] throw. *)
Theorem worker_status_reaches_controller (w : WorkerRequest.t)
    (message : DeleteRequest.Response) (r : DeleteRequest.t) :
  Request.finished (DeleteRequest.base r) = false ->
  match WorkerRequest.status w with
  | WorkerRequest.STATUS_OTHER _ =>
      translate (WorkerRequest.status w) = Throw logic_error
  | _ =>
      exists wire : proto.ReplicationStatus,
        translate (WorkerRequest.status w) = Ok wire
        /\ wire <> proto.BAD
        /\ (DeleteRequest.status message = wire ->
            DeleteRequest.outcome r (DeleteRequest.analyze true message r)
            = if Request.keepTracking (DeleteRequest.base r)
                 && negb (WorkerRequest.completed w)
              then DeleteRequest.Rearmed
              else DeleteRequest.Finished
                     match WorkerRequest.status w with
                     | WorkerRequest.STATUS_NONE => Request.SERVER_QUEUED
                     | WorkerRequest.STATUS_IN_PROGRESS => Request.SERVER_IN_PROGRESS
                     | WorkerRequest.STATUS_IS_CANCELLING =>
                         Request.SERVER_IS_CANCELLING
                     | WorkerRequest.STATUS_CANCELLED => Request.SERVER_CANCELLED
                     | WorkerRequest.STATUS_SUCCEEDED => Request.SUCCESS
                     | _ => Request.SERVER_ERROR
                     end)
  end.
Proof.
  intros Hf.
  assert (Hrec : Request.finished
                   (DeleteRequest.base (DeleteRequest.received message r)) = false)
    by exact Hf.
  unfold WorkerRequest.completed.
  destruct (WorkerRequest.status w); simpl; try reflexivity;
    (eexists; split; [reflexivity|]; split; [discriminate|]; intros Hm;
     unfold DeleteRequest.analyze; rewrite Hf, Hm; simpl negb; cbv iota zeta;
     change (Request.keepTracking
               (DeleteRequest.base (DeleteRequest.received message r)))
       with (Request.keepTracking (DeleteRequest.base r));
     try rewrite andb_false_r;
     try (destruct (Request.keepTracking (DeleteRequest.base r)); simpl andb;
          cbv iota);
     first [apply outcome_finish; exact Hrec
           |apply outcome_wait; [exact Hrec|reflexivity]]).
Qed.

(** X7: A request in progress that a client cancels stays in the queue of the
    requests in progress, now in STATUS_IS_CANCELLING, which is what the
    client is told and what [checkStatusImpl] reports.  The next call of
    [execute] by the thread that processes it throws
    [WorkerRequestCancelled] and leaves it in STATUS_CANCELLED; once the
    thread has passed it to [processingFinished] it is in the queue of the
    finished requests, no longer among those in progress, and
    [checkStatusImpl] reports it cancelled. *)
Theorem cancel_request_in_progress (remove : string -> list Ptr -> list Ptr)
    (referent : nat -> list Ptr -> list Ptr -> Ptr)
    (now now' increment : Z) (success : bool) (i : string) (q : t)
    (k : nat) (ptr : Ptr) :
  lookup_id i (newRequests q) = None ->
  lookup_id i (inProgressRequests q) = Some (k, ptr) ->
  lookup_id i (finishedRequests q) = None ->
  WorkerRequest.status (base ptr) = WorkerRequest.STATUS_IN_PROGRESS ->
  exists (q1 q2 : t) (p1 p2 : Ptr),
    dequeueOrCancelImpl remove referent now i q = (q1, Ok (Some p1))
    /\ WorkerRequest.status (base p1) = WorkerRequest.STATUS_IS_CANCELLING
    /\ inProgressRequests q1 = <[k := p1]> (inProgressRequests q)
    /\ newRequests q1 = newRequests q
    /\ finishedRequests q1 = finishedRequests q
    /\ checkStatusImpl i q1 = Ok (Some p1)
    /\ executeAt now' increment success k q1
       = (q2, Some (p2, WorkerRequest.ThrewCancelled))
    /\ WorkerRequest.status (base p2) = WorkerRequest.STATUS_CANCELLED
    /\ id p2 = i
    /\ lookup_id i (inProgressRequests (processingFinished p2 q2)) = None
    /\ finishedRequests (processingFinished p2 q2) = finishedRequests q ++ [p2]
    /\ checkStatusImpl i (processingFinished p2 q2) = Ok (Some p2).
Proof.
  intros Hnew Hin Hfin Hst.
  destruct (lookup_id_found i _ k ptr Hin) as [Hk Hid].
  unfold dequeueOrCancelImpl. rewrite Hnew, Hin.
  unfold WorkerRequest.cancel. rewrite Hst. simpl.
  set (b1 := WorkerRequest.mk _ _ _ _ _ _).
  set (p1 := withBase b1 ptr).
  assert (Hid1 : id p1 = i) by exact Hid.
  assert (Hk1 : <[k := p1]> (inProgressRequests q) !! k = Some p1).
  { apply list_lookup_insert_eq. eapply lookup_lt_Some; eauto. }
  eexists _, _, p1, _.
  split; [reflexivity|]. split; [reflexivity|]. split; [reflexivity|].
  split; [reflexivity|]. split; [reflexivity|]. split.
  { unfold checkStatusImpl. simpl. rewrite Hnew.
    rewrite (lookup_id_update i _ k ptr p1 Hin Hid1). reflexivity. }
  split.
  { unfold executeAt. simpl. rewrite Hk1. simpl. reflexivity. }
  simpl. split; [reflexivity|]. split; [exact Hid|].
  unfold processingFinished. simpl.
  change (id (withBase _ p1)) with (id ptr). rewrite Hid.
  split; [apply lookup_id_removed|]. split; [reflexivity|].
  unfold checkStatusImpl. simpl. rewrite Hnew, lookup_id_removed.
  rewrite (lookup_id_back i (finishedRequests q) _ Hfin) by exact Hid.
  reflexivity.
Qed.

Lemma filter_keeps_all (i : string) (queue : list Ptr) :
  ~ In i (map id queue) -> filter (fun p => id p <> i) queue = queue.
Proof.
  induction queue as [|p rest IH]; intros H; [reflexivity|].
  simpl in H. rewrite filter_cons_True by tauto. rewrite IH by tauto. reflexivity.
Qed.

Lemma filter_moved (request : Ptr) (queue : list Ptr) :
  NoDup (map id queue) -> request ∈ queue ->
  queue ≡ₚ request :: filter (fun p => id p <> id request) queue.
Proof.
  induction queue as [|p rest IH]; intros Hnd Hin.
  - inversion Hin.
  - simpl in Hnd. apply NoDup_cons in Hnd as [Hp Hrest].
    rewrite list_elem_of_In in Hp.
    apply elem_of_cons in Hin as [->|Hin].
    + rewrite filter_cons_False by (intros H; apply H; reflexivity).
      rewrite filter_keeps_all by exact Hp. reflexivity.
    + assert (Hne : id p <> id request).
      { intros E. apply Hp. rewrite E. apply in_map, list_elem_of_In, Hin. }
      rewrite filter_cons_True by exact Hne.
      rewrite (IH Hrest Hin) at 1. apply perm_swap.
Qed.

(** X9: [processingFinished] moves a request from the queue of the requests in
    progress to the back of the queue of the finished requests: if the ids of
    the requests in progress are distinct, the other requests stay, no
    request is lost and none is added. *)
Theorem processingFinished_moves (request : Ptr) (q : t) :
  NoDup (map id (inProgressRequests q)) ->
  request ∈ inProgressRequests q ->
  newRequests (processingFinished request q) = newRequests q
  /\ inProgressRequests q
     ≡ₚ request :: inProgressRequests (processingFinished request q)
  /\ finishedRequests (processingFinished request q)
     = finishedRequests q ++ [request]
  /\ lookup_id (id request) (inProgressRequests (processingFinished request q))
     = None
  /\ (length (inProgressRequests (processingFinished request q))
      + length (finishedRequests (processingFinished request q))
      = length (inProgressRequests q) + length (finishedRequests q))%nat.
Proof.
  intros Hnd Hin. pose proof (filter_moved request _ Hnd Hin) as HP.
  unfold processingFinished. simpl.
  split; [reflexivity|]. split; [exact HP|]. split; [reflexivity|].
  split; [apply lookup_id_removed|].
  rewrite length_app. simpl. apply Permutation_length in HP. simpl in HP. lia.
Qed.

(** X10: A request that a thread has fetched and then refuses returns to the
    queue of the new requests as it was.  When the constructor of
    [util::BlockPost] returns for the range from 0 to the time out, and the
    time out is not zero, [fetchNextForProcessing] starts the request on top
    of the queue and puts it at the back of the queue of the requests in
    progress; [processingRefused] stops it, which resets its status and its
    times, takes it out of that queue and pushes it.  When the constructor
    throws, the call throws the same and the queues are left as they were;
    with a time out of zero nothing is fetched in either case, whatever
    waits in the queue. *)
Theorem fetched_then_refused (push : Ptr -> list Ptr -> list Ptr)
    (top : Ptr -> list Ptr -> Ptr) (pop : Ptr -> list Ptr -> list Ptr)
    (BlockPost : Z -> Z -> Res unit)
    (now now' timeoutMilliseconds : Z) (waits : list Z) (q : t)
    (first : Ptr) (others : list Ptr) :
  0 < timeoutMilliseconds ->
  BlockPost 0 timeoutMilliseconds = Ok tt ->
  newRequests q = first :: others ->
  WorkerRequest.status (base (top first others)) = WorkerRequest.STATUS_NONE ->
  WorkerRequest.extendedStatus (base (top first others))
  = WorkerRequest.EXT_STATUS_NONE ->
  WorkerRequest.performance (base (top first others))
  = WorkerRequest.mkPerformance 0 0 ->
  ~ In (id (top first others)) (map id (inProgressRequests q)) ->
  (forall (t' : Z) (e : Exn),
     BlockPost 0 t' = Throw e ->
     fetchNextForProcessing top pop BlockPost now t' waits q = Some (q, Throw e))
  /\ (forall u : unit,
        BlockPost 0 0 = Ok u ->
        fetchNextForProcessing top pop BlockPost now 0 waits q = Some (q, Ok None))
  /\ exists (q1 : t) (request : Ptr),
       fetchNextForProcessing top pop BlockPost now timeoutMilliseconds waits q
       = Some (q1, Ok (Some request))
       /\ WorkerRequest.status (base request) = WorkerRequest.STATUS_IN_PROGRESS
       /\ WorkerRequest.start_time (WorkerRequest.performance (base request)) = now
       /\ newRequests q1 = pop first others
       /\ inProgressRequests q1 = inProgressRequests q ++ [request]
       /\ finishedRequests q1 = finishedRequests q
       /\ processingRefused push now' request q1
          = Ok (mk (worker q) (push (top first others) (pop first others))
                   (inProgressRequests q) (finishedRequests q)).
Proof.
  intros Ht Hb Hq Hst Hext Hperf Hfresh.
  split.
  { intros t' e H. unfold fetchNextForProcessing. rewrite H. reflexivity. }
  split.
  { intros u H. unfold fetchNextForProcessing. rewrite H.
    destruct waits; reflexivity. }
  assert (E : fetchNextForProcessing top pop BlockPost now timeoutMilliseconds
                waits q
              = match WorkerRequest.start now (base (top first others)) with
                | Ok b =>
                    Some (mk (worker q) (pop first others)
                            (inProgressRequests q
                             ++ [withBase b (top first others)])
                            (finishedRequests q),
                          Ok (Some (withBase b (top first others))))
                | Throw e =>
                    Some (mk (worker q) (pop first others)
                            (inProgressRequests q) (finishedRequests q),
                          Throw e)
                end).
  { unfold fetchNextForProcessing. rewrite Hb. destruct waits; simpl;
      rewrite (proj2 (Z.ltb_lt 0 timeoutMilliseconds) Ht), Hq; reflexivity. }
  rewrite E. clear E.
  remember (top first others) as r eqn:Er. clear Er.
  destruct r as [[i pr st ex pf du] kd]. simpl in Hst, Hext, Hperf, Hfresh.
  subst st ex pf. unfold WorkerRequest.start. simpl.
  eexists _, _. split; [reflexivity|]. simpl.
  repeat (split; [reflexivity|]).
  unfold processingRefused. simpl.
  change (id (withBase _ _)) with i.
  rewrite filter_app, filter_keeps_all by exact Hfresh.
  rewrite filter_cons_False by (intros H; apply H; reflexivity).
  rewrite filter_nil, app_nil_r. reflexivity.
Qed.

Lemma setServiceResponseInfo_ok (p : Ptr) :
  isEcho p = false ->
  exists info, setServiceResponseInfo p = Ok info /\ info_id info = id p.
Proof.
  unfold isEcho, setServiceResponseInfo.
  destruct (kind p); try discriminate; intros _; eexists; split; reflexivity.
Qed.

Lemma addInfos_ok (queue : list Ptr) :
  forall infos : list ServiceResponseInfo,
    forallb (fun p => negb (isEcho p)) queue = true ->
    exists more : list ServiceResponseInfo,
      addInfos queue infos = Ok (infos ++ more)
      /\ map info_id more = map id queue.
Proof.
  induction queue as [|p rest IH]; intros infos H; simpl.
  - exists []. rewrite app_nil_r. auto.
  - simpl in H. apply andb_true_iff in H as [Hp Hrest].
    apply negb_true_iff in Hp.
    destruct (setServiceResponseInfo_ok p Hp) as (info & E & Hid).
    rewrite E. simpl.
    destruct (IH (infos ++ [info]) Hrest) as (more & E' & Hids).
    rewrite E'. exists (info :: more). rewrite <- app_assoc.
    split; [reflexivity|]. simpl. rewrite Hid, Hids. reflexivity.
Qed.

Lemma addInfos_throws (queue : list Ptr) :
  forall infos : list ServiceResponseInfo,
    forallb (fun p => negb (isEcho p)) queue = false ->
    addInfos queue infos = Throw logic_error.
Proof.
  induction queue as [|p rest IH]; intros infos H; simpl in *; [discriminate|].
  unfold isEcho in H. unfold setServiceResponseInfo.
  destruct (kind p) eqn:Ek; simpl in *; try (apply IH; exact H). reflexivity.
Qed.

(** X11: The report of the service always gives the state of the processor and
    the lengths of its three queues.  The extended report lists the requests
    of the three queues in their order, with their ids, unless one of them is
    an echo request: [setServiceResponseInfo] knows no such request, and the
    extended report then fails with a logic error, which the plain report
    never does. *)
Theorem service_report_fails_on_echo {S : Type} (tech : string) (startTime : Z)
    (st : State) (status : S) (q : t) :
  let fresh := mkServiceResponse status "" 0 SUSPENDED 0 0 0 [] [] [] in
  let noEcho := forallb (fun p => negb (isEcho p))
                  (newRequests q ++ inProgressRequests q ++ finishedRequests q) in
  (exists r : ServiceResponse S,
     setServiceResponse tech startTime st fresh status false q = Ok r
     /\ num_new_requests r = length (newRequests q)
     /\ num_in_progress_requests r = length (inProgressRequests q)
     /\ num_finished_requests r = length (finishedRequests q)
     /\ service_state r = match st with
                          | STATE_IS_RUNNING => RUNNING
                          | STATE_IS_STOPPING => SUSPEND_IN_PROGRESS
                          | STATE_IS_STOPPED => SUSPENDED
                          end
     /\ new_requests r = [] /\ in_progress_requests r = []
     /\ finished_requests r = [])
  /\ (noEcho = false ->
      setServiceResponse tech startTime st fresh status true q = Throw logic_error)
  /\ (noEcho = true ->
      exists r : ServiceResponse S,
        setServiceResponse tech startTime st fresh status true q = Ok r
        /\ map info_id (new_requests r) = map id (newRequests q)
        /\ map info_id (in_progress_requests r) = map id (inProgressRequests q)
        /\ map info_id (finished_requests r) = map id (finishedRequests q)
        /\ num_new_requests r = length (new_requests r)
        /\ num_in_progress_requests r = length (in_progress_requests r)
        /\ num_finished_requests r = length (finished_requests r)).
Proof.
  intros fresh noEcho. split; [|split].
  - eexists. split; [reflexivity|]. simpl. destruct st; repeat split; reflexivity.
  - unfold noEcho. rewrite !forallb_app. intros H.
    unfold setServiceResponse. simpl.
    destruct (forallb _ (newRequests q)) eqn:E1;
      [|rewrite (addInfos_throws _ [] E1); reflexivity].
    destruct (addInfos_ok _ [] E1) as (m1 & A1 & _). rewrite A1. simpl.
    destruct (forallb _ (inProgressRequests q)) eqn:E2;
      [|rewrite (addInfos_throws _ [] E2); reflexivity].
    destruct (addInfos_ok _ [] E2) as (m2 & A2 & _). rewrite A2. simpl.
    simpl in H. rewrite (addInfos_throws _ [] H). reflexivity.
  - unfold noEcho. rewrite !forallb_app. intros H.
    apply andb_true_iff in H as [E1 H]. apply andb_true_iff in H as [E2 E3].
    destruct (addInfos_ok _ [] E1) as (m1 & A1 & I1).
    destruct (addInfos_ok _ [] E2) as (m2 & A2 & I2).
    destruct (addInfos_ok _ [] E3) as (m3 & A3 & I3).
    unfold setServiceResponse. simpl. rewrite A1. simpl. rewrite A2. simpl.
    rewrite A3. simpl. eexists. split; [reflexivity|]. simpl.
    repeat split; auto.
    + rewrite <- (length_map id (newRequests q)), <- I1, length_map. reflexivity.
    + rewrite <- (length_map id (inProgressRequests q)), <- I2, length_map.
      reflexivity.
    + rewrite <- (length_map id (finishedRequests q)), <- I3, length_map.
      reflexivity.
Qed.

Lemma drainIds_app (remove : string -> list Ptr -> list Ptr)
    (referent : nat -> list Ptr -> list Ptr -> Ptr) (now : Z)
    (a b : list string) (q : t) :
  drainIds remove referent now (a ++ b) q
  = match drainIds remove referent now a q with
    | (q', Ok _) => drainIds remove referent now b q'
    | (q', Throw e) => (q', Throw e)
    end.
Proof.
  revert q. induction a as [|i a IH]; intros q; simpl.
  - destruct (drainIds remove referent now b q) as [q' [u|e]]; reflexivity.
  - destruct (dequeueOrCancelImpl remove referent now i q) as [q1 [o|e]];
      [apply IH|reflexivity].
Qed.




(** A request with a new id that [queued] pushes is what [checkStatusImpl]
    finds under the id. *)
Lemma queued_found (push : Ptr -> list Ptr -> list Ptr) (i : string)
    (ptr : Ptr) (response : Response) (q : t) :
  (forall p l, push p l ≡ₚ p :: l) ->
  lookup_id i (newRequests q) = None ->
  id ptr = i ->
  WorkerRequest.status (base ptr) = WorkerRequest.STATUS_NONE ->
  status (snd (queued push ptr response q)) = proto.QUEUED
  /\ status_ext (snd (queued push ptr response q)) = proto.NONE
  /\ target_request (snd (queued push ptr response q)) = Some (kind ptr)
  /\ newRequests (fst (queued push ptr response q)) ≡ₚ ptr :: newRequests q
  /\ inProgressRequests (fst (queued push ptr response q)) = inProgressRequests q
  /\ finishedRequests (fst (queued push ptr response q)) = finishedRequests q
  /\ checkStatusImpl i (fst (queued push ptr response q)) = Ok (Some ptr).
Proof.
  intros Hpush Hfresh Hid Hst. unfold queued. simpl.
  repeat split; auto. unfold checkStatusImpl. simpl.
  destruct (list_find_elem_of (fun p => id p = i) (push ptr (newRequests q)) ptr)
    as [[k x] Hfind]; [rewrite Hpush; apply list_elem_of_here|exact Hid|].
  change (lookup_id i (push ptr (newRequests q)) = Some (k, x)) in Hfind.
  rewrite Hfind. destruct (lookup_id_found i _ k x Hfind) as [Hk Hx].
  apply list_elem_of_lookup_2 in Hk. rewrite Hpush in Hk.
  apply elem_of_cons in Hk as [->|Hk]; [rewrite Hst; reflexivity|].
  exfalso. unfold lookup_id in Hfresh. apply list_find_None in Hfresh.
  rewrite Forall_forall in Hfresh. exact (Hfresh x Hk Hx).
Qed.

(** X22: The requests to find replicas and the echo requests are queued
    without any look at the requests the processor holds: whatever is in its
    queues, a request the factory accepts is answered QUEUED with its
    parameters and, its id being new among the requests that wait, it is what
    [checkStatusImpl] finds under the id; a request the factory refuses is
    answered BAD with INVALID_PARAM and the queues are left as they were.  An
    echo request without delay is answered SUCCESS at once with its data: it
    never enters a queue, so that its status cannot be asked for.  The
    factory is supposed to give a request the id it is given and no status,
    as the constructor of [WorkerRequest] does, and [push] to add the request
    to the queue. *)
Theorem find_and_echo_requests_are_queued (push : Ptr -> list Ptr -> list Ptr)
    (createFindRequest : string -> string -> Z -> string -> N -> bool -> option Ptr)
    (createFindAllRequest : string -> string -> Z -> string -> option Ptr)
    (createEchoRequest : string -> string -> Z -> string -> N -> option Ptr)
    (now : Z) (i : string) (q : t) :
  (forall p l, push p l ≡ₚ p :: l) ->
  lookup_id i (newRequests q) = None ->
  let accepted (ptr : Ptr) (q' : t) (r : Response) :=
    id ptr = i ->
    WorkerRequest.status (base ptr) = WorkerRequest.STATUS_NONE ->
    status r = proto.QUEUED /\ status_ext r = proto.NONE
    /\ target_request r = Some (kind ptr)
    /\ newRequests q' ≡ₚ ptr :: newRequests q
    /\ inProgressRequests q' = inProgressRequests q
    /\ finishedRequests q' = finishedRequests q
    /\ checkStatusImpl i q' = Ok (Some ptr) in
  let refused (q' : t) (r : Response) :=
    q' = q /\ status r = proto.BAD /\ status_ext r = proto.INVALID_PARAM in
  (forall (request : FindRequest) (response : Response),
     let result := enqueueForFind push createFindRequest now i request response q in
     match createFindRequest (worker q) i (find_priority request)
             (find_database request) (find_chunk request)
             (find_compute_cs request) with
     | Some ptr => accepted ptr (fst result) (snd result)
     | None => refused (fst result) (snd result)
     end)
  /\ (forall (request : FindAllRequest) (response : Response),
        let result :=
          enqueueForFindAll push createFindAllRequest now i request response q in
        match createFindAllRequest (worker q) i (findall_priority request)
                (findall_database request) with
        | Some ptr => accepted ptr (fst result) (snd result)
        | None => refused (fst result) (snd result)
        end)
  /\ (forall (request : EchoRequest) (response : EchoResponse),
        let result := enqueueForEcho push createEchoRequest now i request response q in
        if N.eqb 0 (echo_delay request)
        then fst result = q
             /\ status (echo_common (snd result)) = proto.SUCCESS
             /\ status_ext (echo_common (snd result)) = proto.NONE
             /\ performance (echo_common (snd result))
                = Some (WorkerRequest.mkPerformance now now)
             /\ data (snd result) = Some (echo_data request)
        else
          data (snd result) = data response
          /\ match createEchoRequest (worker q) i (echo_priority request)
                     (echo_data request) (echo_delay request) with
             | Some ptr => accepted ptr (fst result) (echo_common (snd result))
             | None => refused (fst result) (echo_common (snd result))
             end).
Proof.
  intros Hpush Hfresh accepted refused. split; [|split].
  - intros request response result. unfold result, enqueueForFind.
    destruct (createFindRequest _ _ _ _ _ _) as [ptr|].
    + intros Hid Hst. exact (queued_found push i ptr response q Hpush Hfresh Hid Hst).
    + unfold refused. simpl. auto.
  - intros request response result. unfold result, enqueueForFindAll.
    destruct (createFindAllRequest _ _ _ _) as [ptr|].
    + intros Hid Hst. exact (queued_found push i ptr response q Hpush Hfresh Hid Hst).
    + unfold refused. simpl. auto.
  - intros request response result. unfold result, enqueueForEcho.
    destruct (N.eqb 0 (echo_delay request)); [simpl; auto|].
    destruct (createEchoRequest _ _ _ _ _) as [ptr|].
    + split; [reflexivity|]. intros Hid Hst.
      exact (queued_found push i ptr (echo_common response) q Hpush Hfresh Hid Hst).
    + unfold refused. simpl. auto.
Qed.

End WorkerProcessorQueues.

Section CreateReplicaJobRuns.
Import CreateReplicaJob.

Lemma finishRequest_at (i : nat) (e : Request.ExtendedState) (w : World)
    (r : ReplicationRequest) :
  heap (finishRequest i e w) !! i = Some r -> Request.finished (base r) = true.
Proof.
  unfold finishRequest. destruct (heap w !! i) as [r0|] eqn:L.
  - destruct (Request.finished (base r0)) eqn:F.
    + rewrite L. intros H. inversion H; subst. exact F.
    + simpl. rewrite list_lookup_insert_eq by (eapply lookup_lt_Some; eauto).
      intros H. inversion H; subst. simpl. unfold Request.finish. rewrite F.
      reflexivity.
  - rewrite L. discriminate.
Qed.

(** The test after [ptr->cancel()] in the loop of [cancelImpl] never holds:
    [Request::cancel] leaves the request finished. *)
Lemma cancelOne_self (w : World) (i : nat) : self (cancelOne w i) = self w.
Proof.
  unfold cancelOne, cancelRequest.
  destruct (heap (finishRequest i Request.CANCELLED w) !! i) as [r|] eqn:L.
  - rewrite (finishRequest_at _ _ _ _ L). apply finishRequest_self.
  - apply finishRequest_self.
Qed.

Lemma cancelAll_self (ptrs : list nat) (w : World) :
  self (fold_left cancelOne ptrs w) = self w.
Proof.
  revert w. induction ptrs as [|i rest IH]; intros w; simpl; [reflexivity|].
  rewrite IH. apply cancelOne_self.
Qed.

Lemma finish_self (e : Job.ExtendedState) (w : World) :
  Job.finished (job (self w)) = false ->
  self (finish e w)
  = withJob (Job.notify (Job.cancelTimers
                           (Job.setState Job.FINISHED e (job (self w)))))
      match e with
      | Job.SUCCESS => self w
      | _ => withRequests [] (self w)
      end.
Proof.
  intros L. unfold finish. rewrite L. unfold cancelImpl.
  destruct e; simpl; rewrite ?cancelAll_self; reflexivity.
Qed.

Lemma finish_effects (env : Env) (e : Job.ExtendedState) (w : World) :
  e <> Job.SUCCESS -> effects env w -> effects env (finish e w).
Proof.
  intros He HE. destruct (Job.finished (job (self w))) eqn:L.
  - unfold finish. rewrite L. exact HE.
  - destruct HE as [H1 H2]. unfold effects. rewrite (finish_self e w L).
    assert (Hs : succeeded (job (self w)) = false).
    { unfold succeeded. unfold Job.finished in L.
      destruct (Job.state (job (self w))); [reflexivity|reflexivity|discriminate]. }
    rewrite Hs in H2. simpl in H2.
    destruct e; try congruence; simpl; auto.
Qed.

Lemma launch_effects (env : Env) (replicas : list ReplicaInfo) (w : World) :
  stopReplicationCalls (self (fold_left (launch env) replicas w))
  = stopReplicationCalls (self w)
  /\ qservAddReplicaCalls (self (fold_left (launch env) replicas w))
     = qservAddReplicaCalls (self w).
Proof.
  revert w. induction replicas as [|x rest IH]; intros w; simpl; [auto|].
  destruct (IH (launch env w x)) as [H1 H2]. rewrite H1, H2. auto.
Qed.

(** How [startImpl] ends: with a finished job and no request, or with a job
    in progress and one request for each replica of the source. *)
Lemma startImpl_ends (env : Env) (w : World) :
  (exists e, (e = Job.CONFIG_ERROR \/ e = Job.FAILED)
             /\ startImpl env w = setState Job.FINISHED e w)
  \/ (exists sourceReplicas,
        sourceReplicas <> []
        /\ isKnownDatabaseFamily env (databaseFamily (self w)) = true
        /\ isKnownWorker env (sourceWorker (self w)) = true
        /\ isKnownWorker env (destinationWorker (self w)) = true
        /\ sourceWorker (self w) <> destinationWorker (self w)
        /\ findWorkerReplicas env (chunk (self w)) (destinationWorker (self w))
             (databaseFamily (self w)) = Some []
        /\ findWorkerReplicas env (chunk (self w)) (sourceWorker (self w))
             (databaseFamily (self w)) = Some sourceReplicas
        /\ startImpl env w
           = setState Job.IN_PROGRESS Job.NONE
               (fold_left (launch env) sourceReplicas w)).
Proof.
  unfold startImpl.
  destruct (isKnownDatabaseFamily env _) eqn:E1; simpl; [|left; eauto].
  destruct (isKnownWorker env (sourceWorker _)) eqn:E2; simpl; [|left; eauto].
  destruct (isKnownWorker env (destinationWorker _)) eqn:E3; simpl; [|left; eauto].
  case_bool_decide as E4; simpl; [left; eauto|].
  destruct (findWorkerReplicas env _ (destinationWorker (self w)) _)
    as [[|]|] eqn:E5; try (left; eauto; fail).
  destruct (findWorkerReplicas env _ (sourceWorker (self w)) _)
    as [[|x l]|] eqn:E6; try (left; eauto; fail).
  right. exists (x :: l). repeat split; auto; discriminate.
Qed.

Lemma start_effects (env : Env) (w w' : World) :
  start env w = Ok w' -> effects env w -> effects env w'.
Proof.
  unfold start. intros Hs [H1 H2].
  destruct (Job.state (job (self w))) eqn:Est; try discriminate.
  assert (Hn : succeeded (job (self w)) = false)
    by (unfold succeeded; rewrite Est; reflexivity).
  rewrite Hn in H2. simpl in H2.
  set (w1 := mkWorld _ (heap w) (notifiers w)) in Hs.
  destruct (startImpl_ends env w1) as [(e & He & E)|(l & _ & _ & _ & _ & _ & _ & _ & E)];
    rewrite E in Hs.
  - simpl in Hs. inversion Hs; subst. unfold effects. simpl.
    split; [exact H1|]. rewrite H2.
    destruct He as [-> | ->]; reflexivity.
  - destruct (launch_effects env l w1) as [L1 L2].
    simpl in Hs. inversion Hs; subst. unfold effects. simpl.
    rewrite L1, L2. simpl. auto.
Qed.

Lemma onRequestFinish_effects (env : Env) (i : nat) (w : World) :
  effects env w -> effects env (onRequestFinish env i w).
Proof.
  intros HE. unfold onRequestFinish.
  destruct (Job.finished (job (self w))) eqn:L; [exact HE|].
  destruct (heap w !! i) as [request|]; [|exact HE].
  assert (Hs : succeeded (job (self w)) = false).
  { unfold succeeded. unfold Job.finished in L.
    destruct (Job.state (job (self w))); [reflexivity|reflexivity|discriminate]. }
  destruct HE as [H1 H2]. rewrite Hs in H2. simpl in H2.
  set (j := match Request.extendedState (base request) with
            | Request.SUCCESS => record request (self w)
            | _ => self w
            end).
  assert (Hj : job j = job (self w) /\ stopReplicationCalls j = []
               /\ qservAddReplicaCalls j = []).
  { unfold j. destruct (Request.extendedState (base request)); simpl; auto. }
  destruct Hj as (J1 & J2 & J3). simpl.
  assert (Hw : effects env (mkWorld j (heap w) (notifiers w))).
  { split; simpl; [exact J2|]. rewrite J1, Hs, J3. reflexivity. }
  destruct (countRequestStates _) as [[numLaunched numFinished] numSuccess].
  destruct (Nat.eqb numFinished numLaunched); [|exact Hw].
  destruct (Nat.eqb numSuccess numLaunched);
    [|apply finish_effects; [discriminate|exact Hw]].
  unfold succeed. simpl.
  set (j2 := if xrootdAutoNotify env then _ else _).
  assert (L2 : Job.finished (job (self (mkWorld j2 (heap w) (notifiers w)))) = false).
  { unfold j2. simpl. destruct (xrootdAutoNotify env); simpl; rewrite J1; exact L. }
  unfold effects. rewrite (finish_self Job.SUCCESS _ L2). simpl.
  unfold j2, participatingDatabases.
  destruct (xrootdAutoNotify env); simpl; rewrite ?J2, ?J3, ?lookup_insert_eq; simpl;
    auto.
Qed.

Lemma step_effects (env : Env) (w : World) (e : Event) :
  effects env w -> effects env (step env w e).
Proof.
  intros HE. destruct e as [| |ec|i ext data|i|i ec|k]; simpl.
  - destruct (start env w) as [w'|x] eqn:Es; [|exact HE].
    eapply start_effects; eauto.
  - unfold cancel. destruct (Job.finished (job (self w))); [exact HE|].
    apply finish_effects; [discriminate|exact HE].
  - unfold expired. destruct (is_aborted ec); [exact HE|].
    destruct (Job.finished (job (self w))); [exact HE|].
    apply finish_effects; [discriminate|exact HE].
  - unfold respond, effects. destruct (heap w !! i) as [r|]; [|exact HE].
    destruct (Request.finished (base r)); [exact HE|].
    rewrite finishRequest_self. exact HE.
  - unfold cancelRequest, effects. rewrite finishRequest_self. exact HE.
  - unfold expireRequest, effects. destruct (is_aborted ec); [exact HE|].
    rewrite finishRequest_self. exact HE.
  - destruct (notifiers w !! k) as [i|]; [|exact HE].
    apply onRequestFinish_effects. exact HE.
Qed.

Lemma run_effects (env : Env) (events : list Event) (w : World) :
  effects env w -> effects env (run env events w).
Proof.
  revert w. induction events as [|e rest IH]; intros w HE; [exact HE|].
  simpl. apply IH, step_effects, HE.
Qed.

Lemma finish_parameters (e : Job.ExtendedState) (w : World) :
  parameters (self (finish e w)) = parameters (self w).
Proof.
  destruct (Job.finished (job (self w))) eqn:L.
  - unfold finish. rewrite L. reflexivity.
  - rewrite (finish_self e w L). destruct e; reflexivity.
Qed.

Lemma launch_parameters (env : Env) (replicas : list ReplicaInfo) (w : World) :
  parameters (self (fold_left (launch env) replicas w)) = parameters (self w).
Proof.
  revert w. induction replicas as [|x rest IH]; intros w; simpl; [reflexivity|].
  rewrite IH. reflexivity.
Qed.

Lemma step_parameters (env : Env) (w : World) (e : Event) :
  parameters (self (step env w e)) = parameters (self w).
Proof.
  destruct e as [| |ec|i ext data|i|i ec|k]; simpl.
  - destruct (start env w) as [w'|x] eqn:Es; [|reflexivity].
    unfold start in Es. destruct (Job.state (job (self w))); try discriminate.
    set (w1 := mkWorld _ (heap w) (notifiers w)) in Es.
    destruct (startImpl_ends env w1)
      as [(e & _ & E)|(l & _ & _ & _ & _ & _ & _ & _ & E)]; rewrite E in Es.
    + simpl in Es. inversion Es; subst. reflexivity.
    + simpl in Es. inversion Es; subst. unfold parameters. simpl.
      apply (launch_parameters env l w1).
  - unfold cancel. destruct (Job.finished (job (self w))); [reflexivity|].
    apply finish_parameters.
  - unfold expired. destruct (is_aborted ec); [reflexivity|].
    destruct (Job.finished (job (self w))); [reflexivity|].
    apply finish_parameters.
  - unfold respond. destruct (heap w !! i) as [r|]; [|reflexivity].
    destruct (Request.finished (base r)); [reflexivity|].
    rewrite finishRequest_self. reflexivity.
  - unfold cancelRequest. rewrite finishRequest_self. reflexivity.
  - unfold expireRequest. destruct (is_aborted ec); [reflexivity|].
    rewrite finishRequest_self. reflexivity.
  - destruct (notifiers w !! k) as [i|]; [|reflexivity].
    unfold onRequestFinish. simpl.
    destruct (Job.finished (job (self w))); [reflexivity|].
    destruct (heap w !! i) as [request|]; [|reflexivity].
    set (j := match Request.extendedState (base request) with
              | Request.SUCCESS => record request (self w)
              | _ => self w
              end).
    assert (Hj : parameters j = parameters (self w)).
    { unfold j. destruct (Request.extendedState (base request)); reflexivity. }
    simpl.
    destruct (countRequestStates _) as [[numLaunched numFinished] numSuccess].
    destruct (Nat.eqb numFinished numLaunched); [|exact Hj].
    destruct (Nat.eqb numSuccess numLaunched).
    + unfold succeed. rewrite finish_parameters. simpl.
      destruct (xrootdAutoNotify env); exact Hj.
    + rewrite finish_parameters. exact Hj.
Qed.

Lemma run_parameters (env : Env) (events : list Event) (w : World) :
  parameters (self (run env events w)) = parameters (self w).
Proof.
  revert w. induction events as [|e rest IH]; intros w; [reflexivity|].
  simpl. rewrite IH. apply step_parameters.
Qed.

(** X12: Whatever happens to a job and to its requests, Qserv is notified of the
    new replica at most once: once (if the configuration asks for
    notifications) when the job has finished with SUCCESS, for the chunk and
    the destination worker of the job and the databases its result holds for
    the chunk, and not at all otherwise. *)
Theorem qserv_is_notified_once_on_success (env : Env) (events : list Event)
    (i family source destination : string) (c : N) :
  let w := run env events (create i family c source destination) in
  qservAddReplicaCalls (self w)
  = if succeeded (job (self w)) && xrootdAutoNotify env
    then [(c, participatingDatabases (self w), destination)]
    else [].
Proof.
  intros w.
  assert (HE : effects env w).
  { apply run_effects. split; reflexivity. }
  pose proof (run_parameters env events (create i family c source destination))
    as HP.
  fold w in HP. unfold parameters in HP. simpl in HP.
  destruct HE as [_ H]. rewrite H. inversion HP. reflexivity.
Qed.

Lemma finishRequest_keeps (i a : nat) (e : Request.ExtendedState) (w : World)
    (r : ReplicationRequest) :
  heap w !! a = Some r -> Request.finished (base r) = true ->
  heap (finishRequest i e w) !! a = Some r.
Proof.
  intros La F. unfold finishRequest.
  destruct (heap w !! i) as [r0|] eqn:L; [|exact La].
  destruct (Request.finished (base r0)) eqn:F0; [exact La|]. simpl.
  destruct (decide (i = a)) as [->|Hne].
  - rewrite La in L. inversion L; subst. congruence.
  - rewrite list_lookup_insert_ne by exact Hne. exact La.
Qed.

Lemma cancelOne_heap (w : World) (i : nat) :
  heap (cancelOne w i) = heap (finishRequest i Request.CANCELLED w).
Proof.
  unfold cancelOne, cancelRequest.
  destruct (heap (finishRequest i Request.CANCELLED w) !! i) as [r|] eqn:L;
    [rewrite (finishRequest_at _ _ _ _ L)|]; reflexivity.
Qed.

Lemma finishRequest_heap_length (i : nat) (e : Request.ExtendedState) (w : World) :
  length (heap (finishRequest i e w)) = length (heap w).
Proof.
  unfold finishRequest. destruct (heap w !! i) as [r|]; [|reflexivity].
  destruct (Request.finished (base r)); [reflexivity|]. simpl.
  apply length_insert.
Qed.

(** After the loop of [cancelImpl] every request the loop has met is
    finished. *)
Lemma cancelAll_finishes (ptrs : list nat) :
  forall (w : World) (done : list nat),
    Forall (fun a => forall r, heap w !! a = Some r ->
                               Request.finished (base r) = true) done ->
    Forall (fun a => forall r, heap (fold_left cancelOne ptrs w) !! a = Some r ->
                               Request.finished (base r) = true) (done ++ ptrs).
Proof.
  induction ptrs as [|i rest IH]; intros w done Hd; simpl.
  - rewrite app_nil_r. exact Hd.
  - replace (done ++ i :: rest) with ((done ++ [i]) ++ rest)
      by (rewrite <- app_assoc; reflexivity).
    apply IH. apply Forall_app. split.
    + eapply Forall_impl; [exact Hd|]. intros a Ha r Hr.
      rewrite cancelOne_heap in Hr.
      destruct (heap w !! a) as [r0|] eqn:La.
      * pose proof (Ha r0 La) as F0.
        rewrite (finishRequest_keeps i a _ w r0 La F0) in Hr.
        inversion Hr; subst. exact F0.
      * apply lookup_lt_Some in Hr. rewrite finishRequest_heap_length in Hr.
        apply lookup_ge_None in La. lia.
    + constructor; [|constructor]. intros r Hr. rewrite cancelOne_heap in Hr.
      exact (finishRequest_at _ _ _ _ Hr).
Qed.

(** X13: A job never asks a worker to stop a replication: the loop of
    [cancelImpl] makes that call for a request that [Request::cancel] has left
    unfinished, and it leaves none.  Cancelling a job that has not finished
    puts it in the extended state CANCELLED, notifies its subscriber, leaves
    every request it held finished and forgets them. *)
Theorem job_cancel_finishes_requests (env : Env) (events : list Event)
    (i family source destination : string) (c : N) :
  let w := run env events (create i family c source destination) in
  stopReplicationCalls (self w) = []
  /\ stopReplicationCalls (self (cancel w)) = []
  /\ (Job.finished (job (self w)) = false ->
      Job.state (job (self (cancel w))) = Job.FINISHED
      /\ Job.extendedState (job (self (cancel w))) = Job.CANCELLED
      /\ Job.notified (job (self (cancel w))) = S (Job.notified (job (self w)))
      /\ requests (self (cancel w)) = []
      /\ Forall (fun a => forall r, heap (cancel w) !! a = Some r ->
                                    Request.finished (base r) = true)
           (requests (self w))).
Proof.
  intros w.
  assert (HE : effects env w) by (apply run_effects; split; reflexivity).
  split; [exact (proj1 HE)|]. split.
  - change (cancel w) with (step env w JobCancel).
    exact (proj1 (step_effects env w JobCancel HE)).
  - intros L. unfold cancel. rewrite L.
    destruct (job_finish_state Job.CANCELLED w L) as (S1 & S2 & S3).
    split; [exact S1|]. split; [exact S2|]. split; [exact S3|].
    split; [rewrite (finish_self _ _ L); reflexivity|].
    unfold finish. rewrite L. simpl. unfold cancelImpl. simpl.
    exact (cancelAll_finishes (requests (self w))
             (mkWorld (withJob (Job.setState Job.FINISHED Job.CANCELLED
                                  (job (self w))) (self w))
                      (heap w) (notifiers w)) [] (Forall_nil_2 _)).
Qed.

(** X14: [start] on a new job always returns, and a second [start] throws a
    logic error.  Either the configuration knows the family and the two
    workers, which differ, the destination has no replica of the chunk and
    the source has some: then the job is in progress and has started one
    request for each replica of the source, for the database of the replica,
    in the order of the replicas, all of them tracking and allowing
    duplicates, and its subscriber has not been notified.  Or the job is
    finished at once, with CONFIG_ERROR or FAILED, it has started no request,
    its subscriber is notified once and its result is empty. *)
Theorem start_launches_one_request_per_replica (env : Env)
    (i family source destination : string) (c : N) :
  exists w : World,
    start env (create i family c source destination) = Ok w
    /\ start env w = Throw logic_error
    /\ ((Job.state (job (self w)) = Job.IN_PROGRESS
         /\ Job.notified (job (self w)) = 0%nat
         /\ isKnownDatabaseFamily env family = true
         /\ isKnownWorker env source = true
         /\ isKnownWorker env destination = true
         /\ source <> destination
         /\ findWorkerReplicas env c destination family = Some []
         /\ exists sourceReplicas : list ReplicaInfo,
              findWorkerReplicas env c source family = Some sourceReplicas
              /\ sourceReplicas <> []
              /\ map database (heap w) = map ri_database sourceReplicas
              /\ requests (self w) = seq 0 (length sourceReplicas)
              /\ Forall (fun r => Request.state (base r) = Request.IN_PROGRESS
                                  /\ Request.keepTracking (base r) = true
                                  /\ Request.allowDuplicate (base r) = true)
                   (heap w))
        \/ (Job.state (job (self w)) = Job.FINISHED
            /\ (Job.extendedState (job (self w)) = Job.CONFIG_ERROR
                \/ Job.extendedState (job (self w)) = Job.FAILED)
            /\ Job.notified (job (self w)) = 1%nat
            /\ heap w = [] /\ requests (self w) = []
            /\ getReplicaData (self w) = Ok (mkResult [] ∅))).
Proof.
  unfold start at 1. simpl.
  set (w1 := mkWorld _ [] []).
  destruct (startImpl_ends env w1)
    as [(e & He & E)|(l & Hl & K1 & K2 & K3 & K4 & K5 & K6 & E)]; rewrite E.
  - simpl. eexists. split; [reflexivity|]. split; [reflexivity|].
    right. simpl. repeat split; auto.
  - assert (Hheap : forall (rs : list ReplicaInfo) (w : World),
              map database (heap (fold_left (launch env) rs w))
              = map database (heap w) ++ map ri_database rs
              /\ (Forall (fun r => Request.state (base r) = Request.IN_PROGRESS
                                   /\ Request.keepTracking (base r) = true
                                   /\ Request.allowDuplicate (base r) = true)
                    (heap w) ->
                  Forall (fun r => Request.state (base r) = Request.IN_PROGRESS
                                   /\ Request.keepTracking (base r) = true
                                   /\ Request.allowDuplicate (base r) = true)
                    (heap (fold_left (launch env) rs w)))).
    { induction rs as [|x rest IH]; intros w; simpl.
      - rewrite app_nil_r. auto.
      - destruct (IH (launch env w x)) as [H1 H2]. rewrite H1. simpl.
        rewrite map_app, <- app_assoc. simpl. split; [reflexivity|].
        intros HF. apply H2. apply Forall_app. split; [exact HF|].
        constructor; [|constructor]. simpl. auto. }
    destruct (launch_all env l w1) as (L1 & L2 & L3 & L4 & _).
    destruct (Hheap l w1) as [M1 M2].
    simpl. eexists. split; [reflexivity|]. split; [reflexivity|].
    left. simpl. rewrite L1. simpl.
    repeat split; auto.
    exists l. repeat split; auto.
Qed.

End CreateReplicaJobRuns.

Section DeleteRequestRuns.
Import DeleteRequest.

Lemma unfinished_not_succeeded (r : t) :
  Request.finished (base r) = false -> succeeded r = false.
Proof.
  unfold succeeded, Request.finished.
  destruct (Request.state (base r)); [reflexivity|reflexivity|discriminate].
Qed.

Lemma request_finish_settled (e : Request.ExtendedState) (r : t) :
  Request.finished (base r) = false -> e <> Request.SUCCESS ->
  settled r -> settled (finish e r).
Proof.
  intros L He (H1 & H2 & H3).
  rewrite (unfinished_not_succeeded r L) in H1.
  assert (Hs : succeeded (finish e r) = false).
  { unfold succeeded, finish. simpl. rewrite finish_live by exact L. simpl.
    destruct e; congruence. }
  unfold settled. rewrite Hs. split; [exact H1|]. split; [discriminate|].
  apply finish_once. exact H3.
Qed.

Lemma base_finish_settled (b : Request.t) (r : t) :
  settled r ->
  (b = base r
   \/ exists e, Request.finished (base r) = false /\ e <> Request.SUCCESS
                /\ b = Request.finish e (base r)) ->
  settled (withBase b r).
Proof.
  intros HS [->|(e & L & He & ->)].
  - destruct r. exact HS.
  - exact (request_finish_settled e r L He HS).
Qed.

Lemma analyze_settled (success : bool) (message : Response) (r r' : t) :
  analyze success message r = Ok r' -> settled r -> settled r'.
Proof.
  unfold analyze. intros Ha HS.
  destruct (Request.finished (base r)) eqn:L; [inversion Ha; subst; exact HS|].
  destruct success; simpl in Ha;
    [|inversion Ha; subst; apply request_finish_settled; auto; discriminate].
  assert (Hrec : settled (received message r)
                 /\ Request.finished (base (received message r)) = false).
  { split; [|exact L]. destruct HS as (H1 & H2 & H3).
    rewrite (unfinished_not_succeeded r L) in H1.
    unfold settled.
    rewrite (unfinished_not_succeeded (received message r) L).
    split; [exact H1|]. split; [discriminate|exact H3]. }
  destruct Hrec as [HR LR].
  assert (Hwait : forall x, settled x -> settled (wait x)).
  { intros x Hx. exact Hx. }
  destruct (status message).
  - (* SUCCESS *)
    inversion Ha; subst. clear Ha.
    destruct HR as (H1 & H2 & H3).
    rewrite (unfinished_not_succeeded _ LR) in H1.
    unfold settled, succeeded, finish, saveReplicaInfo. simpl.
    rewrite finish_live by exact L. simpl. simpl in H1. rewrite H1.
    split; [reflexivity|]. split; [discriminate|].
    destruct HS as (_ & _ & H0). unfold Request.once in H0. rewrite L in H0.
    unfold Request.once. simpl. rewrite H0. reflexivity.
  - destruct (Request.keepTracking _); inversion Ha; subst;
      [apply Hwait, HR|apply request_finish_settled; auto; discriminate].
  - destruct (Request.keepTracking _); inversion Ha; subst;
      [apply Hwait, HR|apply request_finish_settled; auto; discriminate].
  - destruct (Request.keepTracking _); inversion Ha; subst;
      [apply Hwait, HR|apply request_finish_settled; auto; discriminate].
  - destruct (translate (status_ext message)) eqn:Et;
      try (inversion Ha; subst; apply request_finish_settled; auto; discriminate).
    set (r2 := withBase _ (received message r)) in Ha.
    assert (H2 : settled r2 /\ Request.finished (base r2) = false).
    { split; [|exact L]. destruct HR as (H1 & H2 & H3).
      rewrite (unfinished_not_succeeded _ LR) in H1.
      unfold settled. rewrite (unfinished_not_succeeded r2 L).
      split; [exact H1|]. split; [discriminate|exact H3]. }
    destruct H2 as [HS2 L2].
    destruct (Request.allowDuplicate _ && _); inversion Ha; subst;
      [apply Hwait, HS2|apply request_finish_settled; auto; discriminate].
  - inversion Ha; subst; apply request_finish_settled; auto; discriminate.
  - inversion Ha; subst; apply request_finish_settled; auto; discriminate.
  - discriminate.
Qed.

Lemma session_step_settled (s s' : Session) (e : Event) :
  step s e = Ok s' -> settled (self s) -> settled (self s').
Proof.
  destruct e as [ivalSec|success message|ec| |ec]; simpl; intros Hs HS.
  - unfold start in Hs. unfold Request.start in Hs.
    destruct (Request.state (base (self s))) eqn:Est; try discriminate.
    simpl in Hs. inversion Hs; subst. clear Hs. simpl.
    destruct HS as (H1 & H2 & H3).
    assert (L : Request.finished (base (self s)) = false)
      by (unfold Request.finished; rewrite Est; reflexivity).
    rewrite (unfinished_not_succeeded _ L) in H1.
    unfold settled, succeeded. simpl.
    split; [exact H1|]. split; [discriminate|].
    unfold Request.once in *. simpl. rewrite L in H3. exact H3.
  - destruct (analyze success message (self s)) as [r|x] eqn:Ea; [|discriminate].
    simpl in Hs. inversion Hs; subst. simpl. eapply analyze_settled; eauto.
  - inversion Hs; subst. unfold awaken.
    destruct (is_aborted ec); [exact HS|].
    destruct (Request.finished (base (self s))); exact HS.
  - inversion Hs; subst. simpl. apply base_finish_settled; [exact HS|].
    unfold Request.cancel.
    destruct (Request.finished (base (self s))) eqn:L; [left; reflexivity|].
    right. exists Request.CANCELLED. repeat split; auto; discriminate.
  - inversion Hs; subst. simpl. apply base_finish_settled; [exact HS|].
    unfold Request.expired. destruct (is_aborted ec); [left; reflexivity|].
    destruct (Request.finished (base (self s))) eqn:L; [left; reflexivity|].
    right. exists Request.TIMEOUT_EXPIRED. repeat split; auto; discriminate.
Qed.

Lemma session_run_settled (events : list Event) :
  forall s s' : Session,
    run events s = Ok s' -> settled (self s) -> settled (self s').
Proof.
  induction events as [|e rest IH]; intros s s' Hr HS.
  - simpl in Hr. inversion Hr; subst. exact HS.
  - simpl in Hr. destruct (step s e) as [s1|x] eqn:Es; [|discriminate].
    simpl in Hr. eapply IH; eauto. eapply session_step_settled; eauto.
Qed.

(** X15: Whatever calls reach a request for the deletion of a replica, responses
    that arrive late or twice, cancellation and expiration included, the
    replica the worker reports is saved in the database at most once, and it
    is saved if and only if the request has finished with SUCCESS; the
    subscriber is notified once if the request is finished and not at all
    otherwise. *)
Theorem replica_is_saved_once_on_success (events : list Event)
    (i database : string) (chunk : N) (priority : Z)
    (keepTracking allowDuplicate : bool) (requestTimeoutSec : N) (s : Session) :
  run events (create i database chunk priority keepTracking allowDuplicate
                requestTimeoutSec) = Ok s ->
  (length (saved (self s)) <= 1)%nat
  /\ (saved (self s) <> [] <-> succeeded (self s) = true)
  /\ (succeeded (self s) = true ->
      exists info, replicaInfo (self s) = Some info /\ saved (self s) = [info])
  /\ Request.notified (base (self s))
     = if Request.finished (base (self s)) then 1%nat else 0%nat.
Proof.
  intros Hr.
  assert (HS : settled (self s)).
  { eapply session_run_settled; [exact Hr|].
    unfold settled, succeeded, Request.once. simpl.
    split; [reflexivity|]. split; [discriminate|reflexivity]. }
  destruct HS as (H1 & H2 & H3).
  destruct (succeeded (self s)) eqn:Es.
  - destruct (replicaInfo (self s)) as [info|] eqn:Ei; [|exfalso; apply H2; auto].
    rewrite H1. simpl. split; [lia|]. split; [split; auto; discriminate|].
    split; [eauto|exact H3].
  - rewrite H1. simpl. split; [lia|]. split; [split; [tauto|discriminate]|].
    split; [discriminate|exact H3].
Qed.

(** X16: When the worker answers that the request duplicates one it already has,
    a request that tracks and allows duplicates keeps the id of that request
    and arms the timer; when the timer fires, the status it asks the worker
    for is the status of the duplicated request, under its own id as the id
    of the transaction.  A request that was told of no duplicate asks for its
    own status.  A timer that was aborted, or that fires after the request
    has finished, sends nothing. *)
Theorem status_poll_names_the_duplicate (message : Response) (s : Session)
    (ec : error_code) :
  Request.finished (base (self s)) = false ->
  Request.keepTracking (base (self s)) = true ->
  Request.allowDuplicate (base (self s)) = true ->
  status message = proto.BAD ->
  status_ext message = proto.DUPLICATE ->
  duplicate_request_id message <> "" ->
  (exists s1 : Session,
     step s (Analyze true message) = Ok s1
     /\ Request.finished (base (self s1)) = false
     /\ waits (self s1) = S (waits (self s))
     /\ sent (awaken ec_success s1)
        = sent s ++ [(Request.id (base (self s)),
                      RequestStatus (Request.id (base (self s)))
                        (duplicate_request_id message))]
     /\ awaken operation_aborted s1 = s1)
  /\ (Request.duplicateRequestId (base (self s)) = "" ->
      sent (awaken ec_success s)
      = sent s ++ [(Request.id (base (self s)),
                    RequestStatus (Request.id (base (self s)))
                      (Request.id (base (self s))))])
  /\ (forall s2 : Session,
        Request.finished (base (self s2)) = true -> awaken ec s2 = s2).
Proof.
  intros L K A Hst Hext Hdup. split; [|split].
  - simpl. unfold analyze. rewrite L, Hst. simpl. rewrite Hext. simpl.
    rewrite A, K. simpl. eexists. split; [reflexivity|]. simpl.
    split; [exact L|]. split; [reflexivity|]. split; [|reflexivity].
    unfold awaken, Request.finished in *. simpl.
    destruct (Request.state (base (self s))); try discriminate;
      unfold send, Request.remoteId; simpl;
      rewrite bool_decide_eq_false_2 by exact Hdup; reflexivity.
  - intros Hnone. unfold awaken. simpl. rewrite L.
    unfold send, Request.remoteId. rewrite Hnone. reflexivity.
  - intros s2 F. unfold awaken. rewrite F. destruct (is_aborted ec); reflexivity.
Qed.

End DeleteRequestRuns.

Section ConfigurationStrings.
Import Configuration.
Import Stdlib.Strings.Ascii.

Lemma append_nil (s : string) : "" +:+ s = s.
Proof. reflexivity. Qed.

Lemma append_cons (a : ascii) (p s : string) :
  String a p +:+ s = String a (p +:+ s).
Proof. reflexivity. Qed.

Lemma find_char_app_absent (c : ascii) (p s : string) :
  find_char c p = None ->
  find_char c (p +:+ s) = (fun n => (String.length p + n)%nat) <$> find_char c s.
Proof.
  induction p as [|a p IH]; simpl; intros H.
  - rewrite ?append_nil. destruct (find_char c s); reflexivity.
  - rewrite ?append_cons. simpl. destruct (Ascii.eqb a c); [discriminate|].
    destruct (find_char c p) eqn:E; [discriminate|].
    rewrite IH by reflexivity. destruct (find_char c s); reflexivity.
Qed.

Lemma substring_app_prefix (p s : string) :
  String.substring 0 (String.length p) (p +:+ s) = p.
Proof.
  induction p as [|a p IH]; simpl.
  - rewrite ?append_nil. destruct s; reflexivity.
  - rewrite ?append_cons. simpl. rewrite IH. reflexivity.
Qed.

Lemma substring_app_skip (p s : string) (n m : nat) :
  String.substring (String.length p + n) m (p +:+ s) = String.substring n m s.
Proof.
  induction p as [|a p IH]; simpl; [rewrite ?append_nil; reflexivity|].
  rewrite ?append_cons. simpl. exact IH.
Qed.

Lemma substring_whole (s : string) : String.substring 0 (String.length s) s = s.
Proof. induction s as [|a s IH]; simpl; [reflexivity|]. rewrite IH. reflexivity. Qed.

Lemma string_length_app (p s : string) :
  String.length (p +:+ s) = (String.length p + String.length s)%nat.
Proof.
  induction p as [|a p IH]; simpl; [rewrite ?append_nil; reflexivity|].
  rewrite ?append_cons. simpl. rewrite IH. reflexivity.
Qed.

Lemma substring_empty (s : string) : String.substring 0 0 s = "".
Proof. destruct s; reflexivity. Qed.

Lemma substr_from_app (p s : string) (n : nat) :
  substr_from (String.length p + n) (p +:+ s) = substr_from n s.
Proof.
  unfold substr_from. rewrite substring_app_skip, string_length_app.
  f_equal. lia.
Qed.

Lemma append_tail_inj (a b : string) (x : ascii) :
  a +:+ String x "" = b +:+ String x "" -> a = b.
Proof.
  revert b. induction a as [|c a IH]; intros [|d b]; simpl; intros H.
  - reflexivity.
  - rewrite ?append_nil, ?append_cons in H. inversion H as [[H1 H2]].
    destruct b; discriminate H2.
  - rewrite ?append_nil, ?append_cons in H. inversion H as [[H1 H2]].
    destruct a; discriminate H2.
  - rewrite ?append_cons in H. inversion H as [[H1 H2]].
    rewrite (IH b H2). reflexivity.
Qed.

Lemma substring_word (word suffix : string) (x : ascii) :
  String.substring 0 (String.length word + 1) (word +:+ String x suffix)
  = word +:+ String x "".
Proof.
  induction word as [|c word IH]; simpl.
  - rewrite ?append_nil. simpl. rewrite substring_empty. reflexivity.
  - rewrite ?append_cons. simpl. rewrite IH. reflexivity.
Qed.

(** X17: [translateDataDir] replaces the first template [{worker}] of a path by
    the name of the worker, in a path whose first braces surround it; what
    follows the template is not looked at.  A path without an opening brace
    or without a closing brace is left as it is, and so is a path whose first
    braces surround another word, whatever the word.  A path whose first
    closing brace comes before its first opening brace is refused with
    [std::invalid_argument]. *)
Theorem translateDataDir_substitutes_worker (workerName : string) :
  (forall prefix suffix : string,
     find_char "{" prefix = None -> find_char "}" prefix = None ->
     translateDataDir (prefix +:+ "{worker}" +:+ suffix) workerName
     = Ok (prefix +:+ workerName +:+ suffix))
  /\ (forall dataDir : string,
        find_char "{" dataDir = None \/ find_char "}" dataDir = None ->
        translateDataDir dataDir workerName = Ok dataDir)
  /\ (forall prefix word suffix : string,
        find_char "{" prefix = None -> find_char "}" prefix = None ->
        find_char "}" word = None -> word <> "worker" ->
        translateDataDir (prefix +:+ "{" +:+ word +:+ "}" +:+ suffix) workerName
        = Ok (prefix +:+ "{" +:+ word +:+ "}" +:+ suffix))
  /\ (forall prefix middle suffix : string,
        find_char "{" prefix = None -> find_char "}" prefix = None ->
        find_char "{" middle = None ->
        translateDataDir (prefix +:+ "}" +:+ middle +:+ "{" +:+ suffix) workerName
        = Throw invalid_argument).
Proof.
  split; [|split; [|split]].
  - intros prefix suffix HL HR. unfold translateDataDir.
    rewrite (find_char_app_absent _ prefix _ HL).
    rewrite (find_char_app_absent _ prefix _ HR). simpl.
    replace (String.length prefix + 7 <=? String.length prefix + 0)%nat
      with false by (symmetry; apply Nat.leb_gt; lia).
    replace (String.length prefix + 7 - (String.length prefix + 0) + 1)%nat
      with 8%nat by lia.
    unfold substr. rewrite substring_app_skip.
    rewrite ?append_cons, ?append_nil. simpl.
    unfold replace, substr.
    replace (String.length prefix + 0)%nat with (String.length prefix) by lia.
    rewrite substring_app_prefix.
    rewrite (substr_from_app prefix _ 8). unfold substr_from.
    rewrite ?append_cons, ?append_nil. simpl.
    rewrite substring_empty, Nat.sub_0_r, substring_whole. reflexivity.
  - intros dataDir [H|H]; unfold translateDataDir; rewrite H;
      [reflexivity|destruct (find_char "{" dataDir); reflexivity].
  - intros prefix word suffix HL HR HW Hne. unfold translateDataDir.
    rewrite (find_char_app_absent _ prefix _ HL).
    rewrite (find_char_app_absent _ prefix _ HR).
    rewrite ?append_cons, ?append_nil.
    assert (EL : find_char "{" (String "{" (word +:+ String "}" suffix))
                 = Some 0%nat) by reflexivity.
    assert (ER : find_char "}" (String "{" (word +:+ String "}" suffix))
                 = Some (S (String.length word + 0))).
    { simpl. rewrite (find_char_app_absent _ word _ HW). reflexivity. }
    rewrite EL, ER.
    cbv beta iota delta [fmap option_fmap option_map].
    replace (String.length prefix + S (String.length word + 0)
             <=? String.length prefix + 0)%nat
      with false by (symmetry; apply Nat.leb_gt; lia).
    replace (String.length prefix + S (String.length word + 0)
             - (String.length prefix + 0) + 1)%nat
      with (S (String.length word + 1)) by lia.
    unfold substr. rewrite substring_app_skip.
    cbn [String.substring]. rewrite substring_word.
    destruct (String.eqb_spec (String "{" (word +:+ String "}" "")) "{worker}")
      as [E|E]; [|reflexivity].
    exfalso. apply Hne. inversion E as [E'].
    apply (append_tail_inj word "worker" "}"). exact E'.
  - intros prefix middle suffix HL HR HM. unfold translateDataDir.
    rewrite (find_char_app_absent _ prefix _ HL).
    rewrite (find_char_app_absent _ prefix _ HR). simpl.
    rewrite ?append_nil.
    rewrite (find_char_app_absent _ middle _ HM). simpl.
    replace (String.length prefix + 0 <=?
             String.length prefix + S (String.length middle + 0))%nat
      with true by (symmetry; apply Nat.leb_le; lia).
    reflexivity.
Qed.

(** X18: [load] chooses the class of the configuration by what stands before the
    first colon of the URL.  "file" has a [ConfigurationFile] made of all
    that follows that colon, further colons included; "mysql" has the whole
    URL parsed, with the default host, port, user and password, and a
    [ConfigurationMySQL] made of the parameters; in both cases [load] returns
    the object made, or throws what the parser or the constructor throws.  A
    URL without a colon, or with anything else before the first one, is
    refused with [std::invalid_argument], and nothing is made. *)
Theorem load_reads_the_scheme (Ptr ConnectionParams Failure : Type)
    (ConfigurationFile : string -> Ptr + Failure)
    (parse : string -> string -> N -> string -> string
             -> ConnectionParams + Failure)
    (ConfigurationMySQL : ConnectionParams -> Ptr + Failure)
    (defaultDatabaseUser rest : string) :
  let load :=
    load Ptr ConnectionParams Failure ConfigurationFile parse
      ConfigurationMySQL defaultDatabaseUser in
  load ("file:" +:+ rest) = made (ConfigurationFile rest)
  /\ load ("mysql:" +:+ rest)
     = match parse ("mysql:" +:+ rest) "localhost" 3306%N defaultDatabaseUser ""
       with
       | inl connectionParams => made (ConfigurationMySQL connectionParams)
       | inr e => Failed e
       end
  /\ (forall configUrl : string,
        find_char ":" configUrl = None -> load configUrl = Refused)
  /\ (forall scheme : string,
        find_char ":" scheme = None -> scheme <> "file" -> scheme <> "mysql" ->
        load (scheme +:+ ":" +:+ rest) = Refused).
Proof.
  intros load'. subst load'. split; [|split; [|split]].
  - unfold load. simpl. unfold substr_from. simpl.
    rewrite Nat.sub_0_r, substring_whole. reflexivity.
  - reflexivity.
  - intros configUrl H. unfold load. rewrite H. reflexivity.
  - intros scheme H Hf Hm. unfold load.
    rewrite (find_char_app_absent _ scheme _ H).
    change (find_char ":" (":" +:+ rest)) with (Some 0%nat).
    cbv beta iota delta [fmap option_fmap option_map].
    unfold substr. rewrite Nat.add_0_r, substring_app_prefix.
    rewrite (proj2 (String.eqb_neq "file" scheme)) by congruence.
    rewrite (proj2 (String.eqb_neq "mysql" scheme)) by congruence.
    reflexivity.
Qed.

End ConfigurationStrings.

Section ConfigurationMaps.
Import Configuration.

Lemma find_In {A : Type} (key : string) (m : Map A) (a : A) :
  find key m = Some a -> In (key, a) m.
Proof.
  induction m as [|[k b] rest IH]; simpl; [discriminate|].
  destruct (String.eqb_spec k key) as [->|Hne].
  - intros H. inversion H; subst. left. reflexivity.
  - intros H. right. apply IH, H.
Qed.

Lemma In_find {A : Type} (key : string) (m : Map A) (a : A) :
  NoDup (m.*1) -> In (key, a) m -> find key m = Some a.
Proof.
  induction m as [|[k b] rest IH]; simpl; intros Hnd Hin; [contradiction|].
  apply NoDup_cons in Hnd as [Hk Hrest].
  destruct Hin as [H|H].
  - inversion H; subst. rewrite String.eqb_refl. reflexivity.
  - destruct (String.eqb_spec k key) as [->|Hne]; [|apply IH; assumption].
    exfalso. apply Hk. apply list_elem_of_In.
    change key with (fst (key, a)). apply in_map. exact H.
Qed.

Lemma three_classes {A : Type} (fA fB fC : string * A -> bool)
    (m : Map A) :
  (forall e, (fA e = true /\ fB e = false /\ fC e = false)
             \/ (fA e = false /\ fB e = true /\ fC e = false)
             \/ (fA e = false /\ fB e = false /\ fC e = true)) ->
  m.*1 ≡ₚ (List.filter fA m).*1 ++ (List.filter fB m).*1 ++ (List.filter fC m).*1.
Proof.
  intros H. induction m as [|e rest IH]; [reflexivity|].
  cbn [List.filter].
  destruct (H e) as [(-> & -> & ->)|[(-> & -> & ->)|(-> & -> & ->)]].
  - rewrite !fmap_cons. simpl. constructor. exact IH.
  - rewrite !fmap_cons. etransitivity; [|apply Permutation_middle].
    constructor. exact IH.
  - rewrite !fmap_cons, app_assoc. etransitivity; [|apply Permutation_middle].
    rewrite <- app_assoc. constructor. exact IH.
Qed.

(** X19: Every worker of the configuration is in exactly one of three classes:
    enabled and read-write, enabled and read-only, disabled; [workers] lists
    each class (for disabled workers the second flag makes no difference),
    under the keys of the map and not under the names the entries carry.
    With distinct keys, a name is listed as an enabled worker if and only if
    [workerInfo] finds it with these two flags. *)
Theorem workers_partition (c : t) :
  workers false true c = workers false false c
  /\ (workerInfo_ c).*1
     ≡ₚ workers true false c ++ workers true true c ++ workers false false c
  /\ (NoDup ((workerInfo_ c).*1) ->
      forall (readOnly : bool) (worker : string),
        In worker (workers true readOnly c)
        <-> exists info, workerInfo worker c = Ok info
                         /\ isEnabled info = true
                         /\ isReadOnly info = readOnly).
Proof.
  split; [reflexivity|]. split.
  - unfold workers. apply three_classes. intros [k info]. simpl.
    destruct (isEnabled info), (isReadOnly info); simpl; auto.
  - intros Hnd readOnly worker. unfold workers, workerInfo. split.
    + intros H. apply in_map_iff in H as ([k info] & Hk & Hin). simpl in Hk.
      subst k. apply filter_In in Hin as [Hin Hf]. simpl in Hf.
      apply andb_true_iff in Hf as [He Hr]. apply Bool.eqb_prop in Hr.
      exists info. rewrite (In_find worker _ info Hnd Hin). auto.
    + intros (info & Hw & He & Hr).
      destruct (find worker (workerInfo_ c)) as [info'|] eqn:Ef; [|discriminate].
      inversion Hw; subst info'. apply find_In in Ef.
      apply in_map_iff. exists (worker, info). split; [reflexivity|].
      apply filter_In. split; [exact Ef|]. simpl. rewrite He, Hr.
      destruct readOnly; reflexivity.
Qed.

Lemma set_insert_In (x y : string) (set : list string) :
  In y (set_insert x set) <-> y = x \/ In y set.
Proof.
  induction set as [|z rest IH]; simpl; [intuition|].
  destruct (String.compare x z) eqn:E; simpl.
  - apply OrderedTypeEx.String_as_OT.cmp_eq in E. subst z. intuition.
  - intuition.
  - rewrite IH. intuition.
Qed.

Lemma set_insert_sorted (x : string) (set : list string) :
  Sorted.StronglySorted OrderedTypeEx.String_as_OT.lt set ->
  Sorted.StronglySorted OrderedTypeEx.String_as_OT.lt (set_insert x set).
Proof.
  induction 1 as [|z rest Hs IH Hz]; simpl.
  - constructor; constructor.
  - destruct (String.compare x z) eqn:E.
    + constructor; assumption.
    + apply OrderedTypeEx.String_as_OT.cmp_lt in E.
      constructor; [constructor; assumption|].
      constructor; [exact E|].
      eapply List.Forall_impl; [|exact Hz].
      intros a Ha. eapply OrderedTypeEx.String_as_OT.lt_trans; eauto.
    + assert (Hlt : OrderedTypeEx.String_as_OT.lt z x).
      { apply OrderedTypeEx.String_as_OT.cmp_lt.
        change (String.compare z x = Lt).
        pose proof (OrderedTypeEx.String_as_OT.cmp_antisym z x) as HA.
        unfold OrderedTypeEx.String_as_OT.cmp in HA. rewrite E in HA. exact HA. }
      constructor; [exact IH|].
      apply List.Forall_forall. intros a Ha.
      apply set_insert_In in Ha as [->|Ha]; [exact Hlt|].
      rewrite List.Forall_forall in Hz. apply Hz, Ha.
Qed.

Lemma sorted_NoDup (set : list string) :
  Sorted.StronglySorted OrderedTypeEx.String_as_OT.lt set -> NoDup set.
Proof.
  induction 1 as [|z rest Hs IH Hz]; constructor; [|exact IH].
  intros Hin. apply list_elem_of_In in Hin.
  rewrite List.Forall_forall in Hz.
  exact (OrderedTypeEx.String_as_OT.lt_not_eq _ _ (Hz z Hin) eq_refl).
Qed.

Lemma families_fold (entries : Map DatabaseInfo) :
  forall set : list string,
    Sorted.StronglySorted OrderedTypeEx.String_as_OT.lt set ->
    let set' := fold_left (fun familyNames elem =>
                             set_insert (family (snd elem)) familyNames)
                  entries set in
    Sorted.StronglySorted OrderedTypeEx.String_as_OT.lt set'
    /\ forall f, In f set'
                 <-> In f set
                     \/ exists d info, In (d, info) entries /\ family info = f.
Proof.
  induction entries as [|[d info] rest IH]; intros set Hs; simpl.
  - split; [exact Hs|]. intros f. split; [auto|].
    intros [H|(d & info & [] & _)]. exact H.
  - destruct (IH (set_insert (family info) set) (set_insert_sorted _ _ Hs))
      as [H1 H2].
    split; [exact H1|]. intros f. rewrite H2, set_insert_In. split.
    + intros [[->|H]|(d' & info' & Hin & Hf)]; eauto 7.
    + intros [H|(d' & info' & [Heq|Hin] & Hf)]; eauto 7.
      inversion Heq; subst. auto.
Qed.

(** X20: [databases] with an empty family lists every database; with a family
    the configuration does not know it throws [std::invalid_argument]; with a
    known family it lists the databases of that family and no other.
    [databaseFamilies] lists, each once and in increasing order, the families
    that have a database; a known family without any database is not among
    them, and it is the only kind of known family for which [databases]
    returns nothing. *)
Theorem databases_by_family (c : t) :
  databases "" c = Ok ((databaseInfo_ c).*1)
  /\ (forall f : string,
        f <> "" -> isKnownDatabaseFamily f c = false ->
        databases f c = Throw invalid_argument)
  /\ (forall f : string,
        f <> "" -> isKnownDatabaseFamily f c = true ->
        exists names : list string,
          databases f c = Ok names
          /\ (forall d, In d names
                        <-> exists info, In (d, info) (databaseInfo_ c)
                                         /\ family info = f)
          /\ (names <> [] <-> In f (databaseFamilies c)))
  /\ NoDup (databaseFamilies c)
  /\ Sorted.StronglySorted OrderedTypeEx.String_as_OT.lt (databaseFamilies c)
  /\ (forall f : string,
        In f (databaseFamilies c)
        <-> exists d info, In (d, info) (databaseInfo_ c) /\ family info = f).
Proof.
  destruct (families_fold (databaseInfo_ c) [] (Sorted.SSorted_nil _)) as [HS HF].
  assert (HF' : forall f : string,
            In f (databaseFamilies c)
            <-> exists d info, In (d, info) (databaseInfo_ c) /\ family info = f).
  { intros f. unfold databaseFamilies. rewrite HF. simpl. intuition. }
  split; [|split; [|split; [|split; [|split]]]].
  - unfold databases. simpl. f_equal. f_equal. clear.
    induction (databaseInfo_ c) as [|e rest IH]; simpl; [reflexivity|].
    rewrite IH. reflexivity.
  - intros f Hf Hk. unfold databases, isKnownDatabaseFamily in *.
    rewrite (proj2 (String.eqb_neq f "")) by exact Hf. simpl.
    apply negb_false_iff in Hk. rewrite Hk. reflexivity.
  - intros f Hf Hk. unfold databases, isKnownDatabaseFamily in *.
    rewrite (proj2 (String.eqb_neq f "")) by exact Hf. simpl.
    apply negb_true_iff in Hk. rewrite Hk. eexists. split; [reflexivity|].
    assert (Hin : forall d,
              In d (List.filter
                      (fun entry => negb (negb (String.eqb f (family (snd entry)))))
                      (databaseInfo_ c)).*1
              <-> exists info, In (d, info) (databaseInfo_ c) /\ family info = f).
    { intros d. split.
      - intros H. apply in_map_iff in H as ([k info] & Hd & Hin). simpl in Hd.
        subst k. apply filter_In in Hin as [Hin Hfam]. simpl in Hfam.
        rewrite negb_involutive in Hfam. apply String.eqb_eq in Hfam.
        exists info. auto.
      - intros (info & Hin & Hfam). apply in_map_iff. exists (d, info).
        split; [reflexivity|]. apply filter_In. split; [exact Hin|]. simpl.
        rewrite negb_involutive. apply String.eqb_eq. auto. }
    split; [exact Hin|]. rewrite HF'. split.
    + intros Hne.
      destruct ((List.filter _ (databaseInfo_ c)).*1) as [|d l] eqn:El;
        [contradiction|].
      destruct (proj1 (Hin d)) as (info & H1 & H2); [left; reflexivity|eauto].
    + intros (d & info & H1 & H2) Hnil.
      assert (H : In d []) by (rewrite <- Hnil; apply Hin; eauto).
      exact H.
  - apply sorted_NoDup, HS.
  - exact HS.
  - exact HF'.
Qed.

End ConfigurationMaps.

Section DeleteWorkerJobRuns.
Import DeleteWorkerJob.

Lemma unchanged_refl (w : World) : unchanged w w.
Proof. unfold unchanged. repeat split; reflexivity. Qed.

Lemma unchanged_trans (w1 w2 w3 : World) :
  unchanged w1 w2 -> unchanged w2 w3 -> unchanged w1 w3.
Proof.
  unfold unchanged. intros H1 H2.
  destruct H1 as (a1 & a2 & a3 & a4 & a5 & a6 & a7 & a8 & a9 & a10 & a11 & a12 & a13).
  destruct H2 as (b1 & b2 & b3 & b4 & b5 & b6 & b7 & b8 & b9 & b10 & b11 & b12 & b13).
  repeat split; congruence.
Qed.

Lemma unchanged_fold {A : Type} (f : World -> A -> World) (l : list A) :
  (forall w a, unchanged w (f w a)) ->
  forall w, unchanged w (fold_left f l w).
Proof.
  intros Hf. induction l as [|a l IH]; intros w; simpl.
  - apply unchanged_refl.
  - eapply unchanged_trans; [apply Hf|apply IH].
Qed.

Lemma finishRequest_unchanged (i : nat) (e : Request.ExtendedState) (w : World) :
  unchanged w (finishRequest i e w).
Proof.
  unfold finishRequest. destruct (findAllRequests (self w) !! i) as [r|];
    [|apply unchanged_refl].
  destruct (Request.finished (base r)); [apply unchanged_refl|].
  unfold unchanged. simpl. rewrite length_insert. repeat split; reflexivity.
Qed.

Lemma finishFindAllJob_unchanged (i : nat) (e : Job.ExtendedState) (w : World) :
  unchanged w (finishFindAllJob i e w).
Proof.
  unfold finishFindAllJob. destruct (findAllJobs (self w) !! i) as [c|];
    [|apply unchanged_refl].
  destruct (Job.finished (child c)); [apply unchanged_refl|].
  unfold unchanged. simpl. rewrite length_insert. repeat split; reflexivity.
Qed.

Lemma finishReplicateJob_unchanged (i : nat) (e : Job.ExtendedState) (w : World) :
  unchanged w (finishReplicateJob i e w).
Proof.
  unfold finishReplicateJob. destruct (replicateJobs (self w) !! i) as [c|];
    [|apply unchanged_refl].
  destruct (Job.finished (child c)); [apply unchanged_refl|].
  unfold unchanged. simpl. rewrite length_insert. repeat split; reflexivity.
Qed.

Lemma completeReplicateJob_unchanged (i : nat) (e : Job.ExtendedState)
    (result : ChunkMap) (w : World) :
  unchanged w (completeReplicateJob i e result w).
Proof.
  unfold completeReplicateJob. destruct (replicateJobs (self w) !! i) as [c|];
    [|apply unchanged_refl].
  destruct (Job.finished (child c)); [apply unchanged_refl|].
  eapply unchanged_trans; [|apply finishReplicateJob_unchanged].
  unfold unchanged. simpl. rewrite length_insert. repeat split; reflexivity.
Qed.

(** [Request::cancel] leaves no request unfinished. *)
Lemma cancelRequest_finished (i : nat) (w : World) (r : FindAllRequest) :
  findAllRequests (self (cancelRequest i w)) !! i = Some r ->
  Request.finished (base r) = true.
Proof.
  unfold cancelRequest, finishRequest.
  destruct (findAllRequests (self w) !! i) as [r0|] eqn:L; [|congruence].
  destruct (Request.finished (base r0)) eqn:F; [congruence|]. simpl.
  rewrite list_lookup_insert_eq by (eapply lookup_lt_Some; eauto).
  intros H. inversion H; subst. simpl. unfold Request.finish. rewrite F.
  reflexivity.
Qed.

Lemma cancelOne_unchanged (w : World) (i : nat) : unchanged w (cancelOne w i).
Proof.
  unfold cancelOne.
  destruct (findAllRequests (self (cancelRequest i w)) !! i) as [r|] eqn:L;
    [|apply finishRequest_unchanged].
  rewrite (cancelRequest_finished i w r L). apply finishRequest_unchanged.
Qed.

Lemma cancelImpl_unchanged (w : World) : unchanged w (cancelImpl w).
Proof.
  unfold cancelImpl.
  eapply unchanged_trans;
    [apply (unchanged_fold cancelOne), cancelOne_unchanged|].
  eapply unchanged_trans;
    [apply (unchanged_fold (fun w i => finishFindAllJob i Job.CANCELLED w));
     intros; apply finishFindAllJob_unchanged|].
  apply (unchanged_fold (fun w i => finishReplicateJob i Job.CANCELLED w)).
  intros. apply finishReplicateJob_unchanged.
Qed.

(** A child event keeps what the job has done. *)
Lemma unchanged_safe (name : string) (permanent : bool) (w w' : World) :
  unchanged w w' -> safe name permanent w -> safe name permanent w'.
Proof.
  unfold unchanged, safe.
  intros (a1 & a2 & a3 & a4 & a5 & a6 & a7 & a8 & a9 & a10 & a11 & a12 & a13).
  intros (s1 & s2 & s3 & s4 & s5 & s6 & s7 & s8).
  assert (E1 : findAllJobs (self w') <> [] <-> findAllJobs (self w) <> []).
  { destruct (findAllJobs (self w')), (findAllJobs (self w));
      simpl in a12; try discriminate; split; auto; discriminate. }
  assert (E2 : replicateJobs (self w') <> [] <-> replicateJobs (self w) <> []).
  { destruct (replicateJobs (self w')), (replicateJobs (self w));
      simpl in a13; try discriminate; split; auto; discriminate. }
  rewrite a1, a2, a3, a8, a9, a10, E1, E2. repeat split; auto.
Qed.

(** [Job::finish] on a job that has not finished, with an extended state
    other than SUCCESS. *)
Lemma finish_failed (e : Job.ExtendedState) (w : World) :
  Job.finished (job (self w)) = false -> e <> Job.SUCCESS ->
  exists w1 : World,
    unchanged (setState Job.FINISHED e w) w1
    /\ finish e w
       = mkWorld (withJob (Job.notify (Job.cancelTimers (job (self w1))))
                    (self w1)) (notifiers w1).
Proof.
  intros L He. unfold finish. rewrite L.
  exists (cancelImpl (setState Job.FINISHED e w)).
  split; [apply cancelImpl_unchanged|]. destruct e; try reflexivity.
  contradiction.
Qed.

Lemma finish_failed_safe (name : string) (permanent : bool)
    (e : Job.ExtendedState) (w : World) :
  Job.finished (job (self w)) = false -> e <> Job.SUCCESS ->
  safe name permanent w -> safe name permanent (finish e w).
Proof.
  intros L He Hs. destruct (finish_failed e w L He) as (w1 & Hu & ->).
  assert (H1 : safe name permanent (setState Job.FINISHED e w)).
  { unfold safe in *. simpl.
    destruct Hs as (s1 & s2 & s3 & s4 & s5 & s6 & s7 & s8).
    unfold Job.finished in L. unfold succeeded in *. simpl.
    repeat split; auto.
    - rewrite s4. destruct (Job.state (job (self w))); try discriminate;
        destruct e; try reflexivity; contradiction.
    - destruct e; try discriminate; contradiction. }
  pose proof (unchanged_safe name permanent _ _ Hu H1) as H2.
  unfold safe in *. simpl.
  destruct H2 as (s1 & s2 & s3 & s4 & s5 & s6 & s7 & s8).
  destruct Hu as (a1 & _). simpl in a1.
  unfold succeeded in *. rewrite a1 in *. simpl in *.
  repeat split; auto.
Qed.

Lemma launchRequest_fold (env : Env) (l : list string) (w : World) :
  let w' := fold_left (launchRequest env) l w in
  job (self w') = job (self w)
  /\ worker (self w') = worker (self w)
  /\ permanentDelete (self w') = permanentDelete (self w)
  /\ findAllJobs (self w') = findAllJobs (self w)
  /\ replicateJobs (self w') = replicateJobs (self w)
  /\ disableWorkerCalls (self w') = disableWorkerCalls (self w)
  /\ deleteWorkerCalls (self w') = deleteWorkerCalls (self w)
  /\ stopReplicaFindAllCalls (self w') = stopReplicaFindAllCalls (self w)
  /\ notifiers w' = notifiers w
  /\ length (findAllRequests (self w'))
     = (length (findAllRequests (self w)) + length l)%nat
  /\ numLaunched (self w') = (numLaunched (self w) + length l)%nat
  /\ numFinished (self w') = numFinished (self w).
Proof.
  revert w. induction l as [|d l IH]; intros w; simpl.
  - repeat split; auto; lia.
  - destruct (IH (launchRequest env w d))
      as (h1 & h2 & h3 & h4 & h5 & h6 & h7 & h8 & h9 & h10 & h11 & h12).
    simpl in *. rewrite h1, h2, h3, h4, h5, h6, h7, h8, h9, h10, h11, h12.
    rewrite length_app. simpl. repeat split; auto; lia.
Qed.

Lemma launchFindAllJob_fold (env : Env) (l : list string) (w : World) :
  let w' := fold_left (launchFindAllJob env) l w in
  job (self w') = job (self w)
  /\ worker (self w') = worker (self w)
  /\ permanentDelete (self w') = permanentDelete (self w)
  /\ findAllRequests (self w') = findAllRequests (self w)
  /\ replicateJobs (self w') = replicateJobs (self w)
  /\ replicaData (self w') = replicaData (self w)
  /\ disableWorkerCalls (self w') = disableWorkerCalls (self w)
  /\ deleteWorkerCalls (self w') = deleteWorkerCalls (self w)
  /\ stopReplicaFindAllCalls (self w') = stopReplicaFindAllCalls (self w)
  /\ notifiers w' = notifiers w
  /\ (exists more, findAllJobs (self w') = findAllJobs (self w) ++ more
                   /\ map databaseFamily more = l
                   /\ Forall (fun c => Job.state (child c) = Job.IN_PROGRESS) more)
  /\ numLaunched (self w') = (numLaunched (self w) + length l)%nat
  /\ numFinished (self w') = numFinished (self w)
  /\ numSuccess (self w') = numSuccess (self w).
Proof.
  revert w. induction l as [|d l IH]; intros w; simpl.
  - repeat split; auto; try lia. exists []. rewrite app_nil_r.
    repeat split; auto.
  - destruct (IH (launchFindAllJob env w d))
      as (h1 & h2 & h3 & h4 & h5 & h6 & h7 & h8 & h9 & h10 & h11 & h12 & h13 & h14).
    destruct h11 as (more & hm & hf & hs).
    simpl in *. rewrite h1, h2, h3, h4, h5, h6, h7, h8, h9, h10, h12, h13, h14.
    repeat split; auto; try lia.
    eexists (_ :: more). rewrite hm, <- app_assoc. simpl.
    split; [reflexivity|]. split; [rewrite hf; reflexivity|].
    constructor; [reflexivity|exact hs].
Qed.

Lemma launchReplicateJob_fold (env : Env) (l : list string) (w : World) :
  let w' := fold_left (launchReplicateJob env) l w in
  job (self w') = job (self w)
  /\ worker (self w') = worker (self w)
  /\ permanentDelete (self w') = permanentDelete (self w)
  /\ findAllRequests (self w') = findAllRequests (self w)
  /\ findAllJobs (self w') = findAllJobs (self w)
  /\ replicaData (self w') = replicaData (self w)
  /\ disableWorkerCalls (self w') = disableWorkerCalls (self w)
  /\ deleteWorkerCalls (self w') = deleteWorkerCalls (self w)
  /\ stopReplicaFindAllCalls (self w') = stopReplicaFindAllCalls (self w)
  /\ notifiers w' = notifiers w
  /\ (exists more, replicateJobs (self w') = replicateJobs (self w) ++ more
                   /\ map databaseFamily more = l
                   /\ Forall (fun c => Job.state (child c) = Job.IN_PROGRESS) more)
  /\ numLaunched (self w') = (numLaunched (self w) + length l)%nat
  /\ numFinished (self w') = numFinished (self w)
  /\ numSuccess (self w') = numSuccess (self w).
Proof.
  revert w. induction l as [|d l IH]; intros w; simpl.
  - repeat split; auto; try lia. exists []. rewrite app_nil_r.
    repeat split; auto.
  - destruct (IH (launchReplicateJob env w d))
      as (h1 & h2 & h3 & h4 & h5 & h6 & h7 & h8 & h9 & h10 & h11 & h12 & h13 & h14).
    destruct h11 as (more & hm & hf & hs).
    simpl in *. rewrite h1, h2, h3, h4, h5, h6, h7, h8, h9, h10, h12, h13, h14.
    repeat split; auto; try lia.
    eexists (_ :: more). rewrite hm, <- app_assoc. simpl.
    split; [reflexivity|]. split; [rewrite hf; reflexivity|].
    constructor; [reflexivity|exact hs].
Qed.

Lemma nonempty_app {A : Type} (l more : list A) : l <> [] -> l ++ more <> [].
Proof. destruct l; [contradiction|discriminate]. Qed.

Lemma disableWorker_safe (env : Env) (name : string) (permanent : bool)
    (w : World) :
  safe name permanent w -> safe name permanent (disableWorker env w).
Proof.
  unfold safe, disableWorker.
  intros (s1 & s2 & s3 & s4 & s5 & s6 & s7 & s8).
  match goal with
  | |- context [fold_left _ _ ?w0] =>
      destruct (launchFindAllJob_fold env (databaseFamilies env) w0)
        as (h1 & h2 & h3 & h4 & h5 & h6 & h7 & h8 & h9 & h10 & h11 & _)
  end.
  destruct h11 as (more & hm & _). simpl in *.
  rewrite h1, h2, h3, h5, h7, h8, h9, hm, s1.
  repeat split; auto.
  - apply Forall_app. split; [exact s5|]. constructor; [reflexivity|constructor].
  - intros _. destruct (disableWorkerCalls (self w)); discriminate.
  - intros H. apply nonempty_app. auto.
Qed.

Lemma withCounters_safe (name : string) (permanent : bool) (a b c : nat)
    (w : World) :
  safe name permanent w ->
  safe name permanent (mkWorld (withCounters a b c (self w)) (notifiers w)).
Proof. unfold safe. simpl. auto. Qed.

Lemma onRequestFinish_safe (env : Env) (name : string) (permanent : bool)
    (i : nat) (w : World) :
  safe name permanent w -> safe name permanent (onRequestFinish env i w).
Proof.
  intros Hs. unfold onRequestFinish.
  destruct (Job.finished (job (self w))); [exact Hs|].
  destruct (findAllRequests (self w) !! i) as [request|]; [|exact Hs].
  cbv zeta.
  match goal with
  | |- context [mkWorld (withCounters ?a ?b ?c (self w)) (notifiers w)] =>
      pose proof (withCounters_safe name permanent a b c w Hs) as H1
  end.
  match goal with |- context [if ?b then _ else _] => destruct b end.
  - apply disableWorker_safe, H1.
  - exact H1.
Qed.

Lemma onFindAllJobFinish_safe (env : Env) (name : string) (permanent : bool)
    (i : nat) (w : World) :
  safe name permanent w -> safe name permanent (onFindAllJobFinish env i w).
Proof.
  intros Hs. unfold onFindAllJobFinish.
  destruct (Job.finished (job (self w))) eqn:L; [exact Hs|].
  destruct (findAllJobs (self w) !! i) as [c|] eqn:Hc; [|exact Hs].
  cbv zeta.
  assert (Hne : findAllJobs (self w) <> []).
  { intros E. rewrite E in Hc. discriminate. }
  assert (Hfail : forall e, e <> Job.SUCCESS ->
            safe name permanent
              (finish e (mkWorld
                           (withCounters (numLaunched (self w))
                              (S (numFinished (self w))) (numSuccess (self w))
                              (self w)) (notifiers w)))).
  { intros e He. apply finish_failed_safe; [exact L|exact He|].
    apply withCounters_safe, Hs. }
  destruct (Job.extendedState (child c));
    try (apply Hfail; discriminate).
  simpl.
  match goal with |- context [if ?b then _ else _] => destruct b end.
  - match goal with
    | |- context [fold_left _ _ ?w0] =>
        destruct (launchReplicateJob_fold env (databaseFamilies env) w0)
          as (h1 & h2 & h3 & h4 & h5 & h6 & h7 & h8 & h9 & h10 & h11 & _)
    end.
    destruct h11 as (more & hm & _). simpl in *.
    unfold safe in *. destruct Hs as (s1 & s2 & s3 & s4 & s5 & s6 & s7 & s8).
    rewrite h1, h2, h3, h5, h7, h8, h9, hm. repeat split; auto.
    intros H. apply nonempty_app. auto.
  - unfold safe in *. simpl. exact Hs.
Qed.

Lemma onReplicateJobFinish_safe (env : Env) (name : string) (permanent : bool)
    (i : nat) (w : World) :
  safe name permanent w -> safe name permanent (onReplicateJobFinish env i w).
Proof.
  intros Hs. unfold onReplicateJobFinish.
  destruct (Job.finished (job (self w))) eqn:L; [exact Hs|].
  destruct (replicateJobs (self w) !! i) as [c|] eqn:Hc; [|exact Hs].
  cbv zeta.
  assert (Hne : replicateJobs (self w) <> []).
  { intros E. rewrite E in Hc. discriminate. }
  assert (Hfail : forall e, e <> Job.SUCCESS ->
            safe name permanent
              (finish e (mkWorld
                           (withCounters (numLaunched (self w))
                              (S (numFinished (self w))) (numSuccess (self w))
                              (self w)) (notifiers w)))).
  { intros e He. apply finish_failed_safe; [exact L|exact He|].
    apply withCounters_safe, Hs. }
  destruct (Job.extendedState (child c));
    try (apply Hfail; discriminate).
  simpl.
  unfold safe in *. destruct Hs as (s1 & s2 & s3 & s4 & s5 & s6 & s7 & s8).
  assert (Hnot : succeeded (job (self w)) = false).
  { unfold succeeded, Job.finished in *.
    destruct (Job.state (job (self w))); try reflexivity; discriminate. }
  rewrite Hnot in s4. simpl in s4.
  match goal with |- context [if ?b then _ else _] => destruct b end.
  - rewrite <- s2.
    destruct (findWorkerReplicas env (worker (self w))) as [replicas|]; simpl;
      destruct (permanentDelete (self w)) eqn:P; simpl;
      unfold finish; simpl; rewrite L; simpl; rewrite ?s4, ?s1;
      repeat split; auto.
  - simpl. rewrite Hnot. simpl. repeat split; auto.
Qed.

Lemma start_safe (env : Env) (name : string) (permanent : bool)
    (status drain : ServiceReport) (w w' : World) :
  start env status drain w = Ok w' ->
  safe name permanent w -> safe name permanent w'.
Proof.
  unfold start. destruct (Job.state (job (self w))) eqn:St; try discriminate.
  intros H Hs.
  assert (H0 : safe name permanent
                 (mkWorld (withJob (Job.startTimers (jobHeartbeatTimeoutSec env)
                                      (jobTimeoutSec env) (job (self w)))
                             (self w)) (notifiers w))).
  { unfold safe, succeeded in *. simpl. rewrite St in *. exact Hs. }
  set (w0 := mkWorld _ (notifiers w)) in *.
  assert (Hst : Job.state (job (self w0)) = Job.CREATED) by exact St.
  clearbody w0.
  assert (H1 : safe name permanent (startImpl env status drain w0)
               /\ Job.state (job (self (startImpl env status drain w0)))
                  = Job.IN_PROGRESS).
  { unfold startImpl. destruct (available status && available drain).
    - split; [|reflexivity].
      destruct (launchRequest_fold env (databases env) w0)
        as (h1 & h2 & h3 & h4 & h5 & h6 & h7 & h8 & _).
      unfold safe, succeeded in *. simpl in *.
      rewrite h2, h3, h4, h5, h6, h7, h8. rewrite Hst in H0. exact H0.
    - split; [|reflexivity].
      pose proof (disableWorker_safe env name permanent w0 H0) as H1.
      assert (Hj : Job.state (job (self (disableWorker env w0))) = Job.CREATED).
      { unfold disableWorker.
        match goal with
        | |- context [fold_left _ _ ?w1] =>
            destruct (launchFindAllJob_fold env (databaseFamilies env) w1)
              as (h1 & _)
        end.
        simpl in h1. rewrite h1. exact Hst. }
      unfold safe, succeeded in *. simpl in *. rewrite Hj in H1. exact H1. }
  destruct H1 as [H1 H2]. rewrite H2 in H. inversion H; subst. exact H1.
Qed.

Lemma finish_safe_if_unfinished (name : string) (permanent : bool)
    (e : Job.ExtendedState) (w : World) :
  e <> Job.SUCCESS -> safe name permanent w -> safe name permanent (finish e w).
Proof.
  intros He Hs. destruct (Job.finished (job (self w))) eqn:L.
  - unfold finish. rewrite L. exact Hs.
  - apply finish_failed_safe; auto.
Qed.

Lemma step_safe (env : Env) (name : string) (permanent : bool) (w : World)
    (e : Event) :
  safe name permanent w -> safe name permanent (step env w e).
Proof.
  intros Hs. destruct e as [status drain| |ec|i x|i x|i x result|k]; simpl.
  - destruct (start env status drain w) as [w'|err] eqn:E; [|exact Hs].
    eapply start_safe; eauto.
  - unfold cancel. destruct (Job.finished (job (self w))); [exact Hs|].
    apply finish_safe_if_unfinished; [discriminate|exact Hs].
  - unfold expired. destruct (is_aborted ec); [exact Hs|].
    destruct (Job.finished (job (self w))); [exact Hs|].
    apply finish_safe_if_unfinished; [discriminate|exact Hs].
  - eapply unchanged_safe; [apply finishRequest_unchanged|exact Hs].
  - eapply unchanged_safe; [apply finishFindAllJob_unchanged|exact Hs].
  - eapply unchanged_safe; [apply completeReplicateJob_unchanged|exact Hs].
  - destruct (notifiers w !! k) as [n|]; [|exact Hs].
    assert (H0 : safe name permanent
                   (mkWorld (self w) (delete k (notifiers w)))) by exact Hs.
    destruct n.
    + apply onRequestFinish_safe, H0.
    + apply onFindAllJobFinish_safe, H0.
    + apply onReplicateJobFinish_safe, H0.
Qed.

Lemma run_safe (env : Env) (name : string) (permanent : bool)
    (events : list Event) (w : World) :
  safe name permanent w -> safe name permanent (run env events w).
Proof.
  revert w. induction events as [|e rest IH]; intros w Hs; simpl; [exact Hs|].
  apply IH, step_safe, Hs.
Qed.

(** X23: Whatever happens to a job that deletes a worker and to its children,
    the worker is taken out of the configuration at most once: once if the
    job has finished with SUCCESS and the deletion was to be permanent, and
    not at all otherwise, whether the job fails, is cancelled or expires.  A
    job that has succeeded has disabled the worker and has launched jobs
    of the second and of the third stage.  No worker is ever asked to stop a
    request: the loop of [cancelImpl] makes that call for a request that
    [Request::cancel] has left unfinished, and it leaves none. *)
Theorem worker_is_deleted_only_on_success (env : Env) (events : list Event)
    (i name : string) (permanent : bool) :
  let w := run env events (create i name permanent) in
  deleteWorkerCalls (self w)
  = (if succeeded (job (self w)) && permanent then [name] else [])
  /\ stopReplicaFindAllCalls (self w) = []
  /\ Forall (eq name) (disableWorkerCalls (self w))
  /\ (succeeded (job (self w)) = true ->
      disableWorkerCalls (self w) <> []
      /\ findAllJobs (self w) <> []
      /\ replicateJobs (self w) <> []).
Proof.
  intros w.
  assert (Hs : safe name permanent w).
  { apply run_safe. unfold safe. simpl.
    repeat split; auto; try discriminate; intros H; contradiction. }
  destruct Hs as (s1 & s2 & s3 & s4 & s5 & s6 & s7 & s8).
  repeat split; auto.
Qed.

(** A job in progress without children and without waiting threads is left
    as it is by every event other than its cancellation and its
    expiration. *)
Lemma step_idle (env : Env) (w : World) (e : Event) :
  Job.state (job (self w)) = Job.IN_PROGRESS ->
  findAllRequests (self w) = [] -> findAllJobs (self w) = [] ->
  replicateJobs (self w) = [] -> notifiers w = [] ->
  quiet e = true -> step env w e = w.
Proof.
  intros Hst H1 H2 H3 H4 Hq.
  destruct e as [status drain| |ec|i x|i x|i x result|k]; simpl in *.
  - unfold start. rewrite Hst. reflexivity.
  - discriminate.
  - unfold expired. rewrite Hq. reflexivity.
  - unfold finishRequest. rewrite H1. reflexivity.
  - unfold finishFindAllJob. rewrite H2. reflexivity.
  - unfold completeReplicateJob. rewrite H3. reflexivity.
  - rewrite H4. reflexivity.
Qed.

Lemma run_idle (env : Env) (events : list Event) (w : World) :
  Job.state (job (self w)) = Job.IN_PROGRESS ->
  findAllRequests (self w) = [] -> findAllJobs (self w) = [] ->
  replicateJobs (self w) = [] -> notifiers w = [] ->
  forallb quiet events = true -> run env events w = w.
Proof.
  intros Hst H1 H2 H3 H4. induction events as [|e rest IH]; intros Hq;
    [reflexivity|].
  simpl in Hq. apply andb_true_iff in Hq as [Hq Hrest]. simpl.
  rewrite (step_idle env w e Hst H1 H2 H3 H4 Hq). exact (IH Hrest).
Qed.

(** X24: A job that finds nothing to launch never finishes by itself.  If the
    service of the worker is running and has been drained but the
    configuration has no database, [start] launches no request and does not
    disable the worker; if the service is not available and the
    configuration has no database family, [start] disables the worker and
    launches no job.  In both cases the job is in progress without any
    child: no notification can reach it, its subscriber is not notified and
    its result cannot be read, whatever happens next, until the job is
    cancelled or expires. *)
Theorem job_without_children_never_finishes (env : Env) (events : list Event)
    (i name : string) (permanent : bool) (status drain : ServiceReport) :
  (if available status && available drain
   then databases env = [] else databaseFamilies env = []) ->
  forallb quiet events = true ->
  let w := run env (Start status drain :: events) (create i name permanent) in
  Job.state (job (self w)) = Job.IN_PROGRESS
  /\ Job.notified (job (self w)) = 0%nat
  /\ findAllRequests (self w) = []
  /\ findAllJobs (self w) = []
  /\ replicateJobs (self w) = []
  /\ notifiers w = []
  /\ disableWorkerCalls (self w)
     = (if available status && available drain then [] else [name])
  /\ deleteWorkerCalls (self w) = []
  /\ getReplicaData (self w) = Throw logic_error.
Proof.
  intros Hempty Hq w. unfold w. clear w. simpl.
  unfold start, startImpl, disableWorker. simpl.
  destruct (available status && available drain); rewrite Hempty; simpl;
    (rewrite run_idle; [|reflexivity..|exact Hq]); simpl;
    repeat split; reflexivity.
Qed.

Lemma fold_or {A : Type} (f : A -> bool) (l : list A) (b : bool) :
  fold_left (fun acc x => acc || f x) l b = b || existsb f l.
Proof.
  revert b. induction l as [|x l IH]; intros b; simpl.
  - rewrite orb_false_r. reflexivity.
  - rewrite IH, orb_assoc. reflexivity.
Qed.

Lemma replicated_spec (chunk : N) (database : string)
    (byFamily : gmap string ChunkMap) :
  replicated chunk database byFamily = true
  <-> exists (family : string) (chunks : ChunkMap),
        byFamily !! family = Some chunks /\ holds chunk database chunks = true.
Proof.
  unfold replicated.
  rewrite (fold_or (fun entry => holds chunk database (snd entry))). simpl.
  rewrite existsb_exists. split.
  - intros ([family chunks] & Hin & Hh). exists family, chunks.
    split; [|exact Hh]. apply elem_of_map_to_list, list_elem_of_In, Hin.
  - intros (family & chunks & Hl & Hh). exists (family, chunks).
    split; [|exact Hh]. apply list_elem_of_In, elem_of_map_to_list, Hl.
Qed.

Lemma orphan_setOrphan (chunk : N) (database : string) (r : ReplicaInfo)
    (m : gmap N (gmap string ReplicaInfo)) :
  orphan chunk database (setOrphan r m)
  = if bool_decide (ri_chunk r = chunk /\ ri_database r = database)
    then Some r else orphan chunk database m.
Proof.
  unfold orphan, setOrphan.
  destruct (decide (ri_chunk r = chunk)) as [Ec|Ec].
  - subst chunk. rewrite lookup_insert_eq.
    destruct (decide (ri_database r = database)) as [Ed|Ed].
    + subst database. rewrite lookup_insert_eq.
      rewrite bool_decide_eq_true_2 by auto. reflexivity.
    + rewrite lookup_insert_ne by exact Ed.
      rewrite bool_decide_eq_false_2 by (intros [_ H]; auto).
      destruct (m !! ri_chunk r); simpl; [reflexivity|apply lookup_empty].
  - rewrite lookup_insert_ne by exact Ec.
    rewrite bool_decide_eq_false_2 by (intros [H _]; auto). reflexivity.
Qed.

(** X25: The orphans of a worker that is deleted.  A chunk of a database counts
    as replicated if the result of the [ReplicateJob] of some family holds
    it.  After the loop over the replicas of the worker, the orphan recorded
    for a chunk and a database that is not replicated is the last replica
    the worker had of them, and what was recorded before if it had none;
    nothing is recorded for a chunk and a database that is replicated; and
    the results of the families are left as they were. *)
Theorem orphans_are_the_replicas_left (replicas : list ReplicaInfo)
    (d : DeleteWorkerJobResult) (chunk : N) (database : string) :
  result_chunks (addOrphans replicas d) = result_chunks d
  /\ (replicated chunk database (result_chunks d) = true
      <-> exists (family : string) (chunks : ChunkMap),
            result_chunks d !! family = Some chunks
            /\ holds chunk database chunks = true)
  /\ orphan chunk database (orphanChunks (addOrphans replicas d))
     = if replicated chunk database (result_chunks d)
       then orphan chunk database (orphanChunks d)
       else match List.find
                    (fun r => bool_decide (ri_chunk r = chunk
                                           /\ ri_database r = database))
                    (rev replicas) with
            | Some r => Some r
            | None => orphan chunk database (orphanChunks d)
            end.
Proof.
  split; [|split; [apply replicated_spec|]].
  - revert d. induction replicas as [|r rest IH]; intros d; [reflexivity|].
    unfold addOrphans in *. simpl. rewrite IH.
    destruct (replicated _ _ _); reflexivity.
  - revert d. induction replicas as [|r rest IH]; intros d.
    + simpl. destruct (replicated _ _ _); reflexivity.
    + change (addOrphans (r :: rest) d)
        with (addOrphans rest
                (if replicated (ri_chunk r) (ri_database r) (result_chunks d)
                 then d
                 else mkResult (result_chunks d)
                        (setOrphan r (orphanChunks d)))).
      rewrite IH. simpl rev. rewrite find_app_first. simpl List.find.
      assert (Hc : result_chunks
                     (if replicated (ri_chunk r) (ri_database r) (result_chunks d)
                      then d
                      else mkResult (result_chunks d)
                             (setOrphan r (orphanChunks d)))
                   = result_chunks d)
        by (destruct (replicated (ri_chunk r) _ _); reflexivity).
      rewrite Hc.
      assert (Ho : orphan chunk database
                     (orphanChunks
                        (if replicated (ri_chunk r) (ri_database r)
                              (result_chunks d)
                         then d
                         else mkResult (result_chunks d)
                                (setOrphan r (orphanChunks d))))
                   = if replicated chunk database (result_chunks d)
                     then orphan chunk database (orphanChunks d)
                     else if bool_decide (ri_chunk r = chunk
                                          /\ ri_database r = database)
                          then Some r
                          else orphan chunk database (orphanChunks d)).
      { destruct (replicated (ri_chunk r) (ri_database r) (result_chunks d))
          eqn:Er; simpl.
        - case_bool_decide as Hm.
          + destruct Hm as [<- <-]. rewrite Er. reflexivity.
          + destruct (replicated chunk database _); reflexivity.
        - rewrite orphan_setOrphan. case_bool_decide as Hm.
          + destruct Hm as [<- <-]. rewrite Er. reflexivity.
          + destruct (replicated chunk database _); reflexivity. }
      rewrite Ho.
      destruct (replicated chunk database (result_chunks d)); [reflexivity|].
      destruct (List.find _ (rev rest)); [reflexivity|].
      destruct (bool_decide _); reflexivity.
Qed.

End DeleteWorkerJobRuns.

Section DeleteWorkerJobFanIn.
Import DeleteWorkerJob.

Lemma counted_app {A : Type} (f : A -> bool) (l k : list A) :
  count f (l ++ k) = (count f l + count f k)%nat.
Proof. unfold count. rewrite List.filter_app, length_app. reflexivity. Qed.

Lemma counted_le {A : Type} (f : A -> bool) (l : list A) :
  (count f l <= length l)%nat.
Proof.
  unfold count. induction l as [|a l IH]; simpl; [lia|].
  destruct (f a); simpl; lia.
Qed.

Lemma counted_all {A : Type} (f : A -> bool) (l : list A) :
  count f l = length l -> forallb f l = true.
Proof.
  induction l as [|a l IH]; [reflexivity|].
  pose proof (counted_le f l) as Hle. unfold count in *. simpl.
  destruct (f a); simpl; intros H; [apply IH; lia|lia].
Qed.

Lemma all_counted {A : Type} (f : A -> bool) (l : list A) :
  forallb f l = true -> count f l = length l.
Proof.
  induction l as [|a l IH]; [reflexivity|]. unfold count in *. simpl.
  destruct (f a); simpl; intros H; [rewrite IH; auto|discriminate].
Qed.

Lemma counted_none {A : Type} (f : A -> bool) (l : list A) (x : A) :
  count f l = 0%nat -> In x l -> f x = false.
Proof.
  unfold count. induction l as [|a l IH]; simpl; [contradiction|].
  destruct (f a) eqn:E; simpl; [discriminate|].
  intros H [<-|Hin]; auto.
Qed.

Lemma counted_insert {A : Type} (f : A -> bool) (l : list A) (i : nat) (x y : A) :
  l !! i = Some x ->
  (count f (<[i := y]> l) + (if f x then 1 else 0)
   = count f l + (if f y then 1 else 0))%nat.
Proof.
  intros H.
  assert (E1 : <[i := y]> l = take i l ++ y :: drop (S i) l)
    by (apply insert_take_drop; eapply lookup_lt_Some; eauto).
  assert (E2 : count f l = count f (take i l ++ x :: drop (S i) l))
    by (rewrite take_drop_middle by exact H; reflexivity).
  rewrite E1, E2, !counted_app. unfold count. simpl.
  destruct (f x), (f y); simpl; lia.
Qed.

Lemma counted_delete {A : Type} (f : A -> bool) (l : list A) (k : nat) (x : A) :
  l !! k = Some x ->
  (count f (delete k l) + (if f x then 1 else 0) = count f l)%nat.
Proof.
  intros H.
  assert (E2 : count f l = count f (take k l ++ x :: drop (S k) l))
    by (rewrite take_drop_middle by exact H; reflexivity).
  rewrite delete_take_drop, E2, !counted_app. unfold count. simpl.
  destruct (f x); simpl; lia.
Qed.

Lemma in_delete {A : Type} (l : list A) (k : nat) (x y : A) :
  In x l -> l !! k = Some y -> x <> y -> In x (delete k l).
Proof.
  intros Hin H Hne. rewrite delete_take_drop.
  rewrite <- (take_drop_middle l k y H) in Hin.
  apply in_app_or in Hin as [Hin|[Hin|Hin]]; apply in_or_app; auto.
  congruence.
Qed.

Lemma in_delete_inv {A : Type} (l : list A) (k : nat) (x : A) :
  In x (delete k l) -> In x l.
Proof.
  rewrite delete_take_drop. intros Hin.
  apply in_app_or in Hin as [Hin|Hin]; apply list_elem_of_In;
    apply list_elem_of_In in Hin.
  - eapply subseteq_take; eauto.
  - eapply subseteq_drop; eauto.
Qed.

Lemma forallb_at {A : Type} (f : A -> bool) (l : list A) (i : nat) (x : A) :
  forallb f l = true -> l !! i = Some x -> f x = true.
Proof.
  intros H L. rewrite forallb_forall in H. apply H.
  apply list_elem_of_In. eapply list_elem_of_lookup_2; eauto.
Qed.

Lemma kept_refl (w : World) : kept w w.
Proof. unfold kept. repeat split; auto. Qed.

Lemma kept_pointed (w w' : World) (n : Notifier) :
  kept w w' -> pointed w n -> pointed w' n.
Proof.
  intros (K1 & K2 & K3 & _) H. destruct n as [i|i|i]; simpl in *;
    destruct H as (x & L & D); exists x; auto.
Qed.

Lemma kept_trans (w1 w2 w3 : World) : kept w1 w2 -> kept w2 w3 -> kept w1 w3.
Proof.
  intros H1 H2. pose proof (kept_pointed w2 w3) as Hp.
  destruct H1 as (a1 & a2 & a3 & a4 & a5).
  pose proof H2 as (b1 & b2 & b3 & b4 & b5).
  unfold kept. repeat split; auto.
  - intros n Hn. destruct (b4 n Hn) as [H|H]; [|auto].
    destruct (a4 n H) as [H'|H']; auto.
  - congruence.
Qed.

Lemma kept_fold {A : Type} (f : World -> A -> World) (l : list A) :
  (forall w a, kept w (f w a)) -> forall w, kept w (fold_left f l w).
Proof.
  intros Hf. induction l as [|a l IH]; intros w; simpl.
  - apply kept_refl.
  - eapply kept_trans; [apply Hf|apply IH].
Qed.

Lemma kept_all_pointed (w w' : World) :
  kept w w' -> Forall (pointed w) (notifiers w) ->
  Forall (pointed w') (notifiers w').
Proof.
  intros K H. pose proof K as (_ & _ & _ & K4 & _).
  rewrite List.Forall_forall in *. intros n Hn.
  destruct (K4 n Hn) as [Hin|Hp]; [|exact Hp].
  eapply kept_pointed; eauto.
Qed.

Lemma kept_result (w w' : World) :
  kept w w' -> resultFromChildren w -> resultFromChildren w'.
Proof.
  intros (_ & _ & K3 & _ & K5) H family m Hm. rewrite K5 in Hm.
  destruct (H family m Hm) as (i & c & L & Hf & Hc & Hd).
  exists i, c. auto.
Qed.

Lemma finishRequest_kept (i : nat) (e : Request.ExtendedState) (w : World) :
  kept w (finishRequest i e w).
Proof.
  unfold finishRequest.
  destruct (findAllRequests (self w) !! i) as [r|] eqn:L; [|apply kept_refl].
  destruct (Request.finished (base r)) eqn:F; [apply kept_refl|].
  unfold kept. simpl. repeat split; auto.
  - intros j r0 Lj Dj. rewrite list_lookup_insert_ne; [exact Lj|].
    intros ->. rewrite L in Lj. inversion Lj; subst.
    unfold requestDone in Dj. congruence.
  - intros n Hn. apply in_app_or in Hn as [Hn|[<-|[]]]; [auto|right]. simpl.
    eexists. split; [apply list_lookup_insert_eq; eapply lookup_lt_Some; eauto|].
    unfold requestDone, Request.finish. simpl. rewrite F. reflexivity.
Qed.

Lemma finishFindAllJob_kept (i : nat) (e : Job.ExtendedState) (w : World) :
  kept w (finishFindAllJob i e w).
Proof.
  unfold finishFindAllJob.
  destruct (findAllJobs (self w) !! i) as [c|] eqn:L; [|apply kept_refl].
  destruct (Job.finished (child c)) eqn:F; [apply kept_refl|].
  unfold kept. simpl. repeat split; auto.
  - intros j c0 Lj Dj. rewrite list_lookup_insert_ne; [exact Lj|].
    intros ->. rewrite L in Lj. inversion Lj; subst.
    unfold childDone in Dj. congruence.
  - intros n Hn. apply in_app_or in Hn as [Hn|[<-|[]]]; [auto|right]. simpl.
    eexists. split; [apply list_lookup_insert_eq; eapply lookup_lt_Some; eauto|].
    reflexivity.
Qed.

Lemma finishReplicateJob_kept (i : nat) (e : Job.ExtendedState) (w : World) :
  kept w (finishReplicateJob i e w).
Proof.
  unfold finishReplicateJob.
  destruct (replicateJobs (self w) !! i) as [c|] eqn:L; [|apply kept_refl].
  destruct (Job.finished (child c)) eqn:F; [apply kept_refl|].
  unfold kept. simpl. repeat split; auto.
  - intros j c0 Lj Dj. rewrite list_lookup_insert_ne; [exact Lj|].
    intros ->. rewrite L in Lj. inversion Lj; subst.
    unfold childDone in Dj. congruence.
  - intros n Hn. apply in_app_or in Hn as [Hn|[<-|[]]]; [auto|right]. simpl.
    eexists. split; [apply list_lookup_insert_eq; eapply lookup_lt_Some; eauto|].
    reflexivity.
Qed.

Lemma cancelOne_kept (w : World) (i : nat) : kept w (cancelOne w i).
Proof.
  unfold cancelOne.
  destruct (findAllRequests (self (cancelRequest i w)) !! i) as [r|] eqn:L;
    [|apply finishRequest_kept].
  rewrite (cancelRequest_finished i w r L). apply finishRequest_kept.
Qed.

Lemma forallb_lookups {A : Type} (f : A -> bool) (l : list A) :
  (forall i x, l !! i = Some x -> f x = true) -> forallb f l = true.
Proof.
  intros H. apply forallb_forall. intros x Hx.
  apply list_elem_of_In, list_elem_of_lookup_1 in Hx as [i Hi]. eauto.
Qed.

(** Children that have all finished are left as they are. *)
Lemma all_done_stays {X : Type} (sel : World -> list X) (done : X -> bool)
    (w w' : World) :
  (forall i x, sel w !! i = Some x -> done x = true -> sel w' !! i = Some x) ->
  length (sel w') = length (sel w) ->
  forallb done (sel w) = true -> forallb done (sel w') = true.
Proof.
  intros K Hlen H. apply forallb_lookups. intros i x Hi.
  assert (Hlt : (i < length (sel w))%nat)
    by (rewrite <- Hlen; eapply lookup_lt_Some; eauto).
  apply lookup_lt_is_Some in Hlt as [y Hy].
  pose proof (forallb_at done _ i y H Hy) as Hd.
  rewrite (K i y Hy Hd) in Hi. inversion Hi; subst. exact Hd.
Qed.

(** A loop that finishes the child at each index it visits. *)
Lemma fold_makes_done {X : Type} (sel : World -> list X) (done : X -> bool)
    (f : World -> nat -> World) :
  (forall w w' i x, kept w w' -> sel w !! i = Some x -> done x = true ->
                    sel w' !! i = Some x) ->
  (forall w a, kept w (f w a)) ->
  (forall w a, length (sel (f w a)) = length (sel w)) ->
  (forall w i x, sel (f w i) !! i = Some x -> done x = true) ->
  forall (l : list nat) (w : World) (i : nat) (x : X),
    In i l -> sel (fold_left f l w) !! i = Some x -> done x = true.
Proof.
  intros Hsel Hk Hlen Hdone. induction l as [|a l IH]; intros w i x Hin Hx;
    [contradiction|].
  simpl in Hx. destruct Hin as [->|Hin]; [|eapply IH; eauto].
  assert (Hl : length (sel (fold_left f l (f w i))) = length (sel (f w i))).
  { clear -Hlen. generalize (f w i). induction l as [|a l IH]; intros w0;
      [reflexivity|]. simpl. rewrite IH. apply Hlen. }
  assert (Hlt : (i < length (sel (f w i)))%nat)
    by (rewrite <- Hl; eapply lookup_lt_Some; eauto).
  apply lookup_lt_is_Some in Hlt as [y Hy].
  pose proof (Hdone w i y Hy) as Hd.
  rewrite (Hsel _ _ i y (kept_fold f l Hk (f w i)) Hy Hd) in Hx.
  inversion Hx; subst. exact Hd.
Qed.

Lemma fold_all_done {X : Type} (sel : World -> list X) (done : X -> bool)
    (f : World -> nat -> World) (w : World) :
  (forall w w' i x, kept w w' -> sel w !! i = Some x -> done x = true ->
                    sel w' !! i = Some x) ->
  (forall w a, kept w (f w a)) ->
  (forall w a, length (sel (f w a)) = length (sel w)) ->
  (forall w i x, sel (f w i) !! i = Some x -> done x = true) ->
  forallb done (sel (fold_left f (seq 0 (length (sel w))) w)) = true.
Proof.
  intros Hsel Hk Hlen Hdone. apply forallb_lookups. intros i x Hx.
  eapply (fold_makes_done sel done f Hsel Hk Hlen Hdone); [|exact Hx].
  apply in_seq. split; [lia|]. simpl.
  assert (Hl : forall l w0, length (sel (fold_left f l w0)) = length (sel w0)).
  { clear -Hlen. induction l as [|a l IH]; intros w0; [reflexivity|].
    simpl. rewrite IH. apply Hlen. }
  rewrite <- (Hl (seq 0 (length (sel w))) w). eapply lookup_lt_Some; eauto.
Qed.

Lemma cancelOne_eq (w : World) (i : nat) : cancelOne w i = cancelRequest i w.
Proof.
  unfold cancelOne.
  destruct (findAllRequests (self (cancelRequest i w)) !! i) as [r|] eqn:L;
    [|reflexivity].
  rewrite (cancelRequest_finished i w r L). reflexivity.
Qed.

Lemma finishFindAllJob_done (i : nat) (e : Job.ExtendedState) (w : World)
    (c : ChildJob) :
  findAllJobs (self (finishFindAllJob i e w)) !! i = Some c ->
  childDone c = true.
Proof.
  unfold finishFindAllJob.
  destruct (findAllJobs (self w) !! i) as [c0|] eqn:L; [|congruence].
  destruct (Job.finished (child c0)) eqn:F;
    [intros H; rewrite L in H; inversion H; subst; exact F|]. simpl.
  rewrite list_lookup_insert_eq by (eapply lookup_lt_Some; eauto).
  intros H. inversion H; subst. reflexivity.
Qed.

Lemma finishReplicateJob_done (i : nat) (e : Job.ExtendedState) (w : World)
    (c : ChildJob) :
  replicateJobs (self (finishReplicateJob i e w)) !! i = Some c ->
  childDone c = true.
Proof.
  unfold finishReplicateJob.
  destruct (replicateJobs (self w) !! i) as [c0|] eqn:L; [|congruence].
  destruct (Job.finished (child c0)) eqn:F;
    [intros H; rewrite L in H; inversion H; subst; exact F|]. simpl.
  rewrite list_lookup_insert_eq by (eapply lookup_lt_Some; eauto).
  intros H. inversion H; subst. reflexivity.
Qed.

(** [cancelImpl] leaves every child finished. *)
Lemma cancelImpl_all_done (w : World) :
  kept w (cancelImpl w)
  /\ forallb requestDone (findAllRequests (self (cancelImpl w))) = true
  /\ forallb childDone (findAllJobs (self (cancelImpl w))) = true
  /\ forallb childDone (replicateJobs (self (cancelImpl w))) = true.
Proof.
  unfold cancelImpl.
  set (w1 := fold_left cancelOne _ w).
  set (w2 := fold_left (fun w i => finishFindAllJob i Job.CANCELLED w) _ w1).
  set (w3 := fold_left (fun w i => finishReplicateJob i Job.CANCELLED w) _ w2).
  assert (K1 : kept w w1) by (apply (kept_fold cancelOne), cancelOne_kept).
  assert (K2 : kept w1 w2).
  { apply (kept_fold (fun w i => finishFindAllJob i Job.CANCELLED w)).
    intros. apply finishFindAllJob_kept. }
  assert (K3 : kept w2 w3).
  { apply (kept_fold (fun w i => finishReplicateJob i Job.CANCELLED w)).
    intros. apply finishReplicateJob_kept. }
  assert (U2 : unchanged w1 w2).
  { apply (unchanged_fold (fun w i => finishFindAllJob i Job.CANCELLED w)).
    intros. apply finishFindAllJob_unchanged. }
  assert (U3 : unchanged w2 w3).
  { apply (unchanged_fold (fun w i => finishReplicateJob i Job.CANCELLED w)).
    intros. apply finishReplicateJob_unchanged. }
  assert (D1 : forallb requestDone (findAllRequests (self w1)) = true).
  { apply (fold_all_done (fun w => findAllRequests (self w)) requestDone cancelOne).
    - intros ? ? ? ? (K & _). apply K.
    - apply cancelOne_kept.
    - intros w0 a. apply (cancelOne_unchanged w0 a).
    - intros w0 i x. rewrite cancelOne_eq. apply cancelRequest_finished. }
  assert (D2 : forallb childDone (findAllJobs (self w2)) = true).
  { apply (fold_all_done (fun w => findAllJobs (self w)) childDone
             (fun w i => finishFindAllJob i Job.CANCELLED w)).
    - intros ? ? ? ? (_ & K & _). apply K.
    - intros. apply finishFindAllJob_kept.
    - intros w0 a. apply (finishFindAllJob_unchanged a Job.CANCELLED w0).
    - intros w0 i x. apply finishFindAllJob_done. }
  assert (D3 : forallb childDone (replicateJobs (self w3)) = true).
  { apply (fold_all_done (fun w => replicateJobs (self w)) childDone
             (fun w i => finishReplicateJob i Job.CANCELLED w)).
    - intros ? ? ? ? (_ & _ & K & _). apply K.
    - intros. apply finishReplicateJob_kept.
    - intros w0 a. apply (finishReplicateJob_unchanged a Job.CANCELLED w0).
    - intros w0 i x. apply finishReplicateJob_done. }
  split; [eapply kept_trans; [exact K1|eapply kept_trans; eauto]|].
  split; [|split; [|exact D3]].
  - apply (all_done_stays (fun w => findAllRequests (self w)) requestDone w2 w3);
      [apply K3|apply U3|].
    apply (all_done_stays (fun w => findAllRequests (self w)) requestDone w1 w2);
      [apply K2|apply U2|exact D1].
  - apply (all_done_stays (fun w => findAllJobs (self w)) childDone w2 w3);
      [apply K3|apply U3|exact D2].
Qed.

(** A job that fails, is cancelled or expires leaves every child
    finished. *)
Lemma finish_failed_fanIn (env : Env) (e : Job.ExtendedState) (w : World) :
  Job.finished (job (self w)) = false -> e <> Job.SUCCESS ->
  Forall (pointed w) (notifiers w) -> resultFromChildren w ->
  fanIn env (finish e w).
Proof.
  intros L He Hp Hr. unfold finish. rewrite L.
  set (w0 := setState Job.FINISHED e w).
  assert (E : match e with Job.SUCCESS => w0 | _ => cancelImpl w0 end
              = cancelImpl w0) by (destruct e; try reflexivity; contradiction).
  rewrite E. clear E.
  destruct (cancelImpl_all_done w0) as (K & D1 & D2 & D3).
  pose proof (cancelImpl_unchanged w0) as (U1 & _).
  assert (Hp1 : Forall (pointed (cancelImpl w0)) (notifiers (cancelImpl w0)))
    by (apply (kept_all_pointed w0); [exact K|exact Hp]).
  assert (Hr1 : resultFromChildren (cancelImpl w0))
    by (apply (kept_result w0); [exact K|exact Hr]).
  unfold fanIn. simpl. split; [exact Hp1|]. split; [exact Hr1|].
  rewrite U1. unfold w0 at 1. simpl. unfold ended. simpl.
  split; [exact D1|]. split; [exact D2|]. split; [exact D3|].
  unfold succeeded. simpl. destruct e; try discriminate; contradiction.
Qed.

Lemma finishRequest_fanIn (env : Env) (i : nat) (e : Request.ExtendedState)
    (w : World) :
  fanIn env w -> fanIn env (finishRequest i e w).
Proof.
  intros (Hp & Hr & Hst).
  pose proof (finishRequest_kept i e w) as K.
  pose proof (kept_all_pointed _ _ K Hp) as Hp'.
  pose proof (kept_result _ _ K Hr) as Hr'.
  split; [exact Hp'|]. split; [exact Hr'|]. clear Hp' Hr' K.
  unfold finishRequest in *.
  destruct (findAllRequests (self w) !! i) as [r|] eqn:L; [|exact Hst].
  destruct (Request.finished (base r)) eqn:F; [exact Hst|]. simpl.
  assert (Hnot : forallb requestDone (findAllRequests (self w)) = true -> False).
  { intros H. pose proof (forallb_at _ _ _ _ H L) as D.
    unfold requestDone in D. congruence. }
  destruct (Job.state (job (self w))).
  - destruct Hst as (H & _). rewrite H in L. discriminate.
  - destruct Hst as [H|[H|H]].
    + left. destruct H as (h1 & h2 & h3 & h4 & h5 & h6).
      unfold stage1. simpl. rewrite length_insert, counted_app.
      set (r' := mkRequest (Request.finish e (base r)) (req_worker r)
                   (req_database r)).
      pose proof (counted_insert requestDone _ i r r' L) as Hc.
      assert (D0 : requestDone r = false) by exact F.
      assert (D1 : requestDone r' = true).
      { unfold requestDone, r', Request.finish. simpl. rewrite F. reflexivity. }
      rewrite D0, D1 in Hc.
      assert (Hn : count forRequest [NotifyRequest i] = 1%nat) by reflexivity.
      rewrite Hn. repeat split; auto. lia.
    + exfalso. apply Hnot. apply H.
    + exfalso. apply Hnot. apply H.
  - exfalso. apply Hnot. apply Hst.
Qed.

Lemma finishFindAllJob_fanIn (env : Env) (i : nat) (e : Job.ExtendedState)
    (w : World) :
  fanIn env w -> fanIn env (finishFindAllJob i e w).
Proof.
  intros (Hp & Hr & Hst).
  pose proof (finishFindAllJob_kept i e w) as K.
  pose proof (kept_all_pointed _ _ K Hp) as Hp'.
  pose proof (kept_result _ _ K Hr) as Hr'.
  split; [exact Hp'|]. split; [exact Hr'|]. clear Hp' Hr' K.
  unfold finishFindAllJob in *.
  destruct (findAllJobs (self w) !! i) as [c|] eqn:L; [|exact Hst].
  destruct (Job.finished (child c)) eqn:F; [exact Hst|]. simpl.
  assert (Hnot : forallb childDone (findAllJobs (self w)) = true -> False).
  { intros H. pose proof (forallb_at _ _ _ _ H L) as D.
    unfold childDone in D. congruence. }
  destruct (Job.state (job (self w))).
  - destruct Hst as (_ & H & _). rewrite H in L. discriminate.
  - destruct Hst as [H|[H|H]].
    + destruct H as (_ & H & _). rewrite H in L. discriminate.
    + right. left.
      destruct H as (h1 & h2 & h3 & h4 & h5 & h6 & h7 & h8 & h9).
      unfold stage2. simpl. rewrite length_insert, !counted_app.
      pose proof (counted_insert childDone _ i c (finishChild e c) L) as Hc.
      assert (D0 : childDone c = false) by exact F.
      assert (D1 : childDone (finishChild e c) = true) by reflexivity.
      rewrite D0, D1 in Hc.
      assert (Hn1 : count forRequest [NotifyFindAllJob i] = 0%nat) by reflexivity.
      assert (Hn2 : count forFindAllJob [NotifyFindAllJob i] = 1%nat)
        by reflexivity.
      rewrite Hn1, Hn2.
      split; [exact h1|]. split; [exact h2|]. split; [exact h3|].
      split; [lia|].
      split.
      { change (databaseFamily <$> <[i := finishChild e c]> (findAllJobs (self w))
                = databaseFamilies env).
        rewrite list_fmap_insert. simpl. rewrite list_insert_id; [exact h5|].
        rewrite list_lookup_fmap, L. reflexivity. }
      split; [exact h6|].
      split; [lia|].
      split; [exact h8|].
      intros j c0 Lj Dj Sj. apply in_or_app.
      destruct (decide (j = i)) as [->|Hne]; [right; left; reflexivity|left].
      rewrite list_lookup_insert_ne in Lj by auto. eapply h9; eauto.
    + exfalso. apply Hnot. apply H.
  - exfalso. apply Hnot. apply Hst.
Qed.

Lemma insert_nonempty {A : Type} (l : list A) (i : nat) (x : A) :
  l <> [] -> <[i := x]> l <> [].
Proof.
  intros H E. apply (f_equal length) in E. rewrite length_insert in E.
  destruct l; [contradiction|discriminate].
Qed.

Lemma families_insert (l : list ChildJob) (i : nat) (c c' : ChildJob) :
  l !! i = Some c -> databaseFamily c' = databaseFamily c ->
  map databaseFamily (<[i := c']> l) = map databaseFamily l.
Proof.
  intros L E.
  change (databaseFamily <$> <[i := c']> l = databaseFamily <$> l).
  rewrite list_fmap_insert. apply list_insert_id.
  rewrite list_lookup_fmap, L, E. reflexivity.
Qed.

Lemma finishReplicateJob_fanIn (env : Env) (i : nat) (e : Job.ExtendedState)
    (w : World) :
  fanIn env w -> fanIn env (finishReplicateJob i e w).
Proof.
  intros (Hp & Hr & Hst).
  pose proof (finishReplicateJob_kept i e w) as K.
  pose proof (kept_all_pointed _ _ K Hp) as Hp'.
  pose proof (kept_result _ _ K Hr) as Hr'.
  split; [exact Hp'|]. split; [exact Hr'|]. clear Hp' Hr' K.
  unfold finishReplicateJob in *.
  destruct (replicateJobs (self w) !! i) as [c|] eqn:L; [|exact Hst].
  destruct (Job.finished (child c)) eqn:F; [exact Hst|]. simpl.
  assert (Hnot : forallb childDone (replicateJobs (self w)) = true -> False).
  { intros H. pose proof (forallb_at _ _ _ _ H L) as D.
    unfold childDone in D. congruence. }
  destruct (Job.state (job (self w))).
  - destruct Hst as (_ & _ & H & _). rewrite H in L. discriminate.
  - destruct Hst as [H|[H|H]].
    + destruct H as (_ & _ & H & _). rewrite H in L. discriminate.
    + destruct H as (_ & H & _). rewrite H in L. discriminate.
    + right. right.
      destruct H as (h1 & h2 & h3 & h4 & h5 & h6 & h7 & h8 & h9 & h10 & h11
                     & h12 & h13).
      unfold stage3. simpl. rewrite length_insert, !counted_app.
      pose proof (counted_insert childDone _ i c (finishChild e c) L) as Hc.
      assert (D0 : childDone c = false) by exact F.
      assert (D1 : childDone (finishChild e c) = true) by reflexivity.
      rewrite D0, D1 in Hc.
      assert (Hn1 : count forRequest [NotifyReplicateJob i] = 0%nat)
        by reflexivity.
      assert (Hn2 : count forFindAllJob [NotifyReplicateJob i] = 0%nat)
        by reflexivity.
      assert (Hn3 : count forReplicateJob [NotifyReplicateJob i] = 1%nat)
        by reflexivity.
      rewrite Hn1, Hn2, Hn3.
      split; [apply insert_nonempty, h1|]. split; [exact h2|].
      split; [lia|]. split; [lia|]. split; [exact h5|]. split; [exact h6|].
      split; [exact h7|].
      split; [rewrite (families_insert _ i c) by (auto; reflexivity); exact h8|].
      split; [exact h9|]. split; [lia|]. split; [exact h11|].
      split.
      * intros j c0 Lj Dj Sj. apply in_or_app.
        destruct (decide (j = i)) as [->|Hne]; [right; left; reflexivity|left].
        rewrite list_lookup_insert_ne in Lj by auto. eapply h12; eauto.
      * intros j c0 Lj Dj Hno.
        destruct (decide (j = i)) as [->|Hne].
        -- exfalso. apply Hno, in_or_app. right. left. reflexivity.
        -- rewrite list_lookup_insert_ne in Lj by auto.
           eapply h13; eauto. intros Hin. apply Hno, in_or_app. left. exact Hin.
  - exfalso. apply Hnot. apply Hst.
Qed.

(** A child that has not finished gets its result. *)
Lemma setResult_fanIn (env : Env) (i : nat) (result : ChunkMap) (c : ChildJob)
    (w : World) :
  replicateJobs (self w) !! i = Some c -> Job.finished (child c) = false ->
  fanIn env w ->
  fanIn env (mkWorld
               (withReplicateJobs
                  (<[i := mkChild (child c) (databaseFamily c) result]>
                     (replicateJobs (self w)))
                  (self w))
               (notifiers w)).
Proof.
  intros L F (Hp & Hr & Hst).
  set (c' := mkChild (child c) (databaseFamily c) result).
  set (w1 := mkWorld _ (notifiers w)).
  assert (K : kept w w1).
  { unfold kept, w1. simpl. repeat split; auto.
    intros j c0 Lj Dj. rewrite list_lookup_insert_ne; [exact Lj|].
    intros ->. rewrite L in Lj. inversion Lj; subst.
    unfold childDone in Dj. congruence. }
  split; [exact (kept_all_pointed _ _ K Hp)|].
  split; [exact (kept_result _ _ K Hr)|]. unfold w1. simpl.
  assert (Hnot : forallb childDone (replicateJobs (self w)) = true -> False).
  { intros H. pose proof (forallb_at _ _ _ _ H L) as D.
    unfold childDone in D. congruence. }
  destruct (Job.state (job (self w))).
  - destruct Hst as (_ & _ & H & _). rewrite H in L. discriminate.
  - destruct Hst as [H|[H|H]].
    + destruct H as (_ & _ & H & _). rewrite H in L. discriminate.
    + destruct H as (_ & H & _). rewrite H in L. discriminate.
    + right. right.
      destruct H as (h1 & h2 & h3 & h4 & h5 & h6 & h7 & h8 & h9 & h10 & h11
                     & h12 & h13).
      unfold stage3. simpl. rewrite length_insert.
      pose proof (counted_insert childDone _ i c c' L) as Hc.
      assert (D0 : childDone c = false) by exact F.
      assert (D1 : childDone c' = false) by exact F.
      rewrite D0, D1 in Hc.
      split; [apply insert_nonempty, h1|]. split; [exact h2|].
      split; [exact h3|]. split; [exact h4|]. split; [exact h5|].
      split; [exact h6|]. split; [exact h7|].
      split; [rewrite (families_insert _ i c) by (auto; reflexivity); exact h8|].
      split; [exact h9|]. split; [lia|]. split; [exact h11|].
      split.
      * intros j c0 Lj Dj Sj. destruct (decide (j = i)) as [->|Hne].
        -- rewrite list_lookup_insert_eq in Lj by (eapply lookup_lt_Some; eauto).
           inversion Lj; subst. congruence.
        -- rewrite list_lookup_insert_ne in Lj by auto. eapply h12; eauto.
      * intros j c0 Lj Dj Hno. destruct (decide (j = i)) as [->|Hne].
        -- rewrite list_lookup_insert_eq in Lj by (eapply lookup_lt_Some; eauto).
           inversion Lj; subst. congruence.
        -- rewrite list_lookup_insert_ne in Lj by auto. eapply h13; eauto.
  - exfalso. apply Hnot. apply Hst.
Qed.

Lemma completeReplicateJob_fanIn (env : Env) (i : nat) (e : Job.ExtendedState)
    (result : ChunkMap) (w : World) :
  fanIn env w -> fanIn env (completeReplicateJob i e result w).
Proof.
  intros H. unfold completeReplicateJob.
  destruct (replicateJobs (self w) !! i) as [c|] eqn:L; [|exact H].
  destruct (Job.finished (child c)) eqn:F; [exact H|].
  apply finishReplicateJob_fanIn, setResult_fanIn; auto.
Qed.

Lemma counted_zero {A : Type} (f : A -> bool) (l : list A) :
  (forall x, In x l -> f x = false) -> count f l = 0%nat.
Proof.
  unfold count. induction l as [|a l IH]; intros H; [reflexivity|]. simpl.
  rewrite (H a) by (left; reflexivity). apply IH.
  intros x Hx. apply H. right. exact Hx.
Qed.

(** Without child jobs no thread waits for one. *)
Lemma no_findAllJob_threads (w : World) :
  Forall (pointed w) (notifiers w) -> findAllJobs (self w) = [] ->
  count forFindAllJob (notifiers w) = 0%nat.
Proof.
  intros Hp HA. apply counted_zero. intros n Hn.
  rewrite List.Forall_forall in Hp. specialize (Hp n Hn).
  destruct n as [i|i|i]; try reflexivity.
  simpl in Hp. destruct Hp as (c & L & _). rewrite HA in L. discriminate.
Qed.

Lemma no_replicateJob_threads (w : World) :
  Forall (pointed w) (notifiers w) -> replicateJobs (self w) = [] ->
  count forReplicateJob (notifiers w) = 0%nat.
Proof.
  intros Hp HP. apply counted_zero. intros n Hn.
  rewrite List.Forall_forall in Hp. specialize (Hp n Hn).
  destruct n as [i|i|i]; try reflexivity.
  simpl in Hp. destruct Hp as (c & L & _). rewrite HP in L. discriminate.
Qed.

Lemma new_children_not_done (more : list ChildJob) :
  Forall (fun c => Job.state (child c) = Job.IN_PROGRESS) more ->
  count childDone more = 0%nat
  /\ (forall i c, more !! i = Some c -> childDone c = false).
Proof.
  intros H. rewrite List.Forall_forall in H. split.
  - apply counted_zero. intros c Hc. unfold childDone, Job.finished.
    rewrite (H c Hc). reflexivity.
  - intros i c L. unfold childDone, Job.finished.
    rewrite (H c); [reflexivity|].
    apply list_elem_of_In. eapply list_elem_of_lookup_2; eauto.
Qed.

(** [disableWorker] opens the second stage. *)
Lemma disableWorker_stage2 (env : Env) (w : World) :
  findAllJobs (self w) = [] -> replicateJobs (self w) = [] ->
  forallb requestDone (findAllRequests (self w)) = true ->
  count forRequest (notifiers w) = 0%nat ->
  Forall (pointed w) (notifiers w) -> resultFromChildren w ->
  Forall (pointed (disableWorker env w)) (notifiers (disableWorker env w))
  /\ resultFromChildren (disableWorker env w)
  /\ stage2 env (disableWorker env w)
  /\ job (self (disableWorker env w)) = job (self w).
Proof.
  intros HA HP HR Hn Hp Hr.
  pose proof (no_findAllJob_threads w Hp HA) as Hn2.
  unfold disableWorker.
  match goal with
  | |- context [fold_left _ _ ?w1] =>
      set (w0 := w1);
      destruct (launchFindAllJob_fold env (databaseFamilies env) w0)
        as (h1 & h2 & h3 & h4 & h5 & h6 & h7 & h8 & h9 & h10 & h11 & h12
            & h13 & h14)
  end.
  destruct h11 as (more & hm & hf & hs).
  destruct (new_children_not_done more hs) as [Hc0 Hnd].
  set (w' := fold_left (launchFindAllJob env) (databaseFamilies env) w0) in *.
  simpl in h1, h4, h5, h6, h7, h10, hm, h12, h13. rewrite HA in hm. simpl in hm.
  assert (K : kept w w').
  { unfold kept. rewrite h4, h5, h6, h10, hm. repeat split; auto.
    intros i c L. rewrite HA in L. discriminate. }
  split; [exact (kept_all_pointed _ _ K Hp)|].
  split; [exact (kept_result _ _ K Hr)|].
  split; [|exact h1].
  unfold stage2. rewrite h4, h5, h7, h10, hm, h12, h13, HP, Hn, Hn2, Hc0, hf.
  assert (Hlen : length (databaseFamilies env) = length more)
    by (rewrite <- hf; apply length_map).
  repeat split; auto.
  - destruct (disableWorkerCalls (self w)); discriminate.
  - lia.
  - intros i c L D. rewrite (Hnd i c L) in D. discriminate.
Qed.

Lemma delete_pointed (w : World) (k : nat) :
  Forall (pointed w) (notifiers w) ->
  Forall (pointed (mkWorld (self w) (delete k (notifiers w))))
    (delete k (notifiers w)).
Proof.
  intros Hp. rewrite List.Forall_forall in *. intros n Hn.
  apply in_delete_inv in Hn. exact (Hp n Hn).
Qed.

Lemma waiting_pointed (w : World) (k : nat) (n : Notifier) :
  Forall (pointed w) (notifiers w) -> notifiers w !! k = Some n -> pointed w n.
Proof.
  intros Hp Hk. rewrite List.Forall_forall in Hp. apply Hp.
  apply list_elem_of_In. eapply list_elem_of_lookup_2; eauto.
Qed.

Lemma waiting_in (w : World) (k : nat) (n : Notifier) :
  notifiers w !! k = Some n -> In n (notifiers w).
Proof. intros Hk. apply list_elem_of_In. eapply list_elem_of_lookup_2; eauto. Qed.

(** The thread of a request runs. *)
Lemma notify_request_fanIn (env : Env) (k i : nat) (w : World) :
  fanIn env w -> notifiers w !! k = Some (NotifyRequest i) ->
  fanIn env (onRequestFinish env i (mkWorld (self w) (delete k (notifiers w)))).
Proof.
  intros (Hp & Hr & Hst) Hk.
  pose proof (delete_pointed w k Hp) as Hp0.
  destruct (waiting_pointed w k _ Hp Hk) as (r & L & D).
  pose proof (counted_delete forRequest _ k _ Hk) as Hcd. simpl in Hcd.
  unfold onRequestFinish. cbn [self notifiers].
  destruct (Job.finished (job (self w))) eqn:Fin.
  - split; [exact Hp0|]. split; [exact Hr|]. simpl.
    unfold Job.finished in Fin.
    destruct (Job.state (job (self w))); try discriminate. exact Hst.
  - rewrite L. cbv zeta. cbn [numFinished numLaunched withCounters].
    unfold Job.finished in Fin.
    destruct (Job.state (job (self w))) eqn:St; try discriminate.
    + destruct Hst as (_ & _ & _ & H & _). rewrite H in Hk. discriminate.
    + destruct Hst as [H|[H|H]].
      * destruct H as (h1 & h2 & h3 & h4 & h5 & h6).
        pose proof (counted_le requestDone (findAllRequests (self w))) as Hle.
        match goal with |- context [Nat.eqb ?a ?b] => destruct (Nat.eqb a b) eqn:E end.
        -- apply Nat.eqb_eq in E.
           match goal with
           | |- fanIn env (disableWorker env ?w1) =>
               destruct (disableWorker_stage2 env w1) as (P1 & P2 & P3 & P4)
           end; simpl; auto.
           ++ apply counted_all. lia.
           ++ lia.
           ++ split; [exact P1|]. split; [exact P2|]. rewrite P4. simpl.
              rewrite St. right. left. exact P3.
        -- apply Nat.eqb_neq in E.
           split; [exact Hp0|]. split; [exact Hr|]. simpl. rewrite St. left.
           unfold stage1. simpl. repeat split; auto; lia.
      * exfalso. destruct H as (_ & _ & _ & H & _).
        pose proof (counted_none forRequest _ _ H (waiting_in w k _ Hk)).
        discriminate.
      * exfalso. destruct H as (_ & _ & H & _).
        pose proof (counted_none forRequest _ _ H (waiting_in w k _ Hk)).
        discriminate.
Qed.

(** The loop of [onJobFinish(FindAllJob)] opens the third stage. *)
Lemma launchReplicate_stage3 (env : Env) (w : World) :
  replicateJobs (self w) = [] -> findAllJobs (self w) <> [] ->
  map databaseFamily (findAllJobs (self w)) = databaseFamilies env ->
  forallb childDone (findAllJobs (self w)) = true ->
  forallb childSucceeded (findAllJobs (self w)) = true ->
  forallb requestDone (findAllRequests (self w)) = true ->
  count forRequest (notifiers w) = 0%nat ->
  count forFindAllJob (notifiers w) = 0%nat ->
  numLaunched (self w) = 0%nat -> numFinished (self w) = 0%nat ->
  Forall (pointed w) (notifiers w) -> resultFromChildren w ->
  let w' := fold_left (launchReplicateJob env) (databaseFamilies env) w in
  Forall (pointed w') (notifiers w')
  /\ resultFromChildren w'
  /\ stage3 env w'
  /\ job (self w') = job (self w).
Proof.
  intros HP HA Hfam HD HS HR Hn1 Hn2 HL HF Hp Hr w'.
  pose proof (no_replicateJob_threads w Hp HP) as Hn3.
  destruct (launchReplicateJob_fold env (databaseFamilies env) w)
    as (h1 & h2 & h3 & h4 & h5 & h6 & h7 & h8 & h9 & h10 & h11 & h12
        & h13 & h14).
  fold w' in h1, h2, h3, h4, h5, h6, h7, h8, h9, h10, h11, h12, h13, h14.
  destruct h11 as (more & hm & hf & hs).
  destruct (new_children_not_done more hs) as [Hc0 Hnd].
  rewrite HP in hm. simpl in hm.
  assert (Hlen : length (databaseFamilies env) = length more)
    by (rewrite <- hf; apply length_map).
  assert (Hne : databaseFamilies env <> []).
  { rewrite <- Hfam. destruct (findAllJobs (self w)); [contradiction|discriminate]. }
  assert (K : kept w w').
  { unfold kept. rewrite h4, h5, h6, h10, hm. repeat split; auto.
    intros i c L. rewrite HP in L. discriminate. }
  split; [exact (kept_all_pointed _ _ K Hp)|].
  split; [exact (kept_result _ _ K Hr)|].
  split; [|exact h1].
  unfold stage3. rewrite h4, h5, h10, hm, h12, h13, HL, HF, Hn1, Hn2, Hn3, Hc0, hf.
  repeat split; auto.
  - intros E. rewrite E in Hlen. simpl in Hlen.
    destruct (databaseFamilies env); [contradiction|discriminate].
  - destruct (databaseFamilies env); [contradiction|simpl; lia].
  - intros i c L D. rewrite (Hnd i c L) in D. discriminate.
  - intros i c L D. rewrite (Hnd i c L) in D. discriminate.
Qed.

(** The thread of a [FindAllJob] runs. *)
Lemma notify_findAllJob_fanIn (env : Env) (k i : nat) (w : World) :
  fanIn env w -> notifiers w !! k = Some (NotifyFindAllJob i) ->
  fanIn env (onFindAllJobFinish env i
               (mkWorld (self w) (delete k (notifiers w)))).
Proof.
  intros (Hp & Hr & Hst) Hk.
  pose proof (delete_pointed w k Hp) as Hp0.
  destruct (waiting_pointed w k _ Hp Hk) as (c & L & D).
  pose proof (counted_delete forRequest _ k _ Hk) as Hcd1. simpl in Hcd1.
  pose proof (counted_delete forFindAllJob _ k _ Hk) as Hcd2. simpl in Hcd2.
  unfold onFindAllJobFinish. cbn [self notifiers].
  destruct (Job.finished (job (self w))) eqn:Fin.
  - split; [exact Hp0|]. split; [exact Hr|]. simpl.
    unfold Job.finished in Fin.
    destruct (Job.state (job (self w))); try discriminate. exact Hst.
  - rewrite L. cbv zeta.
    assert (Hfail : forall e, e <> Job.SUCCESS ->
              fanIn env
                (finish e
                   (mkWorld
                      (withCounters (numLaunched (self w))
                         (S (numFinished (self w))) (numSuccess (self w))
                         (self w))
                      (delete k (notifiers w))))).
    { intros e He. apply finish_failed_fanIn; auto. }
    destruct (Job.extendedState (child c)) eqn:Ext;
      try (apply Hfail; discriminate).
    cbn [numFinished numLaunched numSuccess withCounters].
    assert (Hsucc : childSucceeded c = true)
      by (unfold childSucceeded; rewrite Ext; reflexivity).
    unfold Job.finished in Fin.
    destruct (Job.state (job (self w))) eqn:St; try discriminate.
    + destruct Hst as (_ & _ & _ & H & _). rewrite H in Hk. discriminate.
    + destruct Hst as [H|[H|H]].
      * destruct H as (_ & H & _). rewrite H in L. discriminate.
      * destruct H as (h1 & h2 & h3 & h4 & h5 & h6 & h7 & h8 & h9).
        pose proof (counted_le childDone (findAllJobs (self w))) as Hle.
        assert (Hother : forall j c0,
                   findAllJobs (self w) !! j = Some c0 ->
                   childDone c0 = true -> childSucceeded c0 = false ->
                   In (NotifyFindAllJob j) (delete k (notifiers w))).
        { intros j c0 Lj Dj Sj. eapply in_delete; [eapply h9; eauto|exact Hk|].
          intros E. inversion E; subst. rewrite L in Lj. inversion Lj; subst.
          congruence. }
        match goal with |- context [Nat.eqb ?a ?b] => destruct (Nat.eqb a b) eqn:E end.
        -- apply Nat.eqb_eq in E.
           assert (Hz : count forFindAllJob (delete k (notifiers w)) = 0%nat)
             by lia.
           assert (HD : forallb childDone (findAllJobs (self w)) = true)
             by (apply counted_all; lia).
           match goal with
           | |- fanIn env (fold_left _ _ ?w1) =>
               destruct (launchReplicate_stage3 env w1) as (P1 & P2 & P3 & P4)
           end; simpl; auto.
           ++ intros E0. rewrite E0 in L. discriminate.
           ++ apply forallb_lookups. intros j c0 Lj.
              destruct (childSucceeded c0) eqn:Sj; [reflexivity|exfalso].
              pose proof (Hother j c0 Lj (forallb_at _ _ _ _ HD Lj) Sj) as Hin.
              pose proof (counted_none forFindAllJob _ _ Hz Hin). discriminate.
           ++ lia.
           ++ split; [exact P1|]. split; [exact P2|]. rewrite P4. simpl.
              rewrite St. right. right. exact P3.
        -- apply Nat.eqb_neq in E.
           split; [exact Hp0|]. split; [exact Hr|]. simpl. rewrite St.
           right. left. unfold stage2. simpl.
           repeat split; auto; lia.
      * exfalso. destruct H as (_ & _ & _ & H & _).
        pose proof (counted_none forFindAllJob _ _ H (waiting_in w k _ Hk)).
        discriminate.
Qed.

Lemma addOrphans_chunks (replicas : list ReplicaInfo)
    (d : DeleteWorkerJobResult) :
  result_chunks (addOrphans replicas d) = result_chunks d.
Proof.
  revert d. induction replicas as [|r rest IH]; intros d; [reflexivity|].
  unfold addOrphans in *. simpl. rewrite IH.
  destruct (replicated _ _ _); reflexivity.
Qed.

(** A job whose children have all succeeded finishes with SUCCESS. *)
Lemma finish_success_fanIn (env : Env) (w : World) :
  Job.finished (job (self w)) = false ->
  Forall (pointed w) (notifiers w) -> resultFromChildren w ->
  forallb requestDone (findAllRequests (self w)) = true ->
  forallb childDone (findAllJobs (self w)) = true ->
  forallb childDone (replicateJobs (self w)) = true ->
  map databaseFamily (findAllJobs (self w)) = databaseFamilies env ->
  map databaseFamily (replicateJobs (self w)) = databaseFamilies env ->
  forallb childSucceeded (findAllJobs (self w)) = true ->
  forallb childSucceeded (replicateJobs (self w)) = true ->
  (forall c, In c (replicateJobs (self w)) ->
             is_Some (result_chunks (replicaData (self w)) !! databaseFamily c)) ->
  fanIn env (finish Job.SUCCESS w).
Proof.
  intros Fin Hp Hr H1 H2 H3 H4 H5 H6 H7 H8. unfold finish. rewrite Fin.
  unfold fanIn. simpl. split; [exact Hp|]. split; [exact Hr|].
  unfold ended. simpl. repeat split; auto.
Qed.

(** The thread of a [ReplicateJob] runs. *)
Lemma notify_replicateJob_fanIn (env : Env) (k i : nat) (w : World) :
  fanIn env w -> notifiers w !! k = Some (NotifyReplicateJob i) ->
  fanIn env (onReplicateJobFinish env i
               (mkWorld (self w) (delete k (notifiers w)))).
Proof.
  intros (Hp & Hr & Hst) Hk.
  pose proof (delete_pointed w k Hp) as Hp0.
  destruct (waiting_pointed w k _ Hp Hk) as (c & L & D).
  pose proof (counted_delete forRequest _ k _ Hk) as Hcd1. simpl in Hcd1.
  pose proof (counted_delete forFindAllJob _ k _ Hk) as Hcd2. simpl in Hcd2.
  pose proof (counted_delete forReplicateJob _ k _ Hk) as Hcd3. simpl in Hcd3.
  unfold onReplicateJobFinish. cbn [self notifiers].
  destruct (Job.finished (job (self w))) eqn:Fin.
  - split; [exact Hp0|]. split; [exact Hr|]. simpl.
    unfold Job.finished in Fin.
    destruct (Job.state (job (self w))); try discriminate. exact Hst.
  - rewrite L. cbv zeta.
    assert (Hfail : forall e, e <> Job.SUCCESS ->
              fanIn env
                (finish e
                   (mkWorld
                      (withCounters (numLaunched (self w))
                         (S (numFinished (self w))) (numSuccess (self w))
                         (self w))
                      (delete k (notifiers w))))).
    { intros e He. apply finish_failed_fanIn; auto. }
    destruct (Job.extendedState (child c)) eqn:Ext;
      try (apply Hfail; discriminate).
    clear Hfail.
    cbn [numFinished numLaunched numSuccess withCounters withReplicaData
         replicaData result_chunks orphanChunks worker].
    assert (Hsucc : childSucceeded c = true)
      by (unfold childSucceeded; rewrite Ext; reflexivity).
    pose proof Fin as Fin'. unfold Job.finished in Fin.
    destruct (Job.state (job (self w))) eqn:St; try discriminate.
    + destruct Hst as (_ & _ & _ & H & _). rewrite H in Hk. discriminate.
    + destruct Hst as [H|[H|H]].
      * destruct H as (_ & _ & H & _). rewrite H in L. discriminate.
      * destruct H as (_ & H & _). rewrite H in L. discriminate.
      * destruct H as (h1 & h2 & h3 & h4 & h5 & h6 & h7 & h8 & h9 & h10 & h11
                       & h12 & h13).
        pose proof (counted_le childDone (replicateJobs (self w))) as Hle.
        set (chunks' := <[databaseFamily c := chunks c]>
                          (result_chunks (replicaData (self w)))).
        assert (Hother : forall j c0,
                   replicateJobs (self w) !! j = Some c0 ->
                   childDone c0 = true -> childSucceeded c0 = false ->
                   In (NotifyReplicateJob j) (delete k (notifiers w))).
        { intros j c0 Lj Dj Sj. eapply in_delete; [eapply h12; eauto|exact Hk|].
          intros E. inversion E; subst. rewrite L in Lj. inversion Lj; subst.
          congruence. }
        assert (Hheard : forall j c0,
                   replicateJobs (self w) !! j = Some c0 ->
                   childDone c0 = true ->
                   ~ In (NotifyReplicateJob j) (delete k (notifiers w)) ->
                   is_Some (chunks' !! databaseFamily c0)).
        { intros j c0 Lj Dj Hno. unfold chunks'.
          destruct (decide (databaseFamily c = databaseFamily c0)) as [E|E].
          - rewrite E, lookup_insert_eq. eauto.
          - rewrite lookup_insert_ne by exact E. eapply h13; eauto.
            intros Hin. apply Hno. eapply in_delete; [exact Hin|exact Hk|].
            intros E0. inversion E0; subst. rewrite L in Lj.
            inversion Lj; subst. contradiction. }
        assert (Hres : forall family m,
                   chunks' !! family = Some m ->
                   exists (j : nat) (c0 : ChildJob),
                     replicateJobs (self w) !! j = Some c0
                     /\ databaseFamily c0 = family
                     /\ DeleteWorkerJob.chunks c0 = m /\ childDone c0 = true).
        { intros family m Hm. unfold chunks' in Hm.
          destruct (decide (databaseFamily c = family)) as [E|E].
          - subst family. rewrite lookup_insert_eq in Hm. inversion Hm; subst.
            exists i, c. auto.
          - rewrite lookup_insert_ne in Hm by exact E. exact (Hr family m Hm). }
        match goal with |- context [Nat.eqb ?a ?b] => destruct (Nat.eqb a b) eqn:E end.
        -- apply Nat.eqb_eq in E.
           assert (Hz : count forReplicateJob (delete k (notifiers w)) = 0%nat)
             by lia.
           assert (HD : forallb childDone (replicateJobs (self w)) = true)
             by (apply counted_all; lia).
           assert (HS : forallb childSucceeded (replicateJobs (self w)) = true).
           { apply forallb_lookups. intros j c0 Lj.
             destruct (childSucceeded c0) eqn:Sj; [reflexivity|exfalso].
             pose proof (Hother j c0 Lj (forallb_at _ _ _ _ HD Lj) Sj) as Hin.
             pose proof (counted_none forReplicateJob _ _ Hz Hin). discriminate. }
           assert (Hall : forall c0, In c0 (replicateJobs (self w)) ->
                                     is_Some (chunks' !! databaseFamily c0)).
           { intros c0 Hin.
             apply list_elem_of_In, list_elem_of_lookup_1 in Hin as [j Lj].
             apply (Hheard j c0 Lj (forallb_at _ _ _ _ HD Lj)).
             intros Hin. pose proof (counted_none forReplicateJob _ _ Hz Hin).
             discriminate. }
           destruct (findWorkerReplicas env (worker (self w))) as [replicas|];
             cbn [permanentDelete withReplicaData withCounters];
             destruct (permanentDelete (self w));
             apply finish_success_fanIn; simpl; rewrite ?addOrphans_chunks;
             auto;
             unfold resultFromChildren; simpl; rewrite ?addOrphans_chunks;
             exact Hres.
        -- apply Nat.eqb_neq in E.
           split; [exact Hp0|]. split; [exact Hres|]. simpl. rewrite St.
           right. right. unfold stage3. simpl.
           repeat split; auto; lia.
Qed.

Lemma launchRequest_fold_new (env : Env) (l : list string) (w : World) :
  let w' := fold_left (launchRequest env) l w in
  replicaData (self w') = replicaData (self w)
  /\ exists more,
       findAllRequests (self w') = findAllRequests (self w) ++ more
       /\ Forall (fun r => requestDone r = false) more.
Proof.
  revert w. induction l as [|d l IH]; intros w; simpl.
  - split; [reflexivity|]. exists []. rewrite app_nil_r. split; constructor.
  - destruct (IH (launchRequest env w d)) as (h1 & more & hm & hs).
    simpl in *. rewrite h1, hm, <- app_assoc. split; [reflexivity|].
    eexists (_ :: more). split; [reflexivity|].
    constructor; [reflexivity|exact hs].
Qed.

Lemma start_fanIn (env : Env) (status drain : ServiceReport) (w w' : World) :
  start env status drain w = Ok w' -> fanIn env w -> fanIn env w'.
Proof.
  unfold start. destruct (Job.state (job (self w))) eqn:St; try discriminate.
  intros H (Hp & Hr & Hst). rewrite St in Hst.
  destruct Hst as (hR & hA & hP & hN & hL & hF & hD).
  set (w0 := mkWorld _ (notifiers w)) in *.
  assert (Hp0 : Forall (pointed w0) (notifiers w0))
    by (unfold w0; simpl; rewrite hN; constructor).
  assert (Hr0 : resultFromChildren w0) by exact Hr.
  assert (Hn0 : count forRequest (notifiers w0) = 0%nat)
    by (unfold w0; simpl; rewrite hN; reflexivity).
  assert (H1 : fanIn env (startImpl env status drain w0)
               /\ Job.state (job (self (startImpl env status drain w0)))
                  = Job.IN_PROGRESS).
  { unfold startImpl. destruct (available status && available drain).
    - split; [|reflexivity].
      destruct (launchRequest_fold env (databases env) w0)
        as (h1 & h2 & h3 & h4 & h5 & h6 & h7 & h8 & h9 & h10 & h11 & h12).
      destruct (launchRequest_fold_new env (databases env) w0)
        as (g1 & more & gm & gs).
      set (w1 := fold_left (launchRequest env) (databases env) w0) in *.
      simpl in h4, h5, h6, h9, h10, h11, h12, g1, gm.
      rewrite hR in gm, h10. simpl in gm, h10.
      assert (Hc : count requestDone more = 0%nat).
      { apply counted_zero. rewrite List.Forall_forall in gs. exact gs. }
      unfold fanIn. simpl. rewrite h9, hN.
      split; [constructor|]. split.
      + intros family m Hm. simpl in Hm. rewrite g1 in Hm.
        destruct (Hr family m Hm) as (j & c & L & _). rewrite hP in L.
        discriminate.
      + left. unfold stage1. simpl.
        rewrite h4, h5, h6, h9, h10, h11, h12, gm, hA, hP, hN, hD, hL, hF, Hc.
        rewrite <- h10, gm. repeat split; auto. lia.
    - split.
      + destruct (disableWorker_stage2 env w0) as (P1 & P2 & P3 & P4);
          [exact hA|exact hP|simpl; rewrite hR; reflexivity|exact Hn0|exact Hp0
          |exact Hr0|].
        unfold fanIn. simpl. split; [exact P1|]. split; [exact P2|].
        right. left. exact P3.
      + reflexivity. }
  destruct H1 as [H1 H2]. rewrite H2 in H. inversion H; subst. exact H1.
Qed.

Lemma finish_fanIn (env : Env) (e : Job.ExtendedState) (w : World) :
  e <> Job.SUCCESS -> fanIn env w -> fanIn env (finish e w).
Proof.
  intros He H. destruct (Job.finished (job (self w))) eqn:Fin.
  - unfold finish. rewrite Fin. exact H.
  - destruct H as (Hp & Hr & _). apply finish_failed_fanIn; auto.
Qed.

Lemma step_fanIn (env : Env) (w : World) (e : Event) :
  fanIn env w -> fanIn env (step env w e).
Proof.
  intros H. destruct e as [status drain| |ec|i x|i x|i x result|k]; simpl.
  - destruct (start env status drain w) as [w'|err] eqn:E; [|exact H].
    eapply start_fanIn; eauto.
  - unfold cancel. destruct (Job.finished (job (self w))); [exact H|].
    apply finish_fanIn; [discriminate|exact H].
  - unfold expired. destruct (is_aborted ec); [exact H|].
    destruct (Job.finished (job (self w))); [exact H|].
    apply finish_fanIn; [discriminate|exact H].
  - apply finishRequest_fanIn, H.
  - apply finishFindAllJob_fanIn, H.
  - apply completeReplicateJob_fanIn, H.
  - destruct (notifiers w !! k) as [n|] eqn:Hk; [|exact H].
    destruct n.
    + apply notify_request_fanIn; auto.
    + apply notify_findAllJob_fanIn; auto.
    + apply notify_replicateJob_fanIn; auto.
Qed.

Lemma run_fanIn (env : Env) (events : list Event) (w : World) :
  fanIn env w -> fanIn env (run env events w).
Proof.
  revert w. induction events as [|e rest IH]; intros w H; simpl; [exact H|].
  apply IH, step_fanIn, H.
Qed.

(** X26: The three stages of a job that deletes a worker, whatever happens to
    the job and to its children and in whatever order the notifications are
    delivered.  A job that has finished has left no child unfinished.  A job
    that has succeeded has had one [FindAllJob] and one [ReplicateJob] for
    each database family of the configuration, in their order, all of which
    have succeeded, and its result holds, for each of these families and for
    no other, the chunks of a [ReplicateJob] of that family.  A job in
    progress whose children have all finished and have all been heard of has
    launched nothing in its stage: it had no database to ask the worker for,
    or no database family. *)
Theorem job_fans_in (env : Env) (events : list Event) (i name : string)
    (permanent : bool) :
  let w := run env events (create i name permanent) in
  (Job.finished (job (self w)) = true ->
   forallb requestDone (findAllRequests (self w)) = true
   /\ forallb childDone (findAllJobs (self w)) = true
   /\ forallb childDone (replicateJobs (self w)) = true)
  /\ (succeeded (job (self w)) = true ->
      map databaseFamily (findAllJobs (self w)) = databaseFamilies env
      /\ map databaseFamily (replicateJobs (self w)) = databaseFamilies env
      /\ forallb childSucceeded (findAllJobs (self w)) = true
      /\ forallb childSucceeded (replicateJobs (self w)) = true
      /\ (forall c, In c (replicateJobs (self w)) ->
                    is_Some (result_chunks (replicaData (self w))
                               !! databaseFamily c))
      /\ (forall family m,
            result_chunks (replicaData (self w)) !! family = Some m ->
            exists c, In c (replicateJobs (self w))
                      /\ databaseFamily c = family /\ chunks c = m))
  /\ (Job.state (job (self w)) = Job.IN_PROGRESS ->
      notifiers w = [] ->
      forallb requestDone (findAllRequests (self w)) = true ->
      forallb childDone (findAllJobs (self w)) = true ->
      forallb childDone (replicateJobs (self w)) = true ->
      findAllJobs (self w) = [] /\ replicateJobs (self w) = []
      /\ (findAllRequests (self w) = [] \/ databaseFamilies env = [])).
Proof.
  intros w.
  assert (H : fanIn env w).
  { apply run_fanIn. unfold fanIn. simpl. split; [constructor|].
    split; [|repeat split; reflexivity].
    intros family m Hm. simpl in Hm. rewrite lookup_empty in Hm.
    discriminate. }
  clearbody w. destruct H as (Hp & Hr & Hst). split; [|split].
  - intros Fin. unfold Job.finished in Fin.
    destruct (Job.state (job (self w))); try discriminate.
    destruct Hst as (h1 & h2 & h3 & _). auto.
  - intros Hs. unfold succeeded in Hs.
    destruct (Job.state (job (self w))) eqn:St; try discriminate.
    destruct Hst as (_ & _ & _ & H).
    destruct H as (h1 & h2 & h3 & h4 & h5);
      [unfold succeeded; rewrite St; exact Hs|].
    repeat split; auto.
    intros family m Hm. destruct (Hr family m Hm) as (j & c & L & Hf & Hc & _).
    exists c. split; [|auto].
    apply list_elem_of_In. eapply list_elem_of_lookup_2; eauto.
  - intros St HN HR HA HP. rewrite St in Hst.
    apply all_counted in HR. apply all_counted in HA. apply all_counted in HP.
    assert (Z0 : forall f : Notifier -> bool, count f [] = 0%nat)
      by reflexivity.
    destruct Hst as [H|[H|H]].
    + destruct H as (h1 & h2 & h3 & h4 & h5 & h6).
      rewrite HN, Z0 in h5. split; [exact h2|]. split; [exact h3|].
      left. apply length_zero_iff_nil. lia.
    + destruct H as (h1 & h2 & h3 & h4 & h5 & h6 & h7 & h8 & h9).
      rewrite HN, Z0 in h7.
      assert (E : findAllJobs (self w) = [])
        by (apply length_zero_iff_nil; lia).
      split; [exact E|]. split; [exact h2|]. right.
      rewrite <- h5, E. reflexivity.
    + destruct H as (h1 & h2 & h3 & h4 & h5 & h6 & h7 & h8 & h9 & h10 & h11 & _).
      rewrite HN, Z0 in h10. lia.
Qed.

End DeleteWorkerJobFanIn.

(** ** The comparison of two replicas *)

Section ReplicaDiffFacts.

Import VerifyJob.

Lemma string_eqb_false (a b : string) : String.eqb a b = false <-> a <> b.
Proof.
  destruct (String.eqb_spec a b); split; intros; congruence.
Qed.

Lemma sameStatus_spec (s1 s2 : ReplicaStatus) :
  sameStatus s1 s2 = true <-> s1 = s2.
Proof.
  destruct s1, s2; simpl; split; intros; congruence.
Qed.

Lemma at_lookup (m : gmap string FileInfo) (name : string) (file : FileInfo) :
  m !! name = Some file -> at_ m name = file.
Proof.
  intros H. unfold at_. rewrite H. reflexivity.
Qed.

Section Loop.

Variables file2info1 file2info2 : gmap string FileInfo.

Let missing := VerifyJob.missing file2info2.
Let differ := VerifyJob.differ file2info1 file2info2.

Lemma loop_keeps (l : list (string * FileInfo)) (d : ReplicaDiff) :
  let d' := fold_left (compareFile file2info1 file2info2) l d in
  replica1 d' = replica1 d /\ replica2 d' = replica2 d
  /\ statusMismatch d' = statusMismatch d
  /\ numFilesMismatch d' = numFilesMismatch d.
Proof.
  revert d. induction l as [|f l IH]; intros d; simpl; [auto|].
  destruct (IH (compareFile file2info1 file2info2 d f)) as (h1 & h2 & h3 & h4).
  rewrite h1, h2, h3, h4. unfold compareFile.
  destruct (file2info2 !! fst f); simpl; auto.
Qed.

Lemma loop_flags (l : list (string * FileInfo)) (d : ReplicaDiff) :
  let d' := fold_left (compareFile file2info1 file2info2) l d in
  fileNamesMismatch d' = fileNamesMismatch d || existsb missing l
  /\ fileSizeMismatch d'
     = fileSizeMismatch d
       || existsb (differ (fun file1 file2 =>
                     negb (size file1 =? size file2)%N)) l
  /\ fileCsMismatch d'
     = fileCsMismatch d
       || existsb (differ (fun file1 file2 =>
                     (negb (String.eqb (cs file1) "")
                      && negb (String.eqb (cs file2) ""))
                     && negb (String.eqb (cs file1) (cs file2)))) l
  /\ fileMtimeMismatch d'
     = fileMtimeMismatch d
       || existsb (differ (fun file1 file2 =>
                     negb (mtime file1 =? mtime file2))) l.
Proof.
  revert d. induction l as [|f l IH]; intros d; simpl.
  - rewrite !orb_false_r. auto.
  - destruct (IH (compareFile file2info1 file2info2 d f)) as (h1 & h2 & h3 & h4).
    rewrite h1, h2, h3, h4. unfold compareFile, missing, differ.
    unfold VerifyJob.missing, VerifyJob.differ.
    destruct (file2info2 !! fst f); simpl;
      rewrite ?orb_assoc, ?orb_false_r, ?orb_true_r; auto.
Qed.

Lemma missing_spec :
  existsb missing (map_to_list file2info1) = true
  <-> exists name, is_Some (file2info1 !! name) /\ file2info2 !! name = None.
Proof.
  rewrite existsb_exists. split.
  - intros ([name file1] & Hin & H). exists name.
    apply list_elem_of_In, elem_of_map_to_list in Hin.
    unfold missing, VerifyJob.missing in H. simpl in H.
    split; [eauto|]. destruct (file2info2 !! name); congruence.
  - intros (name & [file1 H1] & H2). exists (name, file1).
    split; [apply list_elem_of_In, elem_of_map_to_list; exact H1|].
    unfold missing, VerifyJob.missing. simpl. rewrite H2. reflexivity.
Qed.

Lemma differ_spec (test : FileInfo -> FileInfo -> bool) :
  existsb (differ test) (map_to_list file2info1) = true
  <-> exists name file1 file2,
        file2info1 !! name = Some file1 /\ file2info2 !! name = Some file2
        /\ test file1 file2 = true.
Proof.
  rewrite existsb_exists. split.
  - intros ([name file1] & Hin & H). exists name, file1.
    apply list_elem_of_In, elem_of_map_to_list in Hin.
    unfold differ, VerifyJob.differ in H. simpl in H.
    destruct (file2info2 !! name) as [file2|] eqn:E; [|congruence].
    exists file2. rewrite (at_lookup _ _ _ Hin), (at_lookup _ _ _ E) in H. auto.
  - intros (name & file1 & file2 & H1 & H2 & H). exists (name, file1).
    split; [apply list_elem_of_In, elem_of_map_to_list; exact H1|].
    unfold differ, VerifyJob.differ. simpl. rewrite H2.
    rewrite (at_lookup _ _ _ H1), (at_lookup _ _ _ H2). exact H.
Qed.

End Loop.

(** The object the constructor builds for two replicas of one chunk of one
    database, flag by flag. *)
Lemma create_flags (r1 r2 : Replica) :
  ri_database (info r1) = ri_database (info r2) ->
  ri_chunk (info r1) = ri_chunk (info r2) ->
  exists d,
    create r1 r2 = Ok d /\ replica1 d = r1 /\ replica2 d = r2
    /\ notEqual d
       = statusMismatch d || numFilesMismatch d || fileNamesMismatch d
         || fileSizeMismatch d || fileCsMismatch d || fileMtimeMismatch d
    /\ (statusMismatch d = true <-> ri_status (info r1) <> ri_status (info r2))
    /\ (numFilesMismatch d = true <-> numFiles r1 <> numFiles r2)
    /\ (fileNamesMismatch d = true
        <-> exists name,
              is_Some (fileInfoMap r1 !! name) /\ fileInfoMap r2 !! name = None)
    /\ (fileSizeMismatch d = true
        <-> exists name file1 file2,
              fileInfoMap r1 !! name = Some file1
              /\ fileInfoMap r2 !! name = Some file2
              /\ size file1 <> size file2)
    /\ (fileCsMismatch d = true
        <-> exists name file1 file2,
              fileInfoMap r1 !! name = Some file1
              /\ fileInfoMap r2 !! name = Some file2
              /\ cs file1 <> "" /\ cs file2 <> "" /\ cs file1 <> cs file2)
    /\ (fileMtimeMismatch d = true
        <-> exists name file1 file2,
              fileInfoMap r1 !! name = Some file1
              /\ fileInfoMap r2 !! name = Some file2
              /\ mtime file1 <> mtime file2).
Proof.
  intros Hd Hc. unfold create.
  rewrite Hd, Hc, String.eqb_refl, N.eqb_refl. simpl.
  set (d0 := mkReplicaDiff r1 r2 false _ _ false false false false).
  destruct (loop_keeps (fileInfoMap r1) (fileInfoMap r2)
              (map_to_list (fileInfoMap r1)) d0) as (k1 & k2 & k3 & k4).
  destruct (loop_flags (fileInfoMap r1) (fileInfoMap r2)
              (map_to_list (fileInfoMap r1)) d0) as (f1 & f2 & f3 & f4).
  simpl in k1, k2, k3, k4, f1, f2, f3, f4.
  eexists. split; [reflexivity|]. simpl.
  split; [exact k1|]. split; [exact k2|]. split; [reflexivity|].
  rewrite k3, k4, f1, f2, f3, f4.
  split.
  { rewrite negb_true_iff, <- not_true_iff_false, sameStatus_spec. tauto. }
  split.
  { rewrite negb_true_iff, Nat.eqb_neq. tauto. }
  split; [apply missing_spec|].
  split.
  { rewrite differ_spec. split.
    - intros (name & file1 & file2 & H1 & H2 & H). exists name, file1, file2.
      rewrite negb_true_iff, N.eqb_neq in H. auto.
    - intros (name & file1 & file2 & H1 & H2 & H). exists name, file1, file2.
      rewrite negb_true_iff, N.eqb_neq. auto. }
  split.
  { rewrite differ_spec. split.
    - intros (name & file1 & file2 & H1 & H2 & H). exists name, file1, file2.
      rewrite !andb_true_iff, !negb_true_iff, !string_eqb_false in H. tauto.
    - intros (name & file1 & file2 & H1 & H2 & H). exists name, file1, file2.
      rewrite !andb_true_iff, !negb_true_iff, !string_eqb_false. tauto. }
  rewrite differ_spec. split.
  - intros (name & file1 & file2 & H1 & H2 & H). exists name, file1, file2.
    rewrite negb_true_iff, Z.eqb_neq in H. auto.
  - intros (name & file1 & file2 & H1 & H2 & H). exists name, file1, file2.
    rewrite negb_true_iff, Z.eqb_neq. auto.
Qed.

Lemma agree_dec (file1 file2 : FileInfo) :
  agree file1 file2
  \/ size file1 <> size file2
  \/ (cs file1 <> "" /\ cs file2 <> "" /\ cs file1 <> cs file2)
  \/ mtime file1 <> mtime file2.
Proof.
  unfold agree.
  destruct (N.eq_dec (size file1) (size file2)); [|tauto].
  destruct (Z.eq_dec (mtime file1) (mtime file2)); [|tauto].
  destruct (String.string_dec (cs file1) (cs file2)); [tauto|].
  destruct (String.string_dec (cs file1) ""); [tauto|].
  destruct (String.string_dec (cs file2) ""); tauto.
Qed.

(** The two replicas are found equal when they have the same status and the
    same number of entries, and every file of the first one is a file of the
    second one with an entry that agrees. *)
Lemma verdict (r1 r2 : Replica) (d : ReplicaDiff) :
  create r1 r2 = Ok d ->
  notEqual d = false
  <-> ri_status (info r1) = ri_status (info r2)
      /\ numFiles r1 = numFiles r2
      /\ forall name file1,
           fileInfoMap r1 !! name = Some file1 ->
           exists file2,
             fileInfoMap r2 !! name = Some file2 /\ agree file1 file2.
Proof.
  intros H.
  assert (Hk : ri_database (info r1) = ri_database (info r2)
               /\ ri_chunk (info r1) = ri_chunk (info r2)).
  { unfold create in H.
    destruct (String.eqb_spec (ri_database (info r1)) (ri_database (info r2)));
      [|discriminate].
    destruct (N.eqb_spec (ri_chunk (info r1)) (ri_chunk (info r2)));
      [auto|discriminate]. }
  destruct Hk as [Hd Hc].
  destruct (create_flags r1 r2 Hd Hc)
    as (d' & E & _ & _ & Hn & Hs & Hf & Hm & Hz & Hcs & Ht).
  rewrite E in H. inversion H; subst d'. clear H E.
  rewrite Hn, !orb_false_iff, <- !not_true_iff_false.
  rewrite Hs, Hf, Hm, Hz, Hcs, Ht. split.
  - intros (((((a & b) & c) & e) & f) & g).
    split; [destruct (ri_status (info r1)), (ri_status (info r2));
            congruence || (exfalso; apply a; discriminate)|].
    split; [lia|].
    intros name file1 H1.
    destruct (fileInfoMap r2 !! name) as [file2|] eqn:H2;
      [|exfalso; apply c; exists name; eauto].
    exists file2. split; [reflexivity|].
    destruct (agree_dec file1 file2) as [A|[A|[A|A]]]; [exact A| | |];
      exfalso; [apply e|apply f|apply g]; exists name, file1, file2; auto.
  - intros (a & b & c). repeat split.
    + congruence.
    + congruence.
    + intros (name & [file1 H1] & H2).
      destruct (c name file1 H1) as (file2 & H2' & _). congruence.
    + intros (name & file1 & file2 & H1 & H2 & A).
      destruct (c name file1 H1) as (file2' & H2' & A').
      rewrite H2 in H2'. inversion H2'; subst. apply A, A'.
    + intros (name & file1 & file2 & H1 & H2 & A1 & A2 & A).
      destruct (c name file1 H1) as (file2' & H2' & A').
      rewrite H2 in H2'. inversion H2'; subst. apply A, A'; auto.
    + intros (name & file1 & file2 & H1 & H2 & A).
      destruct (c name file1 H1) as (file2' & H2' & A').
      rewrite H2 in H2'. inversion H2'; subst. apply A, A'.
Qed.

(** X27. [ReplicaDiff(replica1, replica2)] throws [std::invalid_argument]
    exactly when the two replicas are of different databases or chunks.
    Otherwise it keeps the two replicas and raises each flag exactly when the
    mismatch of its name exists: of the status, of the number of entries, a
    file of the first replica the second one does not have, and a file of
    both with entries of different sizes, of different modification times,
    or of different control sums none of which is empty.  The replicas are
    reported as different exactly when some flag is raised, and
    [flags2string] says EQUAL exactly when none is. *)
Theorem replica_diff_flags (r1 r2 : Replica) :
  (create r1 r2 = Throw invalid_argument
   <-> ri_database (info r1) <> ri_database (info r2)
       \/ ri_chunk (info r1) <> ri_chunk (info r2))
  /\ (ri_database (info r1) = ri_database (info r2)
      /\ ri_chunk (info r1) = ri_chunk (info r2) ->
      exists d,
        create r1 r2 = Ok d /\ replica1 d = r1 /\ replica2 d = r2
        /\ notEqual d
           = statusMismatch d || numFilesMismatch d || fileNamesMismatch d
             || fileSizeMismatch d || fileCsMismatch d || fileMtimeMismatch d
        /\ (flags2string d = "EQUAL" <-> notEqual d = false)
        /\ (statusMismatch d = true
            <-> ri_status (info r1) <> ri_status (info r2))
        /\ (numFilesMismatch d = true <-> numFiles r1 <> numFiles r2)
        /\ (fileNamesMismatch d = true
            <-> exists name,
                  is_Some (fileInfoMap r1 !! name)
                  /\ fileInfoMap r2 !! name = None)
        /\ (fileSizeMismatch d = true
            <-> exists name file1 file2,
                  fileInfoMap r1 !! name = Some file1
                  /\ fileInfoMap r2 !! name = Some file2
                  /\ size file1 <> size file2)
        /\ (fileCsMismatch d = true
            <-> exists name file1 file2,
                  fileInfoMap r1 !! name = Some file1
                  /\ fileInfoMap r2 !! name = Some file2
                  /\ cs file1 <> "" /\ cs file2 <> ""
                  /\ cs file1 <> cs file2)
        /\ (fileMtimeMismatch d = true
            <-> exists name file1 file2,
                  fileInfoMap r1 !! name = Some file1
                  /\ fileInfoMap r2 !! name = Some file2
                  /\ mtime file1 <> mtime file2)).
Proof.
  split.
  - unfold create.
    destruct (String.eqb_spec (ri_database (info r1)) (ri_database (info r2)));
      destruct (N.eqb_spec (ri_chunk (info r1)) (ri_chunk (info r2)));
      simpl; split; intros H; try tauto; try discriminate.
  - intros [Hd Hc].
    destruct (create_flags r1 r2 Hd Hc)
      as (d & E & e1 & e2 & Hn & Hs & Hf & Hm & Hz & Hcs & Ht).
    exists d. repeat (split; [assumption|]).
    split; [|tauto].
    unfold flags2string. destruct (notEqual d); split; intros H;
      try reflexivity; try discriminate H.
Qed.

(** X28. When neither replica lists a file name twice, so that each has as
    many entries as its map has names, the order of the two arguments does
    not change the verdict: [ReplicaDiff(replica2, replica1)] is built
    whenever [ReplicaDiff(replica1, replica2)] is, and reports a difference
    exactly when that one does, although the loop visits the files of its
    first argument only.  The verdict is that the replicas are equal exactly
    when they have the same status, the same number of entries and, for each
    file of the first one, an entry of the second one of the same size and
    modification time and of the same control sum if both have one. *)
Theorem replica_diff_verdict_is_symmetric (r1 r2 : Replica) (d : ReplicaDiff) :
  numFiles r1 = stdpp.base.size (fileInfoMap r1) ->
  numFiles r2 = stdpp.base.size (fileInfoMap r2) ->
  create r1 r2 = Ok d ->
  (notEqual d = false
   <-> ri_status (info r1) = ri_status (info r2)
       /\ numFiles r1 = numFiles r2
       /\ forall name file1,
            fileInfoMap r1 !! name = Some file1 ->
            exists file2,
              fileInfoMap r2 !! name = Some file2 /\ agree file1 file2)
  /\ exists d',
       create r2 r1 = Ok d' /\ notEqual d' = notEqual d
       /\ isSelf d' = isSelf d.
Proof.
  intros N1 N2 H. split; [apply verdict; exact H|].
  assert (Hk : ri_database (info r1) = ri_database (info r2)
               /\ ri_chunk (info r1) = ri_chunk (info r2)).
  { unfold create in H.
    destruct (String.eqb_spec (ri_database (info r1)) (ri_database (info r2)));
      [|discriminate].
    destruct (N.eqb_spec (ri_chunk (info r1)) (ri_chunk (info r2)));
      [auto|discriminate]. }
  destruct Hk as [Hd Hc].
  destruct (create_flags r2 r1 (eq_sym Hd) (eq_sym Hc))
    as (d' & E & e1 & e2 & _).
  destruct (create_flags r1 r2 Hd Hc) as (d0 & E0 & e3 & e4 & _).
  rewrite H in E0. inversion E0; subst d0. clear E0.
  exists d'. split; [exact E|]. split.
  - assert (Sym : forall a b da db,
               numFiles a = stdpp.base.size (fileInfoMap a) ->
               numFiles b = stdpp.base.size (fileInfoMap b) ->
               create a b = Ok da -> create b a = Ok db ->
               notEqual da = false -> notEqual db = false).
    { clear. intros a b da db Na Nb Ha Hb F.
      apply (verdict a b da Ha) in F. destruct F as (s & n & c).
      apply (verdict b a db Hb). split; [auto|]. split; [auto|].
      assert (Hsub : dom (fileInfoMap a) ⊆ dom (fileInfoMap b)).
      { intros name Hin. apply elem_of_dom in Hin. destruct Hin as [file1 H1].
        destruct (c name file1 H1) as (file2 & H2 & _).
        apply elem_of_dom. eauto. }
      assert (Heq : dom (fileInfoMap a) ≡ dom (fileInfoMap b)).
      { apply set_subseteq_size_equiv; [exact Hsub|].
        rewrite !size_dom. lia. }
      intros name file2 H2.
      assert (Hin : name ∈ dom (fileInfoMap a)).
      { apply Heq, elem_of_dom. eauto. }
      apply elem_of_dom in Hin. destruct Hin as [file1 H1].
      exists file1. split; [exact H1|].
      destruct (c name file1 H1) as (file2' & H2' & A).
      rewrite H2 in H2'. inversion H2'; subst file2'.
      destruct A as (A1 & A2 & A3). unfold agree.
      split; [auto|]. split; [auto|]. intros; symmetry; auto. }
    destruct (notEqual d) eqn:F, (notEqual d') eqn:F'; auto.
    + rewrite (Sym r2 r1 d' d N2 N1 E H F') in F. discriminate.
    + rewrite (Sym r1 r2 d d' N1 N2 H E F) in F'. discriminate.
  - unfold isSelf. rewrite e1, e2, e3, e4. apply String.eqb_sym.
Qed.

End ReplicaDiffFacts.

(** ** Instances of the properties with a precondition *)


Lemma cancelled_request_is_not_notified_witness :
  exists c',
    MessengerConnector.calls answered_then_stop
      (MessengerConnector.cancel "b" (awaiting_a [wrapper_b])) = Ok c'
    /\ MessengerConnector.exists_ "b"
         (MessengerConnector.cancel "b" (awaiting_a [wrapper_b])) = false
    /\ exists more,
         MessengerConnector.notifications c'
         = MessengerConnector.notifications (awaiting_a [wrapper_b]) ++ more
         /\ ~ In "b" (map fst more).
Proof.
  eexists. split; [reflexivity|].
  destruct (cancelled_request_is_not_notified "b" answered_then_stop
              (awaiting_a [wrapper_b]) _ eq_refl) as (H1 & _ & _ & H2).
  - constructor.
  - split; [exact H1|exact H2].
Defined.

Lemma stop_notifies_every_request_witness :
  exists c,
    MessengerConnector.calls two_submitted MessengerConnector.create = Ok c
    /\ MessengerConnector.state (MessengerConnector.stop (fun _ => false) c)
       = MessengerConnector.STATE_INITIAL
    /\ MessengerConnector.notifications
         (MessengerConnector.stop (fun _ => false) c)
       = MessengerConnector.notifications c
         ++ map (MessengerConnector.notice (fun _ => false))
              (MessengerConnector.registered c).
Proof.
  eexists. split; [reflexivity|].
  destruct (stop_notifies_every_request two_submitted _ (fun _ => false) eq_refl)
    as (H1 & _ & _ & H2 & _).
  split; [exact H1|exact H2].
Defined.

Lemma execute_completes_within_ten_calls_witness :
  exists (r' : WorkerRequest.t) (n : nat) (increment : Z) (success : bool),
    WorkerRequest.executeLoop (fun n => 100 + Z.of_nat n) (repeat (1500, true) 10)
      0 fresh_in_progress
    = (r', n, WorkerRequest.Returned true)
    /\ (5 <= n <= 10)%nat
    /\ repeat (1500, true) 10 !! (n - 1)%nat = Some (increment, success)
    /\ WorkerRequest.status r'
       = (if success then WorkerRequest.STATUS_SUCCEEDED
          else WorkerRequest.STATUS_FAILED)
    /\ WorkerRequest.maxDurationMillisec <= WorkerRequest.durationMillisec r'
    /\ WorkerRequest.finish_time (WorkerRequest.performance r')
       = 100 + Z.of_nat (n - 1)%nat.
Proof.
  apply (execute_completes_within_ten_calls (fun n => 100 + Z.of_nat n)
           (repeat (1500, true) 10) fresh_in_progress).
  - reflexivity.
  - reflexivity.
  - simpl. repeat constructor; simpl; lia.
  - simpl. lia.
Defined.

Lemma cancel_in_progress_ends_cancelled_witness :
  exists r1 r2 : WorkerRequest.t,
    WorkerRequest.cancel 6 fresh_in_progress = Ok r1
    /\ WorkerRequest.status r1 = WorkerRequest.STATUS_IS_CANCELLING
    /\ WorkerRequest.execute 7 1500 true r1 = (r2, WorkerRequest.ThrewCancelled)
    /\ WorkerRequest.status r2 = WorkerRequest.STATUS_CANCELLED
    /\ WorkerRequest.execute 8 1500 true r2 = (r2, WorkerRequest.ThrewLogicError).
Proof.
  destruct (cancel_in_progress_ends_cancelled 6 7 8 1500 true fresh_in_progress
              eq_refl)
    as (r1 & r2 & H1 & H2 & _ & H3 & _ & H4 & _ & _ & H5 & _).
  exists r1, r2. repeat split; assumption.
Defined.

Lemma worker_status_reaches_controller_witness :
  exists wire : proto.ReplicationStatus,
    WorkerProcessor.translate WorkerRequest.STATUS_IN_PROGRESS = Ok wire
    /\ wire <> proto.BAD
    /\ (DeleteRequest.status (response_with proto.IN_PROGRESS proto.NONE) = wire ->
        DeleteRequest.outcome (started_request true false)
          (DeleteRequest.analyze true (response_with proto.IN_PROGRESS proto.NONE)
             (started_request true false))
        = DeleteRequest.Rearmed).
Proof.
  exact (worker_status_reaches_controller fresh_in_progress
           (response_with proto.IN_PROGRESS proto.NONE)
           (started_request true false) eq_refl).
Defined.

Lemma cancel_request_in_progress_witness :
  exists (q1 q2 : WorkerProcessor.t) (p1 p2 : WorkerProcessor.Ptr),
    WorkerProcessor.dequeueOrCancelImpl remove_id bound_element 6 "r1"
      one_in_progress
    = (q1, Ok (Some p1))
    /\ WorkerRequest.status (WorkerProcessor.base p1)
       = WorkerRequest.STATUS_IS_CANCELLING
    /\ WorkerProcessor.executeAt 7 1500 true 0 q1
       = (q2, Some (p2, WorkerRequest.ThrewCancelled))
    /\ WorkerRequest.status (WorkerProcessor.base p2)
       = WorkerRequest.STATUS_CANCELLED
    /\ WorkerProcessor.finishedRequests (WorkerProcessor.processingFinished p2 q2)
       = [p2]
    /\ WorkerProcessor.checkStatusImpl "r1"
         (WorkerProcessor.processingFinished p2 q2) = Ok (Some p2).
Proof.
  destruct (cancel_request_in_progress remove_id bound_element 6 7 1500 true
              "r1" one_in_progress 0 deletion_in_progress
              eq_refl eq_refl eq_refl eq_refl)
    as (q1 & q2 & p1 & p2 & H1 & H2 & _ & _ & _ & _ & H3 & H4 & _ & _ & H5 & H6).
  exists q1, q2, p1, p2. repeat split; assumption.
Defined.

Lemma processingFinished_moves_witness :
  WorkerProcessor.inProgressRequests
    (WorkerProcessor.processingFinished deletion_in_progress one_in_progress) = []
  /\ WorkerProcessor.finishedRequests
       (WorkerProcessor.processingFinished deletion_in_progress one_in_progress)
     = [deletion_in_progress].
Proof.
  destruct (processingFinished_moves deletion_in_progress one_in_progress)
    as (_ & _ & H & _).
  - simpl. constructor; [intros H; inversion H|constructor].
  - simpl. constructor.
  - split; [reflexivity|exact H].
Defined.

Lemma fetched_then_refused_witness :
  WorkerProcessor.fetchNextForProcessing top_first pop_first any_range 5 0 []
    one_queued
  = Some (one_queued, Ok None)
  /\ exists (q1 : WorkerProcessor.t) (request : WorkerProcessor.Ptr),
       WorkerProcessor.fetchNextForProcessing top_first pop_first any_range
         5 1000 [] one_queued
       = Some (q1, Ok (Some request))
       /\ WorkerRequest.status (WorkerProcessor.base request)
          = WorkerRequest.STATUS_IN_PROGRESS
       /\ WorkerProcessor.processingRefused WorkerProcessor.push_back 6 request q1
          = Ok one_queued.
Proof.
  destruct (fetched_then_refused WorkerProcessor.push_back top_first pop_first
              any_range 5 6 1000 [] one_queued queued_deletion [])
    as (_ & H0 & q1 & request & H1 & H2 & _ & _ & _ & _ & H3).
  - lia.
  - reflexivity.
  - reflexivity.
  - reflexivity.
  - reflexivity.
  - reflexivity.
  - simpl. intros [].
  - split; [exact (H0 tt eq_refl)|]. exists q1, request.
    repeat split; assumption.
Defined.

Lemma replica_is_saved_once_on_success_witness :
  exists s,
    DeleteRequest.run answered_twice
      (DeleteRequest.create "r1" "db" 7 0 false false 30) = Ok s
    /\ DeleteRequest.succeeded (DeleteRequest.self s) = true
    /\ (length (DeleteRequest.saved (DeleteRequest.self s)) <= 1)%nat
    /\ Request.notified (DeleteRequest.base (DeleteRequest.self s)) = 1%nat.
Proof.
  eexists. split; [reflexivity|]. split; [reflexivity|].
  destruct (replica_is_saved_once_on_success answered_twice "r1" "db" 7 0
              false false 30 _ eq_refl) as (H1 & _ & _ & H2).
  split; [exact H1|exact H2].
Defined.

Lemma status_poll_names_the_duplicate_witness :
  exists s1 : DeleteRequest.Session,
    DeleteRequest.step
      (DeleteRequest.mkSession (started_request true true) 0 [])
      (DeleteRequest.Analyze true duplicate_of_r0) = Ok s1
    /\ DeleteRequest.sent (DeleteRequest.awaken ec_success s1)
       = [("r1", DeleteRequest.RequestStatus "r1" "r0")].
Proof.
  destruct (status_poll_names_the_duplicate duplicate_of_r0
              (DeleteRequest.mkSession (started_request true true) 0 [])
              ec_success eq_refl eq_refl eq_refl eq_refl eq_refl)
    as ((s1 & H1 & _ & _ & H2 & _) & _).
  - discriminate.
  - exists s1. split; [exact H1|exact H2].
Defined.


Lemma find_and_echo_requests_are_queued_witness :
  WorkerProcessor.checkStatusImpl "r3"
    (fst (WorkerProcessor.enqueueForFind WorkerProcessor.push_back
            WorkerProcessor.testFindRequest 6 "r3"
            (WorkerProcessor.mkFindRequest 0 "db" 7 false)
            (WorkerProcessor.mkResponse proto.SUCCESS proto.NONE None None None)
            one_of_each))
  = Ok (Some (WorkerProcessor.create "r3" 0 (WorkerProcessor.Find "db" 7 false)))
  /\ fst (WorkerProcessor.enqueueForEcho WorkerProcessor.push_back
            WorkerProcessor.testEchoRequest 6 "r3"
            (WorkerProcessor.mkEchoRequest 0 "ping" 0)
            (WorkerProcessor.mkEchoResponse
               (WorkerProcessor.mkResponse proto.SUCCESS proto.NONE None None None)
               None)
            one_of_each)
     = one_of_each.
Proof.
  destruct (find_and_echo_requests_are_queued WorkerProcessor.push_back
              WorkerProcessor.testFindRequest WorkerProcessor.testFindAllRequest
              WorkerProcessor.testEchoRequest 6 "r3" one_of_each)
    as (H1 & _ & H2).
  - intros p l. unfold WorkerProcessor.push_back. symmetry.
    apply Permutation_cons_append.
  - reflexivity.
  - split.
    + exact (proj2 (proj2 (proj2 (proj2 (proj2 (proj2
               (H1 (WorkerProcessor.mkFindRequest 0 "db" 7 false)
                   (WorkerProcessor.mkResponse proto.SUCCESS proto.NONE
                      None None None)
                   eq_refl eq_refl))))))).
    + exact (proj1 (H2 (WorkerProcessor.mkEchoRequest 0 "ping" 0)
                      (WorkerProcessor.mkEchoResponse
                         (WorkerProcessor.mkResponse proto.SUCCESS proto.NONE
                            None None None)
                         None))).
Defined.

Lemma job_without_children_never_finishes_witness :
  let w := DeleteWorkerJob.run no_databases
             [ DeleteWorkerJob.Start service_running service_running;
               DeleteWorkerJob.Notify 0;
               DeleteWorkerJob.RequestFinish 0 Request.SUCCESS;
               DeleteWorkerJob.Start service_running service_running ]
             (DeleteWorkerJob.create "j1" "w9" true) in
  Job.state (DeleteWorkerJob.job (DeleteWorkerJob.self w)) = Job.IN_PROGRESS
  /\ DeleteWorkerJob.disableWorkerCalls (DeleteWorkerJob.self w) = []
  /\ DeleteWorkerJob.getReplicaData (DeleteWorkerJob.self w) = Throw logic_error.
Proof.
  destruct (job_without_children_never_finishes no_databases
              [ DeleteWorkerJob.Notify 0;
                DeleteWorkerJob.RequestFinish 0 Request.SUCCESS;
                DeleteWorkerJob.Start service_running service_running ]
              "j1" "w9" true service_running service_running
              eq_refl eq_refl)
    as (H1 & _ & _ & _ & _ & _ & H2 & _ & H3).
  split; [exact H1|]. split; [exact H2|exact H3].
Defined.

(** A job that goes through the three stages: it succeeds, the worker is
    disabled once and deleted once, the chunk 7 is replicated and the chunk
    8 is an orphan. *)
Lemma deletion_goes_through_three_stages :
  let w := DeleteWorkerJob.run one_family deletion_succeeds
             (DeleteWorkerJob.create "j1" "w9" true) in
  DeleteWorkerJob.succeeded (DeleteWorkerJob.job (DeleteWorkerJob.self w)) = true
  /\ DeleteWorkerJob.disableWorkerCalls (DeleteWorkerJob.self w) = ["w9"]
  /\ DeleteWorkerJob.deleteWorkerCalls (DeleteWorkerJob.self w) = ["w9"]
  /\ DeleteWorkerJob.notifiers w = []
  /\ DeleteWorkerJob.orphan 7 "d1"
       (DeleteWorkerJob.orphanChunks
          (DeleteWorkerJob.replicaData (DeleteWorkerJob.self w))) = None
  /\ DeleteWorkerJob.orphan 8 "d1"
       (DeleteWorkerJob.orphanChunks
          (DeleteWorkerJob.replicaData (DeleteWorkerJob.self w)))
     = Some (replica_of 8).
Proof. vm_compute. repeat split; reflexivity. Qed.

Lemma worker_is_deleted_only_on_success_witness :
  DeleteWorkerJob.deleteWorkerCalls
    (DeleteWorkerJob.self
       (DeleteWorkerJob.run one_family deletion_succeeds
          (DeleteWorkerJob.create "j1" "w9" true)))
  = ["w9"]
  /\ DeleteWorkerJob.deleteWorkerCalls
       (DeleteWorkerJob.self
          (DeleteWorkerJob.run one_family
             (deletion_succeeds ++ [DeleteWorkerJob.JobCancel])
             (DeleteWorkerJob.create "j1" "w9" false)))
     = [].
Proof.
  split.
  - exact (proj1 (worker_is_deleted_only_on_success one_family deletion_succeeds
                    "j1" "w9" true)).
  - exact (proj1 (worker_is_deleted_only_on_success one_family
                    (deletion_succeeds ++ [DeleteWorkerJob.JobCancel])
                    "j1" "w9" false)).
Defined.

Lemma job_fans_in_witness :
  map DeleteWorkerJob.databaseFamily
    (DeleteWorkerJob.replicateJobs
       (DeleteWorkerJob.self
          (DeleteWorkerJob.run one_family deletion_succeeds
             (DeleteWorkerJob.create "j1" "w9" true))))
  = ["F"]
  /\ forallb DeleteWorkerJob.childSucceeded
       (DeleteWorkerJob.replicateJobs
          (DeleteWorkerJob.self
             (DeleteWorkerJob.run one_family deletion_succeeds
                (DeleteWorkerJob.create "j1" "w9" true))))
     = true.
Proof.
  destruct (proj1 (proj2 (job_fans_in one_family deletion_succeeds
                            "j1" "w9" true)) eq_refl)
    as (_ & H1 & _ & H2 & _).
  split; [exact H1|exact H2].
Defined.

Lemma replica_diff_verdict_is_symmetric_witness :
  exists d d',
    VerifyJob.create replica_on_w1 replica_on_w2 = Ok d
    /\ VerifyJob.create replica_on_w2 replica_on_w1 = Ok d'
    /\ VerifyJob.notEqual d = true
    /\ VerifyJob.notEqual d' = VerifyJob.notEqual d.
Proof.
  eexists.
  destruct (replica_diff_verdict_is_symmetric replica_on_w1 replica_on_w2 _
              eq_refl eq_refl ltac:(vm_compute; reflexivity))
    as [_ (d' & E & F & _)].
  exists d'. split; [vm_compute; reflexivity|].
  split; [exact E|]. split; [reflexivity|exact F].
Defined.
